(* ===== verification/_CoqProject ===== *)
-Q . S2P
Prelude.v
Enum.v
Util.v
RefPtr.v
Factory.v
Scoreboard.v
Model.v
Pins.v
Elements.v
Graph.v
GraphInv.v
GraphOps.v
GraphBuild.v
GraphConnect.v
GraphClear.v
Ordering.v
GraphEq.v
Lifecycle.v
Frame.v
Notifications.v
Scheduler.v
StartStop.v
StopProof.v
StartProof.v
StartTheorems.v
StartFailures.v
ScheduleProof.v
Typing.v
Construction.v
Editor.v
EditorProof.v
EditorTheorems.v
CvMat.v
Loader.v
LoaderProof.v
LoaderElements.v
LoaderTheorems.v
Persistence.v
Document.v
DocumentProof.v
DocumentTheorems.v
Examples.v
LoaderExamples.v
Witnesses.v
MatStream.v
Framing.v
ServerConnection.v
TCPClientProducer.v
TCPServer.v
TcpClientProof.v
TcpServerProof.v
TcpLink.v
TcpLinkSteps.v
TcpTheorems.v
TcpErrors.v
TcpExamples.v
Matrix.v
Munkres.v
MunkresProof.v
MunkresTheorem.v
BlobTracker.v
BlobTheorems.v
Camera.v
CameraTheorems.v
ImageElements.v
ImageTheorems.v
Kinect.v
KinectProof.v
SaveImage.v
SaveTheorems.v
ImageConverter.v
ImageConverterProof.v
Filters.v
Detectors.v
FiltersProof.v
DetectorsProof.v
Inspector.v
InspectorProof.v
InspectorElements.v
Viewers.v
