(* ===== verification/Prelude.v ===== *)
(** * ParleVision: the pipeline engine, its persistence, its editor, and elements that run on it

    ParleVision runs image processing pipelines.  A pipeline is a graph of
    elements: producers bring in data, processors work on it, and pins on both
    are joined by connections, which are queues of data items with serial
    numbers.  A heartbeat calls Pipeline::schedule, which hands elements that
    are ready to a thread pool and starts a new frame when every producer is
    ready for it.  Elements come from plug-ins through a registry of classes,
    and a pipeline is saved to XML and loaded again.

    This file is the prelude: machine integers, outcomes, the state-and-error
    monad, its Hoare triples and tactics, and lemmas on lists, maps and loops
    that all other files use.

    ** The files and what they model (paths under src/src unless said otherwise)

    The pipeline engine, plvcore:
    - Model: the heap of objects (data items, connections, pins, elements, the
      pipeline).  Every C++ object is a cell addressed by a pointer, so that a
      connection seen from both pins and from the pipeline is one object.
    - Scoreboard: class ScoreBoard of include/plvcore/DataConsumer.h.
    - Pins: PinConnection.cpp, IInputPin.cpp, IOutputPin.cpp, DynamicInputPin.h,
      and the arrival of data at a consumer and at the pipeline.
    - Elements: PipelineElement.cpp, DataProducer.cpp, DataConsumer.cpp,
      PipelineProducer.cpp, PipelineProcessor.cpp.  Plug-in code is a [Prog], a
      tree of pin calls that ends in a result or an exception; the theorems
      hold for every such program.
    - Graph, Ordering, Lifecycle: Pipeline.cpp (editing; the visit of the graph
      and its ordering, over the depth-first algorithm on an abstract graph; init, start, stop,
      schedule, error slots).
    - Construction: constructors and the create...Pin functions.
    - Typing: InputPin<T>::get with its conversion, over the schedule.
    - CvMat: CvMatDataPin.cpp and the part of CvMatData.cpp it needs.
    - Enum, Util, RefPtr, Factory: the files of the same names.
    - Loader: PipelineLoader.cpp, and load, save and saveAs of Pipeline.cpp,
      over a model of QDomDocument.

    The editor, plvgui:
    - Editor: PipelineScene.cpp with the widgets and lines it shows
      (PipelineElementWidget.cpp, PinWidget.h, ConnectionLine.cpp,
      InteractiveLine.cpp); its slots run on what the pipeline emits.
    - Document: MainWindow.cpp, the document of the main window: actions,
      title, recent files, messages, opening, saving and closing.
    - Inspector: InspectorWidget.cpp, ElementConfigFormBuilder.cpp and utils.cpp,
      the form of the selected element, over any elements with a meta object
      ([MetaObject]); InspectorElements: the properties of nine elements of
      plvopencv as their headers declare them, with what their setters emit.
    - ImageConverter: ImageConverter.cpp, from a matrix to an image; Viewers: the
      viewers of the window, RendererFactory.cpp and the two renderers of
      images, whose conversions run in the thread pool.

    The TCP elements, plvtcpserver:
    - MatStream (its first part): Proto.h; Framing: the receiving loop that server and client share,
      as a class [Receiver] with its laws, of which both are instances.
    - ServerConnection: ServerConnection.cpp; TCPClientProducer:
      TCPClientProducer.cpp; TCPServer: Server.cpp, TCPServerProcessor.cpp and
      plvcore/DynamicInputPin.cpp; TcpLink: a connection and its client with
      the bytes on their way, as a step relation.

    The blob tracker, plvblobtracker:
    - Matrix: matrix.cpp; Munkres: munkres.cpp; BlobTracker: Blob.cpp,
      BlobTrack.cpp, BlobTracker.cpp, BlobDetector.cpp.

    Cameras and images, plvopencv:
    - Camera: OpenCVCamera.cpp and CameraProducer.cpp, two threads whose steps
      interleave; a step is one access to a mutex, the condition, the state or
      the capture device.
    - MatStream: the stream operators of plvcore/CvMatData.cpp, Crop.cpp,
      CropSubImage.cpp.
    - ImageElements: Trigger.cpp, DelayImage.cpp, Snapshot.cpp, Average.cpp,
      Stitch.cpp, ImageDirectoryProducer.cpp, and the parts of
      GaussianSmooth.cpp and VideoProducer.cpp with a logic of their own.
    - SaveImage: SaveImageToFile.cpp and ImageProducer.cpp.
    - Filters: the filters that check formats and hand their parameters to a
      function of OpenCV; Detectors: RunningAverage.cpp,
      BackgroundSubtractor.cpp, ForegroundDetector.cpp, the face detector.

    The Kinect elements, plvmskinect:
    - Kinect: mskinectdevice.cpp with its thread, mskinectproducer.cpp,
      kinectthreshold.cpp.

    An operation of the code is the definition of the same name; where two
    classes share a name the definition carries the class ([conn_], [ip_],
    [op_], [el_], [client_], [server_], [cvmat_], [rc_] and [rp_], [mat_]).  An
    operation on shared state is a function in [M S]: it takes the state and
    gives an [outcome] and the state it leaves behind, so that what a call that
    throws or fails an assertion has changed is part of the result.

    ** What the theorems show

    - The graph (GraphInv, GraphOps, GraphBuild, GraphConnect, GraphClear):
      every editing operation keeps the well-formedness invariant and does
      exactly what it says; a refused connection throws the right exception and
      changes nothing; canConnectPins predicts connectPins.
    - Ordering: generateGraphOrdering answers true exactly on acyclic graphs,
      and then the order is topological.
    - Starting and stopping (StartStop, StartProof, StartTheorems,
      StartFailures, StopProof): start establishes the running invariant, stop
      ends and takes everything back; what each failing path leaves behind.
    - Running (Frame, GraphEq, Scheduler, ScheduleProof): from a started
      pipeline every interleaving of ticks and jobs keeps the invariant, so that
      no assertion of the scheduler fails; what one tick does; an error stops
      the pipeline.
    - Typing: what a typed pin reads has its type.
    - Notifications: whoever replays the signals of the pipeline has its tables.
    - Persistence (LoaderProof, LoaderElements, LoaderTheorems, Persistence):
      what was saved is loaded again, with classes, ids, pins, links,
      properties; loading any file at all is safe; edits that are not saved.
    - The editor (EditorProof, EditorTheorems): after any gestures the canvas
      shows the pipeline; the selection whose deletion crashes.  The main
      window (DocumentProof, DocumentTheorems): after any actions what it shows
      fits its pipeline; what saving and closing lose.  The invariants are kept
      action by action, and lifted to sessions by one induction.
    - The inspector (InspectorProof, against [MetaLaws]; InspectorElements
      discharges them): editors and setters that call each other come to an
      end, and agree when no notification waits; where they do not agree.
      Viewers: a renderer is a machine with one place; what blocks it.
    - The small components carry their theorems: Scoreboard, Enum (refinement of
      a list of named items, round trip by name), Util, RefPtr (the count is the
      number of holders), Factory, CvMat, Construction.
    - TCP (TcpClientProof, TcpServerProof, TcpLink, TcpLinkSteps, TcpTheorems,
      TcpErrors): for every order of events and every way the bytes
      are cut up the client gets the frames in order, each once; from every
      reachable state the queue drains when writes succeed; the receiving loops
      return on any bytes; what desynchronises them.
    - Blob tracker (MunkresProof, MunkresTheorem, BlobTheorems): the solver ends
      with a complete assignment, a cheapest one when no cost is negative; the
      bounds that runs of the tracker keep; where the tracker does not do what
      it is for.
    - Camera and Kinect (CameraTheorems, KinectProof): no interleaving uses a
      closed device; the interleavings that deadlock, lose a wake-up, fail an
      assertion or leave a thread behind.  Images (MatStream, ImageTheorems,
      SaveTheorems, ImageConverterProof): copying stays within both images,
      matrices survive the stream unless they are parts of others, what delays
      and averages amount to, images are saved under names of their own, a
      matrix is shown as its elements say.  Filters (FiltersProof,
      DetectorsProof): OpenCV is called with parameters it accepts; the
      background subtractor refines a specification of its background.
    - Examples, LoaderExamples, TcpExamples, DetectorsProof and Witnesses apply
      the theorems to concrete pipelines, documents, streams and images.

    ** Parameters

    Code that is not in the repository enters as classes and arguments:
    [HashOrder] (the iteration order of QHash, any permutation), [QMetaType],
    [QtCore] and [Plugins] (variants, numbers and documents as text, what the
    element constructors do), [DataStream] and [SocketLib] (QDataStream,
    QTcpSocket), [OpenCV], [OpenCVContours], [CvMatLib], [CvSum] and [HighGui]
    (OpenCV), [CvFilters], [CvBackgroundModels] and [CvHaar] (what its filters,
    models and detectors compute), [ImageFiles] (images on disk),
    [QtConversions] (QVariant between types), [NuiSdk] (the Kinect SDK),
    [BorderTypes], [SpinRounding] (how a spin box rounds), [Behaviour] (plug-in
    code).  Laws of theirs are separate
    classes or hypotheses, which the example files discharge at concrete
    instances.

    ** Bounds and fuel

    - [unsigned int] and [int] are integers with their wrap-around written out
      ([u32], [i32]); serials, ids and counters wrap as in the code.
    - [visit] of the ordering takes one more than the number of elements as
      fuel: a path longer than that meets an element twice.
    - [next_pin_id] takes the number of pins: after so many ids in use the next
      one is free.
    - [stop_wait] takes the number of rounds the pool needs; that the jobs in
      the pool end is the only assumption, and the bound is their number.
    - [read_loop] takes one more than the number of bytes available: every
      message uses up at least the four bytes of its size.  [send_loop] takes
      the bytes left plus the frames queued, [skip_bytes] the number of pieces.
    - [solve_fuel]: before the next star at most as many zeros are primed as
      there are rows, each after one search in vain and one adjustment;
      [build_seq] adds a new cell each round.
    - [set_editor] takes three calls: the one that is delivered, the one that
      answers with what was stored, and the one that finds it shown.
    - Running out of fuel is the outcome [OutOfFuel]; the theorems show that it
      does not happen.
    - Costs of assignments are integers: a [double] adds, subtracts and compares
      integers below 2^53 exactly.

    ** Simplifications and what is not modelled

    - Threads: in the pipeline a job of the pool runs as one step, and so does a
      slot; its mutexes are left out, and so are the deadlocks and races they are
      for.  The camera is modelled with its mutexes; a waiting thread only wakes
      up when it is woken.
    - Reference counting is modelled by itself (RefPtr); elsewhere objects live
      as long as something refers to them.
    - setProperty emits a signal that only the editor listens to; signals are
      recorded in the order of emission.  The slots of the scene and of the
      window run at the end of the call that emits: they read nothing that the
      rest of the call changes.  The scene and the window are modelled apart;
      the window takes the edits as calls of the pipeline.
    - A load reads a document; reading a file and parsing XML is Qt's.
    - In the inspector a setter emits as its last statement, and the mutex of the
      properties, which is recursive, is left out: a setter that is called again
      from its own signal does not wait.
    - Not modelled: what only draws, prints or lays out (painting, the
      library and log windows of plvgui, the renderers of
      rectangles and text, skeletondataviewer.cpp); plvconsole and parlevision/main.cpp,
      Application.cpp and Plugin.cpp (start-up and shared libraries); Mask.cpp,
      PixelSum.cpp, ImageLoader.cpp and ExampleProcessor.cpp of plvopencv (a
      single call of OpenCV, or code that depends on when a matrix is assigned
      in place); the slot kinectFinished (it names a state the core does not
      have); the network session of the server; plvtest, plvpluginexample, and
      the logger vendored from libQxt. *)
From Stdlib Require Import Ascii.
From stdpp Require Export base gmap strings list fin_maps sorting.
From stdpp Require Import options.
#[global] Set Default Proof Using "Type".

Open Scope Z_scope.

(** ** Machine integers *)

(** C++ [unsigned int] / [quint32] arithmetic: values modulo 2^32. *)
Definition u32 (z : Z) : Z := z mod 2 ^ 32.

(** Conversion to a 32 bit two's complement [int]. *)
Definition i32 (z : Z) : Z := (z + 2 ^ 31) mod 2 ^ 32 - 2 ^ 31.

Lemma u32_id z : 0 ≤ z < 2 ^ 32 → u32 z = z.
Proof. intros. apply Z.mod_small. lia. Qed.

Lemma u32_range z : 0 ≤ u32 z < 2 ^ 32.
Proof. apply Z.mod_pos_bound. lia. Qed.

Lemma i32_id z : - 2 ^ 31 ≤ z < 2 ^ 31 → i32 z = z.
Proof. intros. unfold i32. rewrite Z.mod_small; lia. Qed.

Lemma i32_range z : - 2 ^ 31 ≤ i32 z < 2 ^ 31.
Proof. unfold i32. pose proof (Z.mod_pos_bound (z + 2 ^ 31) (2 ^ 32)). lia. Qed.

(** ** Outcomes of C++ calls *)

(** The exception classes that cross the calls of the core
    (PlvExceptions.h, PinConnection.h, plvgui/Exceptions.h and what
    [PipelineElement::run] catches). *)
Inductive exn :=
  | RuntimeError (msg : string)
  | PlvException (msg : string)
  | IllegalArgumentException (msg : string)
  | IllegalConnectionException (msg : string)
  | IncompatibleTypeException (msg : string)
  | DuplicateConnectionException (msg : string)
  | CvException (msg : string)
  | StdRuntimeError (msg : string)
  | NonFatalException (msg : string)
  | UnknownException.

(** Ways in which a call does not return at all: a failed [assert] (the
    development models the build with assertions), a null or dangling pointer,
    an index out of range, an exception leaving a [throw()] function, or
    behaviour the language leaves undefined, a recursion deeper than the bound
    given to its model ([StackOverflow]), a waiting loop that takes more rounds
    than the bound given to its model ([OutOfFuel]). *)
Inductive fault :=
  | AssertFailed
  | NullPointer
  | OutOfRange
  | UnexpectedException
  | UndefinedBehaviour
  | StackOverflow
  | OutOfFuel.

Inductive outcome (A : Type) :=
  | Ok (a : A)
  | Throw (e : exn)
  | Abort (f : fault).
Arguments Ok {A} _.
Arguments Throw {A} _.
Arguments Abort {A} _.

#[export] Instance exn_eq_dec : EqDecision exn.
Proof. solve_decision. Defined.
#[export] Instance fault_eq_dec : EqDecision fault.
Proof. solve_decision. Defined.
#[export] Instance outcome_eq_dec `{EqDecision A} : EqDecision (outcome A).
Proof. solve_decision. Defined.

(** Calls that change nothing are composed as outcomes. *)
#[export] Instance outcome_ret : MRet outcome := λ A a, Ok a.
#[export] Instance outcome_bind : MBind outcome := λ A B f x,
  match x with Ok a => f a | Throw e => Throw e | Abort e => Abort e end.

(** ** The effect monad

    A call reads and writes the heap [S]; an exception does not undo the
    writes made before it was thrown. *)
Definition M (S A : Type) : Type := S → outcome A * S.

#[export] Instance M_ret {S} : MRet (M S) := λ A a s, (Ok a, s).
#[export] Instance M_bind {S} : MBind (M S) := λ A B f m s,
  match m s with
  | (Ok a, s') => f a s'
  | (Throw e, s') => (Throw e, s')
  | (Abort x, s') => (Abort x, s')
  end.

Definition throw {S A} (e : exn) : M S A := λ s, (Throw e, s).
Definition abort {S A} (f : fault) : M S A := λ s, (Abort f, s).
Definition gets {S A} (f : S → A) : M S A := λ s, (Ok (f s), s).
Definition modify {S} (f : S → S) : M S unit := λ s, (Ok tt, f s).

(** [assert( b )] *)
Definition assert {S} (b : bool) : M S unit :=
  if b then mret tt else abort AssertFailed.

(** [try { m } catch (...) { h e }] *)
Definition try_catch {S A} (m : M S A) (h : exn → M S A) : M S A := λ s,
  match m s with
  | (Throw e, s') => h e s'
  | r => r
  end.

Definition when {S} (b : bool) (m : M S unit) : M S unit :=
  if b then m else mret tt.

(** [for( x in l ) body x] *)
Fixpoint for_each {S A} (l : list A) (body : A → M S unit) : M S unit :=
  match l with
  | [] => mret tt
  | x :: l' => body x ;; for_each l' body
  end.

(** A loop whose body may leave the enclosing function early with a value:
    [Some r] is [return r]. *)
Fixpoint for_return {S A R} (l : list A) (body : A → M S (option R)) : M S (option R) :=
  match l with
  | [] => mret None
  | x :: l' =>
      r ← body x ;
      match r with
      | Some v => mret (Some v)
      | None => for_return l' body
      end
  end.

(** Running a sequence: rewrite with the outcome of its first call. *)
Lemma run_bind {S A B} (m : M S A) (f : A → M S B) s a s' :
  m s = (Ok a, s') → (m ≫= f) s = f a s'.
Proof. intros H. unfold mbind, M_bind. by rewrite H. Qed.
Lemma run_bind_throw {S A B} (m : M S A) (f : A → M S B) s e s' :
  m s = (Throw e, s') → (m ≫= f) s = (Throw e, s').
Proof. intros H. unfold mbind, M_bind. by rewrite H. Qed.
Lemma run_bind_abort {S A B} (m : M S A) (f : A → M S B) s x s' :
  m s = (Abort x, s') → (m ≫= f) s = (Abort x, s').
Proof. intros H. unfold mbind, M_bind. by rewrite H. Qed.

(** ** Weakest preconditions *)
Definition wp {S A} (m : M S A) (Q : outcome A → S → Prop) (s : S) : Prop :=
  Q (m s).1 (m s).2.

(** Total correctness: the call returns normally and its result satisfies [Q]. *)
Definition wpr {S A} (m : M S A) (Q : A → S → Prop) (s : S) : Prop :=
  wp m (λ o s', ∃ a, o = Ok a ∧ Q a s') s.

Section wp.
Context {S : Type}.
Implicit Types s : S.

Lemma wpr_elim {A} (m : M S A) Q s :
  wpr m Q s → ∃ a s', m s = (Ok a, s') ∧ Q a s'.
Proof.
  unfold wpr, wp. destruct (m s) as [o s']; cbn.
  intros (a & -> & HQ). eauto.
Qed.

Lemma wpr_intro {A} (m : M S A) (Q : A → S → Prop) s a s' :
  m s = (Ok a, s') → Q a s' → wpr m Q s.
Proof. intros H HQ. unfold wpr, wp. rewrite H; cbn. eauto. Qed.

Lemma wpr_ret {A} (a : A) (Q : A → S → Prop) s : Q a s → wpr (mret a) Q s.
Proof. intros. eapply wpr_intro; [reflexivity|done]. Qed.

Lemma wpr_bind {A B} (m : M S A) (f : A → M S B) Q s :
  wpr m (λ a s', wpr (f a) Q s') s → wpr (m ≫= f) Q s.
Proof.
  intros (a & s' & Hm & Hf)%wpr_elim.
  apply wpr_elim in Hf as (b & s'' & Hf & HQ).
  eapply (wpr_intro _ _ _ b s''); [|done].
  unfold mbind, M_bind. by rewrite Hm.
Qed.

Lemma wpr_mono {A} (m : M S A) (Q Q' : A → S → Prop) s :
  (∀ a s', Q a s' → Q' a s') → wpr m Q s → wpr m Q' s.
Proof.
  intros HQ (a & s' & Hm & H)%wpr_elim. eapply wpr_intro; eauto.
Qed.

Lemma wpr_gets {A} (f : S → A) (Q : A → S → Prop) s : Q (f s) s → wpr (gets f) Q s.
Proof. intros. eapply wpr_intro; [reflexivity|done]. Qed.

Lemma wpr_modify (f : S → S) (Q : unit → S → Prop) s : Q tt (f s) → wpr (modify f) Q s.
Proof. intros. eapply wpr_intro; [reflexivity|done]. Qed.

Lemma wpr_assert b (Q : unit → S → Prop) s :
  b = true → Q tt s → wpr (assert b) Q s.
Proof. intros ->. apply wpr_ret. Qed.

Lemma wpr_when (b : bool) m (Q : unit → S → Prop) s :
  (b = true → wpr m Q s) → (b = false → Q tt s) → wpr (when b m) Q s.
Proof. destruct b; cbn; intros H1 H2; [auto|]. by apply wpr_ret, H2. Qed.

(** The loop rule: [I] holds of the elements already visited. *)
Lemma wpr_for_each {A} (I : list A → S → Prop) (l : list A) body s :
  I [] s →
  (∀ seen x rest s', l = seen ++ x :: rest → I seen s' →
     wpr (body x) (λ _ s'', I (seen ++ [x]) s'') s') →
  wpr (for_each l body) (λ _ s', I l s') s.
Proof.
  intros H0 Hstep.
  assert (Hgen : ∀ rest seen s', l = seen ++ rest → I seen s' →
    wpr (for_each rest body) (λ _ s'', I l s'') s').
  { induction rest as [|x rest IH]; intros seen s' Hl HI; cbn.
    - apply wpr_ret. by rewrite Hl, app_nil_r.
    - apply wpr_bind. eapply wpr_mono; [|by apply (Hstep seen x rest)].
      cbn. intros _ s'' HI'. apply (IH (seen ++ [x])); [|done].
      by rewrite <-app_assoc. }
  by apply (Hgen l []).
Qed.
End wp.

(** ** Iteration orders of the Qt containers *)

(** A [QMap] is iterated in ascending key order. *)
Definition key_le {A} (p q : Z * A) : Prop := p.1 ≤ q.1.
#[export] Instance key_le_dec {A} : RelDecision (@key_le A).
Proof. intros p q. unfold key_le. apply _. Defined.
#[export] Instance key_le_total {A} : Total (@key_le A).
Proof. intros p q. unfold key_le. lia. Qed.
#[export] Instance key_le_trans {A} : Transitive (@key_le A).
Proof. intros p q r. unfold key_le. lia. Qed.

Definition qmap_items {A} (m : gmap Z A) : list (Z * A) :=
  merge_sort key_le (map_to_list m).
Definition qmap_values {A} (m : gmap Z A) : list A := (qmap_items m).*2.

(** The order in which a [QHash] or [QSet] is iterated is unspecified: every
    definition that iterates one takes the order as a parameter, of which only
    the documented contract is known (each item is visited exactly once). *)
Class HashOrder := {
  hash_items {A} : gmap Z A → list (Z * A);
  hash_items_perm {A} (m : gmap Z A) : hash_items m ≡ₚ map_to_list m;
  set_items : gset positive → list positive;
  set_items_perm (s : gset positive) : set_items s ≡ₚ elements s;
  int_items : gset Z → list Z;
  int_items_perm (s : gset Z) : int_items s ≡ₚ elements s;
}.

(** One concrete order, for closed examples. *)
Definition canonical_order : HashOrder := {|
  hash_items A := map_to_list;
  hash_items_perm A m := Permutation_refl _;
  set_items := elements;
  set_items_perm s := Permutation_refl _;
  int_items := elements;
  int_items_perm s := Permutation_refl _;
|}.

Definition hash_values `{HashOrder} {A} (m : gmap Z A) : list A := (hash_items m).*2.

Section orders.
Lemma qmap_items_perm {A} (m : gmap Z A) : qmap_items m ≡ₚ map_to_list m.
Proof. apply merge_sort_Permutation. Qed.

Lemma elem_of_qmap_items {A} (m : gmap Z A) k a :
  (k, a) ∈ qmap_items m ↔ m !! k = Some a.
Proof. by rewrite qmap_items_perm, elem_of_map_to_list. Qed.

Lemma qmap_items_sorted {A} (m : gmap Z A) : StronglySorted key_le (qmap_items m).
Proof. apply StronglySorted_merge_sort; apply _. Qed.

Lemma NoDup_qmap_keys {A} (m : gmap Z A) : NoDup (qmap_items m).*1.
Proof. rewrite qmap_items_perm. apply NoDup_fst_map_to_list. Qed.

Lemma elem_of_qmap_values {A} (m : gmap Z A) a :
  a ∈ qmap_values m ↔ ∃ k, m !! k = Some a.
Proof.
  unfold qmap_values. rewrite list_elem_of_fmap. split.
  - intros ([k x] & -> & H%elem_of_qmap_items). eauto.
  - intros [k H%elem_of_qmap_items]. by exists (k, a).
Qed.

Context `{HashOrder}.

Lemma elem_of_hash_items {A} (m : gmap Z A) k a :
  (k, a) ∈ hash_items m ↔ m !! k = Some a.
Proof. by rewrite hash_items_perm, elem_of_map_to_list. Qed.

Lemma NoDup_hash_keys {A} (m : gmap Z A) : NoDup (hash_items m).*1.
Proof. rewrite hash_items_perm. apply NoDup_fst_map_to_list. Qed.

Lemma elem_of_hash_values {A} (m : gmap Z A) a :
  a ∈ hash_values m ↔ ∃ k, m !! k = Some a.
Proof.
  unfold hash_values. rewrite list_elem_of_fmap. split.
  - intros ([k x] & -> & H1%elem_of_hash_items). eauto.
  - intros [k H1%elem_of_hash_items]. by exists (k, a).
Qed.

Lemma elem_of_set_items (s : gset positive) x : x ∈ set_items s ↔ x ∈ s.
Proof. by rewrite set_items_perm, elem_of_elements. Qed.

Lemma NoDup_set_items (s : gset positive) : NoDup (set_items s).
Proof. rewrite set_items_perm. apply NoDup_elements. Qed.
End orders.

(** The items of a [QMap] are determined by its keys: any list sorted by key
    that holds the same pairs is the list of its items. *)
Lemma qmap_items_unique {A} (m : gmap Z A) (l : list (Z * A)) :
  StronglySorted Z.lt l.*1 → (∀ k a, (k, a) ∈ l ↔ m !! k = Some a) → qmap_items m = l.
Proof.
  intros Hs Hl.
  assert (Hnd : NoDup l.*1).
  { clear Hl. induction Hs as [|k ks Hs IH Hk]; [constructor|]. constructor; [|done].
    rewrite Forall_forall in Hk. intros Hin%Hk. lia. }
  assert (Hperm : qmap_items m ≡ₚ l).
  { rewrite qmap_items_perm. apply NoDup_Permutation; [apply NoDup_map_to_list|by eapply NoDup_fmap_1|].
    intros [k a]. rewrite elem_of_map_to_list. symmetry. apply Hl. }
  apply (StronglySorted_unique_strong key_le); [|apply qmap_items_sorted| |done].
  - intros [k1 a1] [k2 a2] H1%elem_of_qmap_items H2 Hle Hge. unfold key_le in *; cbn in *.
    assert (k1 = k2) as -> by lia. apply Hl in H2. congruence.
  - clear -Hs. induction l as [|p l IH]; cbn in *; [constructor|].
    apply StronglySorted_inv in Hs as [Hs Hp]. constructor; [by apply IH|].
    rewrite Forall_forall in Hp. apply Forall_forall. intros q Hq. unfold key_le.
    specialize (Hp q.1). apply Z.lt_le_incl, Hp, list_elem_of_fmap_2, Hq.
Qed.

(** A [QMap] keyed 0, 1, 2, ... lists its items like an array. *)
Lemma qmap_items_seq {A} (l : list A) :
  qmap_items (map_seqZ 0 l : gmap Z A) = zip (seqZ 0 (Z.of_nat (length l))) l.
Proof.
  apply qmap_items_unique.
  - rewrite fst_zip by (rewrite length_seqZ; lia). generalize (Z.of_nat (length l)) 0. clear l.
    intros n s. unfold seqZ. generalize (Z.to_nat n) 0%nat. intros k. induction k as [|k IH]; intros j; [constructor|].
    cbn. constructor; [apply IH|]. apply Forall_forall. intros x (y & -> & Hy)%list_elem_of_fmap.
    apply elem_of_seq in Hy. lia.
  - intros k a. rewrite lookup_map_seqZ_Some, Z.sub_0_r, list_elem_of_lookup. split.
    + intros (i & Hi). apply lookup_zip_Some in Hi as (Hk%lookup_seqZ & Ha).
      destruct Hk as [-> _]. rewrite Z.add_0_l, Nat2Z.id. split; [lia|done].
    + intros [Hk Ha]. exists (Z.to_nat k). apply lookup_zip_Some. split; [|done].
      apply lookup_seqZ. apply lookup_lt_Some in Ha. lia.
Qed.

Lemma qmap_values_seq {A} (l : list A) : qmap_values (map_seqZ 0 l : gmap Z A) = l.
Proof. unfold qmap_values. rewrite qmap_items_seq. apply snd_zip. rewrite length_seqZ. lia. Qed.

Lemma qmap_keys_seq {A} (l : list A) :
  (qmap_items (map_seqZ 0 l : gmap Z A)).*1 = seqZ 0 (Z.of_nat (length l)).
Proof. rewrite qmap_items_seq. apply fst_zip. rewrite length_seqZ. lia. Qed.

(** The text before the first dot ([split(".").at(0)]). *)
Fixpoint before_dot (s : string) : string :=
  match s with EmptyString => EmptyString | String c s' => if bool_decide (c = "."%char) then EmptyString else String c (before_dot s') end.
