(* ===== verification/Enum.v ===== *)
(** Selectable enumerations (Enum.h, Enum.cpp): the items a property of an
    element can take, with the one that is selected.  The persistence of a
    pipeline stores the name of the selected item and selects it again by
    name; the round trip at the end of this file is what that relies on. *)
From S2P Require Export Prelude.

Record EnumPair := mkEnumPair { ep_name : string; ep_value : Z }.

(** [EnumPair( s="", v=-1 )], which [QMap::value] returns for a missing key. *)
Definition default_EnumPair : EnumPair := mkEnumPair EmptyString (-1).

Record Enum := mkEnum {
  en_selectedIndex : Z;
  en_items : gmap Z EnumPair   (** QMap *)
}.

#[export] Instance EnumPair_eq_dec : EqDecision EnumPair.
Proof. solve_decision. Defined.
#[export] Instance Enum_eq_dec : EqDecision Enum.
Proof. solve_decision. Defined.

(** [m_items.value( i )] *)
Definition en_value (e : Enum) (i : Z) : EnumPair := default default_EnumPair (en_items e !! i).
(** [m_items.size()] *)
Definition en_size (e : Enum) : Z := Z.of_nat (size (en_items e)).

Definition new_Enum (selected : Z) : Enum := mkEnum selected ∅.

Definition enum_setSelectedIndex (i : Z) : M Enum unit :=
  e ← gets id ;
  assert (bool_decide (is_Some (en_items e !! i))) ;;
  modify (λ e, mkEnum i (en_items e)).

(** The loop of [setSelected]: the position of the first item of that name. *)
Fixpoint position_of (selected : string) (items : list EnumPair) (i : Z) : option Z :=
  match items with
  | [] => None
  | p :: items' =>
      if bool_decide (ep_name p = selected) then Some i else position_of selected items' (i + 1)
  end.

Definition enum_setSelected (selected : string) (e : Enum) : Enum :=
  match position_of selected (qmap_values (en_items e)) 0 with
  | Some i => mkEnum i (en_items e)
  | None => e
  end.

(** [add( str, value )] *)
Definition enum_add (str : string) (value : Z) (e : Enum) : Enum :=
  mkEnum (en_selectedIndex e) (<[en_size e := mkEnumPair str value]> (en_items e)).

(** [add( str )] *)
Definition enum_add_indexed (str : string) (e : Enum) : Enum :=
  mkEnum (en_selectedIndex e) (<[en_size e := mkEnumPair str (en_size e)]> (en_items e)).

Definition enum_getItemName (i : Z) : M Enum string :=
  e ← gets id ;
  if bool_decide (is_Some (en_items e !! i)) then mret (ep_name (en_value e i))
  else throw (RuntimeError "Invalid index").

Definition enum_getItemValue (number : Z → string) (i : Z) : M Enum Z :=
  e ← gets id ;
  if bool_decide (is_Some (en_items e !! i)) then mret (ep_value (en_value e i))
  else throw (RuntimeError ("Invalid index " +:+ number i +:+ " in Enum::getItemValue()")).

Definition enum_getSelectedItemName : M Enum string :=
  e ← gets id ; enum_getItemName (en_selectedIndex e).

Definition enum_getSelectedValue (number : Z → string) : M Enum Z :=
  e ← gets id ; enum_getItemValue number (en_selectedIndex e).

Definition enum_getItemNames (e : Enum) : list string :=
  (λ i, ep_name (en_value e i)) <$> seqZ 0 (en_size e).

(** ** Specification: an enumeration is a list of items with a position *)
Record reflects (e : Enum) (items : list EnumPair) : Prop := {
  rf_items : en_items e = map_seqZ 0 items
}.

Lemma reflects_size e l : reflects e l → en_size e = Z.of_nat (length l).
Proof.
  intros [Hl]. unfold en_size. rewrite Hl. f_equal. clear.
  rewrite <-size_dom. replace (dom _) with (list_to_set (C:=gset Z) (seqZ 0 (Z.of_nat (length l)))).
  - rewrite size_list_to_set by apply NoDup_seqZ. rewrite length_seqZ. lia.
  - apply set_eq. intros k. rewrite elem_of_list_to_set, elem_of_seqZ, elem_of_dom, lookup_map_seqZ_is_Some. done.
Qed.

Lemma reflects_lookup e l i : reflects e l → 0 ≤ i → en_items e !! i = l !! Z.to_nat i.
Proof. intros [->] Hi. by apply lookup_map_seqZ_0. Qed.

Lemma reflects_new s : reflects (new_Enum s) [].
Proof. by constructor. Qed.

Lemma reflects_snoc s e l p : reflects e l → reflects (mkEnum s (<[en_size e := p]> (en_items e))) (l ++ [p]).
Proof.
  intros Hl. constructor. cbn. rewrite (reflects_size _ _ Hl), (rf_items _ _ Hl). by rewrite map_seqZ_snoc.
Qed.

Lemma reflects_values e l : reflects e l → qmap_values (en_items e) = l.
Proof. intros [->]. apply qmap_values_seq. Qed.

Lemma position_of_spec name l i0 : match position_of name l i0 with
  | Some i => ∃ p, i0 ≤ i ∧ l !! Z.to_nat (i - i0) = Some p ∧ ep_name p = name
  | None => ∀ p, p ∈ l → ep_name p ≠ name
  end.
Proof.
  revert i0. induction l as [|q l IH]; intros i0; cbn [position_of]; [set_solver|].
  case_bool_decide as Hq.
  - exists q. rewrite Z.sub_diag. split_and!; [lia|done..].
  - specialize (IH (i0 + 1)). destruct (position_of name l (i0 + 1)) as [i|].
    + destruct IH as (p & Hi & Hp & Hn). exists p. split_and!; [lia| |done].
      replace (Z.to_nat (i - i0)) with (S (Z.to_nat (i - (i0 + 1)))) by lia. done.
    + set_solver.
Qed.

(** Names that occur once determine their item. *)
Lemma name_position (l : list EnumPair) i j p q : NoDup (ep_name <$> l) →
  l !! i = Some p → l !! j = Some q → ep_name p = ep_name q → i = j.
Proof.
  intros Hnd Hp Hq Heq. eapply (NoDup_lookup (ep_name <$> l)); [done| |];
    rewrite list_lookup_fmap; [by rewrite Hp|by rewrite Hq, Heq].
Qed.

Lemma run_getSelectedItemName e l p : reflects e l → 0 ≤ en_selectedIndex e →
  l !! Z.to_nat (en_selectedIndex e) = Some p → enum_getSelectedItemName e = (Ok (ep_name p), e).
Proof.
  intros Hl Hi Hp. unfold enum_getSelectedItemName, enum_getItemName, en_value.
  erewrite !run_bind by reflexivity. unfold id. rewrite (reflects_lookup _ _ _ Hl Hi), Hp.
  rewrite bool_decide_true by done. done.
Qed.

Lemma setSelected_name e l i p : reflects e l → NoDup (ep_name <$> l) → 0 ≤ i →
  l !! Z.to_nat i = Some p → enum_setSelected (ep_name p) e = mkEnum i (en_items e).
Proof.
  intros Hl Hnd Hi Hp. unfold enum_setSelected. rewrite (reflects_values _ _ Hl).
  pose proof (position_of_spec (ep_name p) l 0) as Hpos. destruct (position_of _ _ _) as [j|].
  - destruct Hpos as (q & Hj & Hq & Heq). rewrite Z.sub_0_r in Hq.
    pose proof (name_position l _ _ _ _ Hnd Hq Hp Heq). f_equal. lia.
  - destruct (Hpos p); [|done]. by eapply list_elem_of_lookup_2.
Qed.


(** Selecting an item by the name another enumeration with the same,
    distinctly named items has selected gives the same selection; a name that
    no item has changes nothing. *)
Theorem enum_selection_roundtrip e e' l : reflects e l → reflects e' l → NoDup (ep_name <$> l) →
  0 ≤ en_selectedIndex e < Z.of_nat (length l) →
  ∃ name, enum_getSelectedItemName e = (Ok name, e) ∧
    en_selectedIndex (enum_setSelected name e') = en_selectedIndex e ∧
    reflects (enum_setSelected name e') l ∧
    ∀ other, other ∉ (ep_name <$> l) → enum_setSelected other e' = e'.
Proof.
  intros Hl Hl' Hnd Hr. destruct (lookup_lt_is_Some_2 l (Z.to_nat (en_selectedIndex e))) as [p Hp]; [lia|].
  exists (ep_name p). rewrite (setSelected_name e' l (en_selectedIndex e) p) by (done || lia).
  split_and!; [by eapply run_getSelectedItemName; eauto with lia|done|constructor; apply (rf_items _ _ Hl')|].
  intros other Ho. unfold enum_setSelected. rewrite (reflects_values _ _ Hl').
  pose proof (position_of_spec other l 0) as Hpos. destruct (position_of _ _ _) as [j|]; [|done].
  destruct Hpos as (q & _ & Hq & <-). destruct Ho. apply list_elem_of_fmap_2. by eapply list_elem_of_lookup_2.
Qed.

(** ** Examples *)
Definition ex_enum : Enum := enum_add_indexed "reflect" (enum_add "constant" 7 (new_Enum 0)).
Definition ex_items : list EnumPair := [mkEnumPair "constant" 7; mkEnumPair "reflect" 1].

Lemma ex_enum_reflects : reflects ex_enum ex_items.
Proof. constructor. vm_compute. reflexivity. Qed.


Lemma enum_selection_witness : ∃ name, enum_getSelectedItemName (enum_setSelected "reflect" ex_enum) =
    (Ok name, enum_setSelected "reflect" ex_enum) ∧
  en_selectedIndex (enum_setSelected name ex_enum) = 1.
Proof.
  destruct (enum_selection_roundtrip (enum_setSelected "reflect" ex_enum) ex_enum ex_items)
    as (name & H1 & H2 & _).
  - constructor. vm_compute. reflexivity.
  - constructor. vm_compute. reflexivity.
  - apply (bool_decide_unpack _). vm_compute. exact I.
  - vm_compute. split; discriminate || reflexivity.
  - exists name. split; [exact H1|]. rewrite H2. vm_compute. reflexivity.
Defined.
