(* ===== verification/Util.v ===== *)
(** Helper functions (Util.h, Util.cpp): parity, factorial, the overlap of
    image rectangles, and the default enumeration of border types. *)
From S2P Require Export Enum.
From Stdlib Require Import Factorial.

(** ** Integers *)
Definition isEven (n : Z) : bool := bool_decide (Z.land n 1 = 0).
Definition isOdd (n : Z) : bool := negb (isEven n).

(** [for( int i=2; i<n; ++i ) result *= i], from [result = n]. *)
Definition factorial (n : Z) : Z :=
  foldl (λ result i, i32 (result * i)) n (seqZ 2 (n - 2)).

(** ** Rectangles *)

(** [cv::Rect] *)
Record Rect := mkRect { r_x : Z; r_y : Z; r_width : Z; r_height : Z }.

#[export] Instance Rect_eq_dec : EqDecision Rect.
Proof. solve_decision. Defined.

Definition r_right (r : Rect) : Z := i32 (r_x r + r_width r).
Definition r_bottom (r : Rect) : Z := i32 (r_y r + r_height r).

Definition overlap (a b : Rect) : bool :=
  bool_decide (r_x a < r_right b) && bool_decide (r_x b < r_right a) &&
  bool_decide (r_y a < r_bottom b) && bool_decide (r_y b < r_bottom a).

(** The returned [int] and the rectangle written through [area]. *)
Definition overlappingArea (a b area : Rect) : Z * Rect :=
  if negb (bool_decide (r_x a < r_right b) && bool_decide (r_x b < r_right a) &&
           bool_decide (r_y a < r_bottom b) && bool_decide (r_y b < r_bottom a))
  then (0, area)
  else
    let x1 := if bool_decide (r_x b < r_x a) then r_x a else r_x b in
    let y1 := if bool_decide (r_y b < r_y a) then r_y a else r_y b in
    let x2 := if bool_decide (r_right a < r_right b) then r_right a else r_right b in
    let y2 := if bool_decide (r_bottom a < r_bottom b) then r_bottom a else r_bottom b in
    (1, mkRect x1 y1 (i32 (x2 - x1)) (i32 (y2 - y1))).

(** ** Border types *)

(** The values of [cv::BORDER_...], constants of OpenCV. *)
Class BorderTypes := {
  BORDER_DEFAULT : Z; BORDER_CONSTANT : Z; BORDER_REFLECT : Z;
  BORDER_REFLECT101 : Z; BORDER_REFLECT_101 : Z; BORDER_REPLICATE : Z; BORDER_WRAP : Z
}.

Definition addDefaultBorderInterpolationTypes `{BorderTypes} (e : Enum) : Enum :=
  enum_add "wrap" BORDER_WRAP (enum_add "replicate" BORDER_REPLICATE
  (enum_add "reflect 101 (2)" BORDER_REFLECT_101 (enum_add "reflect 101" BORDER_REFLECT101
  (enum_add "reflect" BORDER_REFLECT (enum_add "constant" BORDER_CONSTANT
  (enum_add "default" BORDER_DEFAULT e)))))).

(** ** Properties *)

(** The pixels of a rectangle. *)
Definition covers (r : Rect) (p : Z * Z) : Prop :=
  r_x r ≤ p.1 < r_x r + r_width r ∧ r_y r ≤ p.2 < r_y r + r_height r.

(** A rectangle that is not empty and whose corners are representable. *)
Record rect_ok (r : Rect) : Prop := {
  ok_width : 0 < r_width r < 2 ^ 31;
  ok_height : 0 < r_height r < 2 ^ 31;
  ok_x : - 2 ^ 31 ≤ r_x r ∧ r_x r + r_width r < 2 ^ 31;
  ok_y : - 2 ^ 31 ≤ r_y r ∧ r_y r + r_height r < 2 ^ 31
}.

Lemma right_ok r : rect_ok r → r_right r = r_x r + r_width r.
Proof. intros [? ? ? ?]. apply i32_id. lia. Qed.
Lemma bottom_ok r : rect_ok r → r_bottom r = r_y r + r_height r.
Proof. intros [? ? ? ?]. apply i32_id. lia. Qed.

Lemma overlap_spec a b : rect_ok a → rect_ok b →
  overlap a b = true ↔ ∃ p, covers a p ∧ covers b p.
Proof.
  intros Ha Hb. unfold overlap. rewrite !right_ok, !bottom_ok by done.
  rewrite !andb_true_iff, !bool_decide_eq_true.
  pose proof Ha as [? ? _ _]. pose proof Hb as [? ? _ _]. split.
  - intros H. exists (Z.max (r_x a) (r_x b), Z.max (r_y a) (r_y b)). unfold covers; cbn. lia.
  - intros ([x y] & [H1 H2] & [H3 H4]). cbn in *. lia.
Qed.

(** Multiplying modulo 2^32 and then into [int] loses nothing. *)
Lemma i32_mul a b : i32 (i32 a * b) = i32 (a * b).
Proof.
  assert (Ht : ∀ z, ∃ k, i32 z = z + k * 2 ^ 32).
  { intros z. exists (- ((z + 2 ^ 31) / 2 ^ 32)). unfold i32.
    pose proof (Z.div_mod (z + 2 ^ 31) (2 ^ 32)). lia. }
  destruct (Ht a) as [k ->]. unfold i32 at 1 2. f_equal.
  replace ((a + k * 2 ^ 32) * b + 2 ^ 31) with (a * b + 2 ^ 31 + (k * b) * 2 ^ 32) by ring.
  apply Z.mod_add. lia.
Qed.

Lemma factorial_fold acc s k : 0 ≤ s →
  i32 (foldl (λ r i, i32 (r * i)) acc (seqZ s (Z.of_nat k))) =
  i32 (acc * foldr Z.mul 1 (seqZ s (Z.of_nat k))).
Proof.
  revert acc s. induction k as [|k IH]; intros acc s Hs; [by rewrite Z.mul_1_r|].
  rewrite seqZ_cons by lia. replace (Z.pred (Z.of_nat (S k))) with (Z.of_nat k) by lia. cbn [foldl foldr].
  rewrite IH by lia. rewrite i32_mul. f_equal. ring.
Qed.

Lemma foldr_seqZ_fact k : foldr Z.mul 1 (seqZ 2 (Z.of_nat k)) = Z.of_nat (fact (S k)).
Proof.
  induction k as [|k IH]; [done|].
  replace (Z.of_nat (S k)) with (Z.of_nat k + 1) by lia.
  assert (Hc : ∀ l x, foldr Z.mul x l = foldr Z.mul 1 l * x).
  { induction l as [|y l IHl]; intros x; cbn; [lia|]. rewrite IHl. lia. }
  rewrite seqZ_app, foldr_app, (Hc _ (foldr _ _ _)), IH by lia.
  replace (seqZ (2 + Z.of_nat k) 1) with [2 + Z.of_nat k] by (unfold seqZ; cbn; f_equal; lia).
  change (fact (S (S k))) with (S (S k) * fact (S k))%nat. rewrite Nat2Z.inj_mul. cbn [foldr]. lia.
Qed.

Lemma fact_product n : 1 < n → Z.of_nat (fact (Z.to_nat n)) = n * foldr Z.mul 1 (seqZ 2 (n - 2)).
Proof.
  intros Hn. rewrite <-(Z2Nat.id (n - 2)), foldr_seqZ_fact by lia.
  replace (Z.to_nat n) with (S (S (Z.to_nat (n - 2)))) by lia.
  change (fact (S (S (Z.to_nat (n - 2))))) with (S (S (Z.to_nat (n - 2))) * fact (S (Z.to_nat (n - 2))))%nat.
  rewrite Nat2Z.inj_mul. f_equal. lia.
Qed.

(** For a positive argument [factorial] computes the factorial modulo
    2^32, read as an [int]; it is exact up to 12.  For 0 it yields 0. *)
Theorem factorial_correct n : 0 < n →
  i32 (factorial n) = i32 (Z.of_nat (fact (Z.to_nat n))) ∧
  (n ≤ 12 → factorial n = Z.of_nat (fact (Z.to_nat n))) ∧
  factorial 0 = 0.
Proof.
  intros Hn. destruct (decide (n = 1)) as [->|Hne]; [done|]. rewrite fact_product by lia. split_and!; [| |done].
  - unfold factorial. rewrite <-(Z2Nat.id (n - 2)) by lia. apply factorial_fold. lia.
  - intros Hle. assert (Hcase : n ∈ seqZ 2 11) by (apply elem_of_seqZ; lia). clear -Hcase.
    revert n Hcase. apply Forall_forall. apply (bool_decide_unpack _). vm_compute. exact I.
Qed.

(** On non-empty rectangles whose corners fit an [int], [overlap] answers
    whether they share a pixel, and [overlappingArea] then writes the rectangle
    of exactly the shared pixels - returning 1, not its area - and otherwise
    returns 0 and leaves the rectangle alone. *)
Theorem overlappingArea_correct a b area : rect_ok a → rect_ok b →
  (overlap a b = true ↔ ∃ p, covers a p ∧ covers b p) ∧
  (overlap a b = false → overlappingArea a b area = (0, area)) ∧
  (overlap a b = true → ∃ r, overlappingArea a b area = (1, r) ∧ rect_ok r ∧
     ∀ p, covers r p ↔ covers a p ∧ covers b p).
Proof.
  intros Ha Hb. split; [by apply overlap_spec|].
  unfold overlappingArea. fold (overlap a b). split; intros Ho; rewrite Ho; [done|cbn [negb]].
  eexists. split; [reflexivity|]. unfold overlap in Ho.
  rewrite !andb_true_iff, !bool_decide_eq_true in Ho. rewrite !right_ok, !bottom_ok in * by done.
  destruct Ha as [? ? ? ?], Hb as [? ? ? ?].
  repeat case_bool_decide; rewrite !i32_id by lia; (split; [split; cbn; lia|]);
    intros [x y]; unfold covers; cbn; lia.
Qed.

Lemma factorial_witness : factorial 5 = 120.
Proof. destruct (factorial_correct 5) as (_ & H & _); [lia|]. rewrite H by lia. reflexivity. Defined.

Definition ex_a : Rect := mkRect 0 0 4 4.
Definition ex_b : Rect := mkRect 2 1 4 2.

Lemma overlappingArea_witness : overlappingArea ex_a ex_b ex_a = (1, mkRect 2 1 2 2).
Proof.
  destruct (overlappingArea_correct ex_a ex_b ex_a) as (_ & _ & H); [by split..|].
  destruct (H eq_refl) as (r & Hr & _). rewrite Hr. vm_compute in Hr. by rewrite <-Hr.
Defined.
