(* ===== verification/RefPtr.v ===== *)
(** Reference counting (RefCounted.h, RefPtr.h): every pin, connection and
    element is kept alive by the [RefPtr] variables that point to it.

    The state is the set of live objects with their counts and the set of live
    [RefPtr] variables with their pointers.  Objects are leaves here: deleting
    one runs no further [RefPtr] destructors. *)
From S2P Require Export Prelude.

Record RefHeap := mkRefHeap {
  rh_counts : gmap positive Z;                 (** live objects: m_referenceCount *)
  rh_ptrs : gmap positive (option positive)    (** live variables: m_ptr *)
}.

Definition set_counts (f : gmap positive Z → gmap positive Z) (h : RefHeap) : RefHeap :=
  mkRefHeap (f (rh_counts h)) (rh_ptrs h).
Definition set_ptrs (f : gmap positive (option positive) → gmap positive (option positive)) (h : RefHeap) : RefHeap :=
  mkRefHeap (rh_counts h) (f (rh_ptrs h)).

Abbreviation R := (M RefHeap).

(** ** RefCounted *)

(** [RefCounted()]: a new object starts at 0. *)
Definition rc_new (p : positive) : R unit := modify (set_counts (insert p 0)).

Definition getRefCount (p : positive) : R Z :=
  c ← gets (λ h, rh_counts h !! p) ;
  match c with Some n => mret n | None => abort NullPointer end.

Definition rc_inc (p : positive) : R unit :=
  n ← getRefCount p ; modify (set_counts (insert p (i32 (n + 1)))).

Definition rc_dec (p : positive) : R unit :=
  n ← getRefCount p ;
  if bool_decide (i32 (n - 1) < 1) then modify (set_counts (delete p))
  else modify (set_counts (insert p (i32 (n - 1)))).

Definition resetRefCount (p : positive) : R unit :=
  getRefCount p ;; modify (set_counts (insert p 0)).

(** ** RefPtr *)

(** [if( m_ptr != 0 ) f]: on the object pointed to. *)
Definition if_set (q : option positive) (f : positive → R unit) : R unit :=
  match q with Some p => f p | None => mret tt end.

Definition rp_get (v : positive) : R (option positive) :=
  q ← gets (λ h, rh_ptrs h !! v) ;
  match q with Some p => mret p | None => abort UndefinedBehaviour end.

Definition rp_write (v : positive) (q : option positive) : R unit :=
  modify (set_ptrs (insert v q)).

(** [RefPtr()] *)
Definition rp_default (v : positive) : R unit := rp_write v None.

(** [RefPtr( ptr )] *)
Definition rp_new (v : positive) (q : option positive) : R unit :=
  rp_write v q ;; if_set q rc_inc.

(** [RefPtr( const RefPtr& )] *)
Definition rp_copy (v u : positive) : R unit := q ← rp_get u ; rp_new v q.

(** [~RefPtr()] *)
Definition rp_destroy (v : positive) : R unit :=
  q ← rp_get v ; if_set q rc_dec ;; modify (set_ptrs (delete v)).

Definition rp_set (v : positive) (q : option positive) : R unit :=
  old ← rp_get v ; if_set old rc_dec ;; rp_write v q.

(** [operator = ( T* )] *)
Definition rp_assign (v : positive) (q : option positive) : R unit :=
  old ← rp_get v ;
  when (bool_decide (old ≠ q)) (rp_write v q ;; if_set q rc_inc ;; if_set old rc_dec).

(** [operator = ( const RefPtr& )] *)
Definition rp_assign_ref (v u : positive) : R unit := q ← rp_get u ; rp_assign v q.

(** ** What a program does with reference-counted objects *)
Inductive Cmd :=
  | NewObject (p : positive)
  | Default (v : positive)
  | New (v : positive) (q : option positive)
  | Copy (v u : positive)
  | Destroy (v : positive)
  | Assign (v : positive) (q : option positive)
  | AssignRef (v u : positive)
  | Reset (v : positive).      (** [set( 0 )] *)

Definition exec (c : Cmd) : R unit :=
  match c with
  | NewObject p => rc_new p
  | Default v => rp_default v
  | New v q => rp_new v q
  | Copy v u => rp_copy v u
  | Destroy v => rp_destroy v
  | Assign v q => rp_assign v q
  | AssignRef v u => rp_assign_ref v u
  | Reset v => rp_set v None
  end.

(** A raw pointer is null or points to a live object. *)
Definition live (h : RefHeap) (q : option positive) : Prop :=
  match q with Some p => is_Some (rh_counts h !! p) | None => True end.

(** Commands a well-scoped program issues: variables are constructed once,
    used while they live, and raw pointers are not dangling. *)
Definition valid (h : RefHeap) (c : Cmd) : Prop :=
  match c with
  | NewObject p => rh_counts h !! p = None
  | Default v => rh_ptrs h !! v = None
  | New v q => rh_ptrs h !! v = None ∧ live h q
  | Copy v u => rh_ptrs h !! v = None ∧ is_Some (rh_ptrs h !! u)
  | Destroy v | Reset v => is_Some (rh_ptrs h !! v)
  | Assign v q => is_Some (rh_ptrs h !! v) ∧ live h q
  | AssignRef v u => is_Some (rh_ptrs h !! v) ∧ is_Some (rh_ptrs h !! u)
  end.

(** ** The invariant: the count of an object is the number of its holders *)
Definition holders (m : gmap positive (option positive)) (p : positive) : Z :=
  Z.of_nat (size (filter (λ vq, vq.2 = Some p) m)).

Record rc_inv (h : RefHeap) : Prop := {
  rc_count : ∀ p n, rh_counts h !! p = Some n → n = holders (rh_ptrs h) p;
  rc_live : ∀ v p, rh_ptrs h !! v = Some (Some p) → is_Some (rh_counts h !! p)
}.

(** At most as many variables as an [int] can count. *)
Definition room (h : RefHeap) : Prop := Z.of_nat (size (rh_ptrs h)) < 2 ^ 31 - 1.

Definition points (q : option positive) (p : positive) : Z := if decide (q = Some p) then 1 else 0.

Lemma holders_bounds m p : 0 ≤ holders m p ≤ Z.of_nat (size m).
Proof.
  unfold holders. split; [lia|]. apply inj_le. rewrite <-!size_dom. apply subseteq_size, subseteq_dom.
  apply map_filter_subseteq.
Qed.

Lemma holders_fresh m v q p : m !! v = None → holders (<[v := q]> m) p = holders m p + points q p.
Proof.
  intros Hv. unfold holders, points. case_decide as Hq.
  - rewrite map_filter_insert_True by done. rewrite map_size_insert_None; [lia|].
    apply map_lookup_filter_None. by left.
  - rewrite map_filter_insert_False by done. rewrite delete_id by done. lia.
Qed.

Lemma holders_delete m v q p : m !! v = Some q → holders (delete v m) p = holders m p - points q p.
Proof.
  intros Hv. rewrite <-(insert_delete_id m v q) at 2 by done.
  rewrite holders_fresh by apply lookup_delete_eq. lia.
Qed.

Lemma holders_insert m v q q' p : m !! v = Some q →
  holders (<[v := q']> m) p = holders m p - points q p + points q' p.
Proof.
  intros Hv. rewrite <-insert_delete_eq, holders_fresh by apply lookup_delete_eq.
  by rewrite (holders_delete _ _ _ _ Hv).
Qed.

Lemma holders_zero m p v : holders m p = 0 → m !! v ≠ Some (Some p).
Proof.
  unfold holders. intros Hz Hv. assert (Hm : filter (λ vq, vq.2 = Some p) m = ∅) by (apply map_size_empty_inv; lia).
  pose proof (map_lookup_filter_None (λ vq, vq.2 = Some p) m v) as [Hn _].
  rewrite Hm, lookup_empty in Hn. destruct Hn as [Hn|Hn]; [done|congruence|]. by apply (Hn (Some p)).
Qed.

(** ** Paying off increments and decrements *)

(** Every live object is counted, up to [d p] increments still due. *)
Definition off (d : positive → Z) (h : RefHeap) : Prop :=
  ∀ p n, rh_counts h !! p = Some n → n = holders (rh_ptrs h) p - d p.

Lemma run_if_inc q d h : off d h → live h q → (∀ p, q = Some p → d p = 1) → Z.of_nat (size (rh_ptrs h)) < 2 ^ 31 →
  ∃ h', if_set q rc_inc h = (Ok tt, h') ∧ off (λ p, d p - points q p) h' ∧ rh_ptrs h' = rh_ptrs h ∧
    (∀ p, rh_counts h' !! p = None ↔ rh_counts h !! p = None).
Proof.
  intros Hoff Hq Hd Hroom. destruct q as [p|]; cbn [if_set].
  - destruct Hq as [n Hn]. pose proof (Hoff _ _ Hn) as Hc. rewrite (Hd p) in Hc by done.
    pose proof (holders_bounds (rh_ptrs h) p). eexists. split.
    { unfold rc_inc, getRefCount. erewrite run_bind; [reflexivity|]. erewrite run_bind by reflexivity. by rewrite Hn. }
    split_and!; [|done|].
    + intros p' n' Hp'. cbn in Hp' |- *. unfold points. apply lookup_insert_Some in Hp' as [[<- <-]|[Hne Hp']].
      * rewrite decide_True by done. rewrite i32_id by lia. rewrite (Hd p) by done. lia.
      * rewrite decide_False by congruence. rewrite (Hoff _ _ Hp'). lia.
    + intros p'. cbn. rewrite lookup_insert_None. split; [naive_solver|]. intros Hp'. split; [done|congruence].
  - exists h. split; [done|]. split; [|done]. intros p n Hn. rewrite (Hoff _ _ Hn). unfold points.
    rewrite decide_False by done. lia.
Qed.

Lemma run_if_dec q d h : off d h → live h q → (∀ p, -1 ≤ d p ≤ 1) → Z.of_nat (size (rh_ptrs h)) < 2 ^ 31 →
  ∃ h', if_set q rc_dec h = (Ok tt, h') ∧ off (λ p, d p + points q p) h' ∧ rh_ptrs h' = rh_ptrs h ∧
    (∀ p, rh_counts h' !! p = None ↔
       rh_counts h !! p = None ∨ (q = Some p ∧ holders (rh_ptrs h) p - d p ≤ 1)).
Proof.
  intros Hoff Hq Hd Hroom. destruct q as [p|]; cbn [if_set].
  - destruct Hq as [n Hn]. pose proof (Hoff _ _ Hn) as Hc. specialize (Hd p).
    pose proof (holders_bounds (rh_ptrs h) p).
    assert (Hrun : rc_dec p h = (Ok tt, set_counts
      (if bool_decide (n - 1 < 1) then delete p else insert p (n - 1)) h)).
    { unfold rc_dec, getRefCount. erewrite run_bind by (erewrite run_bind by reflexivity; rewrite Hn; reflexivity).
      rewrite i32_id by lia. by case_bool_decide. }
    eexists. split; [exact Hrun|]. split_and!; [|done|].
    + intros p' n'. cbn. unfold points. case_bool_decide as Hlt.
      * intros [Hne Hp']%lookup_delete_Some. rewrite decide_False by congruence. rewrite (Hoff _ _ Hp'). lia.
      * intros [[<- <-]|[Hne Hp']]%lookup_insert_Some; [rewrite decide_True by done; lia|].
        rewrite decide_False by congruence. rewrite (Hoff _ _ Hp'). lia.
    + intros p'. cbn. case_bool_decide as Hlt.
      * rewrite lookup_delete_None. split; [intros [<-|?]; [right; split; [done|lia]|by left]|].
        intros [?|[[= <-] _]]; [by right|by left].
      * rewrite lookup_insert_None. split; [naive_solver|].
        intros [Hp'|[[= <-] Hz]]; [split; [done|congruence]|lia].
  - exists h. split; [done|]. split_and!; [|done|naive_solver]. intros p n Hn. rewrite (Hoff _ _ Hn). unfold points.
    rewrite decide_False by done. lia.
Qed.

(** ** One variable changes its pointer *)

(** What a variable contributes: nothing before its construction and after
    its destruction. *)
Definition pointed (q : option (option positive)) : option positive := q ≫= id.

Definition freed (h h' : RefHeap) : Prop := ∀ p,
  (is_Some (rh_counts h !! p) ∧ rh_counts h' !! p = None) ↔
  (0 < holders (rh_ptrs h) p ∧ holders (rh_ptrs h') p = 0).

Lemma inv_off h : rc_inv h ↔ off (λ _, 0) h ∧ (∀ v p, rh_ptrs h !! v = Some (Some p) → is_Some (rh_counts h !! p)).
Proof.
  split.
  - intros [Hc Hl]. split; [|done]. intros p n Hn. rewrite (Hc _ _ Hn). lia.
  - intros [Hc Hl]. split; [|done]. intros p n Hn. rewrite (Hc _ _ Hn). lia.
Qed.

Lemma holders_partial m v q p : holders (partial_alter (λ _, q) v m) p =
  holders m p - points (pointed (m !! v)) p + points (pointed q) p.
Proof.
  assert (Hnone : points None p = 0) by (unfold points; by rewrite decide_False).
  destruct q as [q|]; cbn; destruct (m !! v) as [q0|] eqn:Hv; cbn; rewrite ?Hnone.
  - apply (holders_insert _ _ _ _ _ Hv).
  - rewrite Z.sub_0_r. apply (holders_fresh _ _ _ _ Hv).
  - rewrite Z.add_0_r. apply (holders_delete _ _ _ _ Hv).
  - change (partial_alter (λ _, None) v m) with (delete v m). rewrite delete_id by done. lia.
Qed.

Lemma points_cases q p : (q = Some p ∧ points q p = 1) ∨ (q ≠ Some p ∧ points q p = 0).
Proof. unfold points. case_decide; eauto. Qed.

(** The heap after [v] has gone from its old pointer to [q] and both have
    been accounted for. *)
Lemma moved h h' v q : rc_inv h → rh_ptrs h' = partial_alter (λ _, q) v (rh_ptrs h) → live h (pointed q) →
  off (λ _, 0) h' →
  (∀ p, rh_counts h' !! p = None ↔ rh_counts h !! p = None ∨
     (pointed (rh_ptrs h !! v) = Some p ∧ pointed q ≠ Some p ∧ holders (rh_ptrs h') p = 0)) →
  rc_inv h' ∧ freed h h'.
Proof.
  intros Hinv Hptrs Hq Hoff Hgone. split.
  - apply inv_off. split; [done|]. intros u p Hu. apply not_eq_None_Some. rewrite Hgone.
    intros [Hn|(_ & _ & Hz)]; [|by eapply holders_zero].
    assert (Hl : is_Some (rh_counts h !! p)); [|rewrite Hn in Hl; by destruct Hl].
    rewrite Hptrs, lookup_partial_alter in Hu. case_decide as E; [by rewrite Hu in Hq|]. by eapply rc_live.
  - intros p. pose proof (holders_bounds (rh_ptrs h) p).
    pose proof (holders_partial (rh_ptrs h) v q p) as Hh. rewrite <-Hptrs in Hh.
    destruct (points_cases (pointed (rh_ptrs h !! v)) p) as [[Ho Ho']|[Ho Ho']];
      destruct (points_cases (pointed q) p) as [[Hp Hp']|[Hp Hp']]; rewrite Ho', Hp' in Hh.
    + rewrite Hgone. split; [|lia]. intros [[n Hn] [Hc|(_ & ? & _)]]; congruence.
    + rewrite Hgone. split.
      * intros [[n Hn] [Hc|(_ & _ & Hz)]]; [congruence|]. split; [lia|done].
      * intros [_ Hz]. split; [|by auto]. destruct (rh_ptrs h !! v) as [o|] eqn:Hv; [|done]. cbn in Ho. unfold id in Ho.
        subst o. by eapply rc_live.
    + rewrite Hgone. split; [|lia]. intros [[n Hn] [Hc|(? & _)]]; congruence.
    + rewrite Hgone. split; [|lia]. intros [[n Hn] [Hc|(? & _)]]; congruence.
Qed.

Lemma live_pointed h v q : rc_inv h → rh_ptrs h !! v = Some q → live h q.
Proof. intros Hinv Hv. destruct q as [p|]; [|done]. by eapply rc_live. Qed.

Lemma off_write h v q : rc_inv h →
  off (λ p, points q p - points (pointed (rh_ptrs h !! v)) p) (set_ptrs (insert v q) h).
Proof.
  intros Hinv p n Hn. cbn in *. change (insert v q (rh_ptrs h)) with (partial_alter (λ _, Some q) v (rh_ptrs h)).
  rewrite holders_partial, (rc_count _ Hinv _ _ Hn). cbn. unfold id. lia.
Qed.

Lemma size_insert_le {A} (m : gmap positive A) v q : (size (<[v := q]> m) ≤ S (size m))%nat.
Proof. rewrite map_size_insert. destruct (m !! v); cbn; lia. Qed.

Lemma run_rp_new h v q : rc_inv h → room h → rh_ptrs h !! v = None → live h q →
  ∃ h', rp_new v q h = (Ok tt, h') ∧ rc_inv h' ∧ freed h h'.
Proof.
  intros Hinv Hroom Hv Hq. pose proof (off_write h v q Hinv) as Hoff. rewrite Hv in Hoff.
  pose proof (size_insert_le (rh_ptrs h) v q). unfold room in Hroom.
  destruct (run_if_inc q _ _ Hoff) as (h' & Hrun & Hoff' & Hptrs & Hgone); [done| |cbn; lia|].
  { intros p ->. cbn. unfold points. by rewrite decide_True. }
  exists h'. split; [unfold rp_new; by erewrite run_bind by reflexivity|].
  eapply (moved h h' v (Some q)); [done|done|done| |].
  - intros p n Hn. rewrite (Hoff' _ _ Hn). cbn. unfold points at 2. rewrite decide_False by done. lia.
  - intros p. rewrite Hgone, Hv. naive_solver.
Qed.

(** [~RefPtr] and [set( 0 )] give up the pointer before the variable. *)
Lemma run_release h v q0 q : rc_inv h → room h → rh_ptrs h !! v = Some q0 → pointed q = None →
  ∃ h1, if_set q0 rc_dec h = (Ok tt, h1) ∧
    rc_inv (set_ptrs (partial_alter (λ _, q) v) h1) ∧ freed h (set_ptrs (partial_alter (λ _, q) v) h1).
Proof.
  intros Hinv Hroom Hv Hq. pose proof Hinv as [Hoff _]%inv_off. unfold room in Hroom.
  destruct (run_if_dec q0 _ _ Hoff) as (h1 & Hrun & Hoff' & Hptrs & Hgone);
    [by eapply live_pointed|intros; lia|lia|].
  exists h1. split; [done|].
  assert (Hh : ∀ p, holders (partial_alter (λ _, q) v (rh_ptrs h)) p = holders (rh_ptrs h) p - points q0 p).
  { intros p. rewrite holders_partial, Hv, Hq. cbn. unfold id, points at 2. rewrite decide_False by done. lia. }
  apply (moved h _ v q); [done|by cbn; rewrite Hptrs|by rewrite Hq| |].
  - intros p n Hn. cbn in *. rewrite (Hoff' _ _ Hn), Hptrs, Hh. lia.
  - intros p. cbn. rewrite Hgone, Hptrs, Hh, Hv, Hq. cbn. unfold id.
    pose proof (holders_bounds (rh_ptrs h) p). unfold points.
    assert (Hpos : q0 = Some p → holders (rh_ptrs h) p ≠ 0).
    { intros -> Hz. by eapply holders_zero. }
    split; (intros [?|Hc]; [by left|right]).
    + destruct Hc as [-> Hle]. specialize (Hpos eq_refl). rewrite decide_True by done. split_and!; [done|done|lia].
    + destruct Hc as (-> & _ & Hz). rewrite decide_True in Hz by done. split; [done|lia].
Qed.

Lemma freed_refl h : rc_inv h → freed h h.
Proof. intros Hinv p. split; [intros [[n Hn] Hc]; congruence|lia]. Qed.

Lemma run_rp_assign h v q : rc_inv h → room h → is_Some (rh_ptrs h !! v) → live h q →
  ∃ h', rp_assign v q h = (Ok tt, h') ∧ rc_inv h' ∧ freed h h'.
Proof.
  intros Hinv Hroom [q0 Hv] Hq. unfold rp_assign, rp_get. unfold room in Hroom.
  erewrite run_bind by (erewrite run_bind by reflexivity; rewrite Hv; reflexivity).
  case_bool_decide as Hne; cbn [when]; [|exists h; split_and!; [done|done|by apply freed_refl]].
  pose proof (off_write h v q Hinv) as Hoff. rewrite Hv in Hoff. cbn in Hoff. unfold id in Hoff.
  set (h1 := set_ptrs (insert v q) h) in *.
  assert (Hsize : size (rh_ptrs h1) = size (rh_ptrs h)) by (cbn; rewrite map_size_insert, Hv; done).
  erewrite run_bind by reflexivity. fold h1.
  destruct (run_if_inc q _ h1 Hoff) as (h2 & Hrun & Hoff2 & Hptrs2 & Hgone2); [done| |lia|].
  { intros p ->. unfold points. rewrite decide_True, decide_False by done. lia. }
  erewrite run_bind by exact Hrun.
  destruct (run_if_dec q0 _ h2 Hoff2) as (h3 & Hrun3 & Hoff3 & Hptrs3 & Hgone3).
  { pose proof (live_pointed h v q0 Hinv Hv) as Hl. destruct q0 as [p0|]; [|done]. cbn in *.
    apply not_eq_None_Some. rewrite Hgone2. cbn. by apply not_eq_None_Some. }
  { intros p. cbn. pose proof (points_cases q0 p). pose proof (points_cases q p). lia. }
  { rewrite Hptrs2. lia. }
  exists h3. split; [done|]. apply (moved h h3 v (Some q)); [done|by rewrite Hptrs3, Hptrs2|done| |].
  - intros p n Hn. rewrite (Hoff3 _ _ Hn). lia.
  - intros p. rewrite Hgone3, Hgone2, Hptrs3, Hptrs2, Hv. cbn. unfold id.
    destruct (points_cases q0 p) as [[Ho Ho']|[Ho Ho']]; [|naive_solver]. subst q0.
    assert (Hp : points q p = 0) by (unfold points; by rewrite decide_False).
    pose proof (holders_bounds (<[v:=q]> (rh_ptrs h)) p). rewrite Ho', Hp.
    split; (intros [?|Hc]; [by left|right]); destruct Hc as [? Hc].
    + split_and!; [done|congruence|lia].
    + split; [done|lia].
Qed.


(** [set] with a pointer that is not null stores it without counting it:
    when the variable goes, an object that one other variable still holds is
    deleted, and that variable dangles. *)
Theorem set_does_not_count h v u p : rc_inv h → rh_ptrs h !! v = Some None → rh_ptrs h !! u = Some (Some p) →
  holders (rh_ptrs h) p = 1 →
  ∃ h', (rp_set v (Some p) ;; rp_destroy v) h = (Ok tt, h') ∧
    rh_ptrs h' !! u = Some (Some p) ∧ rh_counts h' !! p = None.
Proof.
  intros Hinv Hv Hu Hone. destruct (rc_live _ Hinv _ _ Hu) as [n Hn].
  pose proof (rc_count _ Hinv _ _ Hn) as Hc. assert (v ≠ u) by congruence. unfold rp_set, rp_destroy, rp_get.
  erewrite run_bind; [|erewrite run_bind by (erewrite run_bind by reflexivity; rewrite Hv; reflexivity); reflexivity].
  erewrite run_bind; [|erewrite run_bind by reflexivity; cbn; rewrite lookup_insert_eq; reflexivity].
  eexists. split.
  { erewrite run_bind; [reflexivity|]. cbn. unfold rc_dec, getRefCount.
    erewrite run_bind by (erewrite run_bind by reflexivity; cbn; rewrite Hn; reflexivity).
    rewrite bool_decide_true by (rewrite i32_id; lia). reflexivity. }
  cbn. split; [|apply lookup_delete_eq]. rewrite lookup_delete_ne, lookup_insert_ne by done. done.
Qed.

(** ** Examples *)
Definition ex_heap : RefHeap := mkRefHeap {[1%positive := 1]} {[1%positive := Some 1%positive; 2%positive := None]}.

Lemma ex_heap_inv : rc_inv ex_heap.
Proof.
  split; cbn.
  - intros p n [<- <-]%lookup_singleton_Some. vm_compute. reflexivity.
  - intros v p [[<- [= <-]]|[_ [_ [=]]%lookup_singleton_Some]]%lookup_insert_Some. rewrite lookup_singleton_eq. eauto.
Qed.


Lemma set_does_not_count_witness : ∃ h', (rp_set 2 (Some 1%positive) ;; rp_destroy 2) ex_heap = (Ok tt, h') ∧
  rh_ptrs h' !! 1%positive = Some (Some 1%positive) ∧ rh_counts h' !! 1%positive = None.
Proof. apply (set_does_not_count ex_heap 2 1 1 ex_heap_inv); reflexivity. Defined.
