(* ===== verification/Factory.v ===== *)
(** The registry of element classes (PipelineElementFactory.h/.cpp): plug-ins
    register one constructor object per class, and elements are created by
    class name or by the id that registration returned. *)
From S2P Require Export Prelude.

Section factory.
(** A [PipelineElementConstructor] of a plug-in; the registry only asks for
    its class name. *)
Context {C : Type} (getClassName : C → string).

(** [m_elementConstructors] (a null entry is an unregistered class) and
    [m_nameIdMapping]. *)
Record Factory := mkFactory {
  f_constructors : list (option C);
  f_nameIdMapping : gmap string Z
}.

(** [m_elementConstructors.at( id )] *)
Definition ctor_at (id : Z) : M Factory (option C) :=
  l ← gets f_constructors ;
  if bool_decide (id < 0) then abort OutOfRange
  else match l !! Z.to_nat id with Some c => mret c | None => abort OutOfRange end.

(** The refusal returns [false], which is 0. *)
Definition registerElement (c : C) : M Factory Z :=
  m ← gets f_nameIdMapping ;
  if bool_decide (is_Some (m !! getClassName c)) then mret 0
  else
    l ← gets f_constructors ;
    let id := Z.of_nat (length l) in
    modify (λ f, mkFactory (f_constructors f ++ [Some c]) (<[getClassName c := id]> (f_nameIdMapping f))) ;;
    mret id.

Definition unregisterElement (name : string) : M Factory unit :=
  m ← gets f_nameIdMapping ;
  match m !! name with
  | None => mret tt
  | Some id =>
      ctor_at id ;;
      modify (λ f, mkFactory (<[Z.to_nat id := None]> (f_constructors f)) (f_nameIdMapping f))
  end.

Definition elementId (name : string) : M Factory Z :=
  m ← gets f_nameIdMapping ;
  match m !! name with
  | None => mret (-1)
  | Some id => c ← ctor_at id ; mret (if (c : option C) is Some _ then id else -1)
  end.

(** [construct( name )] and [construct( id )]: the constructor object whose
    [construct()] is called, none when the call returns a null element. *)
Definition construct_name (name : string) : M Factory (option C) :=
  m ← gets f_nameIdMapping ;
  match m !! name with
  | None => mret None
  | Some id =>
      plec ← ctor_at id ;
      match plec with Some c => mret (Some c) | None => abort NullPointer end
  end.

Definition construct_id (id : Z) : M Factory (option C) :=
  l ← gets f_constructors ;
  if bool_decide (id < 0) || bool_decide (Z.of_nat (length l) < id) then mret None
  else ctor_at id.

(** [m_nameIdMapping.keys()], in an unspecified order. *)
Definition types (f : Factory) : gset string := dom (f_nameIdMapping f).

(** ** The registry invariant *)
Record registry_wf (f : Factory) : Prop := {
  rw_range : ∀ name id, f_nameIdMapping f !! name = Some id →
    0 ≤ id < Z.of_nat (length (f_constructors f));
  rw_class : ∀ name id c, f_nameIdMapping f !! name = Some id →
    f_constructors f !! Z.to_nat id = Some (Some c) → getClassName c = name;
  rw_named : ∀ i, (i < length (f_constructors f))%nat →
    ∃ name, f_nameIdMapping f !! name = Some (Z.of_nat i);
  rw_inj : ∀ n1 n2 id, f_nameIdMapping f !! n1 = Some id → f_nameIdMapping f !! n2 = Some id → n1 = n2
}.

(** Class [name] is registered: constructor [c] under [id]. *)
Definition registered_as (f : Factory) (name : string) (id : Z) (c : C) : Prop :=
  f_nameIdMapping f !! name = Some id ∧ f_constructors f !! Z.to_nat id = Some (Some c).

Lemma empty_registry : registry_wf (mkFactory [] ∅).
Proof. split; cbn; intros; try done; try lia. Qed.

Lemma run_ctor_at f id c : 0 ≤ id → f_constructors f !! Z.to_nat id = Some c → ctor_at id f = (Ok c, f).
Proof.
  intros Hid Hc. unfold ctor_at. erewrite run_bind by reflexivity. rewrite bool_decide_false by lia. by rewrite Hc.
Qed.

Lemma run_elementId f name id c : registry_wf f → f_nameIdMapping f !! name = Some id →
  f_constructors f !! Z.to_nat id = Some c →
  elementId name f = (Ok (if (c : option C) is Some _ then id else -1), f).
Proof.
  intros Hwf Hn Hc. destruct (rw_range _ Hwf _ _ Hn). unfold elementId. erewrite run_bind by reflexivity. rewrite Hn.
  by erewrite run_bind by (by apply run_ctor_at).
Qed.

Lemma run_construct_id f id c : 0 ≤ id → f_constructors f !! Z.to_nat id = Some c → construct_id id f = (Ok c, f).
Proof.
  intros Hid Hc. pose proof (lookup_lt_Some _ _ _ Hc). unfold construct_id. erewrite run_bind by reflexivity.
  rewrite !bool_decide_false by lia. by apply run_ctor_at.
Qed.

(** Registering a new class appends its constructor. *)
Definition with_ctor (f : Factory) (c : C) : Factory :=
  mkFactory (f_constructors f ++ [Some c])
    (<[getClassName c := Z.of_nat (length (f_constructors f))]> (f_nameIdMapping f)).

Lemma with_ctor_wf f c : registry_wf f → f_nameIdMapping f !! getClassName c = None → registry_wf (with_ctor f c).
Proof.
  intros Hwf Hnew. split; cbn.
  - intros name id. rewrite length_app. cbn.
    intros [[<- <-]|[_ Hn]]%lookup_insert_Some; [lia|]. pose proof (rw_range _ Hwf _ _ Hn). lia.
  - intros name id c' [[<- <-]|[_ Hn]]%lookup_insert_Some.
    + rewrite Nat2Z.id, list_lookup_middle by done. congruence.
    + pose proof (rw_range _ Hwf _ _ Hn). rewrite lookup_app_l by lia. by apply (rw_class _ Hwf).
  - intros i. rewrite length_app. cbn. intros Hi.
    destruct (decide (i = length (f_constructors f))) as [->|]; [exists (getClassName c); apply lookup_insert_eq|].
    destruct (rw_named _ Hwf i) as [name Hn]; [lia|]. exists name. rewrite lookup_insert_ne; [done|congruence].
  - intros n1 n2 id [[<- <-]|[_ H1]]%lookup_insert_Some [[<- E]|[_ H2]]%lookup_insert_Some; try done.
    + pose proof (rw_range _ Hwf _ _ H2). lia.
    + pose proof (rw_range _ Hwf _ _ H1). lia.
    + by apply (rw_inj _ Hwf n1 n2 id).
Qed.

(** Registering a class under a new name gives it the next id; from then
    on its name and its id lead to its constructor, the classes registered
    before are found as before, and the registry stays consistent. *)
Theorem registerElement_correct f c : registry_wf f → f_nameIdMapping f !! getClassName c = None →
  ∃ id f', registerElement c f = (Ok id, f') ∧ registry_wf f' ∧
    elementId (getClassName c) f' = (Ok id, f') ∧
    construct_name (getClassName c) f' = (Ok (Some c), f') ∧ construct_id id f' = (Ok (Some c), f') ∧
    types f' = {[getClassName c]} ∪ types f ∧
    (∀ name id' c', registered_as f name id' c' → registered_as f' name id' c' ∧ id' ≠ id).
Proof.
  intros Hwf Hnew. pose proof (with_ctor_wf f c Hwf Hnew) as Hwf'.
  assert (Hat : f_constructors (with_ctor f c) !! Z.to_nat (Z.of_nat (length (f_constructors f))) = Some (Some c)).
  { cbn. by rewrite Nat2Z.id, list_lookup_middle. }
  exists (Z.of_nat (length (f_constructors f))), (with_ctor f c). split_and!; [|done| | | | |].
  - unfold registerElement. erewrite run_bind by reflexivity. by rewrite Hnew.
  - eapply (run_elementId _ _ _ (Some c)); [done|apply lookup_insert_eq|done].
  - unfold construct_name. erewrite run_bind by reflexivity. cbn [with_ctor f_nameIdMapping].
    rewrite lookup_insert_eq. erewrite run_bind by (apply (run_ctor_at (with_ctor f c) _ (Some c)); [lia|done]). done.
  - apply run_construct_id; [lia|done].
  - apply dom_insert_L.
  - intros name id' c' [Hn Hc]. pose proof (rw_range _ Hwf _ _ Hn). split; [split|lia].
    + cbn. rewrite lookup_insert_ne; [done|congruence].
    + cbn. rewrite lookup_app_l by lia. done.
Qed.

(** After [unregisterElement] a class has no id; constructing it by name
    dereferences a null pointer and by id returns null; it cannot be
    registered again - the refusal returns 0, the id of the first class.  The
    id one past the last passes the range check of [construct( id )] and
    indexes the list out of range. *)
Theorem unregistered_class f name id c : registry_wf f → registered_as f name id c →
  ∃ f', unregisterElement name f = (Ok tt, f') ∧ registry_wf f' ∧
    elementId name f' = (Ok (-1), f') ∧
    construct_name name f' = (Abort NullPointer, f') ∧ construct_id id f' = (Ok None, f') ∧
    registerElement c f' = (Ok 0, f') ∧
    construct_id (Z.of_nat (length (f_constructors f'))) f' = (Abort OutOfRange, f').
Proof.
  intros Hwf [Hn Hc]. pose proof (rw_range _ Hwf _ _ Hn) as Hid.
  set (f' := mkFactory (<[Z.to_nat id := None]> (f_constructors f)) (f_nameIdMapping f)).
  assert (Hat : f_constructors f' !! Z.to_nat id = Some None) by (apply list_lookup_insert_eq; lia).
  assert (Hwf' : registry_wf f').
  { split; cbn; rewrite ?length_insert; [apply (rw_range _ Hwf)| |apply (rw_named _ Hwf)|apply (rw_inj _ Hwf)].
    intros n i c' Hn' Hc'. destruct (decide (Z.to_nat i = Z.to_nat id)) as [E|E].
    - rewrite E, list_lookup_insert_eq in Hc' by lia. done.
    - rewrite list_lookup_insert_ne in Hc' by done. by eapply (rw_class _ Hwf). }
  exists f'. split_and!; [|done| | | | |].
  - unfold unregisterElement. erewrite run_bind by reflexivity. rewrite Hn.
    erewrite run_bind by (by apply run_ctor_at; [lia|]). done.
  - eapply (run_elementId f' name id None); done.
  - unfold construct_name. erewrite run_bind by reflexivity. cbn [f' f_nameIdMapping]. rewrite Hn.
    erewrite run_bind by (apply (run_ctor_at f' _ None); [lia|done]). done.
  - apply run_construct_id; [lia|done].
  - unfold registerElement. erewrite run_bind by reflexivity. rewrite (rw_class _ Hwf _ _ _ Hn Hc).
    cbn [f' f_nameIdMapping]. by rewrite Hn.
  - unfold construct_id, ctor_at. erewrite run_bind by reflexivity. rewrite !bool_decide_false by lia. cbn [orb].
    erewrite run_bind by reflexivity.
    by rewrite Nat2Z.id, lookup_ge_None_2.
Qed.
End factory.

Arguments Factory C : clear implicits.

(** ** Examples: constructor objects that are just their class names *)
Lemma registerElement_witness : ∃ f', registerElement id "Add" (mkFactory [] ∅) = (Ok 0, f') ∧
  construct_id 0 f' = (Ok (Some "Add"), f').
Proof.
  destruct (registerElement_correct id (mkFactory [] ∅) "Add") as (i & f' & Hrun & _ & _ & _ & Hc & _);
    [apply empty_registry|reflexivity|].
  exists f'. assert (i = 0) as -> by (vm_compute in Hrun; by injection Hrun as <-). split; [exact Hrun|exact Hc].
Defined.

Lemma unregistered_witness : ∃ f', construct_name "Add" f' = (Abort NullPointer, f') ∧
  registerElement id "Add" f' = (Ok 0, f').
Proof.
  destruct (unregistered_class id (with_ctor id (mkFactory [] ∅) "Add") "Add" 0 "Add") as (f' & _ & _ & _ & H1 & _ & H2 & _).
  - apply with_ctor_wf; [apply empty_registry|reflexivity].
  - split; reflexivity.
  - exists f'. split; [exact H1|exact H2].
Defined.
