(* ===== verification/Scoreboard.v ===== *)
(** The scoreboard of a synchronous consumer (class ScoreBoard of
    DataConsumer.h): it counts, per serial, the pins on which that serial has
    arrived and reports when the row is complete. *)
From S2P Require Export Prelude.

Record ScoreBoard := mkScore {
  sb_pincount : Z;
  sb_lookup : gmap Z Z
}.

(** [ScoreBoard()] *)
Definition sb_new : ScoreBoard := mkScore 0 ∅.

(** [setPinCount( count )]: the table of counts is left as it is. *)
Definition sb_setPinCount (count : Z) (b : ScoreBoard) : ScoreBoard :=
  mkScore count (sb_lookup b).

(** [add( pinId, serial )]: the pin id is not used. *)
Definition sb_add (pinId serial : Z) (b : ScoreBoard) : bool * ScoreBoard :=
  let count := default 0 (sb_lookup b !! serial) + 1 in
  if bool_decide (count = sb_pincount b)
  then (true, mkScore (sb_pincount b) (delete serial (sb_lookup b)))
  else (false, mkScore (sb_pincount b) (<[serial := count]> (sb_lookup b))).

(** The answers to a sequence of calls. *)
Fixpoint sb_run (adds : list (Z * Z)) (b : ScoreBoard) : list bool * ScoreBoard :=
  match adds with
  | [] => ([], b)
  | (pin, serial) :: adds' =>
      let '(r, b1) := sb_add pin serial b in
      let '(rs, b2) := sb_run adds' b1 in
      (r :: rs, b2)
  end.

(** ** Specification: occurrence counts *)

(** How often serial [s] occurs in a sequence of calls. *)
Definition arrivals (s : Z) (adds : list (Z * Z)) : Z :=
  Z.of_nat (length (filter (λ a, a.2 = s) adds)).

(** [b] is the scoreboard of a consumer with [n] synchronous pins after the
    calls [adds]: the rows still open are those with an incomplete count. *)
Definition sb_reflects (n : Z) (adds : list (Z * Z)) (b : ScoreBoard) : Prop :=
  sb_pincount b = n ∧
  ∀ s, sb_lookup b !! s =
    if bool_decide (arrivals s adds mod n = 0) then None
    else Some (arrivals s adds mod n).

Lemma arrivals_snoc s adds p t :
  arrivals s (adds ++ [(p, t)]) = arrivals s adds + (if bool_decide (t = s) then 1 else 0).
Proof.
  unfold arrivals. rewrite filter_app, filter_cons, filter_nil, length_app.
  cbn [snd]. repeat case_decide; case_bool_decide; simplify_eq; cbn [length]; lia.
Qed.

Lemma arrivals_nonneg s adds : 0 ≤ arrivals s adds.
Proof. unfold arrivals. lia. Qed.

Lemma sb_reflects_new n : 0 < n → sb_reflects n [] (sb_setPinCount n sb_new).
Proof.
  intros Hn. split; [done|]. intros s. cbn. unfold arrivals; cbn.
  rewrite lookup_empty. by rewrite Z.mod_0_l by lia.
Qed.

(** The arithmetic of one more arrival modulo the pin count. *)
Lemma mod_succ_case a n : 0 < n →
  (a mod n + 1 = n ∧ (a + 1) mod n = 0) ∨
  (a mod n + 1 ≠ n ∧ (a + 1) mod n = a mod n + 1 ∧ a mod n + 1 ≠ 0).
Proof.
  intros Hn. pose proof (Z.mod_pos_bound a n Hn). pose proof (Z.div_mod a n ltac:(lia)).
  destruct (decide (a mod n + 1 = n)) as [E|E]; [left|right].
  - split; [done|]. symmetry. apply (Z.mod_unique_pos _ _ (a / n + 1)); nia.
  - split_and!; [done| |lia]. symmetry. apply (Z.mod_unique_pos _ _ (a / n)); nia.
Qed.

(** One call: it answers [true] exactly when the arrivals of its serial reach
    a multiple of the pin count, and the table keeps the remainders. *)
Lemma sb_add_reflects n adds b p s : 0 < n →
  sb_reflects n adds b →
  (sb_add p s b).1 = bool_decide (arrivals s (adds ++ [(p, s)]) mod n = 0) ∧
  sb_reflects n (adds ++ [(p, s)]) (sb_add p s b).2.
Proof.
  intros Hn [Hpc Hlk]. unfold sb_add, sb_reflects. rewrite Hpc.
  assert (Hdef : default 0 (sb_lookup b !! s) = arrivals s adds mod n).
  { rewrite Hlk. case_bool_decide as E; cbn; lia. }
  rewrite Hdef.
  assert (Hs : arrivals s (adds ++ [(p, s)]) = arrivals s adds + 1).
  { rewrite arrivals_snoc. by rewrite bool_decide_true. }
  assert (Hother : ∀ t, t ≠ s → arrivals t (adds ++ [(p, s)]) = arrivals t adds).
  { intros t Ht. rewrite arrivals_snoc, bool_decide_false by done. lia. }
  destruct (mod_succ_case (arrivals s adds) n Hn) as [[E1 E2]|[E1 [E2 E3]]].
  - rewrite (bool_decide_true (_ = n)) by done. cbn. rewrite Hs, E2.
    split_and!; [done|done|]. intros t. destruct (decide (t = s)) as [->|Ht].
    + by rewrite lookup_delete_eq, Hs, E2.
    + by rewrite lookup_delete_ne, Hother, Hlk.
  - rewrite (bool_decide_false (_ = n)) by done. cbn. rewrite Hs, E2.
    rewrite (bool_decide_false (_ = 0)) by done.
    split_and!; [done|done|]. intros t. destruct (decide (t = s)) as [->|Ht].
    + by rewrite lookup_insert_eq, Hs, E2, bool_decide_false.
    + by rewrite lookup_insert_ne, Hother, Hlk.
Qed.

Lemma sb_run_reflects n adds prefix b : 0 < n →
  sb_reflects n prefix b →
  sb_reflects n (prefix ++ adds) (sb_run adds b).2 ∧
  ∀ k p s, adds !! k = Some (p, s) →
    (sb_run adds b).1 !! k =
      Some (bool_decide (arrivals s (prefix ++ take (S k) adds) mod n = 0)).
Proof.
  intros Hn. revert prefix b. induction adds as [|[p s] adds IH]; intros prefix b Hb; cbn.
  - rewrite app_nil_r. split; [done|]. intros k p s. by rewrite lookup_nil.
  - pose proof (sb_add_reflects n prefix b p s Hn Hb) as [Hr Hb1].
    destruct (sb_add p s b) as [r b1]; cbn in Hr, Hb1.
    specialize (IH _ _ Hb1). destruct (sb_run adds b1) as [rs b2]; cbn in *.
    rewrite <-app_assoc in IH; cbn in IH. destruct IH as [IHb IHk].
    split; [done|]. intros [|k] p' s' Hk; cbn in Hk; simplify_eq; cbn.
    + by rewrite firstn_O.
    + etransitivity; [exact (IHk k p' s' Hk)|]. by rewrite <-app_assoc.
Qed.

(** Once every open row is closed the table is empty again: the scoreboard
    keeps no state for serials that were delivered on every pin. *)
Lemma sb_reflects_closed n adds b :
  sb_reflects n adds b → (∀ s, arrivals s adds mod n = 0) → sb_lookup b = ∅.
Proof.
  intros [_ Hlk] Hall. apply map_eq. intros s.
  by rewrite Hlk, lookup_empty, bool_decide_true.
Qed.


