(* ===== verification/Model.v ===== *)
(** The object graph of plvcore: data items, pin connections, pins, pipeline
    elements, the pipeline, and the heap that ties them together.

    Every C++ object lives in a heap cell addressed by a pointer; objects
    refer to each other by pointer, as in the code, so that aliasing (a
    connection seen from its two pins and from the pipeline) is part of the
    model.  Field names are those of the classes with the [m_] dropped and a
    prefix for the class: [pc_] PinConnection, [ip_] IInputPin, [op_]
    IOutputPin, [el_] PipelineElement and its subclasses, [pl_] Pipeline. *)
From S2P Require Export Prelude.
From S2P Require Export Scoreboard.

(** ** Pointers *)
Abbreviation eptr := positive.  (** PipelineElement* *)
Abbreviation iptr := positive.  (** IInputPin* *)
Abbreviation optr := positive.  (** IOutputPin* *)
Abbreviation cptr := positive.  (** PinConnection* *)

(** ** Data items (PinConnection.h) *)

(** A [QVariant] is a Qt object: the core only reads its [userType()] and
    passes it on, so a payload is its type id and a handle for its contents. *)
Record QVariant := mkQVariant { userType : Z; contents : Z }.

Record Data := mkData {
  d_serial : Z;
  d_payload : option QVariant;
  d_null : bool
}.

(** [Data( serial )]: the NULL packet. *)
Definition null_data (serial : Z) : Data := mkData serial None true.
(** [Data( serial, payload )] *)
Definition payload_data (serial : Z) (v : QVariant) : Data := mkData serial (Some v) false.

#[export] Instance QVariant_eq_dec : EqDecision QVariant.
Proof. solve_decision. Defined.
#[export] Instance Data_eq_dec : EqDecision Data.
Proof. solve_decision. Defined.

(** ** Pin connections *)
Record PinConnection := mkConn {
  pc_id : Z;
  pc_producer : option optr;
  pc_consumer : option iptr;
  pc_queue : list Data
}.

Definition pc_set_queue (q : list Data) (c : PinConnection) : PinConnection :=
  mkConn (pc_id c) (pc_producer c) (pc_consumer c) q.
(** [m_producer = 0; m_consumer = 0] *)
Definition pc_clear_ends (c : PinConnection) : PinConnection :=
  mkConn (pc_id c) None None (pc_queue c).

(** ** Pins *)
Inductive Required := CONNECTION_REQUIRED | CONNECTION_OPTIONAL.
Inductive Synchronized := CONNECTION_SYNCHRONOUS | CONNECTION_ASYNCHRONOUS.
Inductive DataGuarantee := CONNECTION_GUARANTEES_DATA | CONNECTION_DATA_MAY_BE_NULL.

(** The concrete pin classes: [InputPin<T>]/[OutputPin<T>], [CvMatData..Pin]
    and [DynamicInputPin] (input only). *)
Inductive PinClass := TypedPin | CvMatPin | DynamicPin.

#[export] Instance Required_eq_dec : EqDecision Required.
Proof. solve_decision. Defined.
#[export] Instance Synchronized_eq_dec : EqDecision Synchronized.
Proof. solve_decision. Defined.
#[export] Instance DataGuarantee_eq_dec : EqDecision DataGuarantee.
Proof. solve_decision. Defined.
#[export] Instance PinClass_eq_dec : EqDecision PinClass.
Proof. solve_decision. Defined.

Record IInputPin := mkIn {
  ip_id : Z;
  ip_name : string;
  ip_owner : eptr;              (** m_pleOwner and m_consumer: the same element *)
  ip_required : Required;
  ip_synchronous : Synchronized;
  ip_guarantee : DataGuarantee;
  ip_class : PinClass;
  ip_typeId : Z;                (** getTypeId() *)
  ip_connection : option cptr;
  ip_called : bool
}.

Definition ip_set_id (i : Z) (p : IInputPin) : IInputPin :=
  mkIn i (ip_name p) (ip_owner p) (ip_required p) (ip_synchronous p)
    (ip_guarantee p) (ip_class p) (ip_typeId p) (ip_connection p) (ip_called p).
Definition ip_set_typeId (t : Z) (p : IInputPin) : IInputPin :=
  mkIn (ip_id p) (ip_name p) (ip_owner p) (ip_required p) (ip_synchronous p)
    (ip_guarantee p) (ip_class p) t (ip_connection p) (ip_called p).
Definition ip_set_connection (c : option cptr) (p : IInputPin) : IInputPin :=
  mkIn (ip_id p) (ip_name p) (ip_owner p) (ip_required p) (ip_synchronous p)
    (ip_guarantee p) (ip_class p) (ip_typeId p) c (ip_called p).
Definition ip_set_called (b : bool) (p : IInputPin) : IInputPin :=
  mkIn (ip_id p) (ip_name p) (ip_owner p) (ip_required p) (ip_synchronous p)
    (ip_guarantee p) (ip_class p) (ip_typeId p) (ip_connection p) b.

(** The predicates of IInputPin.h. *)
Definition ip_isRequired (p : IInputPin) : bool :=
  bool_decide (ip_required p = CONNECTION_REQUIRED).
Definition ip_isSynchronous (p : IInputPin) : bool :=
  bool_decide (ip_synchronous p = CONNECTION_SYNCHRONOUS).
Definition ip_isAsynchronous (p : IInputPin) : bool :=
  bool_decide (ip_synchronous p = CONNECTION_ASYNCHRONOUS).
Definition ip_isDataGuaranteed (p : IInputPin) : bool :=
  bool_decide (ip_guarantee p = CONNECTION_GUARANTEES_DATA).
Definition ip_isConnected (p : IInputPin) : bool :=
  bool_decide (is_Some (ip_connection p)).
Definition ip_isDynamicallyTyped (p : IInputPin) : bool :=
  bool_decide (ip_class p = DynamicPin).

Record IOutputPin := mkOut {
  op_id : Z;
  op_name : string;
  op_owner : eptr;              (** m_pleOwner and m_producer: the same element *)
  op_class : PinClass;
  op_typeId : Z;
  op_connections : list cptr;
  op_called : bool
}.

Definition op_set_id (i : Z) (p : IOutputPin) : IOutputPin :=
  mkOut i (op_name p) (op_owner p) (op_class p) (op_typeId p) (op_connections p) (op_called p).
Definition op_set_connections (l : list cptr) (p : IOutputPin) : IOutputPin :=
  mkOut (op_id p) (op_name p) (op_owner p) (op_class p) (op_typeId p) l (op_called p).
Definition op_set_called (b : bool) (p : IOutputPin) : IOutputPin :=
  mkOut (op_id p) (op_name p) (op_owner p) (op_class p) (op_typeId p) (op_connections p) b.

Definition op_isConnected (p : IOutputPin) : bool :=
  bool_decide (op_connections p ≠ []).

(** ** Pipeline elements *)

(** [PipelineElement::State], in declaration order: the code compares states
    with [<] and [>=]. *)
Inductive State :=
  | PLE_UNDEFINED | PLE_INITIALIZED | PLE_STARTED | PLE_DISPATCHED
  | PLE_RUNNING | PLE_DONE | PLE_ERROR.

Definition state_rank (s : State) : Z :=
  match s with
  | PLE_UNDEFINED => 0 | PLE_INITIALIZED => 1 | PLE_STARTED => 2
  | PLE_DISPATCHED => 3 | PLE_RUNNING => 4 | PLE_DONE => 5 | PLE_ERROR => 6
  end.

(** [PlvErrorType] (plvglobal.h) *)
Inductive PlvErrorType :=
  | PlvNoError | PlvNonFatalError | PlvPipelineInitError
  | PlvPipelineRuntimeError | PlvFatalError.

(** [PlvMessageType] (plvglobal.h) *)
Inductive PlvMessageType :=
  | PlvDebugMessage | PlvNotifyMessage | PlvWarningMessage | PlvErrorMessage.

(** Qt's message types, as far as the program names them. *)
Inductive QtMsgType := QtDebugMsg | QtWarningMsg | QtCriticalMsg | QtFatalMsg.

#[export] Instance State_eq_dec : EqDecision State.
Proof. solve_decision. Defined.
#[export] Instance PlvErrorType_eq_dec : EqDecision PlvErrorType.
Proof. solve_decision. Defined.
#[export] Instance QtMsgType_eq_dec : EqDecision QtMsgType.
Proof. solve_decision. Defined.

(** Which subclass an element is: [PipelineProducer] (a DataProducer) or
    [PipelineProcessor] (a DataConsumer, which is a DataProducer too). *)
Inductive ElementKind := KProducer | KProcessor.
#[export] Instance ElementKind_eq_dec : EqDecision ElementKind.
Proof. solve_decision. Defined.

Record Element := mkElement {
  el_kind : ElementKind;
  el_name : string;
  el_id : Z;
  el_state : State;
  el_errorType : PlvErrorType;
  el_errorString : string;
  el_serial : Z;
  el_hasPipeline : bool;          (** m_pipeline points to the pipeline *)
  el_inputPins : gmap Z iptr;     (** QHash *)
  el_outputPins : gmap Z optr;    (** QHash *)
  el_hasAsynchronousPin : bool;
  el_hasSynchronousPin : bool;
  el_scoreboard : ScoreBoard
}.

Definition el_set_id (i : Z) (e : Element) : Element :=
  mkElement (el_kind e) (el_name e) i (el_state e) (el_errorType e) (el_errorString e)
    (el_serial e) (el_hasPipeline e) (el_inputPins e) (el_outputPins e)
    (el_hasAsynchronousPin e) (el_hasSynchronousPin e) (el_scoreboard e).
Definition el_set_state (s : State) (e : Element) : Element :=
  mkElement (el_kind e) (el_name e) (el_id e) s (el_errorType e) (el_errorString e)
    (el_serial e) (el_hasPipeline e) (el_inputPins e) (el_outputPins e)
    (el_hasAsynchronousPin e) (el_hasSynchronousPin e) (el_scoreboard e).
Definition el_set_error (t : PlvErrorType) (msg : string) (e : Element) : Element :=
  mkElement (el_kind e) (el_name e) (el_id e) (el_state e) t msg
    (el_serial e) (el_hasPipeline e) (el_inputPins e) (el_outputPins e)
    (el_hasAsynchronousPin e) (el_hasSynchronousPin e) (el_scoreboard e).
Definition el_set_serial (n : Z) (e : Element) : Element :=
  mkElement (el_kind e) (el_name e) (el_id e) (el_state e) (el_errorType e) (el_errorString e)
    n (el_hasPipeline e) (el_inputPins e) (el_outputPins e)
    (el_hasAsynchronousPin e) (el_hasSynchronousPin e) (el_scoreboard e).
Definition el_set_pipeline (e : Element) : Element :=
  mkElement (el_kind e) (el_name e) (el_id e) (el_state e) (el_errorType e) (el_errorString e)
    (el_serial e) true (el_inputPins e) (el_outputPins e)
    (el_hasAsynchronousPin e) (el_hasSynchronousPin e) (el_scoreboard e).
Definition el_set_inputPins (m : gmap Z iptr) (e : Element) : Element :=
  mkElement (el_kind e) (el_name e) (el_id e) (el_state e) (el_errorType e) (el_errorString e)
    (el_serial e) (el_hasPipeline e) m (el_outputPins e)
    (el_hasAsynchronousPin e) (el_hasSynchronousPin e) (el_scoreboard e).
Definition el_set_outputPins (m : gmap Z optr) (e : Element) : Element :=
  mkElement (el_kind e) (el_name e) (el_id e) (el_state e) (el_errorType e) (el_errorString e)
    (el_serial e) (el_hasPipeline e) (el_inputPins e) m
    (el_hasAsynchronousPin e) (el_hasSynchronousPin e) (el_scoreboard e).
Definition el_set_sync (hasAsync hasSync : bool) (e : Element) : Element :=
  mkElement (el_kind e) (el_name e) (el_id e) (el_state e) (el_errorType e) (el_errorString e)
    (el_serial e) (el_hasPipeline e) (el_inputPins e) (el_outputPins e)
    hasAsync hasSync (el_scoreboard e).
Definition el_set_scoreboard (b : ScoreBoard) (e : Element) : Element :=
  mkElement (el_kind e) (el_name e) (el_id e) (el_state e) (el_errorType e) (el_errorString e)
    (el_serial e) (el_hasPipeline e) (el_inputPins e) (el_outputPins e)
    (el_hasAsynchronousPin e) (el_hasSynchronousPin e) b.

(** ** The pipeline *)

(** A [RunItem] (Pipeline.h).  [ri_result] is the [QFuture<bool>]: a handle
    into the table of futures of the heap, valid once dispatched. *)
Record RunItem := mkRunItem {
  ri_element : eptr;
  ri_serial : Z;
  ri_dispatched : bool;
  ri_result : positive
}.

Record Pipeline := mkPipeline {
  pl_children : gmap Z eptr;                 (** QMap *)
  pl_connections : gmap Z cptr;              (** QMap *)
  pl_producers : gmap Z eptr;                (** QMap *)
  pl_processors : gmap Z eptr;               (** QMap *)
  pl_serial : Z;
  pl_running : bool;
  pl_readyQueue : gmap Z (list RunItem);     (** QHash *)
  pl_runQueue : gmap Z RunItem;              (** QHash *)
  pl_runQueueThreshold : Z;
  pl_ordering : list eptr;
  pl_numFrames : Z;           (** m_numFramesSinceLastFPSCalculation *)
  pl_changed : bool;
  pl_filename : string;
  pl_testCount : Z;
  pl_heartbeatActive : bool;  (** the QTimer is running *)
  pl_heartbeatSlots : nat     (** connections of its timeout to schedule() *)
}.

Definition pl_set_children (v : gmap Z eptr) (p : Pipeline) : Pipeline :=
  mkPipeline
    v (pl_connections p) (pl_producers p) (pl_processors p)
    (pl_serial p) (pl_running p) (pl_readyQueue p) (pl_runQueue p)
    (pl_runQueueThreshold p) (pl_ordering p) (pl_numFrames p) (pl_changed p)
    (pl_filename p) (pl_testCount p) (pl_heartbeatActive p) (pl_heartbeatSlots p).
Definition pl_set_connections (v : gmap Z cptr) (p : Pipeline) : Pipeline :=
  mkPipeline
    (pl_children p) v (pl_producers p) (pl_processors p)
    (pl_serial p) (pl_running p) (pl_readyQueue p) (pl_runQueue p)
    (pl_runQueueThreshold p) (pl_ordering p) (pl_numFrames p) (pl_changed p)
    (pl_filename p) (pl_testCount p) (pl_heartbeatActive p) (pl_heartbeatSlots p).
Definition pl_set_producers (v : gmap Z eptr) (p : Pipeline) : Pipeline :=
  mkPipeline
    (pl_children p) (pl_connections p) v (pl_processors p)
    (pl_serial p) (pl_running p) (pl_readyQueue p) (pl_runQueue p)
    (pl_runQueueThreshold p) (pl_ordering p) (pl_numFrames p) (pl_changed p)
    (pl_filename p) (pl_testCount p) (pl_heartbeatActive p) (pl_heartbeatSlots p).
Definition pl_set_processors (v : gmap Z eptr) (p : Pipeline) : Pipeline :=
  mkPipeline
    (pl_children p) (pl_connections p) (pl_producers p) v
    (pl_serial p) (pl_running p) (pl_readyQueue p) (pl_runQueue p)
    (pl_runQueueThreshold p) (pl_ordering p) (pl_numFrames p) (pl_changed p)
    (pl_filename p) (pl_testCount p) (pl_heartbeatActive p) (pl_heartbeatSlots p).
Definition pl_set_serial (v : Z) (p : Pipeline) : Pipeline :=
  mkPipeline
    (pl_children p) (pl_connections p) (pl_producers p) (pl_processors p)
    v (pl_running p) (pl_readyQueue p) (pl_runQueue p)
    (pl_runQueueThreshold p) (pl_ordering p) (pl_numFrames p) (pl_changed p)
    (pl_filename p) (pl_testCount p) (pl_heartbeatActive p) (pl_heartbeatSlots p).
Definition pl_set_running (v : bool) (p : Pipeline) : Pipeline :=
  mkPipeline
    (pl_children p) (pl_connections p) (pl_producers p) (pl_processors p)
    (pl_serial p) v (pl_readyQueue p) (pl_runQueue p)
    (pl_runQueueThreshold p) (pl_ordering p) (pl_numFrames p) (pl_changed p)
    (pl_filename p) (pl_testCount p) (pl_heartbeatActive p) (pl_heartbeatSlots p).
Definition pl_set_readyQueue (v : gmap Z (list RunItem)) (p : Pipeline) : Pipeline :=
  mkPipeline
    (pl_children p) (pl_connections p) (pl_producers p) (pl_processors p)
    (pl_serial p) (pl_running p) v (pl_runQueue p)
    (pl_runQueueThreshold p) (pl_ordering p) (pl_numFrames p) (pl_changed p)
    (pl_filename p) (pl_testCount p) (pl_heartbeatActive p) (pl_heartbeatSlots p).
Definition pl_set_runQueue (v : gmap Z RunItem) (p : Pipeline) : Pipeline :=
  mkPipeline
    (pl_children p) (pl_connections p) (pl_producers p) (pl_processors p)
    (pl_serial p) (pl_running p) (pl_readyQueue p) v
    (pl_runQueueThreshold p) (pl_ordering p) (pl_numFrames p) (pl_changed p)
    (pl_filename p) (pl_testCount p) (pl_heartbeatActive p) (pl_heartbeatSlots p).
Definition pl_set_runQueueThreshold (v : Z) (p : Pipeline) : Pipeline :=
  mkPipeline
    (pl_children p) (pl_connections p) (pl_producers p) (pl_processors p)
    (pl_serial p) (pl_running p) (pl_readyQueue p) (pl_runQueue p)
    v (pl_ordering p) (pl_numFrames p) (pl_changed p)
    (pl_filename p) (pl_testCount p) (pl_heartbeatActive p) (pl_heartbeatSlots p).
Definition pl_set_ordering (v : list eptr) (p : Pipeline) : Pipeline :=
  mkPipeline
    (pl_children p) (pl_connections p) (pl_producers p) (pl_processors p)
    (pl_serial p) (pl_running p) (pl_readyQueue p) (pl_runQueue p)
    (pl_runQueueThreshold p) v (pl_numFrames p) (pl_changed p)
    (pl_filename p) (pl_testCount p) (pl_heartbeatActive p) (pl_heartbeatSlots p).
Definition pl_set_numFrames (v : Z) (p : Pipeline) : Pipeline :=
  mkPipeline
    (pl_children p) (pl_connections p) (pl_producers p) (pl_processors p)
    (pl_serial p) (pl_running p) (pl_readyQueue p) (pl_runQueue p)
    (pl_runQueueThreshold p) (pl_ordering p) v (pl_changed p)
    (pl_filename p) (pl_testCount p) (pl_heartbeatActive p) (pl_heartbeatSlots p).
Definition pl_set_changed (v : bool) (p : Pipeline) : Pipeline :=
  mkPipeline
    (pl_children p) (pl_connections p) (pl_producers p) (pl_processors p)
    (pl_serial p) (pl_running p) (pl_readyQueue p) (pl_runQueue p)
    (pl_runQueueThreshold p) (pl_ordering p) (pl_numFrames p) v
    (pl_filename p) (pl_testCount p) (pl_heartbeatActive p) (pl_heartbeatSlots p).
Definition pl_set_filename (v : string) (p : Pipeline) : Pipeline :=
  mkPipeline
    (pl_children p) (pl_connections p) (pl_producers p) (pl_processors p)
    (pl_serial p) (pl_running p) (pl_readyQueue p) (pl_runQueue p)
    (pl_runQueueThreshold p) (pl_ordering p) (pl_numFrames p) (pl_changed p)
    v (pl_testCount p) (pl_heartbeatActive p) (pl_heartbeatSlots p).
Definition pl_set_testCount (v : Z) (p : Pipeline) : Pipeline :=
  mkPipeline
    (pl_children p) (pl_connections p) (pl_producers p) (pl_processors p)
    (pl_serial p) (pl_running p) (pl_readyQueue p) (pl_runQueue p)
    (pl_runQueueThreshold p) (pl_ordering p) (pl_numFrames p) (pl_changed p)
    (pl_filename p) v (pl_heartbeatActive p) (pl_heartbeatSlots p).
Definition pl_set_heartbeatActive (v : bool) (p : Pipeline) : Pipeline :=
  mkPipeline
    (pl_children p) (pl_connections p) (pl_producers p) (pl_processors p)
    (pl_serial p) (pl_running p) (pl_readyQueue p) (pl_runQueue p)
    (pl_runQueueThreshold p) (pl_ordering p) (pl_numFrames p) (pl_changed p)
    (pl_filename p) (pl_testCount p) v (pl_heartbeatSlots p).
Definition pl_set_heartbeatSlots (v : nat) (p : Pipeline) : Pipeline :=
  mkPipeline
    (pl_children p) (pl_connections p) (pl_producers p) (pl_processors p)
    (pl_serial p) (pl_running p) (pl_readyQueue p) (pl_runQueue p)
    (pl_runQueueThreshold p) (pl_ordering p) (pl_numFrames p) (pl_changed p)
    (pl_filename p) (pl_testCount p) (pl_heartbeatActive p) v.

(** Signals emitted to the outside, in order.  Those about elements and
    connections are emitted twice in a row, with the id and with the pointer. *)
Inductive Signal :=
  | elementAdded (id : Z) (e : eptr)
  | elementRemoved (id : Z) (e : eptr)
  | connectionAdded (id : Z) (c : cptr)
  | connectionRemoved (id : Z) (c : cptr)
  | pipelineMessage (type : QtMsgType) (msg : string)
  | pipelineStarted
  | pipelineStopped
  | finished
  | stepTaken (serial : Z)
  | framesPerSecond (fps : Z)
  | pipelineLoaded (filename : string)
  | pipelineSaved (filename : string)
  | inputPinAdded (p : iptr)
  | inputPinRemoved (e : eptr) (id : Z)
  | outputPinAdded (p : optr)
  | outputPinRemoved (e : eptr) (id : Z)
  | newDataSignal (p : optr) (serial : Z) (v : QVariant)
  | pinError (p : iptr) (msg : string).

(** ** The heap *)

(** A job is a call [element->run( serial )] handed to the thread pool by
    [QtConcurrent::run]; its future is the key it is filed under. *)
Record World := mkWorld {
  w_elems : gmap eptr Element;
  w_ins : gmap iptr IInputPin;
  w_outs : gmap optr IOutputPin;
  w_conns : gmap cptr PinConnection;
  w_pipe : Pipeline;
  w_jobs : gmap positive (eptr * Z);
  w_futures : gmap positive bool;   (** results of the finished jobs *)
  w_signals : list Signal
}.

Definition set_elems (f : gmap eptr Element → gmap eptr Element) (w : World) : World :=
  mkWorld (f (w_elems w)) (w_ins w) (w_outs w) (w_conns w) (w_pipe w) (w_jobs w)
    (w_futures w) (w_signals w).
Definition set_ins (f : gmap iptr IInputPin → gmap iptr IInputPin) (w : World) : World :=
  mkWorld (w_elems w) (f (w_ins w)) (w_outs w) (w_conns w) (w_pipe w) (w_jobs w)
    (w_futures w) (w_signals w).
Definition set_outs (f : gmap optr IOutputPin → gmap optr IOutputPin) (w : World) : World :=
  mkWorld (w_elems w) (w_ins w) (f (w_outs w)) (w_conns w) (w_pipe w) (w_jobs w)
    (w_futures w) (w_signals w).
Definition set_conns (f : gmap cptr PinConnection → gmap cptr PinConnection) (w : World) : World :=
  mkWorld (w_elems w) (w_ins w) (w_outs w) (f (w_conns w)) (w_pipe w) (w_jobs w)
    (w_futures w) (w_signals w).
Definition set_pipe (f : Pipeline → Pipeline) (w : World) : World :=
  mkWorld (w_elems w) (w_ins w) (w_outs w) (w_conns w) (f (w_pipe w)) (w_jobs w)
    (w_futures w) (w_signals w).
Definition set_jobs (j : gmap positive (eptr * Z)) (fs : gmap positive bool) (w : World) : World :=
  mkWorld (w_elems w) (w_ins w) (w_outs w) (w_conns w) (w_pipe w) j fs (w_signals w).
Definition add_signal (s : Signal) (w : World) : World :=
  mkWorld (w_elems w) (w_ins w) (w_outs w) (w_conns w) (w_pipe w) (w_jobs w)
    (w_futures w) (w_signals w ++ [s]).

(** ** Memory access *)
Abbreviation W := (M World).

(** Dereference: a pointer to no object faults. *)
Definition deref {A} (heap : World → gmap positive A) (p : positive) : W A :=
  o ← gets (λ w, heap w !! p) ;
  match o with Some x => mret x | None => abort NullPointer end.

(** Dereference a pointer member that may be null. *)
Definition non_null (p : option positive) : W positive :=
  match p with Some q => mret q | None => abort NullPointer end.

Definition get_elem : eptr → W Element := deref w_elems.
Definition get_in : iptr → W IInputPin := deref w_ins.
Definition get_out : optr → W IOutputPin := deref w_outs.
Definition get_conn : cptr → W PinConnection := deref w_conns.
Definition get_pipe : W Pipeline := gets w_pipe.

Definition upd_elem (e : eptr) (f : Element → Element) : W unit :=
  x ← get_elem e ; modify (set_elems (insert e (f x))).
Definition upd_in (i : iptr) (f : IInputPin → IInputPin) : W unit :=
  x ← get_in i ; modify (set_ins (insert i (f x))).
Definition upd_out (o : optr) (f : IOutputPin → IOutputPin) : W unit :=
  x ← get_out o ; modify (set_outs (insert o (f x))).
Definition upd_conn (c : cptr) (f : PinConnection → PinConnection) : W unit :=
  x ← get_conn c ; modify (set_conns (insert c (f x))).
Definition upd_pipe (f : Pipeline → Pipeline) : W unit := modify (set_pipe f).
Definition emit (s : Signal) : W unit := modify (add_signal s).

Section access.
Implicit Types w : World.

Lemma run_get_elem e w x : w_elems w !! e = Some x → get_elem e w = (Ok x, w).
Proof. intros H. unfold get_elem, deref, gets, mbind, M_bind. by rewrite H. Qed.
Lemma run_get_in i w x : w_ins w !! i = Some x → get_in i w = (Ok x, w).
Proof. intros H. unfold get_in, deref, gets, mbind, M_bind. by rewrite H. Qed.
Lemma run_get_out o w x : w_outs w !! o = Some x → get_out o w = (Ok x, w).
Proof. intros H. unfold get_out, deref, gets, mbind, M_bind. by rewrite H. Qed.
Lemma run_get_conn c w x : w_conns w !! c = Some x → get_conn c w = (Ok x, w).
Proof. intros H. unfold get_conn, deref, gets, mbind, M_bind. by rewrite H. Qed.

Lemma run_upd_elem e f w x : w_elems w !! e = Some x →
  upd_elem e f w = (Ok tt, set_elems (insert e (f x)) w).
Proof. intros H. unfold upd_elem, mbind, M_bind. by erewrite run_get_elem. Qed.
Lemma run_upd_in i f w x : w_ins w !! i = Some x →
  upd_in i f w = (Ok tt, set_ins (insert i (f x)) w).
Proof. intros H. unfold upd_in, mbind, M_bind. by erewrite run_get_in. Qed.
Lemma run_upd_out o f w x : w_outs w !! o = Some x →
  upd_out o f w = (Ok tt, set_outs (insert o (f x)) w).
Proof. intros H. unfold upd_out, mbind, M_bind. by erewrite run_get_out. Qed.
Lemma run_upd_conn c f w x : w_conns w !! c = Some x →
  upd_conn c f w = (Ok tt, set_conns (insert c (f x)) w).
Proof. intros H. unfold upd_conn, mbind, M_bind. by erewrite run_get_conn. Qed.
End access.

(** Symbolic execution: [run] replaces the first call of a sequence by its
    outcome, for the primitive calls and for outcomes among the hypotheses. *)
Ltac solve_lookup :=
  first [ done
        | cbn; done
        | cbn; rewrite ?lookup_insert_eq; done
        | cbn; rewrite !lookup_insert_ne by done; done
        | cbn; by simplify_map_eq ].
Ltac solve_prim :=
  first [ eassumption
        | eapply run_get_elem; solve_lookup
        | eapply run_get_in; solve_lookup
        | eapply run_get_out; solve_lookup
        | eapply run_get_conn; solve_lookup
        | eapply run_upd_elem; solve_lookup
        | eapply run_upd_in; solve_lookup
        | eapply run_upd_out; solve_lookup
        | eapply run_upd_conn; solve_lookup
        | reflexivity ].
Ltac run := erewrite run_bind by solve_prim; cbv beta iota zeta.
Ltac runs := repeat run.
