(* ===== verification/Pins.v ===== *)
(** Pin connections and pins: PinConnection.cpp, IInputPin.cpp, IOutputPin.cpp,
    DynamicInputPin.h, and the arrival of data at a consumer
    (DataConsumer::newData, Pipeline::pipelineDataConsumerReady), which
    IOutputPin::putVariant triggers. *)
From S2P Require Export Model.

(** Qt's registry of meta types. *)
Class QMetaType := {
  isRegistered : Z → bool;
  typeName : Z → string
}.

(** A registry for closed examples: every positive id is registered. *)
Definition example_types : QMetaType :=
  {| isRegistered t := bool_decide (0 < t); typeName _ := "T" |}.

(** ** PinConnection: the queue *)

(** The name of the owner of an end of the connection, for error messages. *)
Definition owner_name_out (o : option optr) : W string :=
  p ← non_null o ; pin ← get_out p ; e ← get_elem (op_owner pin) ; mret (el_name e).
Definition owner_name_in (i : option iptr) : W string :=
  p ← non_null i ; pin ← get_in p ; e ← get_elem (ip_owner pin) ; mret (el_name e).

Definition conn_throw_empty {A} (method : string) (x : PinConnection) : W A :=
  producerName ← owner_name_out (pc_producer x) ;
  consumerName ← owner_name_in (pc_consumer x) ;
  throw (RuntimeError ("Illegal: method " +:+ method +:+ "() called on PinConnection" +:+
    "which has no data available with producer owner " +:+ producerName +:+
    " and consumer owner " +:+ consumerName)).

Definition conn_hasDataItems (c : cptr) : W bool :=
  x ← get_conn c ; mret (bool_decide (pc_queue x ≠ [])).

Definition conn_size (c : cptr) : W Z :=
  x ← get_conn c ; mret (i32 (Z.of_nat (length (pc_queue x)))).

Definition conn_get (c : cptr) : W Data :=
  x ← get_conn c ;
  match pc_queue x with
  | [] => conn_throw_empty "get" x
  | d :: q => upd_conn c (pc_set_queue q) ;; mret d
  end.

Definition conn_peek (c : cptr) : W Data :=
  x ← get_conn c ;
  match pc_queue x with
  | [] => conn_throw_empty "peek" x
  | d :: _ => mret d
  end.

(** [peek( serial, isNull )] *)
Definition conn_peekNext (c : cptr) : W (Z * bool) :=
  x ← get_conn c ;
  match pc_queue x with
  | [] => conn_throw_empty "peek" x
  | d :: _ => mret (d_serial d, d_null d)
  end.

(** The loop of [fastforward]: pop until the front has serial [target]. *)
Fixpoint ff_queue (target : Z) (q : list Data) : bool * list Data :=
  match q with
  | [] => (false, [])
  | d :: q' => if bool_decide (d_serial d = target) then (true, q) else ff_queue target q'
  end.

Definition conn_fastforward (c : cptr) (target : Z) : W bool :=
  x ← get_conn c ;
  let '(success, q) := ff_queue target (pc_queue x) in
  upd_conn c (pc_set_queue q) ;; mret success.

Definition conn_flush (c : cptr) : W unit := upd_conn c (pc_set_queue []).

Definition conn_isSynchronous (c : cptr) : W bool :=
  x ← get_conn c ; i ← non_null (pc_consumer x) ; p ← get_in i ; mret (ip_isSynchronous p).

Definition conn_isAsynchronous (c : cptr) : W bool :=
  x ← get_conn c ; i ← non_null (pc_consumer x) ; p ← get_in i ; mret (ip_isAsynchronous p).

(** ** Arrival of data at a consumer *)

(** [RunItem( element, serial )] *)
Definition new_RunItem (e : eptr) (serial : Z) : RunItem := mkRunItem e serial false 1.

(** Pipeline::pipelineDataConsumerReady.  [m_readyQueue.value( id )] is a null
    pointer when the consumer has no queue. *)
Definition pipelineDataConsumerReady (serial : Z) (consumer : eptr) : W unit :=
  x ← get_elem consumer ;
  pl ← get_pipe ;
  match pl_readyQueue pl !! el_id x with
  | None => abort NullPointer
  | Some l =>
      upd_pipe (pl_set_readyQueue
        (<[el_id x := l ++ [new_RunItem consumer serial]]> (pl_readyQueue pl)))
  end.

(** DataConsumer::newData *)
Definition newData (consumer : eptr) (pin : iptr) (serial : Z) : W unit :=
  x ← get_elem consumer ;
  assert (el_hasPipeline x) ;;
  if el_hasSynchronousPin x then
    p ← get_in pin ;
    if ip_isAsynchronous p then mret tt
    else
      assert (bool_decide (el_serial x < serial) || bool_decide (serial = 0)) ;;
      let '(complete, b) := sb_add (ip_id p) serial (el_scoreboard x) in
      upd_elem consumer (el_set_scoreboard b) ;;
      when complete (pipelineDataConsumerReady serial consumer)
  else pipelineDataConsumerReady serial consumer.

(** IInputPin::acceptData *)
Definition in_acceptData (i : iptr) (d : Data) : W unit :=
  p ← get_in i ; newData (ip_owner p) i (d_serial d).

(** PinConnection::put: the item is queued before the consumer is told. *)
Definition conn_put (c : cptr) (d : Data) : W unit :=
  x ← get_conn c ;
  upd_conn c (pc_set_queue (pc_queue x ++ [d])) ;;
  i ← non_null (pc_consumer x) ;
  in_acceptData i d.

(** ** IInputPin *)

Definition in_setConnection (i : iptr) (c : cptr) : W unit :=
  p ← get_in i ;
  assert (negb (ip_isConnected p)) ;;
  upd_in i (ip_set_connection (Some c)).

Definition in_removeConnection (i : iptr) : W unit :=
  p ← get_in i ;
  assert (ip_isConnected p) ;;
  upd_in i (ip_set_connection None).

Definition in_getConnection (i : iptr) : W cptr :=
  p ← get_in i ;
  assert (ip_isConnected p) ;;
  non_null (ip_connection p).

Definition in_hasDataItems (i : iptr) : W bool :=
  p ← get_in i ;
  match ip_connection p with
  | Some c => conn_hasDataItems c
  | None => mret false
  end.

Definition in_peekNext (i : iptr) : W (Z * bool) :=
  p ← get_in i ;
  assert (ip_isConnected p) ;;
  c ← non_null (ip_connection p) ;
  conn_peekNext c.

Definition in_hasData (i : iptr) : W bool :=
  has ← in_hasDataItems i ;
  if (has : bool) then '(_, isNull) ← in_peekNext i ; mret (negb isNull) else mret false.

Definition in_fastforward (i : iptr) (target : Z) : W bool :=
  p ← get_in i ; c ← non_null (ip_connection p) ; conn_fastforward c target.

Definition in_flushConnection (i : iptr) : W unit :=
  p ← get_in i ; c ← non_null (ip_connection p) ; conn_flush c.

Definition in_pre (i : iptr) : W unit := upd_in i (ip_set_called false).

Definition in_post (i : iptr) : W unit :=
  p ← get_in i ;
  when (ip_isConnected p && ip_isSynchronous p && negb (ip_called p))
    (e ← get_elem (ip_owner p) ;
     throw (RuntimeError ("Processor " +:+ el_name e +:+
       " did not call mandatory get() or clear() on input Pin " +:+ ip_name p +:+ "."))).

Definition in_removeFirst (i : iptr) : W unit :=
  p ← get_in i ;
  assert (ip_isConnected p) ;;
  c ← non_null (ip_connection p) ;
  conn_get c ;; mret tt.

(** The guard [clear] and [getVariant] share: not called before in this
    process call, and a data item is there.  The flag is set in between. *)
Definition in_take_guard (i : iptr) (twice nodata : string) : W unit :=
  p ← get_in i ;
  e ← get_elem (ip_owner p) ;
  when (ip_called p) (throw (RuntimeError ("Illegal: method " +:+ twice +:+
    " called twice during process() on InputPin " +:+ ip_name p +:+
    " of processor " +:+ el_name e +:+ "."))) ;;
  upd_in i (ip_set_called true) ;;
  has ← in_hasDataItems i ;
  when (negb has) (throw (RuntimeError ("Illegal: method " +:+ nodata +:+
    " called on InputPin which has no data available. Pin name is " +:+ ip_name p +:+
    " of processor " +:+ el_name e))).

Definition in_clear (i : iptr) : W unit :=
  in_take_guard i "clear() or get()" "clear()" ;;
  in_removeFirst i.

Definition in_getVariant (i : iptr) : W QVariant :=
  in_take_guard i "get()" "get()" ;;
  p ← get_in i ;
  c ← non_null (ip_connection p) ;
  d ← conn_get c ;
  match d_null d, d_payload d with
  | false, Some v => mret v
  | _, _ =>
      e ← get_elem (ip_owner p) ;
      throw (RuntimeError ("Illegal: method get() called on InputPin which has a NULL data item available. Pin name is "
        +:+ ip_name p +:+ " of processor " +:+ el_name e))
  end.

(** ** IOutputPin *)

Definition dquote : string := String (Ascii.ascii_of_nat 34) EmptyString.

Definition out_addConnection (o : optr) (c : cptr) : W unit :=
  upd_out o (λ p, op_set_connections (op_connections p ++ [c]) p).

(** [erase] the first occurrence. *)
Fixpoint erase_first (c : cptr) (l : list cptr) : option (list cptr) :=
  match l with
  | [] => None
  | x :: l' => if bool_decide (x = c) then Some l' else (x ::.) <$> erase_first c l'
  end.

Definition out_removeConnection (o : optr) (c : cptr) : W unit :=
  p ← get_out o ;
  match erase_first c (op_connections p) with
  | Some l => upd_out o (op_set_connections l)
  | None => assert false
  end.

(** The loop increments the iterator it has just erased. *)
Definition out_removeConnections (o : optr) : W unit :=
  p ← get_out o ;
  match op_connections p with
  | [] => mret tt
  | _ :: l => upd_out o (op_set_connections l) ;; abort UndefinedBehaviour
  end.

Definition out_getConnections (o : optr) : W (list cptr) :=
  p ← get_out o ; mret (op_connections p).

Definition out_connectionCount (o : optr) : W Z :=
  p ← get_out o ; mret (i32 (Z.of_nat (length (op_connections p)))).

(** [if( size > max ) max = size] over a list of connections. *)
Fixpoint max_size (l : list cptr) (acc : Z) : W Z :=
  match l with
  | [] => mret acc
  | c :: l' =>
      size ← conn_size c ;
      max_size l' (if bool_decide (acc < size) then size else acc)
  end.

Definition out_maxDataOnConnection (o : optr) : W Z :=
  p ← get_out o ; max_size (op_connections p) 0.

Definition out_pre (o : optr) : W unit := upd_out o (op_set_called false).

Definition out_post (o : optr) : W unit :=
  p ← get_out o ;
  when (op_isConnected p && negb (op_called p))
    (e ← get_elem (op_owner p) ;
     for_each (op_connections p) (λ c,
       s ← conn_isSynchronous c ;
       when s (conn_put c (null_data (el_serial e))))).

Definition out_putVariant (o : optr) (serial : Z) (v : QVariant) : W unit :=
  p ← get_out o ;
  e ← get_elem (op_owner p) ;
  when (op_called p) (throw (RuntimeError ("Illegal: method put() called twice during process() on OutputPin. Pin name is "
    +:+ dquote +:+ op_name p +:+ dquote +:+ " of processor " +:+ dquote +:+ el_name e +:+ dquote))) ;;
  upd_out o (op_set_called true) ;;
  emit (newDataSignal o serial v) ;;
  for_each (op_connections p) (λ c, conn_put c (payload_data serial v)).

(** [OutputPin<T>::put]: the serial is that of the current process call. *)
Definition out_put (o : optr) (v : QVariant) : W unit :=
  p ← get_out o ; e ← get_elem (op_owner p) ; out_putVariant o (el_serial e) v.

(** ** Making and breaking connections *)

(** [acceptsConnectionWith]: the CvMatData pins insist on equal types, the
    others have no objection. *)
Definition out_acceptsConnectionWith (o : optr) (i : iptr) : W bool :=
  po ← get_out o ; pi ← get_in i ;
  mret (match op_class po with
        | CvMatPin => bool_decide (ip_typeId pi = op_typeId po)
        | _ => true
        end).
Definition in_acceptsConnectionWith (i : iptr) (o : optr) : W bool :=
  pi ← get_in i ; po ← get_out o ;
  mret (match ip_class pi with
        | CvMatPin => bool_decide (op_typeId po = ip_typeId pi)
        | _ => true
        end).

Section connecting.
Context `{QMetaType}.

(** DynamicInputPin::setTypeId *)
Definition din_setTypeId (i : iptr) (type : Z) : W bool :=
  p ← get_in i ;
  if ip_isConnected p || negb (isRegistered type) then mret false
  else upd_in i (ip_set_typeId type) ;; mret true.

Definition incompatible_msg (po : IOutputPin) (pi : IInputPin) : string :=
  "Cannot connect pins of incompatible type: producer " +:+ op_name po +:+
  " and consumer " +:+ ip_name pi +:+ " with types " +:+ typeName (op_typeId po) +:+
  " and " +:+ typeName (ip_typeId pi).

(** PinConnection::canConnectPins: the answer and the reason. *)
Definition conn_canConnectPins (out : optr) (in_ : iptr) : W (bool * string) :=
  po ← get_out out ; pi ← get_in in_ ;
  if bool_decide (op_owner po = ip_owner pi) then
    e ← get_elem (op_owner po) ;
    mret (false, "Cannot connect " +:+ el_name e +:+ " to itself")
  else if ip_isConnected pi then
    mret (false, "Input pin " +:+ ip_name pi +:+ " is already connected")
  else
    typed ←
      (if ip_isDynamicallyTyped pi then
         ok ← din_setTypeId in_ (op_typeId po) ;
         mret (ok, "DynamicInputPin " +:+ ip_name pi +:+ " failed to change type.")
       else
         mret (bool_decide (op_typeId po = ip_typeId pi), incompatible_msg po pi)) ;
    if negb typed.1 then mret (false, typed.2)
    else
      ok1 ← out_acceptsConnectionWith out in_ ;
      if negb ok1 then mret (false, "Incompatible types between pins")
      else
        ok2 ← in_acceptsConnectionWith in_ out ;
        if negb ok2 then mret (false, "Incompatible types between pins")
        else mret (true, EmptyString).

(** PinConnection::connect *)
Definition conn_connect (c : cptr) : W unit :=
  x ← get_conn c ;
  in_ ← non_null (pc_consumer x) ; out ← non_null (pc_producer x) ;
  pi ← get_in in_ ; po ← get_out out ;
  when (bool_decide (ip_owner pi = op_owner po))
    (e ← get_elem (ip_owner pi) ;
     throw (IllegalConnectionException
       ("It is not allowed to connect " +:+ el_name e +:+ " to itself"))) ;;
  when (ip_isConnected pi)
    (throw (DuplicateConnectionException (ip_name pi +:+ " is already connected"))) ;;
  (if ip_isDynamicallyTyped pi then
     ok ← din_setTypeId in_ (op_typeId po) ;
     when (negb ok) (throw (IncompatibleTypeException
       ("DynamicInputPin " +:+ ip_name pi +:+ " failed to change type.")))
   else
     when (negb (bool_decide (op_typeId po = ip_typeId pi)))
       (throw (IncompatibleTypeException (incompatible_msg po pi)))) ;;
  ok1 ← out_acceptsConnectionWith out in_ ;
  when (negb ok1) (throw (IncompatibleTypeException "Incompatible types between pins")) ;;
  ok2 ← in_acceptsConnectionWith in_ out ;
  when (negb ok2) (throw (IncompatibleTypeException "Incompatible types between pins")) ;;
  out_addConnection out c ;;
  in_setConnection in_ c ;;
  pi' ← get_in in_ ;
  assert (ip_isConnected pi').

(** The address of a new object: one that is not in use. *)
Definition fresh_key {A} (m : gmap positive A) : positive :=
  map_fold (λ k _ acc, Pos.max (Pos.succ k) acc) 1%positive m.

(** [new PinConnection( id, producer, consumer )]: when the constructor
    throws, the object is gone again. *)
Definition new_PinConnection (id : Z) (out : optr) (in_ : iptr) : W cptr :=
  heap ← gets w_conns ;
  let c := fresh_key heap in
  modify (set_conns (insert c (mkConn id (Some out) (Some in_) []))) ;;
  try_catch (conn_connect c) (λ e, modify (set_conns (delete c)) ;; throw e) ;;
  mret c.

(** PinConnection::disconnect *)
Definition conn_disconnect (c : cptr) : W unit :=
  x ← get_conn c ;
  out ← non_null (pc_producer x) ;
  out_removeConnection out c ;;
  in_ ← non_null (pc_consumer x) ;
  in_removeConnection in_ ;;
  upd_conn c pc_clear_ends ;;
  upd_conn c (pc_set_queue []).
End connecting.
