(* ===== verification/Elements.v ===== *)
(** Pipeline elements: PipelineElement.cpp, DataProducer.cpp, DataConsumer.cpp,
    PipelineProducer.cpp and PipelineProcessor.cpp.

    What a concrete plugin does in its virtual methods ([init], [process],
    [produce], ...) is a [Prog]: a tree of calls to the pin interface ending
    in the value returned or an exception thrown.  Every theorem that runs an
    element holds for all such programs, or states what it needs of them. *)
From S2P Require Export Pins.

(** ** Plugin code *)
Inductive Prog :=
  | PReturn (b : bool)
  | PThrow (e : exn)
  | PSetError (type : PlvErrorType) (msg : string) (k : Prog)
  | PGet (i : iptr) (k : QVariant → Prog)
  | PClear (i : iptr) (k : Prog)
  | PHasData (i : iptr) (k : bool → Prog)
  | PPut (o : optr) (v : QVariant) (k : Prog).

(** ** PipelineElement *)

Definition el_getState (e : eptr) : W State := x ← get_elem e ; mret (el_state x).
Definition el_setState (e : eptr) (s : State) : W unit := upd_elem e (el_set_state s).

Definition el_setId (e : eptr) (id : Z) : W unit :=
  x ← get_elem e ; assert (bool_decide (el_id x = -1)) ;; upd_elem e (el_set_id id).

(** [setError]: the state becomes PLE_ERROR, then type and text are stored. *)
Definition el_setError (e : eptr) (type : PlvErrorType) (msg : string) : W unit :=
  el_setState e PLE_ERROR ;; upd_elem e (el_set_error type msg).

(** Running plugin code on behalf of element [e]. *)
Fixpoint run_prog (e : eptr) (p : Prog) : W bool :=
  match p with
  | PReturn b => mret b
  | PThrow x => throw x
  | PSetError t msg k => el_setError e t msg ;; run_prog e k
  | PGet i k => v ← in_getVariant i ; run_prog e (k v)
  | PClear i k => in_clear i ;; run_prog e k
  | PHasData i k => b ← in_hasData i ; run_prog e (k b)
  | PPut o v k => out_put o v ;; run_prog e k
  end.

(** The virtual methods of one plugin object. *)
Record Behaviour := mkBehaviour {
  b_init : Prog;
  b_deinit : Prog;
  b_start : Prog;
  b_stop : Prog;
  b_readyToProduce : bool
}.

(** The defaults of PipelineElement.h. *)
Definition default_behaviour : Behaviour :=
  mkBehaviour (PReturn true) (PReturn true) (PReturn true) (PReturn true) true.

(** PipelineElement::__init *)
Definition ple_init (body : Prog) (e : eptr) : W bool :=
  s ← el_getState e ;
  assert (bool_decide (s = PLE_UNDEFINED)) ;;
  ok ← run_prog e body ;
  if negb ok then el_setState e PLE_ERROR ;; mret false
  else el_setState e PLE_INITIALIZED ;; mret true.

(** A function declared [throw()]: an exception that reaches its boundary
    ends the program. *)
Definition nothrow {A} (m : W A) : W A := try_catch m (λ _, abort UnexpectedException).

(** PipelineElement::__deinit *)
Definition ple_deinit (body : Prog) (e : eptr) : W bool :=
  s ← el_getState e ;
  assert (bool_decide (s = PLE_ERROR) || bool_decide (s = PLE_INITIALIZED)) ;;
  ok ← nothrow (run_prog e body) ;
  if negb ok then el_setState e PLE_ERROR ;; mret false
  else
    el_setState e PLE_UNDEFINED ;;
    upd_elem e (λ x, el_set_error PlvNoError EmptyString (el_set_serial 0 x)) ;;
    mret true.

(** PipelineElement::__start *)
Definition ple_start (body : Prog) (e : eptr) : W bool :=
  s ← el_getState e ;
  assert (bool_decide (s = PLE_INITIALIZED)) ;;
  ok ← run_prog e body ;
  if negb ok then el_setState e PLE_ERROR ;; mret false
  else el_setState e PLE_STARTED ;; mret true.

(** PipelineElement::__stop *)
Definition ple_stop (body : Prog) (e : eptr) : W bool :=
  s ← el_getState e ;
  assert (bool_decide (state_rank PLE_STARTED ≤ state_rank s)) ;;
  ok ← run_prog e body ;
  if negb ok then el_setState e PLE_ERROR ;; mret false
  else el_setState e PLE_INITIALIZED ;; mret true.

(** ** DataProducer *)
Section producer.
Context `{HashOrder}.

(** The first id not in use, counting from 0: [while( find( id ) != end ) id++].
    The map has [size] keys, so at most that many steps are taken. *)
Fixpoint next_pin_id {A} (fuel : nat) (m : gmap Z A) (id : Z) : Z :=
  match fuel with
  | O => id
  | S fuel' => if bool_decide (is_Some (m !! id)) then next_pin_id fuel' m (id + 1) else id
  end.

Definition getNextOutputPinId (m : gmap Z optr) : Z := next_pin_id (size m) m 0.

Definition addOutputPin (e : eptr) (o : optr) : W Z :=
  x ← get_elem e ; p ← get_out o ;
  if bool_decide (op_id p = -1) then
    let id := getNextOutputPinId (el_outputPins x) in
    assert (bool_decide (el_outputPins x !! id = None)) ;;
    upd_out o (op_set_id id) ;;
    upd_elem e (el_set_outputPins (<[id := o]> (el_outputPins x))) ;;
    emit (outputPinAdded o) ;; mret id
  else if bool_decide (is_Some (el_outputPins x !! op_id p)) then mret (-1)
  else
    upd_elem e (el_set_outputPins (<[op_id p := o]> (el_outputPins x))) ;;
    emit (outputPinAdded o) ;; mret (op_id p).

(** [removeOutputPin]: the test is the wrong way round, so an id that is
    not there dereferences and erases [end()]. *)
Definition removeOutputPin (e : eptr) (id : Z) : W unit :=
  x ← get_elem e ;
  match el_outputPins x !! id with
  | Some _ =>
      emit (outputPinRemoved e id) ;;
      upd_elem e (el_set_outputPins (delete id (el_outputPins x)))
  | None => abort UndefinedBehaviour
  end.

Definition getOutputPin (e : eptr) (id : Z) : W (option optr) :=
  x ← get_elem e ; mret (el_outputPins x !! id).

Definition dp_isEndNode (e : eptr) : W bool :=
  x ← get_elem e ;
  r ← for_return (hash_values (el_outputPins x)) (λ o,
        p ← get_out o ; mret (if op_isConnected p then Some false else None)) ;
  mret (default true r).

Definition preOutput (e : eptr) : W unit :=
  x ← get_elem e ; for_each (hash_values (el_outputPins x)) out_pre.

Definition postOutput (e : eptr) : W unit :=
  x ← get_elem e ; for_each (hash_values (el_outputPins x)) out_post.

Fixpoint sum_counts (l : list optr) (acc : Z) : W Z :=
  match l with
  | [] => mret acc
  | o :: l' => n ← out_connectionCount o ; sum_counts l' (acc + n)
  end.
Definition outputPinsConnectionCount (e : eptr) : W Z :=
  x ← get_elem e ; sum_counts (hash_values (el_outputPins x)) 0.

Fixpoint max_counts (l : list optr) (acc : Z) : W Z :=
  match l with
  | [] => mret acc
  | o :: l' =>
      n ← out_maxDataOnConnection o ;
      max_counts l' (if bool_decide (acc < n) then n else acc)
  end.
Definition maxOutputQueueSize (e : eptr) : W Z :=
  x ← get_elem e ; max_counts (hash_values (el_outputPins x)) 0.

(** The elements at the far ends of the output connections. *)
Fixpoint owners_of_conns (l : list cptr) (acc : gset eptr) : W (gset eptr) :=
  match l with
  | [] => mret acc
  | c :: l' =>
      x ← get_conn c ; i ← non_null (pc_consumer x) ; p ← get_in i ;
      owners_of_conns l' ({[ip_owner p]} ∪ acc)
  end.
Fixpoint outputs_owners (l : list optr) (acc : gset eptr) : W (gset eptr) :=
  match l with
  | [] => mret acc
  | o :: l' =>
      p ← get_out o ; acc' ← owners_of_conns (op_connections p) acc ; outputs_owners l' acc'
  end.
Definition getConnectedElementsToOutputs (e : eptr) : W (gset eptr) :=
  x ← get_elem e ; outputs_owners (hash_values (el_outputPins x)) ∅.
End producer.

(** ** DataConsumer *)
Section consumer.
Context `{HashOrder}.

(** The loop of [initInputPins]: whether an asynchronous and a synchronous
    pin is connected, and the number of the latter. *)
Fixpoint count_pins (l : list iptr) (acc : bool * bool * Z) : W (bool * bool * Z) :=
  match l with
  | [] => mret acc
  | i :: l' =>
      p ← get_in i ;
      let '(a, s, n) := acc in
      count_pins l'
        (if ip_isConnected p
         then if ip_isSynchronous p then (a, true, n + 1) else (true, s, n)
         else acc)
  end.

Definition initInputPins (e : eptr) : W unit :=
  x ← get_elem e ;
  '(a, s, n) ← count_pins (hash_values (el_inputPins x)) (false, false, 0) ;
  upd_elem e (λ y, el_set_scoreboard (sb_setPinCount n (el_scoreboard y)) (el_set_sync a s y)).

Definition getNextInputPinId (m : gmap Z iptr) : Z := next_pin_id (size m) m 0.

Definition addInputPin (e : eptr) (i : iptr) : W Z :=
  x ← get_elem e ; p ← get_in i ;
  if bool_decide (ip_id p = -1) then
    let id := getNextInputPinId (el_inputPins x) in
    upd_in i (ip_set_id id) ;;
    assert (bool_decide (el_inputPins x !! id = None)) ;;
    upd_elem e (el_set_inputPins (<[id := i]> (el_inputPins x))) ;;
    emit (inputPinAdded i) ;; mret id
  else if bool_decide (is_Some (el_inputPins x !! ip_id p)) then mret (-1)
  else
    upd_elem e (el_set_inputPins (<[ip_id p := i]> (el_inputPins x))) ;;
    emit (inputPinAdded i) ;; mret (ip_id p).

Definition removeInputPin (e : eptr) (id : Z) : W unit :=
  x ← get_elem e ;
  match el_inputPins x !! id with
  | Some _ =>
      emit (inputPinRemoved e id) ;;
      upd_elem e (el_set_inputPins (delete id (el_inputPins x)))
  | None => abort UndefinedBehaviour
  end.

Definition getInputPin (e : eptr) (id : Z) : W (option iptr) :=
  x ← get_elem e ; mret (el_inputPins x !! id).

Definition requiredInputPinsConnected (e : eptr) : W bool :=
  x ← get_elem e ;
  r ← for_return (hash_values (el_inputPins x)) (λ i,
        p ← get_in i ;
        mret (if ip_isRequired p && negb (ip_isConnected p) then Some false else None)) ;
  mret (default true r).

(** The owner of the output pin at the far end of an input pin. *)
Definition upstream_of (i : iptr) : W eptr :=
  c ← in_getConnection i ; x ← get_conn c ;
  o ← non_null (pc_producer x) ; p ← get_out o ; mret (op_owner p).

Fixpoint inputs_owners (l : list iptr) (acc : gset eptr) : W (gset eptr) :=
  match l with
  | [] => mret acc
  | i :: l' =>
      p ← get_in i ;
      if ip_isConnected p then u ← upstream_of i ; inputs_owners l' ({[u]} ∪ acc)
      else inputs_owners l' acc
  end.
Definition getConnectedElementsToInputs (e : eptr) : W (gset eptr) :=
  x ← get_elem e ; inputs_owners (hash_values (el_inputPins x)) ∅.

(** [dataAvailableOnInputPins], synchronous part: the serials at the front
    of the synchronous pins, or [None] when one of them has no data. *)
Fixpoint sync_serials (l : list iptr) (acc : list Z) : W (option (list Z)) :=
  match l with
  | [] => mret (Some acc)
  | i :: l' =>
      p ← get_in i ;
      if ip_isConnected p && ip_isSynchronous p then
        has ← in_hasDataItems i ;
        if (has : bool) then
          '(serial, _) ← in_peekNext i ; sync_serials l' (acc ++ [serial])
        else mret None
      else sync_serials l' acc
  end.

(** Asynchronous part: the serials at the front of the connected pins. *)
Fixpoint async_serials (l : list iptr) (acc : list Z) : W (list Z) :=
  match l with
  | [] => mret acc
  | i :: l' =>
      p ← get_in i ;
      if ip_isConnected p then
        has ← in_hasDataItems i ;
        if (has : bool) then
          '(serial, _) ← in_peekNext i ; async_serials l' (acc ++ [serial])
        else async_serials l' acc
      else async_serials l' acc
  end.

(** DataConsumer::dataAvailableOnInputPins: [Some serial] when data is there. *)
Definition dataAvailableOnInputPins (e : eptr) : W (option Z) :=
  x ← get_elem e ;
  if el_hasSynchronousPin x then
    r ← sync_serials (hash_values (el_inputPins x)) [] ;
    match r with
    | None => mret None
    | Some [] => abort OutOfRange
    | Some (s :: rest) =>
        if forallb (λ t, bool_decide (s = t)) rest then mret (Some s)
        else el_setError e PlvPipelineRuntimeError "Input corrupted" ;; mret None
    end
  else if el_hasAsynchronousPin x then
    l ← async_serials (hash_values (el_inputPins x)) [] ;
    mret (head (merge_sort Z.le l))
  else mret None.

Fixpoint connected_count (l : list iptr) (acc : Z) : W Z :=
  match l with
  | [] => mret acc
  | i :: l' =>
      p ← get_in i ; connected_count l' (if ip_isConnected p then acc + 1 else acc)
  end.
Definition inputPinsConnectionCount (e : eptr) : W Z :=
  x ← get_elem e ; connected_count (hash_values (el_inputPins x)) 0.

Fixpoint max_input_queue (l : list iptr) (acc : Z) : W Z :=
  match l with
  | [] => mret acc
  | i :: l' =>
      p ← get_in i ;
      queueSize ← (if ip_isConnected p then c ← in_getConnection i ; conn_size c else mret 0) ;
      max_input_queue l' (if bool_decide (acc < queueSize) then queueSize else acc)
  end.
Definition maxInputQueueSize (e : eptr) : W Z :=
  x ← get_elem e ; max_input_queue (hash_values (el_inputPins x)) 0.

(** [preInput]: resets the call flags and looks for NULL items at the front
    of the connected, synchronous pins that guarantee data. *)
Fixpoint pre_inputs (l : list iptr) (nullDetected : bool) : W bool :=
  match l with
  | [] => mret nullDetected
  | i :: l' =>
      p ← get_in i ;
      nd ← (if ip_isConnected p && ip_isSynchronous p && ip_isDataGuaranteed p
            then '(_, isNull) ← in_peekNext i ; mret (nullDetected || isNull)
            else mret nullDetected) ;
      in_pre i ;;
      pre_inputs l' nd
  end.
Definition preInput (e : eptr) : W bool :=
  x ← get_elem e ; pre_inputs (hash_values (el_inputPins x)) false.

(** [postInput] has an empty body. *)
Definition postInput (e : eptr) : W unit := mret tt.

Definition flushFirstOnSynchronousPins (e : eptr) : W unit :=
  x ← get_elem e ;
  for_each (hash_values (el_inputPins x)) (λ i,
    p ← get_in i ;
    when (ip_isConnected p && ip_isSynchronous p) (in_removeFirst i)).
End consumer.

(** ** PipelineProducer and PipelineProcessor *)
Section processing.
Context `{HashOrder}.

Definition requiredPinsConnected (e : eptr) : W bool :=
  x ← get_elem e ;
  match el_kind x with
  | KProducer => mret true
  | KProcessor => requiredInputPinsConnected e
  end.

(** The virtual [__init]: a processor counts its connected pins first. *)
Definition el_init (body : Prog) (e : eptr) : W bool :=
  x ← get_elem e ;
  match el_kind x with
  | KProducer => ple_init body e
  | KProcessor => initInputPins e ;; ple_init body e
  end.

(** The virtual [isEndNode]: DataConsumer overrides it to [true]. *)
Definition el_isEndNode (e : eptr) : W bool :=
  x ← get_elem e ;
  match el_kind x with
  | KProducer => dp_isEndNode e
  | KProcessor => mret true
  end.

Definition producer_ready (readyToProduce : bool) (e : eptr) : W bool :=
  s ← el_getState e ;
  mret (bool_decide (state_rank s < state_rank PLE_DISPATCHED) && readyToProduce).

Definition processor_ready (e : eptr) (serial : Z) : W bool :=
  s ← el_getState e ;
  if bool_decide (state_rank PLE_DISPATCHED ≤ state_rank s) then mret false
  else
    r ← dataAvailableOnInputPins e ;
    mret (match r with Some n => bool_decide (n = serial) | None => false end).

(** PipelineProducer::__process; [body] is [produce()]. *)
Definition producer_process (body : Prog) (e : eptr) (serial : Z) : W bool :=
  x ← get_elem e ;
  assert (bool_decide (el_serial x < serial) || bool_decide (serial = 0)) ;;
  upd_elem e (el_set_serial serial) ;;
  preOutput e ;;
  retval ← run_prog e body ;
  postOutput e ;;
  when (negb retval) (el_setState e PLE_ERROR) ;;
  mret retval.

(** PipelineProcessor::__process; [body] is [process()]. *)
Definition processor_process (body : Prog) (e : eptr) (serial : Z) : W bool :=
  ok ← requiredPinsConnected e ;
  assert ok ;;
  s ← el_getState e ;
  assert (bool_decide (s = PLE_RUNNING)) ;;
  upd_elem e (el_set_serial serial) ;;
  nullDetected ← preInput e ;
  if (nullDetected : bool) then
    flushFirstOnSynchronousPins e ;;
    preOutput e ;;
    postOutput e ;;
    mret true
  else
    preOutput e ;;
    retval ← run_prog e body ;
    postInput e ;;
    postOutput e ;;
    mret retval.

Definition el_process (body : Prog) (e : eptr) (serial : Z) : W bool :=
  x ← get_elem e ;
  match el_kind x with
  | KProducer => producer_process body e serial
  | KProcessor => processor_process body e serial
  end.

(** The text under which [run] files the exception it catches. *)
Definition exn_text (x : exn) : string :=
  match x with
  | RuntimeError m | PlvException m | IllegalArgumentException m
  | IllegalConnectionException m | IncompatibleTypeException m
  | DuplicateConnectionException m | CvException m | StdRuntimeError m | NonFatalException m => m
  | UnknownException => "Unknown exception caught"
  end.

(** PipelineElement::run *)
Definition el_run (body : Prog) (e : eptr) (serial : Z) : W bool :=
  s ← el_getState e ;
  assert (bool_decide (s = PLE_DISPATCHED)) ;;
  el_setState e PLE_RUNNING ;;
  r ← try_catch (b ← el_process body e serial ; mret (Some b))
        (λ x, el_setError e PlvPipelineRuntimeError (exn_text x) ;; mret None) ;
  match r with
  | None => mret false
  | Some retval =>
      s' ← el_getState e ;
      when (negb (bool_decide (s' = PLE_ERROR))) (el_setState e PLE_DONE) ;;
      mret retval
  end.
End processing.
