(* ===== verification/Graph.v ===== *)
(** Editing the pipeline graph: the part of Pipeline.cpp that adds and removes
    elements and connections. *)
From S2P Require Export Elements.

Section graph.
Context `{HashOrder} `{QMetaType}.

(** [getNewPipelineElementId] / [getNewPinConnectionId]: walk the keys in
    ascending order and stop at the first one above the running id. *)
Fixpoint scan_ids (keys : list Z) (id : Z) : Z :=
  match keys with
  | [] => id
  | k :: keys' => if bool_decide (id < k) then id else scan_ids keys' (id + 1)
  end.

Definition getNewPipelineElementId : W Z :=
  pl ← get_pipe ; mret (scan_ids (qmap_items (pl_children pl)).*1 0).

Definition getNewPinConnectionId : W Z :=
  pl ← get_pipe ; mret (scan_ids (qmap_items (pl_connections pl)).*1 0).

Definition canAddElement (e : eptr) : W bool :=
  pl ← get_pipe ; x ← get_elem e ;
  if bool_decide (el_id x ≠ -1)
  then mret (bool_decide (pl_children pl !! el_id x = None))
  else mret true.

(** Pipeline::addElement.  A rejected id is reported and then used all the
    same. *)
Definition addElement (e : eptr) : W Z :=
  can ← canAddElement e ;
  x ← get_elem e ;
  when (negb can)
    (emit (pipelineMessage QtWarningMsg ("Tried to add PipelineElement " +:+ el_name x +:+
       " to pipeline with an id which is already in use or invalid."))) ;;
  id ← (if bool_decide (el_id x = -1) then
          n ← getNewPipelineElementId ; el_setId e n ;; mret n
        else mret (el_id x)) ;
  upd_elem e el_set_pipeline ;;
  upd_pipe (λ p, pl_set_children (<[id := e]> (pl_children p)) p) ;;
  (match el_kind x with
   | KProducer => upd_pipe (λ p, pl_set_producers (<[id := e]> (pl_producers p)) p)
   | KProcessor => upd_pipe (λ p, pl_set_processors (<[id := e]> (pl_processors p)) p)
   end) ;;
  upd_pipe (pl_set_changed true) ;;
  emit (elementAdded id e) ;;
  mret id.

Definition getElement (id : Z) : W (option eptr) :=
  pl ← get_pipe ; mret (pl_children pl !! id).

Definition getConnection (id : Z) : W (option cptr) :=
  pl ← get_pipe ; mret (pl_connections pl !! id).

Definition canConnectPins (out : optr) (in_ : iptr) : W (bool * string) :=
  conn_canConnectPins out in_.

Definition connectPins (out : optr) (in_ : iptr) : W Z :=
  id ← getNewPinConnectionId ;
  c ← new_PinConnection id out in_ ;
  upd_pipe (λ p, pl_set_connections (<[id := c]> (pl_connections p)) p) ;;
  emit (connectionAdded id c) ;;
  mret id.

(** An id that is not there trips [Q_ASSERT( false )]. *)
Definition threadUnsafeDisconnect (id : Z) : W unit :=
  pl ← get_pipe ;
  match pl_connections pl !! id with
  | None => abort AssertFailed
  | Some c =>
      conn_disconnect c ;;
      upd_pipe (λ p, pl_set_connections (delete id (pl_connections p)) p) ;;
      x ← get_conn c ;
      emit (connectionRemoved (pc_id x) c)
  end.

Definition pinConnectionDisconnect (id : Z) : W unit := threadUnsafeDisconnect id.

Definition disconnect_ptr (c : cptr) : W unit :=
  x ← get_conn c ; threadUnsafeDisconnect (pc_id x).

Definition disconnect_input (i : iptr) : W unit :=
  p ← get_in i ;
  when (ip_isConnected p) (c ← in_getConnection i ; disconnect_ptr c).

(** Pipeline::removeConnectionsForElement, over copies of the pin maps and
    of the connection lists. *)
Definition removeConnectionsForElement (e : eptr) : W unit :=
  x ← get_elem e ;
  (match el_kind x with
   | KProcessor =>
       for_each (hash_values (el_inputPins x)) disconnect_input
   | KProducer => mret tt
   end) ;;
  for_each (hash_values (el_outputPins x)) (λ o,
    cs ← out_getConnections o ; for_each cs disconnect_ptr).

(** The producer or the processor map of the removed element. *)
Definition forget_kind (id : Z) (p : Pipeline) : Pipeline :=
  if bool_decide (is_Some (pl_producers p !! id))
  then pl_set_producers (delete id (pl_producers p)) p
  else if bool_decide (is_Some (pl_processors p !! id))
  then pl_set_processors (delete id (pl_processors p)) p
  else p.

Definition removeElement (id : Z) : W unit :=
  pl ← get_pipe ;
  match pl_children pl !! id with
  | None => mret tt
  | Some e =>
      removeConnectionsForElement e ;;
      upd_pipe (λ p, pl_set_children (delete id (pl_children p)) p) ;;
      upd_pipe (forget_kind id) ;;
      upd_pipe (pl_set_changed true) ;;
      emit (elementRemoved id e)
  end.

Definition removeAllConnections : W unit :=
  pl ← get_pipe ;
  assert (negb (pl_running pl)) ;;
  for_each (qmap_values (pl_connections pl)) (λ c,
    conn_disconnect c ;; x ← get_conn c ; emit (connectionRemoved (pc_id x) c)) ;;
  upd_pipe (pl_set_connections ∅).

Definition removeAllElements : W unit :=
  pl ← get_pipe ;
  for_each (qmap_values (pl_children pl)) (λ e,
    removeConnectionsForElement e ;; x ← get_elem e ; emit (elementRemoved (el_id x) e)) ;;
  upd_pipe (λ p, pl_set_processors ∅ (pl_set_producers ∅
                   (pl_set_children ∅ (pl_set_ordering [] p)))).

Definition isEmpty : W bool :=
  pl ← get_pipe ; mret (bool_decide (pl_children pl = ∅)).

Definition clear : W unit :=
  pl ← get_pipe ;
  assert (negb (pl_running pl)) ;;
  removeAllConnections ;;
  removeAllElements ;;
  upd_pipe (pl_set_changed true).
End graph.
