(* ===== verification/GraphInv.v ===== *)
(** The well-formedness invariant of the object graph and its preservation by
    every editing operation of Graph.v. *)
From S2P Require Export Graph.

Abbreviation children w := (pl_children (w_pipe w)).
Abbreviation connections w := (pl_connections (w_pipe w)).

(** ** The invariant *)

(** Element [e] is in the pipeline, under its own id. *)
Definition in_pipeline (w : World) (e : eptr) (x : Element) : Prop :=
  w_elems w !! e = Some x ∧ children w !! el_id x = Some e.

(** Connection [c] runs from output pin [o] to input pin [i], and both pins
    know about it. *)
Record attached (w : World) (c : cptr) (x : PinConnection) (o : optr) (i : iptr) : Prop := {
  at_conn : w_conns w !! c = Some x;
  at_producer : pc_producer x = Some o;
  at_consumer : pc_consumer x = Some i;
  at_pins : ∃ po pi,
    w_outs w !! o = Some po ∧ w_ins w !! i = Some pi ∧
    c ∈ op_connections po ∧ ip_connection pi = Some c ∧
    op_owner po ≠ ip_owner pi ∧ op_typeId po = ip_typeId pi ∧
    (∃ xo, in_pipeline w (op_owner po) xo ∧ el_outputPins xo !! op_id po = Some o) ∧
    (∃ xi, in_pipeline w (ip_owner pi) xi ∧ el_kind xi = KProcessor ∧
           el_inputPins xi !! ip_id pi = Some i)
}.

Record graph_wf (w : World) : Prop := {
  wf_connections : ∀ k c, connections w !! k = Some c →
    ∃ x o i, attached w c x o i ∧ pc_id x = k;
  wf_inputs : ∀ i pi c, w_ins w !! i = Some pi → ip_connection pi = Some c →
    ∃ x, w_conns w !! c = Some x ∧ pc_consumer x = Some i ∧ connections w !! pc_id x = Some c;
  wf_outputs : ∀ o po c, w_outs w !! o = Some po → c ∈ op_connections po →
    ∃ x, w_conns w !! c = Some x ∧ pc_producer x = Some o ∧ connections w !! pc_id x = Some c;
  wf_nodup : ∀ o po, w_outs w !! o = Some po → NoDup (op_connections po);
  wf_children : ∀ k e, children w !! k = Some e →
    ∃ x, w_elems w !! e = Some x ∧ el_id x = k ∧ el_hasPipeline x = true;
  wf_producers : ∀ k e, pl_producers (w_pipe w) !! k = Some e ↔
    children w !! k = Some e ∧ el_kind <$> w_elems w !! e = Some KProducer;
  wf_processors : ∀ k e, pl_processors (w_pipe w) !! k = Some e ↔
    children w !! k = Some e ∧ el_kind <$> w_elems w !! e = Some KProcessor;
  wf_inputPins : ∀ e x k i, w_elems w !! e = Some x → el_inputPins x !! k = Some i →
    ∃ pi, w_ins w !! i = Some pi ∧ ip_id pi = k ∧ ip_owner pi = e;
  wf_outputPins : ∀ e x k o, w_elems w !! e = Some x → el_outputPins x !! k = Some o →
    ∃ po, w_outs w !! o = Some po ∧ op_id po = k ∧ op_owner po = e;
}.

(** A child is filed under one id. *)
Lemma child_id_unique w id1 id2 e : graph_wf w →
  children w !! id1 = Some e → children w !! id2 = Some e → id1 = id2.
Proof.
  intros Hwf H1 H2. destruct (wf_children _ Hwf _ _ H1) as (x & Hx & Hid & _).
  destruct (wf_children _ Hwf _ _ H2) as (x' & Hx' & Hid' & _). congruence.
Qed.

Lemma NoDup_child_values w : graph_wf w → NoDup (qmap_values (children w)).
Proof.
  intros Hwf. unfold qmap_values. apply NoDup_fmap_2_strong.
  - intros [k1 e1] [k2 e2] H1%elem_of_qmap_items H2%elem_of_qmap_items E. cbn in E. subst.
    f_equal. by eapply child_id_unique.
  - eapply NoDup_fmap_1. apply NoDup_qmap_keys.
Qed.

(** The empty pipeline over any set of loose elements and unconnected pins. *)
Definition empty_pipeline : Pipeline :=
  mkPipeline ∅ ∅ ∅ ∅ 1 false ∅ ∅ 10 [] 0 false EmptyString 0 false 0.

(** ** Removing connections only shrinks the graph *)

Definition in_shrinks (p p' : IInputPin) : Prop :=
  ∃ c, p' = ip_set_connection c p ∧ (c = ip_connection p ∨ c = None).
Definition out_shrinks (p p' : IOutputPin) : Prop :=
  ∃ l, p' = op_set_connections l p ∧ l `sublist_of` op_connections p.

Record shrinks (w w' : World) : Prop := {
  sh_elems : w_elems w' = w_elems w;
  sh_ins : ∀ i, option_Forall2 in_shrinks (w_ins w !! i) (w_ins w' !! i);
  sh_outs : ∀ o, option_Forall2 out_shrinks (w_outs w !! o) (w_outs w' !! o);
  sh_pipe : w_pipe w' = pl_set_connections (connections w') (w_pipe w);
  sh_connections : connections w' ⊆ connections w;
  sh_conns : ∀ k c, connections w' !! k = Some c → w_conns w' !! c = w_conns w !! c
}.

#[export] Instance in_shrinks_preorder : PreOrder in_shrinks.
Proof.
  split.
  - intros p. exists (ip_connection p). split; [by destruct p|by left].
  - intros p1 p2 p3 (c2 & -> & H2) (c3 & -> & H3). exists c3. split; [done|].
    cbn in H3. destruct H2, H3; subst; auto.
Qed.
#[export] Instance out_shrinks_preorder : PreOrder out_shrinks.
Proof.
  split.
  - intros p. exists (op_connections p). split; [by destruct p|done].
  - intros p1 p2 p3 (l2 & -> & H2) (l3 & -> & H3). exists l3. split; [done|].
    cbn in H3. by etrans.
Qed.
#[export] Instance shrinks_preorder : PreOrder shrinks.
Proof.
  split.
  - intros w. split; [done|intros i; reflexivity|intros o; reflexivity| |done..].
    by destruct w as [? ? ? ? [] ? ? ?].
  - intros w1 w2 w3 [E1 I1 O1 P1 C1 D1] [E2 I2 O2 P2 C2 D2]. split.
    + by rewrite E2.
    + intros i. eapply option_Forall2_trans; [apply _|apply I1|apply I2].
    + intros o. eapply option_Forall2_trans; [apply _|apply O1|apply O2].
    + by rewrite P2, P1.
    + by etrans.
    + intros k c Hk. rewrite (D2 k c Hk). apply (D1 k c). by eapply lookup_weaken.
Qed.

Lemma shrinks_in w w' i p : shrinks w w' → w_ins w !! i = Some p →
  ∃ p', w_ins w' !! i = Some p' ∧ in_shrinks p p'.
Proof. intros Hs Hp. pose proof (sh_ins _ _ Hs i) as H. rewrite Hp in H. inversion H; eauto. Qed.
Lemma shrinks_out w w' o p : shrinks w w' → w_outs w !! o = Some p →
  ∃ p', w_outs w' !! o = Some p' ∧ out_shrinks p p'.
Proof. intros Hs Hp. pose proof (sh_outs _ _ Hs o) as H. rewrite Hp in H. inversion H; eauto. Qed.
Lemma shrinks_children w w' : shrinks w w' → children w' = children w.
Proof. intros Hs. by rewrite (sh_pipe _ _ Hs). Qed.

(** ** Erasing from a connection list *)
Lemma erase_first_spec c l : NoDup l → c ∈ l →
  ∃ l', erase_first c l = Some l' ∧ l' `sublist_of` l ∧ NoDup l' ∧
        ∀ d, d ∈ l' ↔ d ∈ l ∧ d ≠ c.
Proof.
  induction l as [|x l IH]; intros Hnd Hc; [by apply not_elem_of_nil in Hc|].
  apply NoDup_cons in Hnd as [Hx Hnd]. cbn. case_bool_decide as E; subst.
  - exists l. split_and!; [done|by apply sublist_cons|done|]. set_solver.
  - destruct IH as (l' & -> & Hsub & Hnd' & Hin); [done|set_solver|].
    exists (x :: l'). split_and!; [done|by apply sublist_skip| |set_solver].
    apply NoDup_cons. split; [|done]. rewrite Hin. set_solver.
Qed.

(** ** Disconnecting one connection *)

(** The heap after [PinConnection::disconnect] on an attached connection. *)
Definition detach (w : World) (c : cptr) (x : PinConnection) (o : optr) (po : IOutputPin)
    (l : list cptr) (i : iptr) (pi : IInputPin) : World :=
  set_conns (insert c (pc_set_queue [] (pc_clear_ends x)))
    (set_ins (insert i (ip_set_connection None pi))
      (set_outs (insert o (op_set_connections l po)) w)).

Lemma run_conn_disconnect w c x o i po pi l :
  w_conns w !! c = Some x → pc_producer x = Some o → pc_consumer x = Some i →
  w_outs w !! o = Some po → w_ins w !! i = Some pi → ip_connection pi = Some c →
  erase_first c (op_connections po) = Some l →
  conn_disconnect c w = (Ok tt, detach w c x o po l i pi).
Proof.
  intros Hc Ho Hi Hpo Hpi Hcon Her.
  unfold conn_disconnect, out_removeConnection, in_removeConnection, mbind, M_bind.
  rewrite (run_get_conn _ _ _ Hc), Ho. cbn [non_null mret M_ret].
  rewrite (run_get_out _ _ _ Hpo), Her, (run_upd_out _ _ _ _ Hpo), Hi. cbn [non_null mret M_ret].
  rewrite (run_get_in _ _ pi) by done.
  assert (ip_isConnected pi = true) as -> by (unfold ip_isConnected; rewrite Hcon; by apply bool_decide_true).
  cbn [assert mret M_ret].
  rewrite (run_upd_in _ _ _ pi) by done.
  rewrite (run_upd_conn _ _ _ x) by done.
  rewrite (run_upd_conn _ _ _ (pc_clear_ends x)) by (cbn; by rewrite lookup_insert_eq).
  unfold detach, set_conns; cbn. by rewrite insert_insert_eq.
Qed.

(** Dropping the entry of the pipeline as well. *)
Definition drop_connection (k : Z) (w : World) : World :=
  set_pipe (λ p, pl_set_connections (delete k (pl_connections p)) p) w.

Lemma detach_shrinks w c x o po l i pi k :
  w_outs w !! o = Some po → w_ins w !! i = Some pi → l `sublist_of` op_connections po →
  (∀ k' c', k' ≠ k → connections w !! k' = Some c' → c' ≠ c) →
  shrinks w (drop_connection k (detach w c x o po l i pi)).
Proof.
  intros Hpo Hpi Hl Hdiff. split; cbn; try done.
  - intros i'. destruct (decide (i' = i)) as [->|Hne].
    + rewrite lookup_insert_eq, Hpi. constructor. exists None. split; [done|by right].
    + by rewrite lookup_insert_ne.
  - intros o'. destruct (decide (o' = o)) as [->|Hne].
    + rewrite lookup_insert_eq, Hpo. constructor. by exists l.
    + by rewrite lookup_insert_ne.
  - apply delete_subseteq.
  - intros k' c' [Hne Hk]%lookup_delete_Some. rewrite lookup_insert_ne; [done|].
    intros ->. by eapply Hdiff.
Qed.

(** In a well-formed graph two registered connections with a pin in common
    on the consumer side are the same. *)
Lemma attached_consumer_unique w c x o i c' x' o' i' :
  attached w c x o i → attached w c' x' o' i' → c' ≠ c → i' ≠ i.
Proof.
  intros [_ _ _ (po & pi & H1 & H2 & H3 & H4 & _)] [_ _ _ (po' & pi' & H1' & H2' & H3' & H4' & _)] Hne ->.
  simplify_eq.
Qed.

Lemma attached_after_detach w c x o i po pi l k c' x' o' i' :
  attached w c x o i → w_outs w !! o = Some po → w_ins w !! i = Some pi →
  (∀ d, d ∈ l ↔ d ∈ op_connections po ∧ d ≠ c) →
  attached w c' x' o' i' → c' ≠ c →
  attached (drop_connection k (detach w c x o po l i pi)) c' x' o' i'.
Proof.
  intros Hat Hpo Hpi Hl Hat' Hne.
  pose proof (attached_consumer_unique _ _ _ _ _ _ _ _ _ Hat Hat' Hne) as Hi.
  destruct Hat' as [Hc Hp Hco (po' & pi' & H1 & H2 & H3 & H4 & H5 & H6 & H7 & H8)].
  split; cbn; [by rewrite lookup_insert_ne|done..|].
  destruct (decide (o' = o)) as [->|Ho]; simplify_eq.
  - eexists _, pi'. rewrite lookup_insert_eq, lookup_insert_ne by done.
    split_and!; [done|done| |done..]. cbn. by apply Hl.
  - exists po', pi'. rewrite !lookup_insert_ne by done. done.
Qed.

Lemma wf_distinct w c x k' c' : graph_wf w → w_conns w !! c = Some x →
  k' ≠ pc_id x → connections w !! k' = Some c' → c' ≠ c.
Proof.
  intros Hwf Hx Hne Hk' ->.
  destruct (wf_connections _ Hwf _ _ Hk') as (x' & ? & ? & [Hx' _ _ _] & <-). simplify_eq.
Qed.

Lemma detach_wf w c x o i po pi l :
  graph_wf w → attached w c x o i → connections w !! pc_id x = Some c →
  w_outs w !! o = Some po → w_ins w !! i = Some pi →
  NoDup l → (∀ d, d ∈ l ↔ d ∈ op_connections po ∧ d ≠ c) →
  graph_wf (drop_connection (pc_id x) (detach w c x o po l i pi)).
Proof.
  intros Hwf Hat Hk Hpo Hpi Hnd Hl.
  split; cbn.
  - intros k' c' [Hne Hk']%lookup_delete_Some.
    destruct (wf_connections _ Hwf _ _ Hk') as (x' & o' & i' & Hat' & Hid).
    exists x', o', i'. split; [|done].
    eapply attached_after_detach; eauto. destruct Hat. by eapply wf_distinct.
  - intros i' pi' c' [[<- <-]|[Hi Hi']]%lookup_insert_Some Hc'; [done|].
    destruct (wf_inputs _ Hwf _ _ _ Hi' Hc') as (x' & Hx' & Hcons & Hreg).
    assert (c' ≠ c) as Hne by (intros ->; destruct Hat; simplify_eq).
    exists x'. rewrite lookup_insert_ne by done. split_and!; [done..|].
    rewrite lookup_delete_ne; [done|]. intros Heq. rewrite <-Heq in Hreg. simplify_eq.
  - intros o' po' c' Hpo' Hc'.
    assert (∃ po0, w_outs w !! o' = Some po0 ∧ c' ∈ op_connections po0 ∧ c' ≠ c) as (po0 & H0 & Hin & Hne).
    { apply lookup_insert_Some in Hpo' as [[<- <-]|[Ho Hpo']].
      - exists po. cbn in Hc'. apply Hl in Hc'. naive_solver.
      - exists po'. split_and!; [done..|]. intros ->.
        destruct (wf_outputs _ Hwf _ _ _ Hpo' Hc') as (x' & Hx' & Hp' & _). destruct Hat; simplify_eq. }
    destruct (wf_outputs _ Hwf _ _ _ H0 Hin) as (x' & Hx' & Hp' & Hreg).
    exists x'. rewrite lookup_insert_ne by done. split_and!; [done..|].
    rewrite lookup_delete_ne; [done|]. intros Heq. rewrite <-Heq in Hreg. simplify_eq.
  - intros o' po' [[<- <-]|[Ho Hpo']]%lookup_insert_Some; [done|]. by eapply wf_nodup.
  - apply (wf_children _ Hwf).
  - apply (wf_producers _ Hwf).
  - apply (wf_processors _ Hwf).
  - intros e xe k' i' He Hk'. destruct (wf_inputPins _ Hwf _ _ _ _ He Hk') as (p & Hp & Hid & Hown).
    destruct (decide (i' = i)) as [->|]; simplify_eq.
    + eexists. by rewrite lookup_insert_eq.
    + exists p. by rewrite lookup_insert_ne.
  - intros e xe k' o' He Hk'. destruct (wf_outputPins _ Hwf _ _ _ _ He Hk') as (p & Hp & Hid & Hown).
    destruct (decide (o' = o)) as [->|]; simplify_eq.
    + eexists. by rewrite lookup_insert_eq.
    + exists p. by rewrite lookup_insert_ne.
Qed.

(** The invariant does not depend on the record of emitted signals. *)
Lemma graph_wf_signal w s : graph_wf w → graph_wf (add_signal s w).
Proof.
  intros Hwf. split; try apply Hwf.
  intros k c Hk. destruct (wf_connections _ Hwf _ _ Hk) as (x & o & i & [] & Hid).
  exists x, o, i. by split.
Qed.

Lemma shrinks_signal w s : shrinks w (add_signal s w).
Proof. split; try done; [intros; reflexivity..|by destruct w as [? ? ? ? [] ? ? ?]]. Qed.

(** [disconnect( id )] of a registered connection succeeds, keeps the graph
    well formed and cuts exactly that connection. *)
Lemma run_threadUnsafeDisconnect w k c : graph_wf w → connections w !! k = Some c →
  ∃ w' x o i po pi l,
    attached w c x o i ∧ pc_id x = k ∧ w_outs w !! o = Some po ∧ w_ins w !! i = Some pi ∧
    erase_first c (op_connections po) = Some l ∧
    threadUnsafeDisconnect k w = (Ok tt, w') ∧
    graph_wf w' ∧ shrinks w w' ∧ connections w' = delete k (connections w) ∧
    w_ins w' = <[i := ip_set_connection None pi]> (w_ins w) ∧
    w_outs w' = <[o := op_set_connections l po]> (w_outs w) ∧
    w_signals w' = w_signals w ++ [connectionRemoved k c].
Proof.
  intros Hwf Hk. destruct (wf_connections _ Hwf _ _ Hk) as (x & o & i & Hat & Hid).
  pose proof Hat as [Hc Ho Hi (po & pi & Hpo & Hpi & Hin & Hcon & _)].
  destruct (erase_first_spec c (op_connections po)) as (l & Her & Hsub & Hnd & Hl);
    [by eapply wf_nodup|done|].
  exists (add_signal (connectionRemoved k c) (drop_connection k (detach w c x o po l i pi))), x, o, i, po, pi, l.
  split_and!; try done.
  - unfold threadUnsafeDisconnect, get_pipe, gets, mbind, M_bind. rewrite Hk.
    erewrite run_conn_disconnect by done.
    unfold upd_pipe, modify. erewrite run_get_conn by (cbn; by rewrite lookup_insert_eq).
    cbn. by rewrite Hid.
  - apply graph_wf_signal. rewrite <-Hid. apply detach_wf; try done. by rewrite Hid.
  - etrans; [|apply shrinks_signal]. apply detach_shrinks; [done..|].
    intros k' c' Hne. rewrite <-Hid in Hne. by eapply wf_distinct.
Qed.
