(* ===== verification/GraphOps.v ===== *)
(** What the editing operations of Pipeline do to a well-formed graph. *)
From S2P Require Export GraphInv.

(** ** Which connections an operation removes *)

(** One end of connection [c] belongs to element [e]. *)
Definition touches (w : World) (e : eptr) (c : cptr) : Prop :=
  ∃ x, w_conns w !! c = Some x ∧
    ((∃ o po, pc_producer x = Some o ∧ w_outs w !! o = Some po ∧ op_owner po = e) ∨
     (∃ i pi, pc_consumer x = Some i ∧ w_ins w !! i = Some pi ∧ ip_owner pi = e)).

(** From [w] to [w'] only connections of [e] have been removed. *)
Record cuts (e : eptr) (w w' : World) : Prop := {
  cut_wf : graph_wf w';
  cut_shrinks : shrinks w w';
  cut_only : ∀ k c, connections w !! k = Some c → connections w' !! k = Some c ∨ touches w e c
}.

Lemma touches_shrinks w w' e k c : shrinks w w' → connections w' !! k = Some c →
  touches w' e c → touches w e c.
Proof.
  intros Hs Hk (x & Hx & H). rewrite (sh_conns _ _ Hs _ _ Hk) in Hx. exists x. split; [done|].
  destruct H as [(o & po' & Ho & Hpo' & Hown)|(i & pi' & Hi & Hpi' & Hown)]; [left|right].
  - pose proof (sh_outs _ _ Hs o) as H. rewrite Hpo' in H. inversion H as [po ? (l & -> & _) Heq|]; subst.
    exists o, po. by rewrite Heq.
  - pose proof (sh_ins _ _ Hs i) as H. rewrite Hpi' in H. inversion H as [pi ? (l & -> & _) Heq|]; subst.
    exists i, pi. by rewrite Heq.
Qed.

Lemma cuts_refl e w : graph_wf w → cuts e w w.
Proof. intros. split; [done|reflexivity|auto]. Qed.

Lemma cuts_trans e w1 w2 w3 : cuts e w1 w2 → cuts e w2 w3 → cuts e w1 w3.
Proof.
  intros [W2 S2 O2] [W3 S3 O3]. split; [done|by etrans|]. intros k c Hk.
  destruct (O2 k c Hk) as [H2|]; [|auto].
  destruct (O3 k c H2) as [|Ht]; [by left|right]. by eapply touches_shrinks.
Qed.

Lemma in_shrinks_none p p' : in_shrinks p p' → ip_connection p = None → ip_connection p' = None.
Proof. intros (c & -> & [->| ->]); done. Qed.
Lemma out_shrinks_nil p p' : out_shrinks p p' → op_connections p = [] → op_connections p' = [].
Proof. intros (l & -> & Hl) E. rewrite E in Hl. by apply sublist_nil_r in Hl. Qed.

(** The pins of an element survive a cut; unconnected ones stay unconnected. *)
Definition ins_free (l : list iptr) (w : World) : Prop :=
  ∀ i p, i ∈ l → w_ins w !! i = Some p → ip_connection p = None.
Definition outs_free (l : list optr) (w : World) : Prop :=
  ∀ o p, o ∈ l → w_outs w !! o = Some p → op_connections p = [].

Lemma ins_free_shrinks l w w' : shrinks w w' → ins_free l w → ins_free l w'.
Proof.
  intros Hs Hf i p' Hi Hp'. pose proof (sh_ins _ _ Hs i) as H. rewrite Hp' in H.
  inversion H as [p ? Hsh Heq|]; subst. symmetry in Heq.
  eapply in_shrinks_none; [done|]. by eapply Hf.
Qed.
Lemma outs_free_shrinks l w w' : shrinks w w' → outs_free l w → outs_free l w'.
Proof.
  intros Hs Hf o p' Ho Hp'. pose proof (sh_outs _ _ Hs o) as H. rewrite Hp' in H.
  inversion H as [p ? Hsh Heq|]; subst. symmetry in Heq.
  eapply out_shrinks_nil; [done|]. by eapply Hf.
Qed.

(** ** Disconnecting through a pin *)

Lemma disconnect_step w c x e : graph_wf w → w_conns w !! c = Some x →
  connections w !! pc_id x = Some c → touches w e c →
  ∃ w' o po l i pi,
    pc_producer x = Some o ∧ w_outs w !! o = Some po ∧ erase_first c (op_connections po) = Some l ∧
    pc_consumer x = Some i ∧ w_ins w !! i = Some pi ∧
    disconnect_ptr c w = (Ok tt, w') ∧ cuts e w w' ∧
    w_ins w' = <[i := ip_set_connection None pi]> (w_ins w) ∧
    w_outs w' = <[o := op_set_connections l po]> (w_outs w).
Proof.
  intros Hwf Hx Hk Ht.
  destruct (run_threadUnsafeDisconnect _ _ _ Hwf Hk)
    as (w' & x' & o & i & po & pi & l & [Hx' Ho Hi _] & Hid & Hpo & Hpi & Her & Hrun & Hwf' & Hs & Hcon & Hins & Houts & _).
  simplify_eq. exists w', o, po, l, i, pi. split_and!; try done.
  - unfold disconnect_ptr, mbind, M_bind. by rewrite (run_get_conn _ _ _ Hx).
  - split; [done..|]. intros k c' Hk'. rewrite Hcon.
    destruct (decide (k = pc_id x)) as [->|Hne]; [|left; by rewrite lookup_delete_ne].
    simplify_eq. by right.
Qed.

(** Through an input pin: nothing happens unless it is connected. *)
Lemma disconnect_input_cuts w e i p : graph_wf w → w_ins w !! i = Some p → ip_owner p = e →
  wpr (disconnect_input i) (λ _ w', cuts e w w' ∧ ins_free [i] w') w.
Proof.
  intros Hwf Hp He. unfold disconnect_input.
  apply wpr_bind. eapply wpr_intro; [by apply run_get_in|]. apply wpr_when.
  - unfold ip_isConnected. intros [c Hc]%bool_decide_eq_true.
    destruct (wf_inputs _ Hwf _ _ _ Hp Hc) as (x & Hx & Hcons & Hreg).
    destruct (disconnect_step w c x e) as (w' & o & po & l & i' & pi & H1 & H2 & H3 & H4 & H5 & Hrun & Hcut & Hins & _);
      [done..|by exists x; split; [|right; exists i, p]|].
    simplify_eq. apply wpr_bind. eapply (wpr_intro _ _ _ c w).
    { unfold in_getConnection, mbind, M_bind. erewrite run_get_in by done.
      unfold ip_isConnected. rewrite Hc, bool_decide_true by eauto. done. }
    eapply wpr_intro; [done|]. split; [done|].
    intros j p' ->%list_elem_of_singleton. rewrite Hins, lookup_insert_eq. by intros [= <-].
  - unfold ip_isConnected. intros Hn%bool_decide_eq_false. split; [by apply cuts_refl|].
    intros i' p' ->%list_elem_of_singleton ?; simplify_eq. by apply eq_None_not_Some.
Qed.

(** An output pin: all its connections go, in list order. *)
Lemma disconnect_output_cuts w e o p : graph_wf w → w_outs w !! o = Some p → op_owner p = e →
  wpr (cs ← out_getConnections o ; for_each cs disconnect_ptr)
    (λ _ w', cuts e w w' ∧ outs_free [o] w') w.
Proof.
  intros Hwf Hp He. apply wpr_bind. eapply (wpr_intro _ _ _ (op_connections p) w).
  { unfold out_getConnections, mbind, M_bind. by erewrite run_get_out. }
  remember (op_connections p) as cs eqn:Hcs. revert w p Hwf Hp He Hcs.
  induction cs as [|c cs IH]; intros w p Hwf Hp He Hcs; cbn.
  - apply wpr_ret. split; [by apply cuts_refl|].
    intros o' p' ->%list_elem_of_singleton ?. by simplify_eq.
  - destruct (wf_outputs _ Hwf _ _ c Hp) as (x & Hx & Hprod & Hreg); [rewrite <-Hcs; set_solver|].
    destruct (disconnect_step w c x e) as (w' & o' & po & l & i' & pi & H1 & H2 & H3 & H4 & H5 & Hrun & Hcut & _ & Houts);
      [done..|by exists x; split; [|left; exists o, p]|].
    simplify_eq. rewrite <-Hcs in H3. cbn in H3. rewrite bool_decide_true in H3 by done. simplify_eq.
    apply wpr_bind. eapply wpr_intro; [done|]. cbn.
    eapply wpr_mono; [|apply (IH w' (op_set_connections l p))]; try done.
    + intros _ w'' [Hcut' Hfree]. split; [|done]. by eapply cuts_trans.
    + apply Hcut.
    + by rewrite Houts, lookup_insert_eq.
Qed.

(** ** Removing every connection of an element *)
Section remove.
Context `{HashOrder} `{QMetaType}.

(** The loop over the input pins, for a list of pins owned by [e]. *)
Lemma inputs_loop_cuts w e l : graph_wf w →
  (∀ i, i ∈ l → ∃ p, w_ins w !! i = Some p ∧ ip_owner p = e) →
  wpr (for_each l disconnect_input) (λ _ w', cuts e w w' ∧ ins_free l w') w.
Proof.
  intros Hwf Hown.
  apply (wpr_for_each (λ seen w', cuts e w w' ∧ ins_free seen w')).
  { split; [by apply cuts_refl|]. intros i p Hi. by apply not_elem_of_nil in Hi. }
  intros seen i rest w1 -> [Hcut Hfree].
  destruct (Hown i) as (p & Hp & He); [set_solver|].
  destruct (shrinks_in _ _ _ _ (cut_shrinks _ _ _ Hcut) Hp) as (p1 & Hp1 & c & -> & _).
  eapply wpr_mono; [|by eapply (disconnect_input_cuts w1 e); [apply Hcut|..]].
  cbn. intros _ w2 [Hcut2 Hfree2]. split; [by eapply cuts_trans|].
  intros i' p' [Hi'|Hi']%elem_of_app Hp'; [|by eapply Hfree2].
  eapply ins_free_shrinks; [apply Hcut2|done..].
Qed.

Lemma outputs_loop_cuts w e l : graph_wf w →
  (∀ o, o ∈ l → ∃ p, w_outs w !! o = Some p ∧ op_owner p = e) →
  wpr (for_each l (λ o, cs ← out_getConnections o ; for_each cs disconnect_ptr))
    (λ _ w', cuts e w w' ∧ outs_free l w') w.
Proof.
  intros Hwf Hown.
  apply (wpr_for_each (λ seen w', cuts e w w' ∧ outs_free seen w')).
  { split; [by apply cuts_refl|]. intros i p Hi. by apply not_elem_of_nil in Hi. }
  intros seen o rest w1 -> [Hcut Hfree].
  destruct (Hown o) as (p & Hp & He); [set_solver|].
  destruct (shrinks_out _ _ _ _ (cut_shrinks _ _ _ Hcut) Hp) as (p1 & Hp1 & c & -> & _).
  eapply wpr_mono; [|by eapply (disconnect_output_cuts w1 e); [apply Hcut|..]].
  cbn. intros _ w2 [Hcut2 Hfree2]. split; [by eapply cuts_trans|].
  intros i' p' [Hi'|Hi']%elem_of_app Hp'; [|by eapply Hfree2].
  eapply outs_free_shrinks; [apply Hcut2|done..].
Qed.

(** No pin of [e] that carries data into or out of it is connected. *)
Definition isolated (e : eptr) (x : Element) (w : World) : Prop :=
  (el_kind x = KProcessor → ins_free (hash_values (el_inputPins x)) w) ∧
  outs_free (hash_values (el_outputPins x)) w.

Lemma removeConnectionsForElement_cuts w e x : graph_wf w → w_elems w !! e = Some x →
  wpr (removeConnectionsForElement e) (λ _ w', cuts e w w' ∧ isolated e x w') w.
Proof.
  intros Hwf Hx. unfold removeConnectionsForElement.
  apply wpr_bind. eapply wpr_intro; [by apply run_get_elem|].
  assert (Hins : ∀ i, i ∈ hash_values (el_inputPins x) → ∃ p, w_ins w !! i = Some p ∧ ip_owner p = e).
  { intros i [k Hk]%elem_of_hash_values. destruct (wf_inputPins _ Hwf _ _ _ _ Hx Hk); naive_solver. }
  assert (Houts : ∀ o, o ∈ hash_values (el_outputPins x) → ∃ p, w_outs w !! o = Some p ∧ op_owner p = e).
  { intros o [k Hk]%elem_of_hash_values. destruct (wf_outputPins _ Hwf _ _ _ _ Hx Hk); naive_solver. }
  apply wpr_bind. apply (wpr_mono _ (λ _ w1, cuts e w w1 ∧
    (el_kind x = KProcessor → ins_free (hash_values (el_inputPins x)) w1))).
  - intros _ w1 [Hcut Hfree]. eapply wpr_mono; [|apply (outputs_loop_cuts w1 e)]; [|apply Hcut|].
    + cbn. intros _ w2 [Hcut2 Hfree2]. split; [by eapply cuts_trans|]. split; [|done].
      intros Hk. eapply ins_free_shrinks; [apply Hcut2|auto].
    + intros o Ho. destruct (Houts o Ho) as (p & Hp & He).
      destruct (shrinks_out _ _ _ _ (cut_shrinks _ _ _ Hcut) Hp) as (p1 & Hp1 & c & -> & _). eauto.
  - destruct (el_kind x).
    + apply wpr_ret. split; [by apply cuts_refl|done].
    + eapply wpr_mono; [|by apply inputs_loop_cuts]. cbn. naive_solver.
Qed.

(** ** Removing an element *)

(** Taking element [e] out of the maps of the pipeline. *)
Definition drop_child (id : Z) (kind : ElementKind) (w : World) : World :=
  set_pipe (λ p, pl_set_changed true
    (match kind with
     | KProducer => pl_set_producers (delete id (pl_producers p))
     | KProcessor => pl_set_processors (delete id (pl_processors p))
     end (pl_set_children (delete id (pl_children p)) p))) w.

Lemma drop_child_connections id kind w : connections (drop_child id kind w) = connections w.
Proof. by destruct kind. Qed.
Lemma drop_child_children id kind w : children (drop_child id kind w) = delete id (children w).
Proof. by destruct kind. Qed.

(** In an isolated graph no connection touches the element. *)
Lemma isolated_untouched w e x k c : graph_wf w → w_elems w !! e = Some x →
  isolated e x w → connections w !! k = Some c → ¬ touches w e c.
Proof.
  intros Hwf Hx [Hin Hout] Hk Ht.
  destruct (wf_connections _ Hwf _ _ Hk) as (y & o & i & [Hy Ho Hi
    (po & pi & Hpo & Hpi & Hc & Hcon & _ & _ & (xo & [Hxo _] & Hpino) & (xi & [Hxi _] & Hkind & Hpini))] & _).
  destruct Ht as (y' & Hy' & [(o' & po' & ? & ? & Hown)|(i' & pi' & ? & ? & Hown)]); simplify_eq.
  - rewrite (Hout o' po') in Hc; [by apply not_elem_of_nil in Hc|apply elem_of_hash_values; eauto|done].
  - rewrite (Hin Hkind i' pi') in Hcon; [done|apply elem_of_hash_values; eauto|done].
Qed.

Lemma drop_child_wf w id e x : graph_wf w → children w !! id = Some e →
  w_elems w !! e = Some x → isolated e x w → graph_wf (drop_child id (el_kind x) w).
Proof.
  intros Hwf Hid Hx Hiso.
  destruct (wf_children _ Hwf _ _ Hid) as (x' & Hx' & Helid & _); simplify_eq.
  assert (Hkeep : ∀ y xy, y ≠ e → in_pipeline w y xy → in_pipeline (drop_child (el_id x) (el_kind x) w) y xy).
  { intros y xy Hne [Hy Hc]. split; [by destruct (el_kind x)|].
    rewrite drop_child_children, lookup_delete_ne; [done|]. congruence. }
  split.
  - intros k c Hk. rewrite drop_child_connections in Hk.
    pose proof (isolated_untouched _ _ _ _ _ Hwf Hx Hiso Hk) as Hnt.
    destruct (wf_connections _ Hwf _ _ Hk) as (y & o & i & [Hy Ho Hi (po & pi & H1 & H2 & H3 & H4 & H5 & H6 & (xo & ? & ?) & (xi & ? & ?))] & Hyid).
    exists y, o, i. split; [|done]. split; [by destruct (el_kind x)|done..|].
    exists po, pi. split_and!; [by destruct (el_kind x)|by destruct (el_kind x)|done..| |].
    + exists xo. split; [|done]. apply Hkeep; [|done]. intros Heq. apply Hnt.
      exists y. split; [done|]. left. eauto.
    + exists xi. split; [|done]. apply Hkeep; [|done]. intros Heq. apply Hnt.
      exists y. split; [done|]. right. eauto.
  - intros. rewrite drop_child_connections. destruct (el_kind x); by eapply (wf_inputs _ Hwf).
  - intros. rewrite drop_child_connections. destruct (el_kind x); by eapply (wf_outputs _ Hwf).
  - destruct (el_kind x); apply (wf_nodup _ Hwf).
  - intros k y. rewrite drop_child_children. intros [Hne Hk]%lookup_delete_Some.
    destruct (el_kind x); by apply (wf_children _ Hwf).
  - intros k y. rewrite drop_child_children, lookup_delete_Some.
    pose proof (wf_producers _ Hwf k y). destruct (el_kind x) eqn:Ek; cbn.
    + rewrite lookup_delete_Some. naive_solver.
    + split; [|naive_solver]. intros Hp. destruct (decide (el_id x = k)) as [<-|]; [|naive_solver].
      destruct H1 as [H1 _]. destruct (H1 Hp) as [? Hkind]. simplify_eq. rewrite Hx in Hkind. cbn in Hkind. congruence.
  - intros k y. rewrite drop_child_children, lookup_delete_Some.
    pose proof (wf_processors _ Hwf k y). destruct (el_kind x) eqn:Ek; cbn.
    + split; [|naive_solver]. intros Hp. destruct (decide (el_id x = k)) as [<-|]; [|naive_solver].
      destruct H1 as [H1 _]. destruct (H1 Hp) as [? Hkind]. simplify_eq. rewrite Hx in Hkind. cbn in Hkind. congruence.
    + rewrite lookup_delete_Some. naive_solver.
  - destruct (el_kind x); apply (wf_inputPins _ Hwf).
  - destruct (el_kind x); apply (wf_outputPins _ Hwf).
Qed.

Lemma run_removeElement w id e : graph_wf w → children w !! id = Some e →
  ∃ w1 x, w_elems w !! e = Some x ∧ cuts e w w1 ∧ isolated e x w1 ∧
    removeElement id w = (Ok tt, add_signal (elementRemoved id e) (drop_child id (el_kind x) w1)).
Proof.
  intros Hwf Hid. destruct (wf_children _ Hwf _ _ Hid) as (x & Hx & Helid & _).
  destruct (wpr_elim _ _ _ (removeConnectionsForElement_cuts w e x Hwf Hx)) as ([] & w1 & Hrun & Hcut & Hiso).
  exists w1, x. split_and!; [done..|].
  unfold removeElement, get_pipe, gets, mbind, M_bind. rewrite Hid, Hrun. cbn.
  pose proof (cut_wf _ _ _ Hcut) as Hwf1. pose proof (cut_shrinks _ _ _ Hcut) as Hs.
  assert (Hx1 : w_elems w1 !! e = Some x) by (by rewrite (sh_elems _ _ Hs)).
  assert (Hid1 : children w1 !! id = Some e) by (by rewrite (shrinks_children _ _ Hs)).
  unfold upd_pipe, modify. f_equal. unfold add_signal, drop_child, set_pipe; cbn. do 2 f_equal.
  unfold forget_kind. destruct (el_kind x) eqn:Ek.
  - rewrite bool_decide_true; [done|]. exists e. apply (wf_producers _ Hwf1). by rewrite Hx1, <-Ek.
  - rewrite bool_decide_false, bool_decide_true; [done| |].
    + exists e. apply (wf_processors _ Hwf1). by rewrite Hx1, <-Ek.
    + intros [e' [He' Hk']%(wf_producers _ Hwf1)]. simplify_eq. rewrite Hx1 in Hk'. cbn in Hk'. congruence.
Qed.

Lemma removeElement_effect w id e : graph_wf w → children w !! id = Some e →
  ∃ w' w1, removeElement id w = (Ok tt, w') ∧ graph_wf w' ∧ children w' = delete id (children w) ∧
    (∀ k c, connections w' !! k = Some c ↔ connections w !! k = Some c ∧ ¬ touches w e c) ∧
    shrinks w w1 ∧ w_elems w' = w_elems w1 ∧ w_ins w' = w_ins w1 ∧ w_outs w' = w_outs w1 ∧
    w_conns w' = w_conns w1 ∧ connections w' = connections w1.
Proof.
  intros Hwf Hid. destruct (run_removeElement w id e Hwf Hid) as (w1 & x & Hx & Hcut & Hiso & Hrun).
  pose proof (cut_wf _ _ _ Hcut) as Hwf1. pose proof (cut_shrinks _ _ _ Hcut) as Hs.
  assert (Hx1 : w_elems w1 !! e = Some x) by (by rewrite (sh_elems _ _ Hs)).
  assert (Hid1 : children w1 !! id = Some e) by (by rewrite (shrinks_children _ _ Hs)).
  eexists _, w1. split; [done|]. split_and!; [| | |done|by destruct (el_kind x)..|apply drop_child_connections].
  - apply graph_wf_signal. by eapply drop_child_wf.
  - cbn [add_signal w_pipe]. by rewrite drop_child_children, (shrinks_children _ _ Hs).
  - intros k c. cbn [add_signal w_pipe]. rewrite drop_child_connections. split.
    + intros Hk. split; [by eapply lookup_weaken, (sh_connections _ _ Hs)|].
      intros (y & Hy & Ht). eapply (isolated_untouched w1 e x k c); [done..|].
      exists y. rewrite (sh_conns _ _ Hs _ _ Hk). split; [done|].
      destruct Ht as [(o & po & Ho & Hpo & Hown)|(i & pi & Hi & Hpi & Hown)]; [left|right].
      * destruct (shrinks_out _ _ _ _ Hs Hpo) as (po' & Hpo' & l & -> & _). naive_solver.
      * destruct (shrinks_in _ _ _ _ Hs Hpi) as (pi' & Hpi' & l & -> & _). naive_solver.
    + intros [Hk Hnt]. by destruct (cut_only _ _ _ Hcut k c Hk).
Qed.

(** C14: removing an element of a well-formed pipeline succeeds, leaves the
    pipeline well formed, takes exactly that element out, and removes
    exactly the connections that have an end at it. *)
Theorem removeElement_correct w id e :
  graph_wf w → children w !! id = Some e →
  ∃ w', removeElement id w = (Ok tt, w') ∧ graph_wf w' ∧
    children w' = delete id (children w) ∧
    ∀ k c, connections w' !! k = Some c ↔ connections w !! k = Some c ∧ ¬ touches w e c.
Proof.
  intros Hwf Hid. destruct (removeElement_effect w id e Hwf Hid) as (w' & w1 & Hrun & Hwf' & Hch & Hco & _). by exists w'.
Qed.
End remove.
