(* ===== verification/GraphBuild.v ===== *)
(** Building the graph: fresh ids, addElement, connectPins; and clear. *)
From S2P Require Export GraphOps.

(** ** Ids *)

Lemma scan_ids_spec keys id : StronglySorted Z.lt keys →
  (scan_ids keys id ∉ keys) ∧ id ≤ scan_ids keys id ≤ id + Z.of_nat (length keys).
Proof.
  intros Hs. revert id. induction Hs as [|k keys Hs IH Hk]; intros id; cbn [scan_ids length].
  - split; [set_solver|lia].
  - rewrite Forall_forall in Hk. case_bool_decide as E.
    + split; [|lia]. intros [->|Hin]%elem_of_cons; [lia|]. specialize (Hk _ Hin). lia.
    + destruct (IH (id + 1)) as [Hn Hr]. split; [|lia].
      intros [Heq|Hin]%elem_of_cons; [lia|done].
Qed.

Lemma scan_ids_least keys id n : StronglySorted Z.lt keys → (∀ k, k ∈ keys → id ≤ k) →
  id ≤ n < scan_ids keys id → n ∈ keys.
Proof.
  intros Hs. revert id. induction Hs as [|k keys Hs IH Hk]; intros id Hge; cbn [scan_ids].
  - lia.
  - rewrite Forall_forall in Hk. case_bool_decide as E; [lia|]. intros Hn.
    assert (k = id) as -> by (specialize (Hge k); set_solver by lia).
    destruct (decide (n = id)) as [->|]; [set_solver|].
    apply list_elem_of_further, (IH (id + 1)); [|lia].
    intros k' Hk'. specialize (Hk _ Hk'). lia.
Qed.

(** Ids given out without a gap are continued. *)
Lemma scan_ids_seq n s : 0 ≤ n → scan_ids (seqZ s n) s = s + n.
Proof.
  intros Hn. revert s. rewrite <-(Z2Nat.id n) by done. clear Hn. induction (Z.to_nat n) as [|k IH]; intros s; [by rewrite Z.add_0_r|].
  rewrite seqZ_cons by lia. cbn [scan_ids]. rewrite bool_decide_false by lia.
  replace (Z.pred (Z.of_nat (S k))) with (Z.of_nat k) by lia. rewrite <-Z.add_1_r, IH. lia.
Qed.

Lemma qmap_keys_sorted {A} (m : gmap Z A) : StronglySorted Z.lt (qmap_items m).*1.
Proof.
  pose proof (qmap_items_sorted m) as Hs. pose proof (NoDup_qmap_keys m) as Hnd.
  induction Hs as [|p l Hs IH Hp]; cbn in *; [constructor|].
  apply NoDup_cons in Hnd as [Hn Hnd]. constructor; [by apply IH|].
  rewrite Forall_forall in Hp. apply Forall_forall. intros k Hk. apply list_elem_of_fmap in Hk as (q & -> & Hq).
  specialize (Hp _ Hq). unfold key_le in Hp.
  assert (p.1 ≠ q.1) by (intros E; apply Hn; rewrite E; by apply list_elem_of_fmap_2). lia.
Qed.

Lemma elem_of_qmap_keys {A} (m : gmap Z A) k : k ∈ (qmap_items m).*1 ↔ is_Some (m !! k).
Proof.
  rewrite list_elem_of_fmap. split.
  - intros ([k' a] & -> & H%elem_of_qmap_items). eauto.
  - intros [a H%elem_of_qmap_items]. by exists (k, a).
Qed.

Lemma scan_map_fresh {A} (m : gmap Z A) :
  m !! scan_ids (qmap_items m).*1 0 = None ∧
  0 ≤ scan_ids (qmap_items m).*1 0 ≤ Z.of_nat (size m).
Proof.
  destruct (scan_ids_spec _ 0 (qmap_keys_sorted m)) as [Hn Hr].
  rewrite elem_of_qmap_keys in Hn. split; [by apply eq_None_not_Some|].
  rewrite length_fmap in Hr. unfold qmap_items in *.
  rewrite (Permutation_length (merge_sort_Permutation key_le (map_to_list m))), length_map_to_list in Hr.
  lia.
Qed.

Lemma run_getNewPipelineElementId w :
  ∃ id, getNewPipelineElementId w = (Ok id, w) ∧
    children w !! id = None ∧ 0 ≤ id ≤ Z.of_nat (size (children w)) ∧
    ((∀ k, is_Some (children w !! k) → 0 ≤ k) →
     ∀ n, 0 ≤ n < id → is_Some (children w !! n)).
Proof.
  eexists. split; [reflexivity|]. destruct (scan_map_fresh (children w)) as [Hn Hr].
  split_and!; [done|lia..|]. intros Hpos n Hlt. apply elem_of_qmap_keys.
  eapply scan_ids_least; [apply qmap_keys_sorted| |done].
  intros k Hk%elem_of_qmap_keys. auto.
Qed.

(** [getNewPipelineElementId] returns an id that no child uses (whatever
    ids, negative ones included, were loaded), between 0 and the number of
    children; when all ids are non-negative it is the least free one. *)
Theorem getNewPipelineElementId_fresh w :
  ∃ id, getNewPipelineElementId w = (Ok id, w) ∧
    children w !! id = None ∧ 0 ≤ id ≤ Z.of_nat (size (children w)) ∧
    ((∀ k, is_Some (children w !! k) → 0 ≤ k) →
     ∀ n, 0 ≤ n < id → is_Some (children w !! n)).
Proof. apply run_getNewPipelineElementId. Qed.

(** ** addElement *)
Section add.
Context `{HashOrder} `{QMetaType}.

(** The heap after a successful [addElement]. *)
Definition added (w : World) (e : eptr) (x : Element) (id : Z) : World :=
  add_signal (elementAdded id e)
    (set_pipe (λ p, pl_set_changed true
      (match el_kind x with
       | KProducer => pl_set_producers (<[id := e]> (pl_producers p))
       | KProcessor => pl_set_processors (<[id := e]> (pl_processors p))
       end (pl_set_children (<[id := e]> (pl_children p)) p)))
    (set_elems (insert e (el_set_pipeline (el_set_id id x))) w)).

Lemma el_kind_set x id : el_kind (el_set_pipeline (el_set_id id x)) = el_kind x.
Proof. done. Qed.

Lemma run_addElement w e x : w_elems w !! e = Some x → el_id x = -1 →
  ∃ id, children w !! id = None ∧ 0 ≤ id ∧ addElement e w = (Ok id, added w e x id).
Proof.
  intros Hx Hid. destruct (run_getNewPipelineElementId w) as (id & Hget & Hfree & Hr & _).
  exists id. split_and!; [done|lia|].
  assert (Hcan : canAddElement e w = (Ok true, w)).
  { unfold canAddElement. runs. by rewrite Hid. }
  assert (Hset : el_setId e id w = (Ok tt, set_elems (insert e (el_set_id id x)) w)).
  { unfold el_setId. run. rewrite Hid. run. by apply run_upd_elem. }
  unfold addElement. run. run. run. rewrite Hid. cbn [bool_decide decide_rel].
  rewrite bool_decide_true by done.
  erewrite run_bind by (do 2 run; reflexivity). cbv beta.
  run. unfold added, set_elems. cbn. rewrite insert_insert_eq. by destruct (el_kind x).
Qed.

(** An element not yet in the pipeline. *)
Definition loose (w : World) (e : eptr) : Prop := ∀ k, children w !! k ≠ Some e.

Lemma children_added w e x id : children (added w e x id) = <[id := e]> (children w).
Proof. unfold added. by destruct (el_kind x). Qed.
Lemma connections_added w e x id : connections (added w e x id) = connections w.
Proof. unfold added. by destruct (el_kind x). Qed.
Lemma producers_added w e x id : pl_producers (w_pipe (added w e x id)) =
  if bool_decide (el_kind x = KProducer) then <[id := e]> (pl_producers (w_pipe w))
  else pl_producers (w_pipe w).
Proof. unfold added. by destruct (el_kind x). Qed.
Lemma processors_added w e x id : pl_processors (w_pipe (added w e x id)) =
  if bool_decide (el_kind x = KProcessor) then <[id := e]> (pl_processors (w_pipe w))
  else pl_processors (w_pipe w).
Proof. unfold added. by destruct (el_kind x). Qed.

(** The producer and processor maps keep track of the kinds. *)
Lemma kind_map_added (ch m : gmap Z eptr) (elems : gmap eptr Element) e x x' id kind :
  (∀ k y, m !! k = Some y ↔ ch !! k = Some y ∧ el_kind <$> elems !! y = Some kind) →
  ch !! id = None → (∀ k, ch !! k ≠ Some e) → el_kind x' = el_kind x →
  ∀ k y, (if bool_decide (el_kind x = kind) then <[id := e]> m else m) !! k = Some y ↔
    <[id := e]> ch !! k = Some y ∧ el_kind <$> <[e := x']> elems !! y = Some kind.
Proof.
  intros Hm Hid He Hk k y.
  assert (Hne : ∀ k, ch !! k = Some y → y ≠ e) by (intros k' Hk' ->; by apply (He k')).
  destruct (decide (k = id)) as [->|Hki].
  - rewrite lookup_insert_eq. case_bool_decide as E.
    + rewrite lookup_insert_eq. split.
      * intros [= <-]. by rewrite lookup_insert_eq; cbn; rewrite Hk, E.
      * naive_solver.
    + rewrite Hm, Hid. split; [naive_solver|]. intros [[= <-] Hkind].
      rewrite lookup_insert_eq in Hkind. cbn in Hkind. congruence.
  - rewrite (lookup_insert_ne ch) by done.
    assert (Hgoal : m !! k = Some y ↔ ch !! k = Some y ∧ el_kind <$> <[e:=x']> elems !! y = Some kind).
    { rewrite Hm. split; intros [Hc Hkk]; split; try done.
      - by rewrite lookup_insert_ne by (by apply not_eq_sym, (Hne k)).
      - by rewrite lookup_insert_ne in Hkk by (by apply not_eq_sym, (Hne k)). }
    case_bool_decide; [by rewrite lookup_insert_ne|done].
Qed.

Lemma added_wf w e x id : graph_wf w → w_elems w !! e = Some x → loose w e →
  children w !! id = None → graph_wf (added w e x id).
Proof.
  intros Hwf Hx Hloose Hid.
  assert (Hkeep : ∀ y xy, in_pipeline w y xy → in_pipeline (added w e x id) y xy).
  { intros y xy [Hy Hc]. assert (y ≠ e) by (intros ->; by apply (Hloose (el_id xy))).
    split; [by cbn; rewrite lookup_insert_ne|].
    rewrite children_added, lookup_insert_ne; [done|]. congruence. }
  split.
  - intros k c. rewrite connections_added. intros Hk.
    destruct (wf_connections _ Hwf _ _ Hk) as (y & o & i & [Hy Ho Hi (po & pi & H1' & H2' & H3 & H4 & H5 & H6 & (xo & ? & ?) & (xi & ? & ?))] & Hyid).
    exists y, o, i. split; [|done]. split; [done..|]. exists po, pi.
    split_and!; [done..| |]; [exists xo|exists xi]; naive_solver.
  - intros i pi c. rewrite connections_added. apply (wf_inputs _ Hwf).
  - intros o po c. rewrite connections_added. apply (wf_outputs _ Hwf).
  - apply (wf_nodup _ Hwf).
  - intros k y. rewrite children_added. intros [[<- <-]|[Hne Hk]]%lookup_insert_Some.
    + eexists. cbn. by rewrite lookup_insert_eq.
    + destruct (wf_children _ Hwf _ _ Hk) as (xy & ? & ? & ?). exists xy. cbn.
      rewrite lookup_insert_ne; [done|]. intros ->. by apply (Hloose k).
  - intros k y. rewrite producers_added, children_added. cbn [added w_elems add_signal set_pipe set_elems].
    apply kind_map_added; [apply (wf_producers _ Hwf)|done..].
  - intros k y. rewrite processors_added, children_added. cbn [added w_elems add_signal set_pipe set_elems].
    apply kind_map_added; [apply (wf_processors _ Hwf)|done..].
  - intros y xy k i. cbn. intros [[<- <-]|[Hne Hy]]%lookup_insert_Some Hk;
      [by apply (wf_inputPins _ Hwf e x)|by eapply (wf_inputPins _ Hwf)].
  - intros y xy k i. cbn. intros [[<- <-]|[Hne Hy]]%lookup_insert_Some Hk;
      [by apply (wf_outputPins _ Hwf e x)|by eapply (wf_outputPins _ Hwf)].
Qed.

(** C28: adding a new element (id -1) to a well-formed pipeline gives it an id
    that was free, files it under that id and nowhere else, and keeps the
    pipeline well formed. *)
Theorem addElement_correct w e x :
  graph_wf w → w_elems w !! e = Some x → el_id x = -1 → loose w e →
  ∃ id w', addElement e w = (Ok id, w') ∧ graph_wf w' ∧
    children w !! id = None ∧ 0 ≤ id ∧
    children w' = <[id := e]> (children w) ∧ connections w' = connections w ∧
    el_id <$> w_elems w' !! e = Some id.
Proof.
  intros Hwf Hx Hid Hloose. destruct (run_addElement w e x Hx Hid) as (id & Hfree & Hpos & Hrun).
  exists id, (added w e x id).
  split_and!; [done|by apply added_wf|done..|apply children_added|apply connections_added|].
  cbn. by rewrite lookup_insert_eq.
Qed.

(** An element whose id is already taken is added all the same: the call
    warns, and the child that had the id is no longer a child, although its
    producer or processor entry of the other kind stays behind. *)
Theorem addElement_taken_id_replaces w e x e0 :
  w_elems w !! e = Some x → el_id x ≠ -1 → children w !! el_id x = Some e0 →
  ∃ w', addElement e w = (Ok (el_id x), w') ∧
    children w' !! el_id x = Some e ∧
    (∃ msg, pipelineMessage QtWarningMsg msg ∈ w_signals w') ∧
    (el_kind x = KProcessor → pl_producers (w_pipe w') = pl_producers (w_pipe w)) ∧
    (el_kind x = KProducer → pl_processors (w_pipe w') = pl_processors (w_pipe w)).
Proof.
  intros Hx Hid Htaken.
  assert (Hcan : canAddElement e w = (Ok false, w)).
  { unfold canAddElement. runs. rewrite bool_decide_true by done.
    by rewrite bool_decide_false by (by rewrite Htaken). }
  unfold addElement. run. run. run. rewrite (bool_decide_false (el_id x = -1)) by done.
  run. run.
  destruct (el_kind x); cbn; eexists; (split; [reflexivity|]); cbn; rewrite lookup_insert_eq;
    (split_and!; [done| |done|done]);
    eexists; apply elem_of_app; left; apply elem_of_app; right; by apply list_elem_of_singleton.
Qed.
End add.
