(* ===== verification/GraphConnect.v ===== *)
(** Connecting pins: when PinConnection::connect accepts, what it throws
    otherwise, that Pipeline::canConnectPins predicts it, and that connectPins
    and clear keep the graph well formed. *)
From S2P Require Export GraphBuild.

Section connect.
Context `{HashOrder} `{QMetaType}.

(** ** The decision *)
Inductive Verdict := Accept | RefuseSelf | RefuseConnected | RefuseType.
#[export] Instance Verdict_eq_dec : EqDecision Verdict.
Proof. solve_decision. Defined.

Definition verdict (po : IOutputPin) (pi : IInputPin) : Verdict :=
  if bool_decide (op_owner po = ip_owner pi) then RefuseSelf
  else if ip_isConnected pi then RefuseConnected
  else if ip_isDynamicallyTyped pi then
    if isRegistered (op_typeId po) then Accept else RefuseType
  else if bool_decide (op_typeId po = ip_typeId pi) then Accept else RefuseType.

(** The input pin once its type has been adapted. *)
Definition typed_pin (po : IOutputPin) (pi : IInputPin) : IInputPin :=
  if ip_isDynamicallyTyped pi then ip_set_typeId (op_typeId po) pi else pi.

(** Two existing pins of existing elements. *)
Record pins_at (w : World) (o : optr) (i : iptr) (po : IOutputPin) (pi : IInputPin) : Prop := {
  pa_out : w_outs w !! o = Some po;
  pa_in : w_ins w !! i = Some pi;
  pa_owner_out : is_Some (w_elems w !! op_owner po);
  pa_owner_in : is_Some (w_elems w !! ip_owner pi)
}.

Lemma verdict_accept po pi : verdict po pi = Accept →
  op_owner po ≠ ip_owner pi ∧ ip_connection pi = None ∧
  op_typeId po = ip_typeId (typed_pin po pi).
Proof.
  unfold verdict, typed_pin. case_bool_decide as E1; [done|].
  destruct (ip_isConnected pi) eqn:E2; [done|]. intros Hv. split; [done|].
  split. { apply eq_None_not_Some. by apply bool_decide_eq_false in E2. }
  destruct (ip_isDynamicallyTyped pi); [done|]. by case_bool_decide.
Qed.

Lemma typed_connection po pi : ip_connection (typed_pin po pi) = ip_connection pi.
Proof. unfold typed_pin. by destruct (ip_isDynamicallyTyped pi). Qed.
Lemma typed_owner po pi : ip_owner (typed_pin po pi) = ip_owner pi.
Proof. unfold typed_pin. by destruct (ip_isDynamicallyTyped pi). Qed.
Lemma typed_id po pi : ip_id (typed_pin po pi) = ip_id pi.
Proof. unfold typed_pin. by destruct (ip_isDynamicallyTyped pi). Qed.

(** The type adaptation, as both callers perform it. *)
Lemma run_setTypeId w i po pi : w_ins w !! i = Some pi → ip_isConnected pi = false →
  din_setTypeId i (op_typeId po) w =
    if isRegistered (op_typeId po)
    then (Ok true, set_ins (insert i (ip_set_typeId (op_typeId po) pi)) w)
    else (Ok false, w).
Proof.
  intros Hpi Hc. unfold din_setTypeId. run. rewrite Hc. cbn [orb].
  destruct (isRegistered (op_typeId po)); cbn [negb]; [|done].
  erewrite run_bind by (by apply run_upd_in). done.
Qed.

Lemma run_accepts w o i po pi : w_outs w !! o = Some po → w_ins w !! i = Some pi →
  op_typeId po = ip_typeId pi →
  out_acceptsConnectionWith o i w = (Ok true, w) ∧ in_acceptsConnectionWith i o w = (Ok true, w).
Proof.
  intros Hpo Hpi Ht. unfold out_acceptsConnectionWith, in_acceptsConnectionWith.
  split; runs; unfold mret, M_ret; [destruct (op_class po)|destruct (ip_class pi)];
    rewrite ?bool_decide_true by done; done.
Qed.

(** ** canConnectPins *)

(** The heap after [canConnectPins]: an accepted dynamic pin has changed its
    type. *)
Definition retyped (w : World) (i : iptr) (po : IOutputPin) (pi : IInputPin) : World :=
  if ip_isDynamicallyTyped pi
  then set_ins (insert i (ip_set_typeId (op_typeId po) pi)) w else w.

Lemma run_canConnectPins w o i po pi : pins_at w o i po pi →
  ∃ reason, conn_canConnectPins o i w =
    (Ok (bool_decide (verdict po pi = Accept), reason),
     if bool_decide (verdict po pi = Accept) then retyped w i po pi else w).
Proof.
  intros [Hpo Hpi [xo Hxo] [xi Hxi]]. unfold conn_canConnectPins. run. run.
  unfold verdict. destruct (bool_decide (op_owner po = ip_owner pi)) eqn:Eself.
  { runs. rewrite (bool_decide_false (RefuseSelf = Accept)) by done. eexists. reflexivity. }
  destruct (ip_isConnected pi) eqn:Econ.
  { rewrite (bool_decide_false (RefuseConnected = Accept)) by done. eexists. reflexivity. }
  unfold retyped. destruct (ip_isDynamicallyTyped pi) eqn:Edyn.
  - pose proof (run_setTypeId w i po pi Hpi Econ) as Hset.
    destruct (isRegistered (op_typeId po)) eqn:Ereg.
    + erewrite run_bind by (erewrite run_bind by exact Hset; reflexivity). cbn [negb fst snd].
      destruct (run_accepts (set_ins (insert i (ip_set_typeId (op_typeId po) pi)) w) o i po
        (ip_set_typeId (op_typeId po) pi)) as [H1 H2]; [done|cbn; by rewrite lookup_insert_eq|done|].
      erewrite run_bind by exact H1. cbn [negb]. erewrite run_bind by exact H2. cbn [negb].
      rewrite (bool_decide_true (Accept = Accept)) by done. eexists; reflexivity.
    + erewrite run_bind by (erewrite run_bind by exact Hset; reflexivity). cbn [negb fst snd].
      rewrite (bool_decide_false (RefuseType = Accept)) by done. eexists; reflexivity.
  - erewrite run_bind by reflexivity. cbn [negb fst snd].
    destruct (bool_decide (op_typeId po = ip_typeId pi)) eqn:Et; cbn [negb].
    + destruct (run_accepts w o i po pi Hpo Hpi) as [H1 H2]; [by apply bool_decide_eq_true in Et|].
      erewrite run_bind by exact H1. cbn [negb]. erewrite run_bind by exact H2. cbn [negb].
      rewrite (bool_decide_true (Accept = Accept)) by done. eexists; reflexivity.
    + rewrite (bool_decide_false (RefuseType = Accept)) by done. eexists; reflexivity.
Qed.

(** ** connect *)

(** The heap once connection object [c] is attached to both pins. *)
Definition attach (w : World) (c : cptr) (o : optr) (i : iptr) (po : IOutputPin) (pi : IInputPin) : World :=
  set_ins (insert i (ip_set_connection (Some c) (typed_pin po pi)))
    (set_outs (insert o (op_set_connections (op_connections po ++ [c]) po)) w).

Lemma run_attach_tail w c o i po pi :
  w_outs w !! o = Some po → w_ins w !! i = Some pi → ip_connection pi = None →
  (out_addConnection o c ;; in_setConnection i c ;; pi' ← get_in i ; assert (ip_isConnected pi')) w =
    (Ok tt, set_ins (insert i (ip_set_connection (Some c) pi))
      (set_outs (insert o (op_set_connections (op_connections po ++ [c]) po)) w)).
Proof.
  intros Hpo Hpi Hn. unfold out_addConnection, in_setConnection. run.
  erewrite run_bind; [|run; unfold ip_isConnected; rewrite Hn;
    rewrite bool_decide_false by (by intros []); erewrite run_bind by reflexivity; by apply run_upd_in].
  cbv beta. erewrite run_bind; [|eapply run_get_in; cbn; by rewrite lookup_insert_eq]. done.
Qed.

Lemma run_conn_connect w c x o i po pi : pins_at w o i po pi →
  w_conns w !! c = Some x → pc_producer x = Some o → pc_consumer x = Some i →
  match verdict po pi with
  | Accept => conn_connect c w = (Ok tt, attach w c o i po pi)
  | RefuseSelf => ∃ m, conn_connect c w = (Throw (IllegalConnectionException m), w)
  | RefuseConnected => ∃ m, conn_connect c w = (Throw (DuplicateConnectionException m), w)
  | RefuseType => ∃ m, conn_connect c w = (Throw (IncompatibleTypeException m), w)
  end.
Proof.
  intros [Hpo Hpi [xo Hxo] [xi Hxi]] Hx Hprod Hcons.
  unfold conn_connect.
  erewrite run_bind by (by apply run_get_conn). rewrite Hprod, Hcons.
  run. run. run. run. unfold verdict.
  rewrite (bool_decide_ext (ip_owner pi = op_owner po) (op_owner po = ip_owner pi)) by done.
  destruct (bool_decide (op_owner po = ip_owner pi)) eqn:Eself; cbn [when].
  { eexists. erewrite run_bind_throw; [reflexivity|]. run. reflexivity. }
  run. destruct (ip_isConnected pi) eqn:Econ; cbn [when].
  { eexists. by erewrite run_bind_throw by reflexivity. }
  run. assert (Hnone : ip_connection pi = None).
  { unfold ip_isConnected in Econ. apply bool_decide_eq_false in Econ. by apply eq_None_not_Some. }
  unfold attach, typed_pin. destruct (ip_isDynamicallyTyped pi) eqn:Edyn.
  - pose proof (run_setTypeId w i po pi Hpi Econ) as Hset.
    destruct (isRegistered (op_typeId po)) eqn:Ereg.
    + erewrite run_bind by (erewrite run_bind by exact Hset; reflexivity). cbn [negb].
      set (w1 := set_ins (insert i (ip_set_typeId (op_typeId po) pi)) w).
      assert (Hpi1 : w_ins w1 !! i = Some (ip_set_typeId (op_typeId po) pi)) by (cbn; by rewrite lookup_insert_eq).
      destruct (run_accepts w1 o i po (ip_set_typeId (op_typeId po) pi)) as [H1 H2]; [done..|].
      erewrite run_bind by exact H1. cbn [negb when]. run. erewrite run_bind by exact H2. cbn [negb when]. run.
      etransitivity; [by apply (run_attach_tail w1 c o i po (ip_set_typeId (op_typeId po) pi))|].
      unfold w1, set_ins, set_outs; cbn. by rewrite insert_insert_eq.
    + eexists. erewrite run_bind_throw; [reflexivity|].
      erewrite run_bind by exact Hset. reflexivity.
  - destruct (bool_decide (op_typeId po = ip_typeId pi)) eqn:Et; cbn [negb when].
    + run. destruct (run_accepts w o i po pi Hpo Hpi) as [H1 H2]; [by apply bool_decide_eq_true in Et|].
      erewrite run_bind by exact H1. cbn [negb when]. run. erewrite run_bind by exact H2. cbn [negb when]. run.
      by apply run_attach_tail.
    + eexists. by erewrite run_bind_throw by reflexivity.
Qed.

(** ** connectPins *)

Lemma fresh_key_lt {A} (m : gmap positive A) k : is_Some (m !! k) → (k < fresh_key m)%positive.
Proof.
  unfold fresh_key. intros [a Ha]. revert k a Ha.
  apply (map_fold_weak_ind (λ r m, ∀ k a, m !! k = Some a → (k < r)%positive)).
  - intros k a. by rewrite lookup_empty.
  - intros j b m' r _ IH k a [[-> _]|[Hne Hk]]%lookup_insert_Some; [lia|].
    specialize (IH _ _ Hk). lia.
Qed.
Lemma fresh_key_fresh {A} (m : gmap positive A) : m !! fresh_key m = None.
Proof. apply eq_None_not_Some. intros Hs%fresh_key_lt. lia. Qed.

(** The heap with the new connection object, before it is connected. *)
Definition allocated (w : World) (id : Z) (o : optr) (i : iptr) : World :=
  set_conns (insert (fresh_key (w_conns w)) (mkConn id (Some o) (Some i) [])) w.

Lemma run_new_ok w w' id o i :
  conn_connect (fresh_key (w_conns w)) (allocated w id o i) = (Ok tt, w') →
  new_PinConnection id o i w = (Ok (fresh_key (w_conns w)), w').
Proof.
  intros Hc. unfold new_PinConnection. run. run.
  erewrite run_bind; [|unfold try_catch, allocated in *; rewrite Hc; reflexivity]. done.
Qed.

Lemma run_new_throw w e id o i :
  conn_connect (fresh_key (w_conns w)) (allocated w id o i) = (Throw e, allocated w id o i) →
  new_PinConnection id o i w = (Throw e, w).
Proof.
  intros Hc. unfold new_PinConnection. run. run. apply run_bind_throw.
  unfold try_catch, allocated in *. rewrite Hc.
  erewrite run_bind by reflexivity. unfold throw, set_conns; cbn.
  rewrite delete_insert_id by apply fresh_key_fresh. by destruct w.
Qed.

Lemma pins_at_allocated w id o i po pi : pins_at w o i po pi →
  pins_at (allocated w id o i) o i po pi.
Proof. by intros []. Qed.

(** The heap after a successful [connectPins]. *)
Definition connected (w : World) (id : Z) (c : cptr) (o : optr) (i : iptr)
    (po : IOutputPin) (pi : IInputPin) : World :=
  add_signal (connectionAdded id c)
    (set_pipe (λ p, pl_set_connections (<[id := c]> (pl_connections p)) p)
      (attach (set_conns (insert c (mkConn id (Some o) (Some i) [])) w) c o i po pi)).

Lemma run_connectPins_scan w o i po pi : pins_at w o i po pi → verdict po pi = Accept →
  connectPins o i w = (Ok (scan_ids (qmap_items (connections w)).*1 0),
    connected w (scan_ids (qmap_items (connections w)).*1 0) (fresh_key (w_conns w)) o i po pi).
Proof.
  intros Hpins Hv. unfold connectPins, getNewPinConnectionId. set (id := scan_ids _ 0).
  erewrite run_bind by reflexivity. unfold new_PinConnection.
  erewrite run_bind; [reflexivity|]. apply run_new_ok.
  assert (Hcon := run_conn_connect (allocated w id o i) (fresh_key (w_conns w))
    (mkConn id (Some o) (Some i) []) o i po pi (pins_at_allocated w id o i po pi Hpins)).
  rewrite Hv in Hcon. apply Hcon; [|done..]. cbn. by rewrite lookup_insert_eq.
Qed.

Lemma run_connectPins w o i po pi : pins_at w o i po pi → verdict po pi = Accept →
  ∃ id, connections w !! id = None ∧ 0 ≤ id ∧
    connectPins o i w = (Ok id, connected w id (fresh_key (w_conns w)) o i po pi).
Proof.
  intros Hpins Hv. exists (scan_ids (qmap_items (connections w)).*1 0).
  destruct (scan_map_fresh (connections w)) as [Hfree Hr]. split_and!; [done|lia|].
  by apply run_connectPins_scan.
Qed.

Lemma run_connectPins_verdict w o i po pi :
  pins_at w o i po pi →
  match verdict po pi with
  | Accept => ∃ id w', connectPins o i w = (Ok id, w')
  | RefuseSelf => ∃ m, connectPins o i w = (Throw (IllegalConnectionException m), w)
  | RefuseConnected => ∃ m, connectPins o i w = (Throw (DuplicateConnectionException m), w)
  | RefuseType => ∃ m, connectPins o i w = (Throw (IncompatibleTypeException m), w)
  end.
Proof.
  intros Hpins. destruct (verdict po pi) eqn:Hv.
  { destruct (run_connectPins w o i po pi Hpins Hv) as (id & _ & _ & Hrun). eauto. }
  all: set (id := scan_ids (qmap_items (connections w)).*1 0).
  all: assert (Hcon := run_conn_connect (allocated w id o i) (fresh_key (w_conns w))
    (mkConn id (Some o) (Some i) []) o i po pi (pins_at_allocated w id o i po pi Hpins)).
  all: rewrite Hv in Hcon; destruct Hcon as [m Hcon]; [cbn; by rewrite lookup_insert_eq|done|done|].
  all: exists m; unfold connectPins, getNewPinConnectionId; erewrite run_bind by reflexivity.
  all: by apply run_bind_throw, run_new_throw.
Qed.

(** An element of the pipeline that owns the pin under the pin's id. *)
Definition owned_out (w : World) (o : optr) (po : IOutputPin) : Prop :=
  ∃ xo, in_pipeline w (op_owner po) xo ∧ el_outputPins xo !! op_id po = Some o.
Definition owned_in (w : World) (i : iptr) (pi : IInputPin) : Prop :=
  ∃ xi, in_pipeline w (ip_owner pi) xi ∧ el_kind xi = KProcessor ∧
        el_inputPins xi !! ip_id pi = Some i.

Lemma owned_pins_at w o i po pi : w_outs w !! o = Some po → w_ins w !! i = Some pi →
  owned_out w o po → owned_in w i pi → pins_at w o i po pi.
Proof.
  intros Hpo Hpi (xo & [Hxo _] & _) (xi & [Hxi _] & _). by split; eauto.
Qed.

Lemma connected_attached w id c o i po pi c' x' o' i' :
  w_outs w !! o = Some po → w_ins w !! i = Some pi → ip_connection pi = None →
  w_conns w !! c = None →
  attached w c' x' o' i' → attached (connected w id c o i po pi) c' x' o' i'.
Proof.
  intros Hpo Hpi Hn Hc [Hc' Hp' Hi' (po' & pi' & H1' & H2' & H3 & H4 & H5 & H6 & H7 & H8)].
  assert (c' ≠ c) by congruence. assert (i' ≠ i) by congruence.
  split; cbn; [by rewrite lookup_insert_ne|done..|].
  destruct (decide (o' = o)) as [->|Ho]; simplify_eq.
  - eexists _, pi'. rewrite lookup_insert_eq, lookup_insert_ne by done.
    split_and!; [done|done| |done..]. cbn. set_solver.
  - exists po', pi'. rewrite !lookup_insert_ne by done. done.
Qed.

Lemma connected_wf w id c o i po pi : graph_wf w →
  w_outs w !! o = Some po → w_ins w !! i = Some pi → verdict po pi = Accept →
  owned_out w o po → owned_in w i pi →
  w_conns w !! c = None → connections w !! id = None →
  graph_wf (connected w id c o i po pi).
Proof.
  intros Hwf Hpo Hpi Hv Hoo Hoi Hc Hid.
  destruct (verdict_accept po pi Hv) as (Hne & Hn & Ht).
  assert (Hreg : ∀ x c', w_conns w !! c' = Some x → connections w !! pc_id x = Some c' →
    c' ≠ c ∧ pc_id x ≠ id) by (split; congruence).
  split; cbn.
  - intros k c' [[<- <-]|[Hk Hk']]%lookup_insert_Some.
    + exists (mkConn id (Some o) (Some i) []), o, i. split; [|done].
      split; cbn; [by rewrite lookup_insert_eq|done..|].
      eexists _, _. rewrite !lookup_insert_eq. split_and!; [done|done|set_solver|done|..]; cbn.
      * by rewrite typed_owner.
      * done.
      * done.
      * rewrite typed_owner, typed_id. done.
    + destruct (wf_connections _ Hwf _ _ Hk') as (x & o' & i' & Hat & Hxid).
      exists x, o', i'. split; [|done]. by apply connected_attached.
  - intros i' pi' c' Hpi' Hc'. apply lookup_insert_Some in Hpi' as [[<- <-]|[Hi' Hpi']].
    + cbn in Hc'. simplify_eq. eexists. split; [by rewrite lookup_insert_eq|]. cbn. by rewrite lookup_insert_eq.
    + destruct (wf_inputs _ Hwf _ _ _ Hpi' Hc') as (x & Hx & Hcons & Hr).
      destruct (Hreg _ _ Hx Hr). exists x. by rewrite !lookup_insert_ne.
  - intros o' po' c' Hpo' Hc'.
    assert (c' = c ∧ o' = o ∨ ∃ p0, w_outs w !! o' = Some p0 ∧ c' ∈ op_connections p0) as [[-> ->]|(p0 & Hp0 & Hc0)].
    { apply lookup_insert_Some in Hpo' as [[<- <-]|[Ho' Hpo']]; [|eauto].
      cbn in Hc'. apply elem_of_app in Hc' as [?|?%list_elem_of_singleton]; eauto. }
    + eexists. split; [by rewrite lookup_insert_eq|]. cbn. by rewrite lookup_insert_eq.
    + destruct (wf_outputs _ Hwf _ _ _ Hp0 Hc0) as (x & Hx & Hprod & Hr).
      destruct (Hreg _ _ Hx Hr). exists x. by rewrite !lookup_insert_ne.
  - intros o' po' [[<- <-]|[Ho' Hpo']]%lookup_insert_Some; [|by eapply (wf_nodup _ Hwf)].
    cbn. apply NoDup_app. split_and!; [by eapply wf_nodup| |apply NoDup_singleton].
    intros c' Hc' ->%list_elem_of_singleton.
    destruct (wf_outputs _ Hwf _ _ _ Hpo Hc') as (x & Hx & _). congruence.
  - apply (wf_children _ Hwf).
  - apply (wf_producers _ Hwf).
  - apply (wf_processors _ Hwf).
  - intros e x k i' He Hk. destruct (wf_inputPins _ Hwf _ _ _ _ He Hk) as (p & Hp & Hpid & Hown).
    destruct (decide (i' = i)) as [->|]; simplify_eq.
    + eexists. rewrite lookup_insert_eq. split; [done|]. cbn. by rewrite typed_id, typed_owner.
    + exists p. by rewrite lookup_insert_ne.
  - intros e x k o' He Hk. destruct (wf_outputPins _ Hwf _ _ _ _ He Hk) as (p & Hp & Hpid & Hown).
    destruct (decide (o' = o)) as [->|]; simplify_eq.
    + eexists. by rewrite lookup_insert_eq.
    + exists p. by rewrite lookup_insert_ne.
Qed.



(** ** Asking, then connecting *)
Lemma typed_pin_idem po pi : typed_pin po (typed_pin po pi) = typed_pin po pi.
Proof. unfold typed_pin. destruct (ip_isDynamicallyTyped pi) eqn:Ed; [|by rewrite Ed]. by destruct (ip_isDynamicallyTyped _). Qed.

Lemma connected_retyped w id c o i po pi :
  connected (retyped w i po pi) id c o i po (typed_pin po pi) = connected w id c o i po pi.
Proof.
  unfold connected, attach. rewrite typed_pin_idem. unfold retyped, typed_pin.
  destruct (ip_isDynamicallyTyped pi); [|done]. unfold set_ins, set_outs, set_conns; cbn. by rewrite insert_insert_eq.
Qed.

(** Asking may give a dynamic pin its type; it stays connectable. *)
Lemma retyped_accepts w o i po pi : pins_at w o i po pi → verdict po pi = Accept →
  pins_at (retyped w i po pi) o i po (typed_pin po pi) ∧ verdict po (typed_pin po pi) = Accept.
Proof.
  intros [Hpo Hpi Howo Howi] Hv. split.
  - unfold retyped, typed_pin. destruct (ip_isDynamicallyTyped pi); [|done].
    split; cbn; [done|by rewrite lookup_insert_eq|done|done].
  - revert Hv. unfold verdict, typed_pin. destruct (ip_isDynamicallyTyped pi) eqn:Ed; [|by rewrite Ed].
    unfold ip_isDynamicallyTyped, ip_isConnected in *. cbn. by rewrite Ed.
Qed.

(** The two calls that the loader and the editor make for a connection lead
    to the heap that connecting alone leads to. *)
Lemma run_can_then_connect w o i po pi : pins_at w o i po pi → verdict po pi = Accept →
  let id := scan_ids (qmap_items (connections w)).*1 0 in
  ∃ reason, connections w !! id = None ∧
    canConnectPins o i w = (Ok (true, reason), retyped w i po pi) ∧
    connectPins o i (retyped w i po pi) = (Ok id, connected w id (fresh_key (w_conns w)) o i po pi).
Proof.
  intros Hpins Hv id. destruct (run_canConnectPins w o i po pi Hpins) as [reason Hrun].
  rewrite Hv in Hrun. exists reason. split_and!; [|exact Hrun|].
  - destruct (run_connectPins _ _ _ _ _ Hpins Hv) as (id' & Hfree & _ & Hr).
    rewrite (run_connectPins_scan _ _ _ _ _ Hpins Hv) in Hr. by simplify_eq.
  - destruct (retyped_accepts _ _ _ _ _ Hpins Hv) as [Hp1 Hv1].
    pose proof (run_connectPins_scan _ _ _ _ _ Hp1 Hv1) as Hcon.
    assert (Hc : connections (retyped w i po pi) = connections w ∧ w_conns (retyped w i po pi) = w_conns w)
      by (unfold retyped; by destruct (ip_isDynamicallyTyped pi)).
    destruct Hc as [Hc1 Hc2]. by rewrite Hc1, Hc2, connected_retyped in Hcon.
Qed.

(** [canConnectPins] predicts [connectPins]: it answers [true] exactly
    when [connectPins] succeeds on the same heap, and after a positive
    answer [connectPins] still succeeds on the heap the query leaves (a
    dynamic pin has changed its type); a negative answer changes nothing. *)
Theorem canConnectPins_predicts w o i po pi :
  pins_at w o i po pi →
  ∃ b reason w1, canConnectPins o i w = (Ok (b, reason), w1) ∧
    (b = true ↔ ∃ id w', connectPins o i w = (Ok id, w')) ∧
    (b = true → ∃ id w', connectPins o i w1 = (Ok id, w')) ∧
    (b = false → w1 = w).
Proof.
  intros Hpins. destruct (run_canConnectPins w o i po pi Hpins) as [reason Hrun].
  exists (bool_decide (verdict po pi = Accept)), reason. eexists. split; [exact Hrun|].
  pose proof (run_connectPins_verdict w o i po pi Hpins) as Href.
  case_bool_decide as Hv.
  - rewrite Hv in Href. cbv iota in Href. split_and!; [by split| |done]. intros _.
    destruct (run_can_then_connect _ _ _ _ _ Hpins Hv) as (reason' & _ & _ & Hr).
    eauto.
  - split_and!; [|done|done]. split; [done|]. intros (id & w' & Hok).
    destruct (verdict po pi); [done|destruct Href as [m Href]; congruence..].
Qed.
End connect.
