(* ===== verification/GraphClear.v ===== *)
(** Pipeline::clear: all connections are cut first, behind the back of the
    connection map, then every element is taken out. *)
From S2P Require Export GraphOps.

Section clear.
Context `{HashOrder} `{QMetaType}.

(** The heap seen with another connection map: while [removeAllConnections]
    runs, the map still lists the connections already cut. *)
Definition with_connections (m : gmap Z cptr) (w : World) : World :=
  set_pipe (pl_set_connections m) w.

Definition cut_one (c : cptr) : W unit :=
  conn_disconnect c ;; x ← get_conn c ; emit (connectionRemoved (pc_id x) c).

(** What the listeners are told. *)
Definition cut_signals (l : list (Z * cptr)) : list Signal := (λ kc, connectionRemoved kc.1 kc.2) <$> l.
Definition gone_signals (l : list (Z * eptr)) : list Signal := (λ ke, elementRemoved ke.1 ke.2) <$> l.

(** One round of the loop: the graph without that connection is well formed. *)
Lemma run_cut_one w m k c : graph_wf (with_connections m w) → m !! k = Some c →
  ∃ w', cut_one c w = (Ok tt, w') ∧ graph_wf (with_connections (delete k m) w') ∧
    w_elems w' = w_elems w ∧ w_pipe w' = w_pipe w ∧ w_signals w' = w_signals w ++ [connectionRemoved k c].
Proof.
  intros Hwf Hk. destruct (wf_connections _ Hwf k c Hk) as (x & o & i & Hat & Hid).
  pose proof Hat as [Hc Ho Hi (po & pi & Hpo & Hpi & Hin & Hcon & _)]. cbn in Hc, Hpo, Hpi.
  destruct (erase_first_spec c (op_connections po)) as (l & Her & Hsub & Hnd & Hl);
    [by eapply (wf_nodup _ Hwf)|done|].
  exists (add_signal (connectionRemoved k c) (detach w c x o po l i pi)). split_and!; [| |done..].
  - unfold cut_one. erewrite run_bind by (by eapply run_conn_disconnect).
    run. cbn. by rewrite Hid.
  - assert (Hwf' : graph_wf (drop_connection (pc_id x) (detach (with_connections m w) c x o po l i pi))).
    { apply detach_wf; [done..|by rewrite Hid|done|done|done|done]. }
    rewrite Hid in Hwf'. apply (graph_wf_signal _ (connectionRemoved k c)) in Hwf'. exact Hwf'.
Qed.

Lemma run_cut_all w l : NoDup l.*1 → graph_wf (with_connections (list_to_map l) w) →
  ∃ w', for_each l.*2 cut_one w = (Ok tt, w') ∧ graph_wf (with_connections ∅ w') ∧
    w_elems w' = w_elems w ∧ w_pipe w' = w_pipe w ∧ w_signals w' = w_signals w ++ cut_signals l.
Proof.
  revert w. induction l as [|[k c] l IH]; intros w Hnd Hwf; cbn in *.
  - exists w. by rewrite app_nil_r.
  - apply NoDup_cons in Hnd as [Hk Hnd].
    destruct (run_cut_one w _ k c Hwf) as (w1 & Hrun & Hwf1 & He1 & Hp1 & Hs1); [by rewrite lookup_insert_eq|].
    rewrite delete_insert_id in Hwf1 by (by apply not_elem_of_list_to_map_1).
    destruct (IH w1 Hnd Hwf1) as (w2 & Hrun2 & Hwf2 & He2 & Hp2 & Hs2).
    exists w2. split_and!; [by erewrite run_bind by exact Hrun|done|congruence|congruence|].
    rewrite Hs2, Hs1, <-app_assoc. done.
Qed.

Lemma run_removeAllConnections w : graph_wf w → pl_running (w_pipe w) = false →
  ∃ w', removeAllConnections w = (Ok tt, w') ∧ graph_wf w' ∧ connections w' = ∅ ∧
    w_elems w' = w_elems w ∧ w_pipe w' = pl_set_connections ∅ (w_pipe w) ∧
    w_signals w' = w_signals w ++ cut_signals (qmap_items (connections w)).
Proof.
  intros Hwf Hrun.
  destruct (run_cut_all w (qmap_items (connections w))) as (w1 & Hcut & Hwf1 & He & Hp & Hs).
  - apply NoDup_qmap_keys.
  - replace (list_to_map (qmap_items (connections w))) with (connections w).
    + by destruct w as [? ? ? ? [] ? ? ?].
    + rewrite <-(list_to_map_to_list (connections w)) at 1.
      apply list_to_map_proper; [apply NoDup_fst_map_to_list|]. symmetry. apply qmap_items_perm.
  - exists (with_connections ∅ w1). split_and!; [|done|done|done|by cbn; rewrite Hp|done].
    unfold removeAllConnections. run. rewrite Hrun. run.
    erewrite run_bind by exact Hcut. reflexivity.
Qed.

(** With no connections left, taking an element out finds nothing to cut. *)
Lemma run_for_each_id {A} (l : list A) (body : A → W unit) w :
  (∀ x, x ∈ l → body x w = (Ok tt, w)) → for_each l body w = (Ok tt, w).
Proof.
  induction l as [|x l IH]; intros Hb; cbn; [done|]. erewrite run_bind by (apply Hb; set_solver).
  apply IH. intros y Hy. apply Hb. set_solver.
Qed.
Lemma run_remove_unconnected w e x : graph_wf w → connections w = ∅ → w_elems w !! e = Some x →
  removeConnectionsForElement e w = (Ok tt, w).
Proof.
  intros Hwf Hnone Hx. unfold removeConnectionsForElement. run.
  erewrite run_bind with (a := tt) (s' := w).
  - apply run_for_each_id. intros o [k Ho]%elem_of_hash_values.
    destruct (wf_outputPins _ Hwf _ _ _ _ Hx Ho) as (po & Hpo & _ & _).
    erewrite run_bind by (unfold out_getConnections; run; reflexivity).
    destruct (op_connections po) as [|c cs] eqn:E; [done|].
    destruct (wf_outputs _ Hwf o po c Hpo) as (y & _ & _ & Hk); [rewrite E; set_solver|]. by rewrite Hnone in Hk.
  - destruct (el_kind x); [done|]. apply run_for_each_id. intros i [k Hi]%elem_of_hash_values.
    destruct (wf_inputPins _ Hwf _ _ _ _ Hx Hi) as (pi & Hpi & _ & _).
    unfold disconnect_input. run. unfold ip_isConnected. rewrite bool_decide_false; [done|].
    intros [c Hc]. destruct (wf_inputs _ Hwf i pi c Hpi Hc) as (y & _ & _ & Hk). by rewrite Hnone in Hk.
Qed.

(** An unconnected graph stays well formed when its children are forgotten. *)
Lemma emptied_wf w : graph_wf w → connections w = ∅ →
  graph_wf (set_pipe (λ p, pl_set_processors ∅ (pl_set_producers ∅
    (pl_set_children ∅ (pl_set_ordering [] p)))) w).
Proof.
  intros Hwf Hnone. split; cbn.
  - intros k c. by rewrite Hnone, lookup_empty.
  - apply (wf_inputs _ Hwf).
  - apply (wf_outputs _ Hwf).
  - apply (wf_nodup _ Hwf).
  - done.
  - intros k e. rewrite lookup_empty. naive_solver.
  - intros k e. rewrite lookup_empty. naive_solver.
  - apply (wf_inputPins _ Hwf).
  - apply (wf_outputPins _ Hwf).
Qed.

Definition add_signals (l : list Signal) (w : World) : World := foldl (λ w s, add_signal s w) w l.
Lemma add_signals_wf l : ∀ w, graph_wf w → graph_wf (add_signals l w).
Proof. induction l as [|s l IH]; intros w Hw; cbn; [done|]. by apply IH, graph_wf_signal. Qed.
Lemma add_signals_world l : ∀ w, w_signals (add_signals l w) = w_signals w ++ l ∧
  w_pipe (add_signals l w) = w_pipe w ∧ w_elems (add_signals l w) = w_elems w.
Proof.
  induction l as [|s l IH]; intros w; [by rewrite app_nil_r|].
  change (add_signals (s :: l) w) with (add_signals l (add_signal s w)).
  destruct (IH (add_signal s w)) as (-> & -> & ->). cbn. by rewrite <-app_assoc.
Qed.

Lemma run_take_out_all w l : graph_wf w → connections w = ∅ →
  (∀ k e, (k, e) ∈ l → ∃ x, w_elems w !! e = Some x ∧ el_id x = k) →
  for_each l.*2 (λ e, removeConnectionsForElement e ;; x ← get_elem e ; emit (elementRemoved (el_id x) e)) w =
    (Ok tt, add_signals (gone_signals l) w).
Proof.
  revert w. induction l as [|[k e] l IH]; intros w Hwf Hnone Hl; cbn; [done|].
  destruct (Hl k e) as (x & Hx & Hid); [set_solver|].
  erewrite run_bind; [apply IH; [by apply (graph_wf_signal _ (elementRemoved k e))|done|intros k' e' Hin; apply Hl; set_solver]|].
  erewrite run_bind by (by eapply run_remove_unconnected). run. by rewrite Hid.
Qed.
Lemma run_removeAllElements w : graph_wf w → connections w = ∅ →
  ∃ w', removeAllElements w = (Ok tt, w') ∧ graph_wf w' ∧ connections w' = ∅ ∧ children w' = ∅ ∧
    w_signals w' = w_signals w ++ gone_signals (qmap_items (children w)).
Proof.
  intros Hwf Hnone. destruct (add_signals_world (gone_signals (qmap_items (children w))) w) as (Hs & Hp & He).
  eexists. split.
  - unfold removeAllElements. run. erewrite run_bind; [reflexivity|].
    apply run_take_out_all; [done..|]. intros k e Hk%elem_of_qmap_items.
    destruct (wf_children _ Hwf _ _ Hk) as (x & Hx & Hid & _). by exists x.
  - split_and!; [apply emptied_wf; [by apply add_signals_wf|by rewrite Hp]|cbn; by rewrite Hp|done|exact Hs].
Qed.

Lemma run_clear w : graph_wf w → pl_running (w_pipe w) = false →
  ∃ w', clear w = (Ok tt, w') ∧ graph_wf w' ∧ children w' = ∅ ∧ connections w' = ∅ ∧
    w_signals w' = w_signals w ++ cut_signals (qmap_items (connections w)) ++ gone_signals (qmap_items (children w)).
Proof.
  intros Hwf Hrun.
  destruct (run_removeAllConnections w Hwf Hrun) as (w1 & Hr1 & Hwf1 & Hc1 & _ & Hp1 & Hs1).
  destruct (run_removeAllElements w1 Hwf1 Hc1) as (w2 & Hr2 & Hwf2 & Hc2 & Hch2 & Hs2).
  exists (set_pipe (pl_set_changed true) w2). split_and!; [| |done|done|].
  - unfold clear. run. rewrite Hrun. run. erewrite run_bind by exact Hr1.
    erewrite run_bind by exact Hr2. reflexivity.
  - split; apply Hwf2 || idtac. intros k c Hk. cbn in Hk. by rewrite Hc2 in Hk.
  - cbn. rewrite Hs2, Hs1, Hp1, <-app_assoc. done.
Qed.

(** C22: on a stopped, well-formed pipeline [clear] succeeds and leaves a
    well-formed pipeline with no children and no connections; in particular
    no pin of the heap is connected any more. *)
Theorem clear_correct w : graph_wf w → pl_running (w_pipe w) = false →
  ∃ w', clear w = (Ok tt, w') ∧ graph_wf w' ∧ children w' = ∅ ∧ connections w' = ∅ ∧
    (∀ i p, w_ins w' !! i = Some p → ip_connection p = None) ∧
    (∀ o p, w_outs w' !! o = Some p → op_connections p = []).
Proof.
  intros Hwf Hrun. destruct (run_clear w Hwf Hrun) as (w' & Hr & Hwf2 & Hch2 & Hc2 & _).
  exists w'. split_and!; [done..| |].
  - intros i p Hp. apply eq_None_not_Some. intros [c Hc].
    destruct (wf_inputs _ Hwf2 _ _ _ Hp Hc) as (x & _ & _ & Hk). by rewrite Hc2 in Hk.
  - intros o p Hp. destruct (op_connections p) as [|c cs] eqn:E; [done|].
    destruct (wf_outputs _ Hwf2 o p c Hp) as (x & _ & _ & Hk); [rewrite E; set_solver|]. by rewrite Hc2 in Hk.
Qed.
End clear.
