(* ===== verification/Ordering.v ===== *)
(** The start-up ordering of the pipeline graph: the [visit] methods of
    DataProducer and DataConsumer and Pipeline::generateGraphOrdering.  First
    the depth-first algorithm they perform, on an abstract graph, with its
    termination and its two correctness theorems (a topological order when it
    succeeds, a cycle when it fails); then the methods, and that they perform
    it on the graph of the pipeline. *)
From S2P Require Export Prelude GraphInv.

Section dfs.
(** [preds e]: the nodes to visit before [e], in visiting order. *)
Context (preds : positive → list positive).

(** The answer of a visit: success, the ordering and the visited set as
    they are left behind.  [None]: the recursion was deeper than [fuel]. *)
Definition answer : Type := bool * list positive * gset positive.

Definition dfs_list (visit : positive → list positive → gset positive → option answer) :
    list positive → list positive → gset positive → option answer :=
  fix go us ord vis :=
    match us with
    | [] => Some (true, ord, vis)
    | u :: us' =>
        match visit u ord vis with
        | Some (true, ord', vis') => go us' ord' vis'
        | r => r
        end
    end.

Fixpoint dfs (fuel : nat) (e : positive) (ord : list positive) (vis : gset positive) : option answer :=
  if bool_decide (e ∈ ord) then Some (true, ord, vis)
  else if bool_decide (e ∈ vis) then Some (false, ord ++ [e], vis)
  else
    match fuel with
    | O => None
    | S fuel' =>
        match dfs_list (dfs fuel') (preds e) ord ({[e]} ∪ vis) with
        | Some (true, ord', vis') => Some (true, ord' ++ [e], vis' ∖ {[e]})
        | r => r
        end
    end.

(** ** Specification *)

(** [u] must come before [e]. *)
Definition dep (u e : positive) : Prop := u ∈ preds e.

Definition topological (ord : list positive) : Prop :=
  NoDup ord ∧ ∀ l1 e l2 u, ord = l1 ++ e :: l2 → dep u e → u ∈ l1.

Lemma topological_nil : topological [].
Proof. split; [constructor|]. intros [|? ?] ? ? ? [=]. Qed.

Lemma topological_snoc ord e : topological ord → e ∉ ord → (∀ u, dep u e → u ∈ ord) →
  topological (ord ++ [e]).
Proof.
  intros [Hnd Hord] He Hdep. split.
  - apply NoDup_app. split_and!; [done| |apply NoDup_singleton]. set_solver.
  - intros l1 e' l2 u Heq Hu. destruct l2 as [|y l2 _] using rev_ind.
    + apply app_inj_tail in Heq as [-> ->]. auto.
    + assert (Heq2 : ord ++ [e] = (l1 ++ e' :: l2) ++ [y]) by (by rewrite Heq, <-app_assoc).
      apply app_inj_tail in Heq2 as [-> _]. by eapply Hord.
Qed.

(** A topological order rules out cycles among its nodes. *)
Lemma topological_closed ord e u : topological ord → e ∈ ord → tc dep u e → u ∈ ord.
Proof.
  intros [Hnd Hord] He Htc. revert He. induction Htc as [x y Hxy|x y z Hxy _ IH]; intros Hz.
  - apply list_elem_of_split in Hz as (l1 & l2 & ->). apply elem_of_app. left. by eapply Hord.
  - specialize (IH Hz). apply list_elem_of_split in IH as (l1 & l2 & ->).
    apply elem_of_app. left. by eapply Hord.
Qed.

Lemma topological_before ord l1 e l2 u : topological ord → ord = l1 ++ e :: l2 →
  tc dep u e → u ∈ l1.
Proof.
  intros Htop -> Htc. remember (l1 ++ e :: l2) as ord eqn:Heq. revert l1 l2 Heq.
  induction Htc as [x y Hxy|x y z Hxy Hyz IH]; intros l1 l2 Heq.
  - destruct Htop as [_ Hord]. by eapply Hord.
  - specialize (IH l1 l2 Heq) as Hy. apply list_elem_of_split in Hy as (k1 & k2 & ->).
    destruct Htop as [_ Hord]. apply elem_of_app. left.
    eapply (Hord k1 y (k2 ++ z :: l2)); [|done]. by rewrite Heq, <-app_assoc.
Qed.

Lemma topological_acyclic ord e : topological ord → e ∈ ord → ¬ tc dep e e.
Proof.
  intros Htop He Htc. apply list_elem_of_split in He as (l1 & l2 & Heq).
  pose proof (topological_before _ _ _ _ _ Htop Heq Htc) as Hin.
  destruct Htop as [Hnd _]. rewrite Heq in Hnd. apply NoDup_app in Hnd as (_ & Hd & _).
  apply (Hd e Hin). set_solver.
Qed.

(** ** Correctness *)
Context (nodes : gset positive).

(** A visit of [e] (or of a list of nodes) that starts with the nodes [vis]
    on the stack: what holds of its answer. *)
Definition good (vis : gset positive) (ord : list positive) (targets : list positive)
    (r : answer) : Prop :=
  let '(ok, ord', vis') := r in
  if ok then
    vis' = vis ∧ topological ord' ∧ (∃ new, ord' = ord ++ new ∧ ∀ v, v ∈ new → (v ∉ vis) ∧ v ∈ nodes) ∧
    ∀ t, t ∈ targets → t ∈ ord'
  else ∃ c, c ∈ nodes ∧ tc dep c c.

Lemma dfs_list_good visit us ord vis :
  (∀ u ord, u ∈ us → topological ord → (∀ v, v ∈ ord → v ∉ vis) →
     ∃ r, visit u ord vis = Some r ∧ good vis ord [u] r) →
  topological ord → (∀ v, v ∈ ord → v ∉ vis) →
  ∃ r, dfs_list visit us ord vis = Some r ∧ good vis ord us r.
Proof.
  revert ord. induction us as [|u us IH]; intros ord Hvisit Htop Hdisj; cbn.
  - eexists. split; [done|]. split_and!; [done|done|exists []; split; [by rewrite app_nil_r|set_solver]|].
    set_solver.
  - destruct (Hvisit u ord) as ([[ok ord1] vis1] & -> & Hgood); [set_solver|done..|].
    destruct ok; [|by eexists].
    destruct Hgood as (-> & Htop1 & (new & -> & Hnew) & Hu).
    destruct (IH (ord ++ new)) as ([[ok ord2] vis2] & -> & Hgood2).
    { intros u' ord' Hu'. apply Hvisit. set_solver. }
    { done. }
    { intros v [Hv|Hv]%elem_of_app; [auto|]. by destruct (Hnew v Hv). }
    eexists. split; [done|]. destruct ok; [|done].
    destruct Hgood2 as (-> & Htop2 & (new2 & -> & Hnew2) & Hus).
    split_and!; [done|done| |].
    + exists (new ++ new2). rewrite app_assoc. split; [done|]. set_solver.
    + intros t [->|Ht]%elem_of_cons; [|auto]. apply elem_of_app. left. apply Hu. set_solver.
Qed.

Context (preds_nodes : ∀ e u, e ∈ nodes → u ∈ preds e → u ∈ nodes).

(** Termination and correctness of one visit: the stack can hold every node
    at most once, so [fuel] above the number of nodes not on it suffices. *)
Lemma dfs_good fuel e ord vis :
  e ∈ nodes → (size (nodes ∖ vis) ≤ fuel)%nat →
  topological ord → (∀ v, v ∈ ord → v ∉ vis) → (∀ v, v ∈ vis → tc dep e v) →
  ∃ r, dfs fuel e ord vis = Some r ∧ good vis ord [e] r.
Proof using preds_nodes.
  revert e ord vis. induction fuel as [|fuel IH]; intros e ord vis He Hfuel Htop Hdisj Hstack;
    cbn; (case_bool_decide as Hord; [eexists; split; [done|]; split_and!;
      [done|done|exists []; split; [by rewrite app_nil_r|set_solver]|set_solver]|]);
    (case_bool_decide as Hvis; [eexists; split; [done|]; exists e; auto|]).
  - assert (e ∈ nodes ∖ vis) as Hin by set_solver.
    assert (size (nodes ∖ vis) ≠ 0%nat); [|lia]. apply size_non_empty_iff. set_solver.
  - destruct (dfs_list_good (dfs fuel) (preds e) ord ({[e]} ∪ vis)) as ([[ok ord1] vis1] & -> & Hgood).
    { intros u ord1 Hu Htop1 Hdisj1. apply IH; [by eapply preds_nodes| |done|done|].
      - assert (size (nodes ∖ ({[e]} ∪ vis)) < size (nodes ∖ vis))%nat; [|lia].
        apply subset_size. set_solver.
      - intros v [Hv|Hv]%elem_of_union; [apply elem_of_singleton in Hv as ->; by apply tc_once|].
        eapply tc_l; [exact Hu|auto]. }
    { done. }
    { intros v Hv [Hv2|Hv2]%elem_of_union; [apply elem_of_singleton in Hv2 as ->; done|by apply (Hdisj v)]. }
    destruct ok; [|by eexists].
    destruct Hgood as (-> & Htop1 & (new & -> & Hnew) & Hpreds).
    eexists. split; [done|]. split_and!.
    + set_solver.
    + apply topological_snoc; [done| |].
      * intros [Hv|Hv]%elem_of_app; [done|]. destruct (Hnew e Hv). set_solver.
      * intros u Hu. by apply Hpreds.
    + exists (new ++ [e]). rewrite app_assoc. split; [done|].
      intros v [Hv|Hv]%elem_of_app; [destruct (Hnew v Hv); set_solver|].
      by apply list_elem_of_singleton in Hv as ->.
    + set_solver.
Qed.

(** The top-level loop over the end nodes, from an empty ordering. *)
Lemma dfs_all_good fuel roots : (size nodes ≤ fuel)%nat → (∀ e, e ∈ roots → e ∈ nodes) →
  ∃ r, dfs_list (dfs fuel) roots [] ∅ = Some r ∧ good ∅ [] roots r.
Proof using preds_nodes.
  intros Hfuel Hroots. apply dfs_list_good; [|apply topological_nil|set_solver].
  intros u ord Hu Htop Hdisj. apply dfs_good; [by apply Hroots| |done|done|set_solver].
  assert (nodes ∖ ∅ = nodes) as -> by set_solver. done.
Qed.
End dfs.

Section ordering.
Context `{HashOrder}.

(** DataConsumer::visitAllIncomingConnections, with [visit] for the virtual
    call on the far element. *)
Definition visit_incoming (visit : eptr → list eptr → gset eptr → W answer) :
    list iptr → list eptr → gset eptr → W answer :=
  fix go pins ord vis :=
    match pins with
    | [] => mret (true, ord, vis)
    | i :: pins' =>
        p ← get_in i ;
        if ip_isConnected p then
          node ← upstream_of i ;
          '(ok, ord', vis') ← visit node ord vis ;
          if (ok : bool) then go pins' ord' vis' else mret (false, ord', vis')
        else go pins' ord vis
    end.

(** The virtual [visit]: DataProducer::visit for a producer,
    DataConsumer::visit for a processor.  [ordering] and [visited] are
    passed by reference. *)
Fixpoint visit (fuel : nat) (e : eptr) (ord : list eptr) (vis : gset eptr) : W answer :=
  if bool_decide (e ∈ ord) then mret (true, ord, vis)
  else if bool_decide (e ∈ vis) then mret (false, ord ++ [e], vis)
  else
    x ← get_elem e ;
    match el_kind x with
    | KProducer => mret (true, ord ++ [e], vis)
    | KProcessor =>
        match fuel with
        | O => abort StackOverflow
        | S fuel' =>
            '(ok, ord', vis') ←
              visit_incoming (visit fuel') (hash_values (el_inputPins x)) ord ({[e]} ∪ vis) ;
            if (ok : bool) then mret (true, ord' ++ [e], vis' ∖ {[e]})
            else mret (false, ord', vis')
        end
    end.

(** The elements without outgoing connections. *)
Fixpoint end_nodes (l : list eptr) (acc : gset eptr) : W (gset eptr) :=
  match l with
  | [] => mret acc
  | e :: l' => isEnd ← el_isEndNode e ; end_nodes l' (if (isEnd : bool) then {[e]} ∪ acc else acc)
  end.

Fixpoint visit_all (fuel : nat) (l : list eptr) (ord : list eptr) (vis : gset eptr) : W answer :=
  match l with
  | [] => mret (true, ord, vis)
  | e :: l' =>
      '(ok, ord', vis') ← visit fuel e ord vis ;
      if (ok : bool) then visit_all fuel l' ord' vis' else mret (false, ord', vis')
  end.

(** Pipeline::generateGraphOrdering( ordering ), on an empty [ordering].
    The recursion never holds an element twice, so the number of objects on
    the heap bounds its depth. *)
Definition generateGraphOrdering : W (bool * list eptr) :=
  pl ← get_pipe ;
  assert (bool_decide (pl_children pl ≠ ∅)) ;;
  endNodes ← end_nodes (qmap_values (pl_children pl)) ∅ ;
  if bool_decide (endNodes = ∅) then mret (false, [])
  else
    fuel ← gets (λ w, S (size (w_elems w))) ;
    '(ok, ord, _) ← visit_all fuel (set_items endNodes) [] ∅ ;
    mret (ok, ord).

(** ** The graph behind the pins *)

(** The far element of an input pin, if it is connected. *)
Definition upstream_elem (w : World) (i : iptr) : option eptr :=
  p ← w_ins w !! i ; c ← ip_connection p ; x ← w_conns w !! c ;
  o ← pc_producer x ; po ← w_outs w !! o ; mret (op_owner po).

(** The elements [visit] goes to from [e], in order. *)
Definition upstreams (w : World) (e : eptr) : list eptr :=
  match w_elems w !! e with
  | Some x =>
      match el_kind x with
      | KProducer => []
      | KProcessor => omap (upstream_elem w) (hash_values (el_inputPins x))
      end
  | None => []
  end.

(** Element [u] feeds element [e] through a registered connection. *)
Definition feeds (w : World) (u e : eptr) : Prop :=
  ∃ k c x o i po pi, connections w !! k = Some c ∧ attached w c x o i ∧
    w_outs w !! o = Some po ∧ w_ins w !! i = Some pi ∧ op_owner po = u ∧ ip_owner pi = e.

Definition acyclic (w : World) : Prop := ∀ e, ¬ tc (feeds w) e e.

Definition child (w : World) (e : eptr) : Prop := ∃ k, children w !! k = Some e.

(** [ord] lists every child once, each after all that feed it. *)
Definition start_order (w : World) (ord : list eptr) : Prop :=
  NoDup ord ∧ (∀ e, e ∈ ord ↔ child w e) ∧
  ∀ l1 e l2 u, ord = l1 ++ e :: l2 → feeds w u e → u ∈ l1.

Definition child_set (w : World) : gset eptr := list_to_set (qmap_values (children w)).
Lemma elem_of_child_set w e : e ∈ child_set w ↔ child w e.
Proof. unfold child_set. by rewrite elem_of_list_to_set, elem_of_qmap_values. Qed.

Lemma in_pipeline_child w e x : in_pipeline w e x → child w e.
Proof. intros [_ Hc]. by eexists. Qed.

Lemma connected_upstream w i p c : graph_wf w → w_ins w !! i = Some p → ip_connection p = Some c →
  ∃ x o po, w_conns w !! c = Some x ∧ pc_producer x = Some o ∧ w_outs w !! o = Some po ∧
    upstream_elem w i = Some (op_owner po) ∧ feeds w (op_owner po) (ip_owner p) ∧
    child w (op_owner po).
Proof.
  intros Hwf Hp Hc. destruct (wf_inputs _ Hwf _ _ _ Hp Hc) as (x & Hx & Hcons & Hk).
  destruct (wf_connections _ Hwf _ _ Hk) as (x' & o & i' & Hat & _).
  pose proof Hat as [Hx' Ho Hi (po & pi & Hpo & Hpi & _ & _ & _ & _ & (xo & Hxo & _) & _)].
  simplify_eq. exists x, o, po. split_and!; [done..| | |].
  - unfold upstream_elem. rewrite Hp; cbn. rewrite Hc; cbn. rewrite Hx; cbn.
    rewrite Ho; cbn. by rewrite Hpo.
  - exists (pc_id x), c, x, o, i, po, p. done.
  - by eapply in_pipeline_child.
Qed.

Lemma elem_of_upstreams w e u : graph_wf w → u ∈ upstreams w e ↔ feeds w u e.
Proof.
  intros Hwf. unfold upstreams. split.
  - destruct (w_elems w !! e) as [x|] eqn:Hx; [|by intros ?%not_elem_of_nil].
    destruct (el_kind x) eqn:Ek; [by intros ?%not_elem_of_nil|].
    intros (i & [k Hk]%elem_of_hash_values & Hu)%list_elem_of_omap.
    destruct (wf_inputPins _ Hwf _ _ _ _ Hx Hk) as (p & Hp & _ & <-).
    destruct (ip_connection p) as [c|] eqn:Hc.
    + destruct (connected_upstream w i p c Hwf Hp Hc) as (y & o & po & _ & _ & _ & Hup & Hf & _). congruence.
    + unfold upstream_elem in Hu. rewrite Hp in Hu; cbn in Hu. by rewrite Hc in Hu.
  - intros (k & c & x & o & i & po & pi & Hk & Hat & Hpo & Hpi & <- & <-).
    destruct Hat as [Hx Ho Hi (po' & pi' & Hpo' & Hpi' & _ & Hc & _ & _ & _ & (xi & [Hxi _] & Hkind & Hpin))].
    simplify_eq. rewrite Hxi, Hkind. apply list_elem_of_omap. exists i. split.
    + apply elem_of_hash_values. eauto.
    + unfold upstream_elem. rewrite Hpi'; cbn. rewrite Hc; cbn. rewrite Hx; cbn. rewrite Ho; cbn. by rewrite Hpo'.
Qed.

Lemma upstreams_children w e u : graph_wf w → e ∈ child_set w → u ∈ upstreams w e → u ∈ child_set w.
Proof.
  intros Hwf _ Hu%elem_of_upstreams; [|done]. apply elem_of_child_set.
  destruct Hu as (k & c & x & o & i & po & pi & Hk & [_ _ _ (po' & pi' & Hpo' & Hpi' & _ & _ & _ & _ & (xo & Hxo & _) & _)] & Hpo & Hpi & <- & <-).
  simplify_eq. by eapply in_pipeline_child.
Qed.

Lemma feeds_target w u e : graph_wf w → feeds w u e →
  ∃ x, in_pipeline w e x ∧ el_kind x = KProcessor.
Proof.
  intros Hwf (k & c & x & o & i & po & pi & Hk & [_ _ _ (po' & pi' & Hpo' & Hpi' & _ & _ & _ & _ & _ & (xi & Hxi & Hkind & _))] & Hpo & Hpi & <- & <-).
  simplify_eq. eauto.
Qed.
Lemma feeds_source w u e : graph_wf w → feeds w u e → child w u.
Proof using H.
  intros Hwf Hf. apply elem_of_child_set. destruct (feeds_target _ _ _ Hwf Hf) as (x & Hx & _).
  eapply (upstreams_children w e); [done|apply elem_of_child_set; by eapply in_pipeline_child|by apply elem_of_upstreams].
Qed.

(** ** [visit] is the depth-first ordering of that graph *)

Lemma run_upstream_of w i p c : graph_wf w → w_ins w !! i = Some p → ip_connection p = Some c →
  ∃ u, upstream_elem w i = Some u ∧ upstream_of i w = (Ok u, w).
Proof.
  intros Hwf Hp Hc.
  destruct (connected_upstream w i p c Hwf Hp Hc) as (x & o & po & Hx & Ho & Hpo & Hup & _ & _).
  exists (op_owner po). split; [done|]. unfold upstream_of, in_getConnection.
  erewrite run_bind; [|run; unfold ip_isConnected; rewrite Hc, bool_decide_true by eauto;
    erewrite run_bind by reflexivity; reflexivity].
  cbv beta. run. rewrite Ho. run. by run.
Qed.

Lemma run_visit_incoming w (visit_ : eptr → list eptr → gset eptr → W answer) dfs_ pins ord vis r :
  graph_wf w → (∀ i, i ∈ pins → ∃ p, w_ins w !! i = Some p) →
  (∀ u ord vis r, dfs_ u ord vis = Some r → child w u → visit_ u ord vis w = (Ok r, w)) →
  dfs_list dfs_ (omap (upstream_elem w) pins) ord vis = Some r →
  visit_incoming visit_ pins ord vis w = (Ok r, w).
Proof.
  intros Hwf Hpins Hvisit. revert ord vis. induction pins as [|i pins IH]; intros ord vis Hr; cbn in *.
  { by simplify_eq. }
  destruct (Hpins i) as [p Hp]; [set_solver|]. run.
  destruct (ip_connection p) as [c|] eqn:Hc; unfold ip_isConnected; rewrite Hc.
  - rewrite bool_decide_true by eauto.
    destruct (run_upstream_of w i p c Hwf Hp Hc) as (u & Hup & Hrun). rewrite Hup in Hr.
    destruct (connected_upstream w i p c Hwf Hp Hc) as (x & o & po & _ & _ & _ & Hup' & _ & Hch).
    simplify_eq. cbn in Hr. erewrite run_bind by exact Hrun.
    destruct (dfs_ (op_owner po) ord vis) as [[[ok ord1] vis1]|] eqn:Hd; [|done].
    erewrite run_bind by (by apply Hvisit). destruct ok; [|by simplify_eq].
    apply IH; [|done]. set_solver.
  - rewrite bool_decide_false by (by intros []).
    assert (upstream_elem w i = None) as Hn by (unfold upstream_elem; rewrite Hp; cbn; by rewrite Hc).
    rewrite Hn in Hr. apply IH; [set_solver|done].
Qed.

Lemma run_visit w fuel e ord vis r : graph_wf w → child w e →
  dfs (upstreams w) fuel e ord vis = Some r → visit fuel e ord vis w = (Ok r, w).
Proof.
  intros Hwf. revert e ord vis r. induction fuel as [|fuel IH]; intros e ord vis r [k Hk] Hd;
    destruct (wf_children _ Hwf _ _ Hk) as (x & Hx & _); cbn in *;
    (case_bool_decide; [by simplify_eq|]); (case_bool_decide; [by simplify_eq|]); [done|].
  run. unfold upstreams at 2 in Hd. rewrite Hx in Hd. destruct (el_kind x) eqn:Ek.
  - cbn in Hd. injection Hd as <-. replace (({[e]} ∪ vis) ∖ {[e]}) with vis by set_solver. done.
  - destruct (dfs_list _ _ _ _) as [[[ok ord1] vis1]|] eqn:Hl in Hd; [|done].
    assert (Hrun : visit_incoming (visit fuel) (hash_values (el_inputPins x)) ord ({[e]} ∪ vis) w
      = (Ok (ok, ord1, vis1), w)).
    { apply (run_visit_incoming w _ (dfs (upstreams w) fuel)); [done| | |done].
      - intros i [k' Hi]%elem_of_hash_values. destruct (wf_inputPins _ Hwf _ _ _ _ Hx Hi) as (p & Hp & _). eauto.
      - intros u ord' vis' r' Hr' Hu. by apply IH. }
    erewrite run_bind by exact Hrun. destruct ok; by simplify_eq.
Qed.

Lemma run_visit_all w fuel l ord vis r : graph_wf w → (∀ e, e ∈ l → child w e) →
  dfs_list (dfs (upstreams w) fuel) l ord vis = Some r → visit_all fuel l ord vis w = (Ok r, w).
Proof.
  intros Hwf. revert ord vis. induction l as [|e l IH]; intros ord vis Hl Hd; cbn in *.
  { by simplify_eq. }
  destruct (dfs _ _ e ord vis) as [[[ok ord1] vis1]|] eqn:He; [|done].
  erewrite run_bind by (apply run_visit; [done|set_solver|exact He]).
  destruct ok; [|by simplify_eq]. apply IH; [set_solver|done].
Qed.

(** ** The end nodes *)

(** A processor counts as an end node whatever its outputs; a producer is
    one when no output pin is connected. *)
Definition is_end (w : World) (e : eptr) : Prop :=
  ∃ x, w_elems w !! e = Some x ∧
    (el_kind x = KProcessor ∨
     ∀ k o po, el_outputPins x !! k = Some o → w_outs w !! o = Some po → op_connections po = []).

Lemma run_outputs_free w l : (∀ o, o ∈ l → is_Some (w_outs w !! o)) →
  ∃ r, for_return l (λ o, p ← get_out o ; mret (if op_isConnected p then Some false else None)) w =
    (Ok r, w) ∧
    (default true r = true ↔ ∀ o po, o ∈ l → w_outs w !! o = Some po → op_connections po = []).
Proof.
  induction l as [|o l IH]; intros Hl; cbn.
  { exists None. split; [done|]. cbn. split; [set_solver|done]. }
  destruct (Hl o) as [po Hpo]; [set_solver|].
  erewrite run_bind by (run; reflexivity). cbv beta.
  unfold op_isConnected. case_bool_decide as E.
  - exists (Some false). split; [done|]. cbn. split; [done|]. intros Ha.
    exfalso. apply E. apply (Ha o po); [set_solver|done].
  - destruct IH as (r & Hr & Hspec); [set_solver|]. exists r. split; [done|].
    rewrite Hspec. split; [|set_solver].
    intros Ha o' po' [->|Ho']%elem_of_cons Hpo'; [by simplify_eq|by eapply Ha].
Qed.

Lemma run_isEndNode w e : graph_wf w → child w e →
  ∃ b, el_isEndNode e w = (Ok b, w) ∧ (b = true ↔ is_end w e).
Proof.
  intros Hwf [k Hk]. destruct (wf_children _ Hwf _ _ Hk) as (x & Hx & _).
  unfold el_isEndNode. run. destruct (el_kind x) eqn:Ek.
  - destruct (run_outputs_free w (hash_values (el_outputPins x))) as (r & Hr & Hspec).
    { intros o [k' Ho]%elem_of_hash_values. destruct (wf_outputPins _ Hwf _ _ _ _ Hx Ho) as (po & -> & _). eauto. }
    exists (default true r). split.
    + unfold dp_isEndNode. run. by erewrite run_bind by exact Hr.
    + rewrite Hspec. split.
      * intros Ha. exists x. split; [done|]. right. intros k' o po Ho. apply Ha.
        apply elem_of_hash_values. eauto.
      * intros (x' & Hx' & [Hp|Ha]) o po [k' Ho]%elem_of_hash_values; simplify_eq; [congruence|by apply (Ha k')].
  - exists true. split; [done|]. split; [|done]. intros _. exists x. eauto.
Qed.

Lemma run_end_nodes w l acc : graph_wf w → (∀ e, e ∈ l → child w e) →
  ∃ s, end_nodes l acc w = (Ok s, w) ∧ ∀ e, e ∈ s ↔ e ∈ acc ∨ (e ∈ l ∧ is_end w e).
Proof.
  intros Hwf. revert acc. induction l as [|e l IH]; intros acc Hl; cbn.
  { exists acc. split; [done|]. set_solver. }
  destruct (run_isEndNode w e Hwf) as (b & Hb & Hspec); [set_solver|].
  erewrite run_bind by exact Hb.
  destruct (IH (if b then {[e]} ∪ acc else acc)) as (s & Hs & Hin); [set_solver|].
  exists s. split; [done|]. intros e'. rewrite Hin.
  destruct b; [assert (is_end w e) by (by apply Hspec)|assert (¬ is_end w e) by (intros Hf; by apply Hspec in Hf)];
    set_solver.
Qed.

(** ** The theorem *)

Lemma child_end_or_feeds w e : graph_wf w → child w e → is_end w e ∨ ∃ t, feeds w e t.
Proof using H.
  intros Hwf Hch. destruct (run_isEndNode w e Hwf Hch) as ([] & _ & Hspec); [left; by apply Hspec|].
  destruct Hch as [k Hk]. destruct (wf_children _ Hwf _ _ Hk) as (x & Hx & _).
  destruct (decide (el_kind x = KProcessor)) as [Hp|Hp]; [left; exists x; auto|].
  destruct (decide (map_Forall (λ _ o, op_connections <$> (w_outs w !! o) = Some []) (el_outputPins x))) as [Ha|Ha].
  - left. exists x. split; [done|]. right. intros k' o po Ho Hpo.
    specialize (Ha k' o Ho). cbn in Ha. rewrite Hpo in Ha. by injection Ha.
  - right. apply map_not_Forall in Ha as (k' & o & Ho & Hne); [|apply _].
    destruct (wf_outputPins _ Hwf _ _ _ _ Hx Ho) as (po & Hpo & _ & Hown). rewrite Hpo in Hne. cbn in Hne.
    destruct (op_connections po) as [|c cs] eqn:Ec; [done|].
    destruct (wf_outputs _ Hwf o po c Hpo) as (y & Hy & Hprod & Hreg); [rewrite Ec; set_solver|].
    destruct (wf_connections _ Hwf _ _ Hreg) as (y' & o' & i' & Hat & Hid).
    pose proof Hat as [Hy' Ho' Hi' (po' & pi' & Hpo' & Hpi' & _)]. simplify_eq.
    exists (ip_owner pi'), (pc_id y), c, y, o, i', po, pi'. done.
Qed.

Lemma end_exists w : graph_wf w → children w ≠ ∅ → ∃ e, child w e ∧ is_end w e.
Proof using H.
  intros Hwf (k & e & Hk)%map_choose.
  destruct (child_end_or_feeds w e Hwf) as [He|[t Ht]]; [by exists k|exists e; split; [by exists k|done]|].
  destruct (feeds_target _ _ _ Hwf Ht) as (x & Hx & Hp). exists t. split; [by eapply in_pipeline_child|].
  exists x. split; [apply Hx|auto].
Qed.

Lemma tc_feeds w e u : graph_wf w → tc (dep (upstreams w)) u e ↔ tc (feeds w) u e.
Proof.
  intros Hwf. split; induction 1 as [x y Hxy|x y z Hxy _ IH].
  - apply tc_once. by apply elem_of_upstreams.
  - eapply tc_l; [|exact IH]. by apply elem_of_upstreams.
  - apply tc_once. by apply elem_of_upstreams.
  - eapply tc_l; [|exact IH]. by apply elem_of_upstreams.
Qed.

(** A topological order from the end nodes reaches every child. *)
Lemma topological_start_order w ord (roots : list eptr) : graph_wf w →
  topological (upstreams w) ord → (∀ e, e ∈ ord → child w e) →
  (∀ e, child w e → is_end w e → e ∈ roots) → (∀ e, e ∈ roots → e ∈ ord) → start_order w ord.
Proof.
  intros Hwf Htop Hsub Hroots Hin.
  assert (Hall : ∀ e, child w e → e ∈ ord).
  { intros e He. destruct (child_end_or_feeds w e Hwf He) as [Hend|[t Ht]]; [auto|].
    destruct (feeds_target _ _ _ Hwf Ht) as (x & Hx & Hp).
    apply (topological_closed (upstreams w) ord t); [done| |apply tc_once; by apply elem_of_upstreams].
    apply Hin, Hroots; [by eapply in_pipeline_child|]. exists x. split; [apply Hx|auto]. }
  destruct Htop as [Hnd Hord]. split_and!; [done|split; auto|].
  intros l1 e l2 u Heq Hf. eapply Hord; [exact Heq|]. by apply elem_of_upstreams.
Qed.

Lemma run_generateGraphOrdering w : graph_wf w → children w ≠ ∅ →
  ∃ b ord, generateGraphOrdering w = (Ok (b, ord), w) ∧ (b = true ↔ acyclic w) ∧
    (b = true → start_order w ord).
Proof.
  intros Hwf Hne.
  destruct (run_end_nodes w (qmap_values (children w)) ∅ Hwf) as (ends & Hends & Hin).
  { intros e [k Hk]%elem_of_qmap_values. by exists k. }
  assert (Hends' : ∀ e, e ∈ ends ↔ child w e ∧ is_end w e).
  { intros e. rewrite Hin, elem_of_qmap_values. unfold child. set_solver. }
  destruct (end_exists w Hwf Hne) as (e0 & Hc0 & He0).
  set (fuel := S (size (w_elems w))).
  destruct (dfs_all_good (upstreams w) (child_set w) (λ e u, upstreams_children w e u Hwf) fuel (set_items ends))
    as ([[ok ord] vis] & Hdfs & Hgood).
  { transitivity (size (dom (w_elems w))); [|rewrite size_dom; lia]. apply subseteq_size.
    intros e [k Hk]%elem_of_child_set. destruct (wf_children _ Hwf _ _ Hk) as (x & Hx & _).
    by apply elem_of_dom_2 in Hx. }
  { intros e He%elem_of_set_items. apply elem_of_child_set. by apply Hends'. }
  exists ok, ord. split_and!.
  - unfold generateGraphOrdering. run. rewrite bool_decide_true by done. run.
    erewrite run_bind by exact Hends. rewrite bool_decide_false by set_solver. run.
    assert (Hrun : visit_all fuel (set_items ends) [] ∅ w = (Ok (ok, ord, vis), w)).
    { apply run_visit_all; [done| |exact Hdfs]. intros e He%elem_of_set_items. by apply Hends'. }
    by erewrite run_bind by exact Hrun.
  - destruct ok; cbn in Hgood.
    + split; [|done]. intros _ e Htc. destruct Hgood as (-> & Htop & (new & -> & Hnew) & Hroots).
      assert (Horder : start_order w ([] ++ new)).
      { apply (topological_start_order w _ (set_items ends)); [done|done| | |done].
        - intros e' He'. apply elem_of_child_set. by apply Hnew.
        - intros e' H1 H2. apply elem_of_set_items. by apply Hends'. }
      assert (Hch : child w e) by (inversion Htc; by eapply feeds_source).
      apply (topological_acyclic (upstreams w) _ e Htop); [by apply (proj1 (proj2 Horder))|by apply tc_feeds].
    + split; [done|]. intros Hac. destruct Hgood as (c & _ & Htc). exfalso.
      apply (Hac c). by apply tc_feeds.
  - intros ->. destruct Hgood as (-> & Htop & (new & -> & Hnew) & Hroots).
    apply (topological_start_order w _ (set_items ends)); [done|done| | |done].
    + intros e' He'. apply elem_of_child_set. by apply Hnew.
    + intros e' H1 H2. apply elem_of_set_items. by apply Hends'.
Qed.

(** C6: on a well-formed, non-empty pipeline [generateGraphOrdering]
    terminates without touching an object, succeeds exactly when the graph
    has no cycle, and then returns every element exactly once, each after
    all elements that feed it. *)
Theorem generateGraphOrdering_correct w : graph_wf w → children w ≠ ∅ →
  ∃ b ord, generateGraphOrdering w = (Ok (b, ord), w) ∧ (b = true ↔ acyclic w) ∧
    (b = true → start_order w ord).
Proof. apply run_generateGraphOrdering. Qed.
End ordering.
