(* ===== verification/GraphEq.v ===== *)
(** What running a pipeline leaves alone: two heaps have the same graph when
    they differ only in element states, call flags, queued data and the run
    time fields of the pipeline.  The notions of GraphInv.v and Ordering.v do
    not see the difference. *)
From S2P Require Export Ordering.

(** ** The skeleton of a heap *)

Definition el_skeleton (x : Element) : Element :=
  mkElement (el_kind x) (el_name x) (el_id x) PLE_UNDEFINED PlvNoError EmptyString 0
    (el_hasPipeline x) (el_inputPins x) (el_outputPins x) false false sb_new.

Definition pipe_skeleton (p : Pipeline) : Pipeline :=
  mkPipeline (pl_children p) (pl_connections p) (pl_producers p) (pl_processors p)
    0 false ∅ ∅ 0 [] 0 false EmptyString 0 false 0.

Definition skeleton (w : World) : World :=
  mkWorld (el_skeleton <$> w_elems w) (ip_set_called false <$> w_ins w)
    (op_set_called false <$> w_outs w) (pc_set_queue [] <$> w_conns w)
    (pipe_skeleton (w_pipe w)) ∅ ∅ [].

(** Same graph: an equivalence. *)
Definition same_graph (w w' : World) : Prop := skeleton w = skeleton w'.

#[export] Instance same_graph_equivalence : Equivalence same_graph.
Proof. unfold same_graph. split; [intros ?|intros ? ? ?|intros ? ? ? ? ?]; congruence. Qed.

Section lookups.
Implicit Types w : World.

Lemma skeleton_elem w e : w_elems (skeleton w) !! e = el_skeleton <$> (w_elems w !! e).
Proof. apply lookup_fmap. Qed.
Lemma skeleton_in w i : w_ins (skeleton w) !! i = ip_set_called false <$> (w_ins w !! i).
Proof. apply lookup_fmap. Qed.
Lemma skeleton_out w o : w_outs (skeleton w) !! o = op_set_called false <$> (w_outs w !! o).
Proof. apply lookup_fmap. Qed.
Lemma skeleton_conn w c : w_conns (skeleton w) !! c = pc_set_queue [] <$> (w_conns w !! c).
Proof. apply lookup_fmap. Qed.

Lemma same_elem w w' e x : same_graph w w' → w_elems w !! e = Some x →
  ∃ x', w_elems w' !! e = Some x' ∧ el_skeleton x' = el_skeleton x.
Proof.
  intros Hs Hx. pose proof (skeleton_elem w' e) as H. rewrite <-Hs, skeleton_elem, Hx in H.
  symmetry in H. apply fmap_Some in H as (x' & ? & ?). eauto.
Qed.
Lemma same_in w w' i p : same_graph w w' → w_ins w !! i = Some p →
  ∃ p', w_ins w' !! i = Some p' ∧ ip_set_called false p' = ip_set_called false p.
Proof.
  intros Hs Hx. pose proof (skeleton_in w' i) as H. rewrite <-Hs, skeleton_in, Hx in H.
  symmetry in H. apply fmap_Some in H as (p' & ? & ?). eauto.
Qed.
Lemma same_out w w' o p : same_graph w w' → w_outs w !! o = Some p →
  ∃ p', w_outs w' !! o = Some p' ∧ op_set_called false p' = op_set_called false p.
Proof.
  intros Hs Hx. pose proof (skeleton_out w' o) as H. rewrite <-Hs, skeleton_out, Hx in H.
  symmetry in H. apply fmap_Some in H as (p' & ? & ?). eauto.
Qed.
Lemma same_conn w w' c x : same_graph w w' → w_conns w !! c = Some x →
  ∃ x', w_conns w' !! c = Some x' ∧ pc_set_queue [] x' = pc_set_queue [] x.
Proof.
  intros Hs Hx. pose proof (skeleton_conn w' c) as H. rewrite <-Hs, skeleton_conn, Hx in H.
  symmetry in H. apply fmap_Some in H as (x' & ? & ?). eauto.
Qed.

Lemma same_children w w' : same_graph w w' → children w' = children w.
Proof. intros Hs. by injection Hs. Qed.
Lemma same_connections w w' : same_graph w w' → connections w' = connections w.
Proof. intros Hs. by injection Hs. Qed.
Lemma same_producers w w' : same_graph w w' → pl_producers (w_pipe w') = pl_producers (w_pipe w).
Proof. intros Hs. by injection Hs. Qed.
Lemma same_processors w w' : same_graph w w' → pl_processors (w_pipe w') = pl_processors (w_pipe w).
Proof. intros Hs. by injection Hs. Qed.
End lookups.

(** The fields two skeleton-equal objects share. *)
Lemma el_skeleton_fields x x' : el_skeleton x' = el_skeleton x →
  el_kind x' = el_kind x ∧ el_id x' = el_id x ∧ el_hasPipeline x' = el_hasPipeline x ∧
  el_inputPins x' = el_inputPins x ∧ el_outputPins x' = el_outputPins x.
Proof. intros [=]. done. Qed.
Lemma ip_skeleton_fields p p' : ip_set_called false p' = ip_set_called false p →
  ip_id p' = ip_id p ∧ ip_owner p' = ip_owner p ∧ ip_typeId p' = ip_typeId p ∧
  ip_connection p' = ip_connection p ∧ ip_required p' = ip_required p ∧
  ip_synchronous p' = ip_synchronous p.
Proof. intros [=]. done. Qed.
Lemma op_skeleton_fields p p' : op_set_called false p' = op_set_called false p →
  op_id p' = op_id p ∧ op_owner p' = op_owner p ∧ op_typeId p' = op_typeId p ∧
  op_connections p' = op_connections p.
Proof. intros [=]. done. Qed.
Lemma pc_skeleton_fields x x' : pc_set_queue [] x' = pc_set_queue [] x →
  pc_id x' = pc_id x ∧ pc_producer x' = pc_producer x ∧ pc_consumer x' = pc_consumer x.
Proof. intros [=]. done. Qed.

(** ** The invariant and the ordering are those of the skeleton *)
Section transfer.
Context (w w' : World) (Hs : same_graph w w').

Lemma in_pipeline_same e x : in_pipeline w e x →
  ∃ x', in_pipeline w' e x' ∧ el_skeleton x' = el_skeleton x.
Proof using Hs.
  intros [Hx Hc]. destruct (same_elem _ _ _ _ Hs Hx) as (x' & Hx' & Hf). exists x'. split; [|done].
  split; [done|]. rewrite (same_children _ _ Hs). by replace (el_id x') with (el_id x) by (by injection Hf).
Qed.

Lemma attached_same c x o i : attached w c x o i →
  ∃ x', attached w' c x' o i ∧ pc_set_queue [] x' = pc_set_queue [] x.
Proof using Hs.
  intros [Hx Ho Hi (po & pi & Hpo & Hpi & Hin & Hcon & Hne & Hty & (xo & Hxo & Hko) & (xi & Hxi & Hkind & Hki))].
  destruct (same_conn _ _ _ _ Hs Hx) as (x' & Hx' & Hfx).
  destruct (same_out _ _ _ _ Hs Hpo) as (po' & Hpo' & Hfo).
  destruct (same_in _ _ _ _ Hs Hpi) as (pi' & Hpi' & Hfi).
  destruct (in_pipeline_same _ _ Hxo) as (xo' & Hxo' & Hfxo).
  destruct (in_pipeline_same _ _ Hxi) as (xi' & Hxi' & Hfxi).
  exists x'. split; [|done].
  apply pc_skeleton_fields in Hfx as (? & Hprod & Hcons).
  apply op_skeleton_fields in Hfo as (Hoid & Hoown & Hoty & Hocon).
  apply ip_skeleton_fields in Hfi as (Hiid & Hiown & Hity & Hicon & _).
  apply el_skeleton_fields in Hfxo as (_ & _ & _ & _ & Houts).
  apply el_skeleton_fields in Hfxi as (Hk & _ & _ & Hins & _).
  split; [done|by rewrite Hprod|by rewrite Hcons|].
  exists po', pi'. rewrite Hocon, Hicon, Hoown, Hiown, Hoty, Hity.
  split_and!; try done.
  - exists xo'. by rewrite Houts, Hoid.
  - exists xi'. by rewrite Hk, Hins, Hiid.
Qed.

Lemma feeds_same u e : feeds w u e → feeds w' u e.
Proof using Hs.
  intros (k & c & x & o & i & po & pi & Hk & Hat & Hpo & Hpi & <- & <-).
  destruct (attached_same _ _ _ _ Hat) as (x' & Hat' & _).
  destruct (same_out _ _ _ _ Hs Hpo) as (po' & Hpo' & Hfo).
  destruct (same_in _ _ _ _ Hs Hpi) as (pi' & Hpi' & Hfi).
  apply op_skeleton_fields in Hfo as (_ & Hoown & _).
  apply ip_skeleton_fields in Hfi as (_ & Hiown & _).
  exists k, c, x', o, i, po', pi'. by rewrite (same_connections _ _ Hs).
Qed.
End transfer.

Section transfer_wf.
Context (w w' : World) (Hs : same_graph w w') (Hwf : graph_wf w).

Lemma kind_same e : el_kind <$> w_elems w' !! e = el_kind <$> w_elems w !! e.
Proof using Hs.
  pose proof (skeleton_elem w' e) as H. rewrite <-Hs, skeleton_elem in H.
  assert (Hk : ∀ o : option Element, el_kind <$> o = el_kind <$> (el_skeleton <$> o)) by (by intros []).
  by rewrite (Hk (w_elems w' !! e)), (Hk (w_elems w !! e)), H.
Qed.

Lemma graph_wf_same : graph_wf w'.
Proof using Hs Hwf.
  assert (Hs' : same_graph w' w) by done. split.
  - intros k c. rewrite (same_connections _ _ Hs). intros Hk.
    destruct (wf_connections _ Hwf _ _ Hk) as (x & o & i & Hat & Hid).
    destruct (attached_same _ _ Hs _ _ _ _ Hat) as (x' & Hat' & Hf).
    exists x', o, i. split; [done|]. apply pc_skeleton_fields in Hf as [-> _]. done.
  - intros i pi c Hpi Hc. destruct (same_in _ _ _ _ Hs' Hpi) as (pi' & Hpi' & Hf).
    apply ip_skeleton_fields in Hf as (_ & _ & _ & Hcon & _). rewrite <-Hcon in Hc.
    destruct (wf_inputs _ Hwf _ _ _ Hpi' Hc) as (x & Hx & Hcons & Hk).
    destruct (same_conn _ _ _ _ Hs Hx) as (x' & Hx' & Hfx).
    apply pc_skeleton_fields in Hfx as (Hid & _ & Hcn).
    exists x'. by rewrite Hid, Hcn, (same_connections _ _ Hs).
  - intros o po c Hpo Hc. destruct (same_out _ _ _ _ Hs' Hpo) as (po' & Hpo' & Hf).
    apply op_skeleton_fields in Hf as (_ & _ & _ & Hcon). rewrite <-Hcon in Hc.
    destruct (wf_outputs _ Hwf _ _ _ Hpo' Hc) as (x & Hx & Hprod & Hk).
    destruct (same_conn _ _ _ _ Hs Hx) as (x' & Hx' & Hfx).
    apply pc_skeleton_fields in Hfx as (Hid & Hpr & _).
    exists x'. by rewrite Hid, Hpr, (same_connections _ _ Hs).
  - intros o po Hpo. destruct (same_out _ _ _ _ Hs' Hpo) as (po' & Hpo' & Hf).
    apply op_skeleton_fields in Hf as (_ & _ & _ & Hcon). rewrite <-Hcon. by eapply wf_nodup.
  - intros k e. rewrite (same_children _ _ Hs). intros Hk.
    destruct (wf_children _ Hwf _ _ Hk) as (x & Hx & Hid & Hp).
    destruct (same_elem _ _ _ _ Hs Hx) as (x' & Hx' & Hf).
    apply el_skeleton_fields in Hf as (_ & Hid' & Hp' & _). exists x'. by rewrite Hid', Hp'.
  - intros k e. rewrite (same_producers _ _ Hs), (same_children _ _ Hs), kind_same. apply (wf_producers _ Hwf).
  - intros k e. rewrite (same_processors _ _ Hs), (same_children _ _ Hs), kind_same. apply (wf_processors _ Hwf).
  - intros e x k i Hx Hk. destruct (same_elem _ _ _ _ Hs' Hx) as (x' & Hx' & Hf).
    apply el_skeleton_fields in Hf as (_ & _ & _ & Hpins & _). rewrite <-Hpins in Hk.
    destruct (wf_inputPins _ Hwf _ _ _ _ Hx' Hk) as (p & Hp & Hid & Hown).
    destruct (same_in _ _ _ _ Hs Hp) as (p' & Hp' & Hfp).
    apply ip_skeleton_fields in Hfp as (Hi & Ho & _). exists p'. by rewrite Hi, Ho.
  - intros e x k o Hx Hk. destruct (same_elem _ _ _ _ Hs' Hx) as (x' & Hx' & Hf).
    apply el_skeleton_fields in Hf as (_ & _ & _ & _ & Hpins). rewrite <-Hpins in Hk.
    destruct (wf_outputPins _ Hwf _ _ _ _ Hx' Hk) as (p & Hp & Hid & Hown).
    destruct (same_out _ _ _ _ Hs Hp) as (p' & Hp' & Hfp).
    apply op_skeleton_fields in Hfp as (Hi & Ho & _). exists p'. by rewrite Hi, Ho.
Qed.
End transfer_wf.

(** The graph notions as morphisms of [same_graph]. *)
#[export] Instance graph_wf_proper : Proper (same_graph ==> iff) graph_wf.
Proof. intros w w' Hs. split; by apply graph_wf_same. Qed.
#[export] Instance feeds_proper : Proper (same_graph ==> eq ==> eq ==> iff) feeds.
Proof. intros w w' Hs u ? <- e ? <-. split; by apply feeds_same. Qed.
#[export] Instance child_proper : Proper (same_graph ==> eq ==> iff) child.
Proof. intros w w' Hs e ? <-. unfold child. by rewrite (same_children _ _ Hs). Qed.
Lemma tc_feeds_same w w' a b : same_graph w w' → tc (feeds w) a b → tc (feeds w') a b.
Proof.
  intros Hs. induction 1 as [x y Hxy|x y z Hxy _ IH].
  - apply tc_once. by eapply feeds_same.
  - eapply tc_l; [|exact IH]. by eapply feeds_same.
Qed.
#[export] Instance acyclic_proper : Proper (same_graph ==> iff) acyclic.
Proof.
  assert (Hone : ∀ w w', same_graph w w' → acyclic w → acyclic w').
  { intros w w' Hs Hac e Htc. apply (Hac e). by eapply tc_feeds_same. }
  intros w w' Hs. split; apply Hone; [done|by symmetry].
Qed.
#[export] Instance start_order_proper : Proper (same_graph ==> eq ==> iff) start_order.
Proof.
  intros w w' Hs ord ? <-. unfold start_order. split; intros (Hnd & Hall & Hord).
  - split_and!; [done|intros e; by rewrite <-Hs|]. intros l1 e l2 u Heq Hf. eapply Hord; [done|]. by rewrite Hs.
  - split_and!; [done|intros e; by rewrite Hs|]. intros l1 e l2 u Heq Hf. eapply Hord; [done|]. by rewrite <-Hs.
Qed.
