(* ===== verification/Lifecycle.v ===== *)
(** Running a pipeline: init, deinit, start, stop, finish, the heartbeat
    [schedule] with RunItem::dispatch, and the error slots (Pipeline.cpp).

    The thread pool is modelled by jobs: dispatching files a job
    [element->run( serial )] under a fresh future, and [run_job] is a worker
    executing one.  A job is one step: the interleavings considered are those
    of whole [run] calls with the pipeline's own calls. *)
From S2P Require Export Ordering.

(** [catch( Exception& )]: the classes derived from [plv::Exception]. *)
Definition is_plv_exception (x : exn) : bool :=
  match x with
  | RuntimeError _ | PlvException _ | IllegalArgumentException _
  | IllegalConnectionException _ | IncompatibleTypeException _
  | DuplicateConnectionException _ => true
  | CvException _ | StdRuntimeError _ | NonFatalException _ | UnknownException => false
  end.

Section lifecycle.
Context `{HashOrder} `{QMetaType}.
(** The plugin code of every element. *)
Context (beh : eptr → Behaviour).

(** Pipeline::handleMessage( QtMsgType, msg ) *)
Definition handleMessage (type : QtMsgType) (msg : string) : W unit :=
  emit (pipelineMessage type msg).

(** Pipeline::handleMessage( PlvMessageType, msg ) *)
Definition handleMessage_plv (type : PlvMessageType) (msg : string) : W unit :=
  emit (pipelineMessage (match type with PlvDebugMessage => QtDebugMsg | _ => QtWarningMsg end) msg).

Definition isRunning : W bool := pl ← get_pipe ; mret (pl_running pl).

Definition deinit_element (e : eptr) : W bool := ple_deinit (b_deinit (beh e)) e.

(** One round of [init]: the error type and the message. *)
Definition init_element (e : eptr) : W (PlvErrorType * string) :=
  try_catch
    (ok ← el_init (b_init (beh e)) e ;
     x ← get_elem e ;
     if (ok : bool) then mret (PlvNoError, EmptyString)
     else mret (el_errorType x,
                "Error in PipelineElement " +:+ el_name x +:+ ": " +:+ el_errorString x))
    (λ ex, x ← get_elem e ;
           if is_plv_exception ex
           then mret (PlvPipelineRuntimeError,
                      "Exception caught in PipelineElement " +:+ el_name x +:+ ": " +:+ exn_text ex)
           else mret (PlvPipelineRuntimeError,
                      "Unknown exception caught in PipelineElement " +:+ el_name x)).

(** The loop of [init]: the set of initialised elements, or [None] after an
    error has been cleaned up. *)
Fixpoint init_loop (l : list eptr) (initialized : gset eptr) : W (option (gset eptr)) :=
  match l with
  | [] => mret (Some initialized)
  | e :: l' =>
      '(errType, msg) ← init_element e ;
      if bool_decide (errType ≠ PlvNoError) then
        deinit_element e ;;
        handleMessage QtWarningMsg msg ;;
        for_each (set_items initialized) (λ e', deinit_element e' ;; mret tt) ;;
        mret None
      else init_loop l' ({[e]} ∪ initialized)
  end.

(** A new, empty list of run items for [e]. *)
Definition init_readyQueue (e : eptr) : W unit :=
  x ← get_elem e ;
  upd_pipe (λ p, pl_set_readyQueue (<[el_id x := []]> (pl_readyQueue p)) p).

(** Pipeline::init *)
Definition init : W bool :=
  pl ← get_pipe ;
  r ← init_loop (qmap_values (pl_children pl)) ∅ ;
  match r with
  | None => mret false
  | Some initialized =>
      for_each (set_items initialized) init_readyQueue ;;
      upd_pipe (λ p, pl_set_heartbeatSlots (S (pl_heartbeatSlots p)) p) ;;
      mret true
  end.

(** Pipeline::deinit: the loop that would empty [m_readyQueue] tests the
    iterator of the first loop, which is exhausted, so it never runs. *)
Definition deinit : W unit :=
  pl ← get_pipe ;
  for_each (qmap_values (pl_children pl)) (λ e,
    ok ← deinit_element e ;
    when (negb ok)
      (x ← get_elem e ;
       when (bool_decide (el_errorType x ≠ PlvNoError))
         (handleMessage QtWarningMsg
            ("Error in PipelineElement " +:+ el_name x +:+ ": " +:+ el_errorString x)))) ;;
  upd_pipe (pl_set_heartbeatSlots 0).

(** One round of the start loop: whether the element started. *)
Definition start_element (e : eptr) : W bool :=
  try_catch
    (ok ← ple_start (b_start (beh e)) e ;
     if (ok : bool) then mret true
     else
       x ← get_elem e ;
       handleMessage QtWarningMsg ("PipelineElement " +:+ el_name x +:+ " failed to start.") ;;
       deinit_element e ;; mret false)
    (λ ex,
       if is_plv_exception ex then
         x ← get_elem e ;
         handleMessage QtWarningMsg (el_name x +:+ ": " +:+ exn_text ex) ;;
         deinit_element e ;; mret false
       else throw ex).

(** The start loop, which ends at the first error: the elements started and
    whether there was an error. *)
Fixpoint start_loop (l : list eptr) (started : gset eptr) : W (gset eptr * bool) :=
  match l with
  | [] => mret (started, false)
  | e :: l' =>
      ok ← start_element e ;
      if (ok : bool) then start_loop l' ({[e]} ∪ started) else mret (started, true)
  end.

(** The first element with a required pin that is not connected. *)
Definition find_unconnected (l : list eptr) : W (option eptr) :=
  for_return l (λ e, ok ← requiredPinsConnected e ; mret (if (ok : bool) then None else Some e)).

Definition stop_element (e : eptr) : W bool := ple_stop (b_stop (beh e)) e.

(** Pipeline::start *)
Definition start : W unit :=
  pl ← get_pipe ;
  if bool_decide (size (pl_children pl) = 0%nat) then mret tt
  else
    ok ← init ;
    if negb ok then mret tt
    else
      missing ← find_unconnected (qmap_values (pl_children pl)) ;
      match missing with
      | Some e =>
          x ← get_elem e ;
          handleMessage QtWarningMsg
            ("PipelineElement's' " +:+ el_name x +:+ " required pins are not all connected.") ;;
          deinit
      | None =>
          '(b, ord) ← generateGraphOrdering ;
          upd_pipe (pl_set_ordering ord) ;;
          if negb b then handleMessage QtWarningMsg "Cycle detected in pipeline graph"
          else
            '(started, error) ← start_loop (qmap_values (pl_children pl)) ∅ ;
            if (error : bool) then
              for_each (set_items started) (λ e, stop_element e ;; deinit_element e ;; mret tt)
            else
              upd_pipe (pl_set_heartbeatActive true) ;;
              upd_pipe (pl_set_running true) ;;
              upd_pipe (λ p, pl_set_runQueueThreshold
                (i32 (Z.of_nat (size (pl_processors p)) + Z.of_nat (size (pl_producers p)) + 1)) p) ;;
              emit pipelineStarted
      end.

(** ** The thread pool *)

(** [QtConcurrent::run( element, &PipelineElement::run, serial )] *)
Definition concurrent_run (e : eptr) (serial : Z) : W positive :=
  js ← gets w_jobs ; fs ← gets w_futures ;
  let f := Pos.max (fresh_key js) (fresh_key fs) in
  modify (set_jobs (<[f := (e, serial)]> js) fs) ;; mret f.

(** A worker executes the job filed under future [f]; [body] is what the
    plugin's [process()] or [produce()] does this time. *)
Definition run_job (f : positive) (body : Prog) : W unit :=
  js ← gets w_jobs ; fs ← gets w_futures ;
  match js !! f with
  | None => mret tt
  | Some (e, serial) =>
      modify (set_jobs (delete f js) fs) ;;
      b ← el_run body e serial ;
      js' ← gets w_jobs ; fs' ← gets w_futures ;
      modify (set_jobs js' (<[f := b]> fs'))
  end.

(** RunItem::dispatch: the item as it is afterwards. *)
Definition dispatch (item : RunItem) : W RunItem :=
  s ← el_getState (ri_element item) ;
  assert (bool_decide (s = PLE_STARTED)) ;;
  assert (negb (ri_dispatched item)) ;;
  el_setState (ri_element item) PLE_DISPATCHED ;;
  f ← concurrent_run (ri_element item) (ri_serial item) ;
  mret (mkRunItem (ri_element item) (ri_serial item) true f).

(** ** stop *)

(** One sweep over [m_runQueue] for elements that are done. *)
Definition stop_sweep : W unit :=
  pl ← get_pipe ;
  for_each (hash_items (pl_runQueue pl)) (λ '(id, item),
    s ← el_getState (ri_element item) ;
    when (bool_decide (s = PLE_DONE) || bool_decide (s = PLE_ERROR))
      (upd_pipe (λ p, pl_set_runQueue (delete id (pl_runQueue p)) p) ;;
       el_setState (ri_element item) PLE_STARTED)).

(** The waiting loop of [stop]; [pool n] is what the workers do before its
    [n]th sweep. *)
Fixpoint stop_wait (pool : nat → W unit) (fuel n : nat) : W unit :=
  pl ← get_pipe ;
  if bool_decide (pl_runQueue pl = ∅) then mret tt
  else
    match fuel with
    | O => abort OutOfFuel
    | S fuel' => pool n ;; stop_sweep ;; stop_wait pool fuel' (S n)
    end.

(** Pipeline::stop *)
Definition stop (pool : nat → W unit) (fuel : nat) : W unit :=
  pl ← get_pipe ;
  assert (pl_running pl) ;;
  upd_pipe (pl_set_heartbeatActive false) ;;
  stop_wait pool fuel 0 ;;
  for_each (qmap_values (pl_children pl)) (λ e,
    stop_element e ;; deinit_element e ;; mret tt) ;;
  for_each (qmap_values (pl_connections pl)) (λ c,
    conn_flush c ;; has ← conn_hasDataItems c ; assert (negb has)) ;;
  upd_pipe (pl_set_readyQueue ∅) ;;
  upd_pipe (pl_set_testCount 0) ;;
  upd_pipe (pl_set_running false) ;;
  emit pipelineStopped.

(** Pipeline::finish *)
Definition finish (pool : nat → W unit) (fuel : nat) : W unit :=
  running ← isRunning ;
  when running (stop pool fuel) ;;
  clear ;;
  emit finished.

(** Pipeline::pipelineElementError *)
Definition pipelineElementError (pool : nat → W unit) (fuel : nat)
    (type : PlvErrorType) (e : eptr) : W unit :=
  x ← get_elem e ;
  handleMessage
    (match type with
     | PlvNonFatalError | PlvPipelineInitError | PlvPipelineRuntimeError => QtWarningMsg
     | PlvFatalError => QtFatalMsg
     | PlvNoError => QtDebugMsg
     end) (el_errorString x) ;;
  stop pool fuel.

(** ** schedule *)

(** The first loop: items whose future has finished leave the run queue.
    [Some msg]: one of them failed. *)
Definition collect : W (option string) :=
  pl ← get_pipe ;
  for_return (hash_items (pl_runQueue pl)) (λ '(id, item),
    assert (ri_dispatched item) ;;
    fs ← gets w_futures ;
    match fs !! ri_result item with
    | None => mret None
    | Some true =>
        el_setState (ri_element item) PLE_STARTED ;;
        upd_pipe (λ p, pl_set_runQueue (delete id (pl_runQueue p)) p) ;;
        mret None
    | Some false =>
        x ← get_elem (ri_element item) ;
        mret (Some ("Pipeline stopped because of an error in " +:+ el_name x +:+
          ". The error is " +:+ el_errorString x))
    end).

(** One ready list: dispatch its first item unless its element is running. *)
Definition dispatch_first (id : Z) : W unit :=
  pl ← get_pipe ;
  match pl_readyQueue pl !! id with
  | Some (item :: rest) =>
      x ← get_elem (ri_element item) ;
      if bool_decide (pl_runQueue pl !! el_id x = None) then
        assert (bool_decide (state_rank (el_state x) < state_rank PLE_DISPATCHED)) ;;
        item' ← dispatch item ;
        upd_pipe (λ p, pl_set_runQueue (<[el_id x := item']> (pl_runQueue p)) p) ;;
        upd_pipe (λ p, pl_set_readyQueue (<[id := rest]> (pl_readyQueue p)) p)
      else mret tt
  | _ => mret tt
  end.

Definition dispatch_processors : W unit :=
  pl ← get_pipe ;
  for_each (hash_items (pl_readyQueue pl)).*1 dispatch_first.

Fixpoint all_ready (ready : eptr → bool) (l : list eptr) (acc : bool) : W bool :=
  match l with
  | [] => mret acc
  | e :: l' =>
      r ← producer_ready (ready e) e ; all_ready ready l' (if (r : bool) then acc else false)
  end.

Definition dispatch_producer (e : eptr) : W unit :=
  pl ← get_pipe ;
  item ← dispatch (new_RunItem e (pl_serial pl)) ;
  x ← get_elem e ;
  upd_pipe (λ p, pl_set_runQueue (<[el_id x := item]> (pl_runQueue p)) p).

(** The frame counter; [elapsed] is the time since it was last reset. *)
Definition count_frame (elapsed : Z) : W unit :=
  upd_pipe (λ p, pl_set_numFrames (i32 (pl_numFrames p + 1)) p) ;;
  when (bool_decide (10000 < elapsed))
    (pl ← get_pipe ;
     upd_pipe (pl_set_numFrames 0) ;;
     emit (framesPerSecond (i32 (pl_numFrames pl * 1000) ÷ elapsed))).

(** Producers run when no connection holds five items or more and all of
    them are ready; [ready e] is the answer of [readyToProduce()]. *)
Definition run_producers (ready : eptr → bool) (elapsed : Z) : W unit :=
  pl ← get_pipe ;
  max ← max_size (qmap_values (pl_connections pl)) 0 ;
  when (bool_decide (max < 5))
    (allReady ← all_ready ready (qmap_values (pl_producers pl)) true ;
     when allReady
       (for_each (qmap_values (pl_producers pl)) dispatch_producer ;;
        upd_pipe (λ p, pl_set_serial (u32 (pl_serial p + 1)) p) ;;
        count_frame elapsed ;;
        pl' ← get_pipe ;
        emit (stepTaken (pl_serial pl')))).

(** Pipeline::schedule *)
Definition schedule (ready : eptr → bool) (elapsed : Z) (pool : nat → W unit) (fuel : nat) : W unit :=
  upd_pipe (λ p, pl_set_testCount (pl_testCount p + 1) p) ;;
  pl ← get_pipe ;
  assert (bool_decide (pl_testCount pl = 1)) ;;
  failed ← collect ;
  match failed with
  | Some msg =>
      stop pool fuel ;;
      emit (pipelineMessage QtWarningMsg msg)
  | None =>
      dispatch_processors ;;
      run_producers ready elapsed ;;
      upd_pipe (λ p, pl_set_testCount (pl_testCount p - 1) p) ;;
      pl' ← get_pipe ;
      assert (bool_decide (pl_testCount pl' = 0))
  end.
End lifecycle.
