(* ===== verification/Frame.v ===== *)
(** What plugin code and the workers that run it can and cannot change: a
    frame relation, the rules that carry it through sequences, branches, loops
    and exception handlers, and the proof that every call an element makes
    while it runs stays within it. *)
From S2P Require Export GraphEq Lifecycle.

(** ** Framed calls *)
Section frames.
Context {S : Type} (R : relation S) `{!PreOrder R}.

(** Whatever its outcome, call [m] relates [s] to the heap it leaves. *)
Definition frames {A} (m : M S A) (s : S) : Prop := R s (m s).2.

Lemma frames_ret {A} (a : A) s : frames (mret a) s.
Proof using PreOrder0. unfold frames. reflexivity. Qed.
Lemma frames_throw {A} x s : frames (throw x : M S A) s.
Proof using PreOrder0. unfold frames. reflexivity. Qed.
Lemma frames_abort {A} x s : frames (abort x : M S A) s.
Proof using PreOrder0. unfold frames. reflexivity. Qed.
Lemma frames_assert b s : frames (assert b) s.
Proof using PreOrder0. unfold frames. by destruct b. Qed.
Lemma frames_gets {A} (f : S → A) s : frames (gets f) s.
Proof using PreOrder0. unfold frames. reflexivity. Qed.
Lemma frames_modify (f : S → S) s : R s (f s) → frames (modify f) s.
Proof. done. Qed.
Lemma frames_bind {A B} (m : M S A) (f : A → M S B) s :
  frames m s → (∀ a s', m s = (Ok a, s') → R s s' → frames (f a) s') → frames (m ≫= f) s.
Proof using PreOrder0.
  unfold frames, mbind, M_bind. intros Hm Hf. destruct (m s) as [[a|x|x] s'] eqn:E; cbn in *; [|done..].
  etrans; [exact Hm|]. by apply Hf.
Qed.
Lemma frames_when (b : bool) m s : (b = true → frames m s) → frames (when b m) s.
Proof using PreOrder0. destruct b; cbn; [auto|]. intros _. apply frames_ret. Qed.
Lemma frames_try {A} (m : M S A) h s :
  frames m s → (∀ x s', R s s' → frames (h x) s') → frames (try_catch m h) s.
Proof using PreOrder0.
  unfold frames, try_catch. intros Hm Hh. destruct (m s) as [[a|x|x] s'] eqn:E; cbn in *; [done| |done].
  etrans; [exact Hm|]. by apply Hh.
Qed.
Lemma frames_for_each {A} (l : list A) body s :
  (∀ x s', x ∈ l → R s s' → frames (body x) s') → frames (for_each l body) s.
Proof using PreOrder0.
  intros Hbody. assert (Hgen : ∀ s', R s s' → frames (for_each l body) s'); [|by apply Hgen].
  induction l as [|x l IH]; intros s' Hs; cbn; [apply frames_ret|].
  apply frames_bind; [apply Hbody; [set_solver|done]|].
  intros _ s'' _ Hs'. apply IH; [|by etrans]. intros y s3 Hy. apply Hbody. set_solver.
Qed.
End frames.

(** ** The frame of one running element *)

Definition state_of (w : World) (e : eptr) : option State := el_state <$> w_elems w !! e.

(** A list of [m_readyQueue] under key [k] holds run items of the child [k]. *)
Definition ready_item (w : World) (k : Z) (it : RunItem) : Prop :=
  ri_dispatched it = false ∧ children w !! k = Some (ri_element it).

Definition list_grows (w : World) (k : Z) (l l' : list RunItem) : Prop :=
  ∃ new, l' = l ++ new ∧ Forall (ready_item w k) new.

(** Code of the elements [P] ran: the graph is the same, no other element
    changed state, ready lists only grew by items of their own element, and
    the rest of the pipeline and the pool are as before. *)
Record works_as (P : eptr → Prop) (w w' : World) : Prop := {
  wa_graph : same_graph w w';
  wa_state : ∀ e, ¬ P e → state_of w' e = state_of w e;
  wa_pipe : w_pipe w' = pl_set_readyQueue (pl_readyQueue (w_pipe w')) (w_pipe w);
  wa_ready : ∀ k, option_Forall2 (list_grows w k)
               (pl_readyQueue (w_pipe w) !! k) (pl_readyQueue (w_pipe w') !! k);
  wa_jobs : w_jobs w' = w_jobs w;
  wa_futures : w_futures w' = w_futures w
}.

Lemma list_grows_refl w k l : list_grows w k l l.
Proof. exists []. by rewrite app_nil_r. Qed.

#[export] Instance works_as_preorder P : PreOrder (works_as P).
Proof.
  split.
  - intros w. split; [reflexivity|done|by destruct w as [? ? ? ? [] ? ? ?]| |done..].
    intros k. destruct (_ !! k); constructor. apply list_grows_refl.
  - intros w1 w2 w3 [G1 S1 P1 R1 J1 F1] [G2 S2 P2 R2 J2 F2]. split.
    + by etrans.
    + intros e He. by rewrite S2, S1.
    + rewrite P2, P1. done.
    + intros k. specialize (R1 k). specialize (R2 k).
      inversion R1 as [l1 l2 H1 E1 E2|E1 E2]; rewrite <-E2 in R2; inversion R2 as [l2' l3 H2 E3 E4|E3 E4];
        constructor.
      destruct H1 as (n1 & -> & Hn1), H2 as (n2 & -> & Hn2). exists (n1 ++ n2).
      rewrite app_assoc. split; [done|]. apply Forall_app. split; [done|].
      eapply Forall_impl; [exact Hn2|]. intros it [Hd Hc]. split; [done|].
      by rewrite <-(same_children _ _ G1).
    + congruence.
    + congruence.
Qed.

Section updates.
Context (P : eptr → Prop).
Implicit Types w : World.

Lemma insert_skeleton {A B K} `{Countable K} (f : A → B) (m : gmap K A) k x x' :
  m !! k = Some x → f x' = f x → f <$> <[k := x']> m = f <$> m.
Proof. intros Hk Hf. rewrite fmap_insert, Hf. apply insert_id. by rewrite lookup_fmap, Hk. Qed.

Lemma works_as_elem w e x x' : w_elems w !! e = Some x → el_skeleton x' = el_skeleton x →
  P e ∨ el_state x' = el_state x → works_as P w (set_elems (insert e x') w).
Proof.
  intros Hx Hf Hs. split; cbn; try done.
  - unfold same_graph, skeleton. cbn. f_equal. symmetry. by eapply insert_skeleton.
  - intros e' He'. unfold state_of. cbn. destruct (decide (e' = e)) as [->|].
    + rewrite lookup_insert_eq, Hx. cbn. destruct Hs as [Hs|Hs]; [done|by rewrite Hs].
    + by rewrite lookup_insert_ne.
  - by destruct (w_pipe w).
  - intros k. destruct (_ !! k); constructor. apply list_grows_refl.
Qed.

(** The other updates touch no element and leave the pipeline alone. *)
Lemma works_as_rest w w' : skeleton w' = skeleton w → w_elems w' = w_elems w →
  w_pipe w' = w_pipe w → w_jobs w' = w_jobs w → w_futures w' = w_futures w → works_as P w w'.
Proof.
  intros Hs He Hp Hj Hf. split; try done.
  - intros e _. unfold state_of. by rewrite He.
  - rewrite Hp. by destruct (w_pipe w).
  - intros k. rewrite Hp. destruct (_ !! k); constructor. apply list_grows_refl.
Qed.

Lemma works_as_in w i p p' : w_ins w !! i = Some p → ip_set_called false p' = ip_set_called false p →
  works_as P w (set_ins (insert i p') w).
Proof.
  intros Hp Hf. apply works_as_rest; try done.
  unfold skeleton. cbn. f_equal. by eapply insert_skeleton.
Qed.
Lemma works_as_out w o p p' : w_outs w !! o = Some p → op_set_called false p' = op_set_called false p →
  works_as P w (set_outs (insert o p') w).
Proof.
  intros Hp Hf. apply works_as_rest; try done.
  unfold skeleton. cbn. f_equal. by eapply insert_skeleton.
Qed.
Lemma works_as_conn w c x x' : w_conns w !! c = Some x → pc_set_queue [] x' = pc_set_queue [] x →
  works_as P w (set_conns (insert c x') w).
Proof.
  intros Hp Hf. apply works_as_rest; try done.
  unfold skeleton. cbn. f_equal. by eapply insert_skeleton.
Qed.
Lemma works_as_signal w s : works_as P w (add_signal s w).
Proof. by apply works_as_rest. Qed.

Lemma works_as_ready w k l it : pl_readyQueue (w_pipe w) !! k = Some l → ready_item w k it →
  works_as P w (set_pipe (pl_set_readyQueue (<[k := l ++ [it]]> (pl_readyQueue (w_pipe w)))) w).
Proof.
  intros Hk Hit. split; try done.
  intros k'. cbn. destruct (decide (k' = k)) as [->|Hne].
  - rewrite lookup_insert_eq, Hk. constructor. exists [it]. split; [done|]. by constructor.
  - rewrite lookup_insert_ne by done. destruct (_ !! k'); constructor. apply list_grows_refl.
Qed.
End updates.

(** ** Rules for the memory accesses *)
Section access_rules.
Context (P : eptr → Prop).
Implicit Types w : World.
Abbreviation fr := (frames (works_as P)).

Lemma deref_cases {A} (heap : World → gmap positive A) p w :
  (∃ x, heap w !! p = Some x ∧ deref heap p w = (Ok x, w)) ∨ deref heap p w = (Abort NullPointer, w).
Proof.
  unfold deref, gets, mbind, M_bind. destruct (heap w !! p) eqn:E; [left; eauto|by right].
Qed.

Lemma frames_deref {A B} (heap : World → gmap positive A) p (f : A → W B) w :
  (∀ x, heap w !! p = Some x → fr (f x) w) → fr (deref heap p ≫= f) w.
Proof.
  intros Hf. destruct (deref_cases heap p w) as [(x & Hx & Hrun)|Hrun].
  - specialize (Hf x Hx). unfold frames in *. by rewrite (run_bind _ _ _ _ _ Hrun).
  - unfold frames. rewrite (run_bind_abort _ _ _ _ _ Hrun). reflexivity.
Qed.
Lemma frames_deref_only {A} (heap : World → gmap positive A) p w : fr (deref heap p) w.
Proof. unfold frames. destruct (deref_cases heap p w) as [(x & _ & ->)| ->]; reflexivity. Qed.

Lemma frames_pipe {B} (f : Pipeline → W B) w : fr (f (w_pipe w)) w → fr (get_pipe ≫= f) w.
Proof. done. Qed.
Lemma frames_non_null {B} p (f : positive → W B) w :
  (∀ q, p = Some q → fr (f q) w) → fr (non_null p ≫= f) w.
Proof. intros Hf. destruct p; cbn; [by apply Hf|]. unfold frames. reflexivity. Qed.

Lemma frames_upd_elem e f w :
  (∀ x, w_elems w !! e = Some x → el_skeleton (f x) = el_skeleton x ∧ (P e ∨ el_state (f x) = el_state x)) →
  fr (upd_elem e f) w.
Proof.
  intros Hf. apply frames_deref. intros x Hx. destruct (Hf x Hx).
  apply frames_modify. by eapply works_as_elem.
Qed.
Lemma frames_upd_in i f w :
  (∀ p, ip_set_called false (f p) = ip_set_called false p) → fr (upd_in i f) w.
Proof. intros Hf. apply frames_deref. intros x Hx. apply frames_modify. by eapply works_as_in. Qed.
Lemma frames_upd_out o f w :
  (∀ p, op_set_called false (f p) = op_set_called false p) → fr (upd_out o f) w.
Proof. intros Hf. apply frames_deref. intros x Hx. apply frames_modify. by eapply works_as_out. Qed.
Lemma frames_upd_conn c f w :
  (∀ x, pc_set_queue [] (f x) = pc_set_queue [] x) → fr (upd_conn c f) w.
Proof. intros Hf. apply frames_deref. intros x Hx. apply frames_modify. by eapply works_as_conn. Qed.
Lemma frames_emit s w : fr (emit s) w.
Proof. apply frames_modify, works_as_signal. Qed.
End access_rules.

(** Apply a rule at the relation of the goal. *)
Ltac frame_rule rule :=
  lazymatch goal with |- frames ?R _ _ => apply (rule _ R _) end.

Create HintDb frame.
#[export] Hint Resolve frames_deref_only frames_emit : frame.
#[export] Hint Extern 1 (frames _ (mret _) _) => frame_rule @frames_ret : frame.

(** One rule of the frame logic, chosen by the shape of the call. *)
Ltac frame_step :=
  lazymatch goal with
  | |- frames _ (get_elem _ ≫= _) _ => apply frames_deref; intros ? ?
  | |- frames _ (get_in _ ≫= _) _ => apply frames_deref; intros ? ?
  | |- frames _ (get_out _ ≫= _) _ => apply frames_deref; intros ? ?
  | |- frames _ (get_conn _ ≫= _) _ => apply frames_deref; intros ? ?
  | |- frames _ (get_pipe ≫= _) _ => apply frames_pipe
  | |- frames _ (non_null _ ≫= _) _ => apply frames_non_null; intros ? ?
  | |- frames _ (_ ≫= _) _ => frame_rule @frames_bind; [|intros ? ? ? ?]
  | |- frames _ (mret _) _ => frame_rule @frames_ret
  | |- frames _ (throw _) _ => frame_rule @frames_throw
  | |- frames _ (abort _) _ => frame_rule @frames_abort
  | |- frames _ (assert _) _ => frame_rule @frames_assert
  | |- frames _ (gets _) _ => frame_rule @frames_gets
  | |- frames _ (when _ _) _ => frame_rule @frames_when; intros ?
  | |- frames _ (emit _) _ => apply frames_emit
  | |- frames _ (upd_in _ _) _ => apply frames_upd_in; intros ?; reflexivity
  | |- frames _ (upd_out _ _) _ => apply frames_upd_out; intros ?; reflexivity
  | |- frames _ (upd_conn _ _) _ => apply frames_upd_conn; intros ?; reflexivity
  | |- frames _ (if ?b then _ else _) _ => destruct b eqn:?
  | |- frames _ (match ?x with _ => _ end) _ => destruct x eqn:?
  | |- frames _ _ _ => solve [eauto 3 with frame]
  end.
Ltac frame := repeat (progress cbn beta iota || frame_step).

(** ** The same for any relation *)
Section generic.
Context (R : relation World) `{!PreOrder R}.
Lemma gframes_deref {A B} (heap : World → gmap positive A) p (f : A → W B) w :
  (∀ x, heap w !! p = Some x → frames R (f x) w) → frames R (deref heap p ≫= f) w.
Proof using PreOrder0.
  intros Hf. destruct (deref_cases heap p w) as [(x & Hx & Hrun)|Hrun].
  - specialize (Hf x Hx). unfold frames in *. by rewrite (run_bind _ _ _ _ _ Hrun).
  - unfold frames. rewrite (run_bind_abort _ _ _ _ _ Hrun). reflexivity.
Qed.
Lemma gframes_deref_only {A} (heap : World → gmap positive A) p w : frames R (deref heap p) w.
Proof using PreOrder0. unfold frames. destruct (deref_cases heap p w) as [(x & _ & ->)| ->]; reflexivity. Qed.
Lemma gframes_pipe {B} (f : Pipeline → W B) w : frames R (f (w_pipe w)) w → frames R (get_pipe ≫= f) w.
Proof. done. Qed.
Lemma gframes_non_null {B} p (f : positive → W B) w :
  (∀ q, p = Some q → frames R (f q) w) → frames R (non_null p ≫= f) w.
Proof using PreOrder0. intros Hf. destruct p; cbn; [by apply Hf|]. unfold frames. reflexivity. Qed.
End generic.

(** One rule at the relation [R], chosen by the shape of the call; [prim] is for
    the calls that [R] has rules of its own for. *)
Ltac gframe_step R prim :=
  lazymatch goal with
  | |- frames _ (get_elem _ ≫= _) _ => apply (gframes_deref R); intros ? ?
  | |- frames _ (get_in _ ≫= _) _ => apply (gframes_deref R); intros ? ?
  | |- frames _ (get_out _ ≫= _) _ => apply (gframes_deref R); intros ? ?
  | |- frames _ (get_conn _ ≫= _) _ => apply (gframes_deref R); intros ? ?
  | |- frames _ (get_pipe ≫= _) _ => apply (gframes_pipe R)
  | |- frames _ (non_null _ ≫= _) _ => apply (gframes_non_null R); intros ? ?
  | |- frames _ (_ ≫= _) _ => frame_rule @frames_bind; [|intros ? ? ? ?]
  | |- frames _ (mret _) _ => frame_rule @frames_ret
  | |- frames _ (throw _) _ => frame_rule @frames_throw
  | |- frames _ (abort _) _ => frame_rule @frames_abort
  | |- frames _ (assert _) _ => frame_rule @frames_assert
  | |- frames _ (gets _) _ => frame_rule @frames_gets
  | |- frames _ (when _ _) _ => frame_rule @frames_when; intros ?
  | |- frames _ (if ?b then _ else _) _ => destruct b eqn:?
  | |- frames _ (match ?x with _ => _ end) _ => destruct x eqn:?
  | |- frames _ _ _ => prim
  end.

(** ** The calls a running element makes *)
Section calls.
Context `{HashOrder} (P : eptr → Prop).
Implicit Types w : World.
Abbreviation fr := (frames (works_as P)).

Lemma frames_set_state e s w : P e → fr (el_setState e s) w.
Proof. intros He. apply frames_upd_elem. auto. Qed.
Lemma frames_setError e t m w : P e → fr (el_setError e t m) w.
Proof.
  intros He. frame_rule @frames_bind; [by apply frames_set_state|]. intros _ w' _ _.
  apply frames_upd_elem. auto.
Qed.

Lemma frames_owner_name_out o w : fr (owner_name_out o) w.
Proof. unfold owner_name_out. frame. Qed.
Lemma frames_owner_name_in o w : fr (owner_name_in o) w.
Proof. unfold owner_name_in. frame. Qed.
Lemma frames_throw_empty {A} m x w : fr (conn_throw_empty m x : W A) w.
Proof.
  unfold conn_throw_empty. frame_rule @frames_bind; [apply frames_owner_name_out|intros ? ? ? ?].
  frame_rule @frames_bind; [apply frames_owner_name_in|intros ? ? ? ?]. frame.
Qed.
Lemma frames_conn_get c w : fr (conn_get c) w.
Proof. unfold conn_get. frame; apply frames_throw_empty. Qed.
Lemma frames_conn_peekNext c w : fr (conn_peekNext c) w.
Proof. unfold conn_peekNext. frame; apply frames_throw_empty. Qed.
Lemma frames_hasDataItems c w : fr (conn_hasDataItems c) w.
Proof. unfold conn_hasDataItems. frame. Qed.
Lemma frames_in_hasDataItems i w : fr (in_hasDataItems i) w.
Proof. unfold in_hasDataItems. frame. apply frames_hasDataItems. Qed.
Lemma frames_in_peekNext i w : fr (in_peekNext i) w.
Proof. unfold in_peekNext. frame. apply frames_conn_peekNext. Qed.
#[local] Hint Resolve frames_conn_get frames_in_hasDataItems frames_in_peekNext : frame.

Lemma frames_in_hasData i w : fr (in_hasData i) w.
Proof. unfold in_hasData. frame. Qed.
Lemma frames_in_take_guard i a b w : fr (in_take_guard i a b) w.
Proof. unfold in_take_guard. frame. Qed.
Lemma frames_in_removeFirst i w : fr (in_removeFirst i) w.
Proof. unfold in_removeFirst. frame. Qed.
#[local] Hint Resolve frames_in_take_guard frames_in_removeFirst : frame.
Lemma frames_in_clear i w : fr (in_clear i) w.
Proof. unfold in_clear. frame. Qed.
Lemma frames_in_getVariant i w : fr (in_getVariant i) w.
Proof. unfold in_getVariant. frame. Qed.
Lemma frames_conn_isSynchronous c w : fr (conn_isSynchronous c) w.
Proof. unfold conn_isSynchronous. frame. Qed.

(** A ready list grows only by an item of the child it belongs to. *)
Lemma frames_consumerReady serial e x w : in_pipeline w e x →
  fr (pipelineDataConsumerReady serial e) w.
Proof.
  intros [Hx Hc]. unfold pipelineDataConsumerReady. frame_step. simplify_eq. frame_step.
  destruct (pl_readyQueue (w_pipe w) !! el_id x) as [l|] eqn:Hl; [|frame_rule @frames_abort].
  apply frames_modify. by apply works_as_ready.
Qed.

Lemma frames_newData e x i serial w : in_pipeline w e x → fr (newData e i serial) w.
Proof.
  intros Hin. unfold newData. frame_step.
  assert (Hlate : ∀ w' t, works_as P w w' → fr (pipelineDataConsumerReady t e) w').
  { intros w' t Hw. destruct (in_pipeline_same _ _ (wa_graph _ _ _ Hw) _ _ Hin) as (x' & Hx' & _).
    by eapply frames_consumerReady. }
  frame_rule @frames_bind; [frame_rule @frames_assert|intros _ w1 _ Hw1].
  destruct (el_hasSynchronousPin _); [|by apply Hlate].
  frame_step. destruct (ip_isAsynchronous _); [frame_rule @frames_ret|].
  frame_rule @frames_bind; [frame_rule @frames_assert|intros _ w2 _ Hw2].
  destruct (sb_add _ _ _) as [complete b].
  frame_rule @frames_bind; [apply frames_upd_elem; auto|intros _ w3 _ Hw3].
  frame_rule @frames_when. intros _. apply Hlate. by etrans; [|etrans].
Qed.
End calls.
#[export] Hint Resolve frames_conn_get frames_in_hasDataItems frames_in_peekNext frames_in_take_guard
  frames_in_removeFirst frames_in_clear frames_in_getVariant frames_in_hasData frames_conn_isSynchronous : frame.

(** ** Putting data and running plugin code *)
Section putting.
Context `{HashOrder} (P : eptr → Prop).
Implicit Types w : World.
Abbreviation fr := (frames (works_as P)).

Definition registered (w : World) (c : cptr) : Prop := ∃ k, connections w !! k = Some c.

Lemma registered_works w w' c : works_as P w w' → registered w c → registered w' c.
Proof. intros Hw [k Hk]. exists k. by rewrite (same_connections _ _ (wa_graph _ _ _ Hw)). Qed.
Lemma wf_works w w' : works_as P w w' → graph_wf w → graph_wf w'.
Proof. intros Hw. by rewrite (wa_graph _ _ _ Hw). Qed.

(** The consumer at the end of a registered connection is in the pipeline. *)
Lemma consumer_in_pipeline w c x i p : graph_wf w → registered w c → w_conns w !! c = Some x →
  pc_consumer x = Some i → w_ins w !! i = Some p → ∃ xe, in_pipeline w (ip_owner p) xe.
Proof.
  intros Hwf [k Hk] Hx Hi Hp. destruct (wf_connections _ Hwf _ _ Hk) as (x' & o' & i' & Hat & _).
  destruct Hat as [Hx' _ Hi' (po & pi & _ & Hpi & _ & _ & _ & _ & _ & (xi & Hin & _))].
  simplify_eq. eauto.
Qed.

Lemma frames_conn_put w c d : graph_wf w → registered w c → fr (conn_put c d) w.
Proof.
  intros Hwf Hreg. unfold conn_put. apply frames_deref. intros x Hx.
  frame_rule @frames_bind; [frame|intros _ w1 _ Hw1].
  apply frames_non_null. intros i Hi. unfold in_acceptData. apply frames_deref. intros p Hp.
  destruct (same_conn _ _ _ _ (wa_graph _ _ _ Hw1) Hx) as (x1 & Hx1 & Hf).
  apply pc_skeleton_fields in Hf as (_ & _ & Hcons).
  destruct (consumer_in_pipeline w1 c x1 i p) as (xe & Hxe); [by eapply wf_works|by eapply registered_works|done|congruence|done|].
  by eapply frames_newData.
Qed.

(** Putting on every connection of an output pin. *)
Lemma frames_put_all w o p (body : cptr → W unit) : graph_wf w → w_outs w !! o = Some p →
  (∀ c w', graph_wf w' → registered w' c → fr (body c) w') → fr (for_each (op_connections p) body) w.
Proof.
  intros Hwf Hp Hbody. frame_rule @frames_for_each. intros c w' Hc Hw.
  destruct (wf_outputs _ Hwf _ _ _ Hp Hc) as (x & _ & _ & Hk).
  apply Hbody; [by eapply wf_works|eapply registered_works; [exact Hw|by exists (pc_id x)]].
Qed.

Lemma frames_out_post w o : graph_wf w → fr (out_post o) w.
Proof.
  intros Hwf. unfold out_post. apply frames_deref. intros p Hp.
  frame_rule @frames_when. intros _. apply frames_deref. intros e He.
  eapply frames_put_all; [done..|]. intros c w' Hwf' Hreg.
  frame_rule @frames_bind; [frame|intros s w1 _ Hw1].
  frame_rule @frames_when. intros _. apply frames_conn_put; [by eapply wf_works|by eapply registered_works].
Qed.

Lemma frames_out_putVariant w o serial v : graph_wf w → fr (out_putVariant o serial v) w.
Proof.
  intros Hwf. unfold out_putVariant. apply frames_deref. intros p Hp. apply frames_deref. intros e He.
  frame_rule @frames_bind; [frame|intros _ w1 _ Hw1].
  frame_rule @frames_bind; [frame|intros _ w2 _ Hw2].
  frame_rule @frames_bind; [frame|intros _ w3 _ Hw3].
  assert (Hw : works_as P w w3) by (by etrans; [|etrans]).
  destruct (same_out _ _ _ _ (wa_graph _ _ _ Hw) Hp) as (p3 & Hp3 & Hf).
  apply op_skeleton_fields in Hf as (_ & _ & _ & <-).
  eapply frames_put_all; [by eapply wf_works|exact Hp3|]. intros c w' Hwf' Hreg. by apply frames_conn_put.
Qed.

Lemma frames_run_prog w e p : graph_wf w → P e → fr (run_prog e p) w.
Proof.
  intros Hwf He. revert w Hwf.
  induction p as [b|x|t m k IH|i k IH|i k IH|i k IH|o v k IH]; intros w Hwf; cbn; [frame|frame|..];
    (frame_rule @frames_bind; [|intros ? w1 ? Hw1; apply IH; by eapply wf_works]).
  - by apply frames_setError.
  - frame.
  - frame.
  - frame.
  - unfold out_put. frame_step. frame_step. by apply frames_out_putVariant.
Qed.

Lemma frames_each_out (body : optr → W unit) w l : graph_wf w →
  (∀ o w', graph_wf w' → fr (body o) w') → fr (for_each l body) w.
Proof.
  intros Hwf Hbody. frame_rule @frames_for_each. intros o w' _ Hw. apply Hbody. by eapply wf_works.
Qed.
Lemma frames_preOutput w e : graph_wf w → fr (preOutput e) w.
Proof.
  intros Hwf. unfold preOutput. frame_step. apply frames_each_out; [done|].
  intros o w' _. unfold out_pre. frame.
Qed.
Lemma frames_postOutput w e : graph_wf w → fr (postOutput e) w.
Proof.
  intros Hwf. unfold postOutput. frame_step. apply frames_each_out; [done|].
  intros o w' Hwf'. by apply frames_out_post.
Qed.

Lemma frames_pre_inputs l acc w : fr (pre_inputs l acc) w.
Proof.
  revert acc w. induction l as [|i l IH]; intros acc w; cbn; [frame|].
  apply frames_deref. intros p Hp. frame_rule @frames_bind; [frame|intros nd w1 _ Hw1].
  frame_rule @frames_bind; [unfold in_pre; frame|intros _ w2 _ Hw2]. apply IH.
Qed.
Lemma frames_preInput e w : fr (preInput e) w.
Proof. unfold preInput. frame_step. apply frames_pre_inputs. Qed.
Lemma frames_flushFirst e w : fr (flushFirstOnSynchronousPins e) w.
Proof.
  unfold flushFirstOnSynchronousPins. frame_step. frame_rule @frames_for_each.
  intros i w' _ _. frame.
Qed.
Lemma frames_requiredPins e w : fr (requiredPinsConnected e) w.
Proof.
  assert (Hloop : ∀ l w, fr (for_return l (λ i, p ← get_in i ;
    mret (if ip_isRequired p && negb (ip_isConnected p) then Some false else None))) w).
  { induction l as [|i l IH]; intros w'; cbn; [frame|].
    frame_rule @frames_bind; [frame|intros r w1 _ _]. destruct r; [frame|apply IH]. }
  unfold requiredPinsConnected, requiredInputPinsConnected. frame_step. destruct (el_kind _); [frame|].
  frame_step. frame_rule @frames_bind; [apply Hloop|intros; frame].
Qed.
End putting.

(** ** [PipelineElement::run] *)
Section running.
Context `{HashOrder} (P : eptr → Prop).
Implicit Types w : World.
Abbreviation fr := (frames (works_as P)).

Lemma frames_set_serial e n w : fr (upd_elem e (el_set_serial n)) w.
Proof. apply frames_upd_elem. auto. Qed.

Ltac seq := frame_rule @frames_bind; [|intros ? ? _ ?].

Lemma frames_producer_process body e serial w : graph_wf w → P e → fr (producer_process body e serial) w.
Proof.
  intros Hwf He. unfold producer_process. frame_step.
  seq; [frame|]. seq; [apply frames_set_serial|].
  seq; [apply frames_preOutput; do 2 (eapply wf_works; [eassumption|]); done|].
  seq; [apply frames_run_prog; [do 3 (eapply wf_works; [eassumption|]); done|done]|].
  seq; [apply frames_postOutput; do 4 (eapply wf_works; [eassumption|]); done|].
  seq; [|frame]. frame_rule @frames_when. intros _. by apply frames_set_state.
Qed.

Lemma frames_processor_process body e serial w : graph_wf w → P e → fr (processor_process body e serial) w.
Proof.
  intros Hwf He. unfold processor_process.
  seq; [apply frames_requiredPins|]. seq; [frame|].
  seq; [unfold el_getState; frame|]. seq; [frame|].
  seq; [apply frames_set_serial|]. seq; [apply frames_preInput|].
  match goal with |- fr _ ?w' => assert (Hwf' : graph_wf w') by (do 6 (eapply wf_works; [eassumption|]); done) end.
  case_match.
  - seq; [apply frames_flushFirst|].
    seq; [apply frames_preOutput; by eapply wf_works|].
    seq; [apply frames_postOutput; do 2 (eapply wf_works; [eassumption|]); done|frame].
  - seq; [by apply frames_preOutput|].
    seq; [apply frames_run_prog; [by eapply wf_works|done]|].
    seq; [unfold postInput; frame|].
    seq; [apply frames_postOutput; do 3 (eapply wf_works; [eassumption|]); done|frame].
Qed.

Lemma frames_el_process body e serial w : graph_wf w → P e → fr (el_process body e serial) w.
Proof.
  intros Hwf He. unfold el_process. frame_step. destruct (el_kind _).
  - by apply frames_producer_process.
  - by apply frames_processor_process.
Qed.

(** Running an element, whatever its plugin code does, stays in its frame. *)
Lemma frames_el_run body e serial w : graph_wf w → P e → fr (el_run body e serial) w.
Proof.
  intros Hwf He. unfold el_run.
  seq; [unfold el_getState; frame|]. seq; [frame|]. seq; [by apply frames_set_state|].
  seq.
  - frame_rule @frames_try.
    + seq; [|frame]. apply frames_el_process; [do 3 (eapply wf_works; [eassumption|]); done|done].
    + intros x w' Hw'. seq; [by apply frames_setError|frame].
  - case_match; [|frame]. seq; [unfold el_getState; frame|].
    seq; [|frame]. frame_rule @frames_when. intros _. by apply frames_set_state.
Qed.
End running.

Lemma run_set_state w e s x : w_elems w !! e = Some x →
  el_setState e s w = (Ok tt, set_elems (insert e (el_set_state s x)) w).
Proof. intros Hx. by apply run_upd_elem. Qed.

(** The outcome of a bind that returned. *)
Lemma bind_ok {S A B} (m : M S A) (f : A → M S B) s b s' : (m ≫= f) s = (Ok b, s') →
  ∃ a s1, m s = (Ok a, s1) ∧ f a s1 = (Ok b, s').
Proof. unfold mbind, M_bind. destruct (m s) as [[a|x|x] s1]; [eauto|done..]. Qed.

Lemma state_after_set w e s w' : el_setState e s w = (Ok tt, w') → state_of w' e = Some s.
Proof.
  unfold el_setState, upd_elem. intros (x & w1 & Hx & Hm)%bind_ok.
  injection Hm as <-. unfold state_of. cbn. by rewrite lookup_insert_eq.
Qed.

Lemma getState_ok w e s w' : el_getState e w = (Ok s, w') → w' = w ∧ state_of w e = Some s.
Proof.
  unfold el_getState. intros (x & w1 & Hx & Hm)%bind_ok. injection Hm as <- <-.
  unfold get_elem, deref in Hx. apply bind_ok in Hx as (o & w2 & Hg & Ho). injection Hg as <- <-.
  unfold state_of. destruct (w_elems w !! e) eqn:E; [|done]. by injection Ho as <- <-.
Qed.

(** When [run] returns, its element is done or in error. *)
Lemma el_run_settled `{HashOrder} body e serial w b w' : el_run body e serial w = (Ok b, w') →
  state_of w' e = Some PLE_DONE ∨ state_of w' e = Some PLE_ERROR.
Proof.
  unfold el_run. intros (s & w1 & _ & (u & w2 & _ & (u' & w3 & _ & Hrun)%bind_ok)%bind_ok)%bind_ok.
  apply bind_ok in Hrun as (r & w4 & Htry & Hrest). destruct r as [ret|].
  - apply bind_ok in Hrest as (s' & w5 & [-> Hs']%getState_ok & Hrest).
    apply bind_ok in Hrest as (u2 & w6 & Hwhen & Hret). injection Hret as <- <-.
    case_bool_decide as E; cbn in Hwhen; [injection Hwhen as <- <-; right; by rewrite Hs', E|].
    left. destruct u2. by apply state_after_set in Hwhen.
  - injection Hrest as <- <-. right. unfold try_catch in Htry.
    destruct ((el_process body e serial ≫= λ b0, mret (Some b0)) w3) as [[o|x|x] w5] eqn:E; [|clear E|done].
    + injection Htry as -> <-. apply bind_ok in E as (b' & w6 & _ & Hb). done.
    + apply bind_ok in Htry as (u2 & w6 & Herr & Hm). injection Hm as <-.
      unfold el_setError in Herr. apply bind_ok in Herr as ([] & w7 & Hset & Hupd).
      apply state_after_set in Hset. unfold upd_elem in Hupd.
      apply bind_ok in Hupd as (x' & w8 & Hx & Hm). injection Hm as <- <-.
      unfold get_elem, deref in Hx. apply bind_ok in Hx as (o & w9 & Hg & Ho). injection Hg as <- <-.
      unfold state_of in *. cbn. rewrite lookup_insert_eq.
      destruct (w_elems w7 !! e) eqn:Ee; [|done]. by injection Ho as <- <-.
Qed.
