(* ===== verification/Notifications.v ===== *)
(** What the pipeline tells its listeners (the editor, a saved document): the
    signals about elements and connections, replayed in order, give the tables
    of the pipeline, however the editing calls end. *)
From S2P Require Export Frame GraphOps GraphConnect GraphBuild GraphClear.

(** ** A listener

    It keeps what it was told of. *)
Definition View : Type := gmap Z eptr * gmap Z cptr.
Definition view_step (v : View) (s : Signal) : View :=
  match s with
  | elementAdded id e => (<[id := e]> v.1, v.2)
  | elementRemoved id _ => (delete id v.1, v.2)
  | connectionAdded id c => (v.1, <[id := c]> v.2)
  | connectionRemoved id _ => (v.1, delete id v.2)
  | _ => v
  end.
Definition replay (l : list Signal) (v : View) : View := foldl view_step v l.
Lemma replay_app l l' v : replay (l ++ l') v = replay l' (replay l v).
Proof. unfold replay. by rewrite foldl_app. Qed.
Definition tables (w : World) : View := (children w, connections w).

(** It is told only of what is there: a removal names what is filed under the
    id, a new connection has an id of its own. *)
Definition heard_ok (v : View) (s : Signal) : Prop :=
  match s with
  | elementRemoved id e => v.1 !! id = Some e
  | connectionRemoved id c => v.2 !! id = Some c
  | connectionAdded id _ => v.2 !! id = None
  | _ => True
  end.
Fixpoint told_ok (v : View) (l : list Signal) : Prop :=
  match l with [] => True | s :: l => heard_ok v s ∧ told_ok (view_step v s) l end.
Lemma told_ok_app l l' : ∀ v, told_ok v (l ++ l') ↔ told_ok v l ∧ told_ok (replay l v) l'.
Proof. induction l as [|s l IH]; intros v; cbn; [tauto|]. rewrite IH. unfold replay. tauto. Qed.

(** The connections know their ids. *)
Definition ids_known (w : World) : Prop := ∀ k c, connections w !! k = Some c → ∃ x, w_conns w !! c = Some x ∧ pc_id x = k.

Lemma wf_ids_known w : graph_wf w → ids_known w.
Proof. intros Hwf k c Hk. destruct (wf_connections _ Hwf k c Hk) as (x & o & i & [Hx _] & Hid). by exists x. Qed.

(** A call keeps this, and every connection object. *)
Definition ids_kept (w w' : World) : Prop :=
  ids_known w' ∧ ∀ c, is_Some (w_conns w !! c) → is_Some (w_conns w' !! c).

(** The signals of a call, all of them [P], tell what it did to the tables. *)
Definition tells_by (P : Signal → Prop) (w w' : World) : Prop := ids_known w →
  ids_kept w w' ∧ ∃ l, w_signals w' = w_signals w ++ l ∧ Forall P l ∧ told_ok (tables w) l ∧ replay l (tables w) = tables w'.
Abbreviation tells := (tells_by (λ _, True)).
Definition removal (s : Signal) : Prop :=
  match s with elementRemoved _ _ | connectionRemoved _ _ => True | _ => False end.
#[export] Instance tells_preorder P : PreOrder (tells_by P).
Proof.
  split.
  - intros w Hw. split; [by split|]. exists []. by rewrite app_nil_r.
  - intros w1 w2 w3 H12 H23 H1. destruct (H12 H1) as ([H2 K2] & l & Hl & Hp & Ho & Hr).
    destruct (H23 H2) as ([H3 K3] & l' & Hl' & Hp' & Ho' & Hr').
    split; [split; [done|auto]|]. exists (l ++ l'). split; [by rewrite Hl', Hl, app_assoc|]. split; [by apply Forall_app|].
    rewrite told_ok_app, Hr. split; [done|]. by rewrite replay_app, Hr, Hr'.
Qed.
Lemma tells_weaken P w w' : tells_by P w w' → tells w w'.
Proof.
  intros Ht Hw. destruct (Ht Hw) as (Hw' & l & Hl & _ & Ho & Hr). split; [done|]. exists l. split_and!; [done| |done..].
  by apply Forall_true.
Qed.

(** ** Calls that change no table *)
Record quiet (w w' : World) : Prop := {
  qt_signals : w_signals w' = w_signals w;
  qt_tables : tables w' = tables w;
  qt_ids : ∀ c x, w_conns w !! c = Some x → ∃ x', w_conns w' !! c = Some x' ∧ pc_id x' = pc_id x
}.
#[export] Instance quiet_preorder : PreOrder quiet.
Proof.
  split; [by split; eauto|]. intros w1 w2 w3 [S1 T1 I1] [S2 T2 I2]. split; [congruence..|].
  intros c x Hx. destruct (I1 c x Hx) as (x1 & H1 & E1). destruct (I2 c x1 H1) as (x2 & H2 & E2). exists x2. split; [done|congruence].
Qed.
Lemma quiet_ids w w' : quiet w w' → ids_known w → ids_known w'.
Proof.
  intros [_ Ht Hc] Hw k c Hk. injection Ht as _ Hco. rewrite Hco in Hk. destruct (Hw k c Hk) as (x & Hx & <-). by apply Hc.
Qed.
Lemma quiet_kept w w' : quiet w w' → ids_known w → ids_kept w w'.
Proof.
  intros Hq Hw. split; [by eapply quiet_ids|]. intros c [x Hx].
  destruct (qt_ids _ _ Hq c x Hx) as (x' & Hx' & _). by exists x'.
Qed.
Lemma quiet_tells P w w' : quiet w w' → tells_by P w w'.
Proof.
  intros Hq Hw. split; [by eapply quiet_kept|]. destruct Hq as [Hs Ht _]. exists []. rewrite app_nil_r. by split.
Qed.
Lemma quiet_rest w w' : w_signals w' = w_signals w → w_pipe w' = w_pipe w → w_conns w' = w_conns w → quiet w w'.
Proof. intros Hs Hp Hc. split; [done|unfold tables; by rewrite Hp|]. intros c x Hx. exists x. by rewrite Hc. Qed.

Section quiet.
Implicit Types w : World.
Abbreviation qt := (frames quiet).
Lemma qt_upd_elem e f w : qt (upd_elem e f) w.
Proof. apply (gframes_deref quiet). intros x Hx. apply frames_modify. by apply quiet_rest. Qed.
Lemma qt_upd_in i f w : qt (upd_in i f) w.
Proof. apply (gframes_deref quiet). intros x Hx. apply frames_modify. by apply quiet_rest. Qed.
Lemma qt_upd_out o f w : qt (upd_out o f) w.
Proof. apply (gframes_deref quiet). intros x Hx. apply frames_modify. by apply quiet_rest. Qed.
Lemma qt_upd_conn c f w : (∀ x, pc_id (f x) = pc_id x) → qt (upd_conn c f) w.
Proof.
  intros Hf. apply (gframes_deref quiet). intros x Hx. apply frames_modify. split; [done..|].
  intros c' x' Hx'. cbn. destruct (decide (c' = c)) as [->|Hne]; [|exists x'; by rewrite lookup_insert_ne].
  exists (f x). rewrite lookup_insert_eq, Hf. split; [done|]. congruence.
Qed.
End quiet.
Create HintDb quiet.
#[export] Hint Resolve qt_upd_elem qt_upd_in qt_upd_out : quiet.
Ltac qt_prim :=
  idtac; lazymatch goal with
  | |- frames _ (upd_conn _ _) _ => apply qt_upd_conn; intros ?; reflexivity
  | |- _ => solve [eauto 3 with quiet]
  end.
Ltac qt_step := gframe_step quiet qt_prim.
Ltac qt := repeat (progress cbn beta iota || qt_step).

Section calls.
Context `{HashOrder} `{QMetaType}.
Implicit Types w : World.
Abbreviation qt := (frames quiet).
Abbreviation nt := (frames tells).

Lemma qt_conn_disconnect c w : qt (conn_disconnect c) w.
Proof. unfold conn_disconnect, out_removeConnection, in_removeConnection. qt. Qed.
Lemma qt_din_setTypeId i t w : qt (din_setTypeId i t) w.
Proof. unfold din_setTypeId. qt. Qed.
Lemma qt_conn_connect c w : qt (conn_connect c) w.
Proof.
  unfold conn_connect, out_acceptsConnectionWith, in_acceptsConnectionWith, out_addConnection, in_setConnection.
  qt. all: apply qt_din_setTypeId.
Qed.

Lemma nt_quiet {A} (m : W A) w : qt m w → nt m w.
Proof. apply quiet_tells. Qed.

(** A message is not about the tables. *)
Lemma nt_emit s w : heard_ok (tables w) s → view_step (tables w) s = tables w → nt (emit s) w.
Proof.
  intros Ho Hs. apply frames_modify. intros Hw. split; [by split|]. exists [s]. split_and!; [done|by constructor|done..].
Qed.

(** A new connection is in the heap under its id; it is in no table yet. *)
Lemma qt_new_PinConnection id o i w : qt (new_PinConnection id o i) w.
Proof.
  unfold frames, new_PinConnection. set (c := fresh_key (w_conns w)). set (x0 := mkConn id (Some o) (Some i) []).
  assert (Hfresh : w_conns w !! c = None) by apply fresh_key_fresh.
  set (w1 := set_conns (insert c x0) w).
  change (quiet w ((try_catch (conn_connect c) (λ e, modify (set_conns (delete c)) ;; throw e) ;; mret c) w1).2).
  assert (H1 : quiet w w1).
  { split; [done..|]. intros c' x Hx. exists x. cbn. rewrite lookup_insert_ne by congruence. done. }
  pose proof (qt_conn_connect c w1) as H2. unfold frames in H2.
  unfold mbind, M_bind, try_catch. destruct (conn_connect c w1) as [[a|e|e] w2]; cbn in *; [by etrans| |by etrans].
  assert (Hw : quiet w w2) by by etrans. destruct Hw as [S T I]. split; [done..|].
  intros c' x Hx. destruct (I c' x Hx) as (x' & Hx' & Hid). exists x'. cbn. rewrite lookup_delete_ne by congruence. done.
Qed.
Lemma new_PinConnection_id id o i w c w' : new_PinConnection id o i w = (Ok c, w') →
  ∃ x, w_conns w' !! c = Some x ∧ pc_id x = id.
Proof.
  unfold new_PinConnection. set (c0 := fresh_key (w_conns w)). set (x0 := mkConn id (Some o) (Some i) []).
  set (w1 := set_conns (insert c0 x0) w). intros Hrun.
  change ((try_catch (conn_connect c0) (λ e, modify (set_conns (delete c0)) ;; throw e) ;; mret c0) w1 = (Ok c, w')) in Hrun.
  pose proof (qt_conn_connect c0 w1) as Hq. unfold frames in Hq.
  unfold mbind, M_bind, try_catch in Hrun. destruct (conn_connect c0 w1) as [[a|e|e] w2]; cbn in *; [|done..]. injection Hrun as <- <-.
  destruct (qt_ids _ _ Hq c0 x0) as (x & Hx & Hid); [apply lookup_insert_eq|]. by exists x.
Qed.

Create HintDb tells.
Ltac nt_prim :=
  idtac; lazymatch goal with
  | |- frames _ (emit _) _ => apply nt_emit; [exact I|reflexivity]
  | |- frames _ (for_each _ _) _ => frame_rule @frames_for_each; intros ? ? ? ?
  | |- _ => solve [eauto 3 with tells]
  end.
Ltac nt_step := gframe_step constr:(tells) nt_prim.
Ltac nt := repeat (progress cbn beta iota || nt_step).

(** ** The editing calls *)
Lemma nt_connectPins o i w : nt (connectPins o i) w.
Proof.
  destruct (scan_map_fresh (connections w)) as [Hfree _]. set (id := scan_ids _ 0) in Hfree.
  pose proof (qt_new_PinConnection id o i w) as Hq. unfold frames in *.
  change (connectPins o i w) with ((c ← new_PinConnection id o i ;
    upd_pipe (λ p, pl_set_connections (<[id := c]> (pl_connections p)) p) ;; emit (connectionAdded id c) ;; mret id) w).
  destruct (new_PinConnection id o i w) as [[c|e|e] w1] eqn:Hnew; cbn [snd] in Hq;
    [erewrite run_bind by exact Hnew|by erewrite run_bind_throw by exact Hnew; apply quiet_tells..
    |by erewrite run_bind_abort by exact Hnew; apply quiet_tells].
  destruct (new_PinConnection_id _ _ _ _ _ _ Hnew) as (x & Hx & Hid).
  intros Hw. destruct (quiet_kept _ _ Hq Hw) as [Hw1 Hkeep]. destruct Hq as [Hs Ht _]. split.
  - split; [|exact Hkeep]. intros k c' Hk. change (<[id:=c]> (connections w1) !! k = Some c') in Hk.
    apply lookup_insert_Some in Hk as [[<- <-]|[_ Hk]]; [by exists x|by apply Hw1].
  - exists [connectionAdded id c]. split; [by rewrite <-Hs|]. split; [by constructor|]. split; [by split|]. rewrite <-Ht. done.
Qed.

(** Cutting connections leaves the children. *)
Definition cuts_told (w w' : World) : Prop := children w' = children w ∧ tells_by removal w w'.
#[local] Instance cuts_told_preorder : PreOrder cuts_told.
Proof.
  split; [split; reflexivity|]. intros w1 w2 w3 [C1 T1] [C2 T2]. split; [congruence|by etrans].
Qed.
Lemma quiet_cuts w w' : quiet w w' → cuts_told w w'.
Proof. intros Hq. split; [by injection (qt_tables _ _ Hq)|by apply quiet_tells]. Qed.
Lemma ct_threadUnsafeDisconnect id w : frames cuts_told (threadUnsafeDisconnect id) w.
Proof.
  unfold threadUnsafeDisconnect. apply (gframes_pipe cuts_told).
  destruct (pl_connections (w_pipe w) !! id) as [c|] eqn:Hk; [|unfold frames; reflexivity].
  pose proof (qt_conn_disconnect c w) as Hq. unfold frames in *.
  destruct (conn_disconnect c w) as [[[]|e|e] w1] eqn:Hrun; cbn [snd] in Hq;
    [erewrite run_bind by exact Hrun|by erewrite run_bind_throw by exact Hrun; apply quiet_cuts..
    |by erewrite run_bind_abort by exact Hrun; apply quiet_cuts].
  assert (Hch : children w1 = children w) by (by injection (qt_tables _ _ Hq)).
  assert (Hco : connections w1 = connections w) by (by injection (qt_tables _ _ Hq)).
  enough (Hstep : ids_known w → ∃ x, w_conns w1 !! c = Some x ∧ pc_id x = id).
  { split.
    - run. lazymatch goal with |- context [get_conn c ≫= _] => unfold get_conn end.
      edestruct (deref_cases w_conns c) as [(x & _ & Hd)|Hd];
        [erewrite run_bind by exact Hd|rewrite (run_bind_abort _ _ _ _ _ Hd)]; exact Hch.
    - intros Hw. destruct (Hstep Hw) as (x & Hx & Hid). destruct (quiet_kept _ _ Hq Hw) as [Hw1 Hkeep].
      run. erewrite run_bind by (by apply run_get_conn). rewrite Hid. cbn. split.
      + split; [|exact Hkeep]. intros k c' Hk'. change (delete id (connections w1) !! k = Some c') in Hk'.
        apply lookup_delete_Some in Hk' as [_ Hk']. by apply Hw1.
      + exists [connectionRemoved id c]. split; [cbn; by rewrite (qt_signals _ _ Hq)|].
        split; [by constructor|]. split; [by split|].
        unfold replay, tables. cbn. by rewrite Hch, Hco. }
  intros Hw. destruct (quiet_ids _ _ Hq Hw id c) as (x & Hx & Hid); [by rewrite Hco|]. by exists x.
Qed.
Lemma nt_threadUnsafeDisconnect id w : nt (threadUnsafeDisconnect id) w.
Proof. eapply tells_weaken, ct_threadUnsafeDisconnect. Qed.

Ltac ct_prim :=
  idtac; lazymatch goal with
  | |- frames _ (for_each _ _) _ => frame_rule @frames_for_each; intros ? ? ? ?
  | |- frames _ (threadUnsafeDisconnect _) _ => apply ct_threadUnsafeDisconnect
  | |- frames _ (non_null ?p) _ => destruct p; unfold frames; cbn; reflexivity
  end.
Ltac ct := repeat (progress cbn beta iota || gframe_step cuts_told ct_prim).
Lemma ct_removeConnectionsForElement e w : frames cuts_told (removeConnectionsForElement e) w.
Proof. unfold removeConnectionsForElement, disconnect_input, disconnect_ptr, out_getConnections, in_getConnection. ct. Qed.

Lemma nt_get_elem e w : nt (get_elem e) w.
Proof. apply (gframes_deref_only tells). Qed.
Lemma nt_upd_elem e f w : nt (upd_elem e f) w.
Proof. apply nt_quiet, qt_upd_elem. Qed.
#[local] Hint Resolve nt_get_elem nt_upd_elem : tells.

(** The tables change and the signal says how. *)
Lemma tells_announced (P : Signal → Prop) s w w' : P s → w_signals w' = w_signals w ++ [s] → w_conns w' = w_conns w →
  connections w' = connections w → heard_ok (tables w) s → view_step (tables w) s = tables w' → tells_by P w w'.
Proof.
  intros Hp Hs Hh Hc Ho Ht Hw. split; [split; [intros k c Hk; rewrite Hh; apply Hw; congruence|by rewrite Hh]|].
  exists [s]. split_and!; [done|by constructor|by split|done].
Qed.
Lemma nt_addElement e w : nt (addElement e) w.
Proof.
  unfold addElement, canAddElement, getNewPipelineElementId, el_setId. do 3 nt_step; [nt|nt|].
  nt_step; [nt|]. nt_step; [nt|].
  lazymatch goal with |- frames _ _ ?s => destruct (el_kind x); by eapply (tells_announced _ (elementAdded _ e) s) end.
Qed.
Lemma forget_kind_tables id p : pl_children (forget_kind id p) = pl_children p ∧ pl_connections (forget_kind id p) = pl_connections p.
Proof. unfold forget_kind. by repeat case_bool_decide. Qed.
Lemma removals_removeElement id w : frames (tells_by removal) (removeElement id) w.
Proof.
  unfold removeElement. apply (gframes_pipe (tells_by removal)).
  destruct (pl_children (w_pipe w) !! id) as [e|] eqn:He; [|unfold frames; reflexivity].
  pose proof (ct_removeConnectionsForElement e w) as Hcut.
  frame_rule @frames_bind; [apply Hcut|]. intros [] w1 Hrun _. unfold frames in Hcut. rewrite Hrun in Hcut.
  destruct Hcut as [Hkeep _]. cbn in Hkeep.
  destruct (forget_kind_tables id (pl_set_children (delete id (children w1)) (w_pipe w1))) as [Hch Hco].
  apply (tells_announced removal (elementRemoved id e)); [done|done|done|exact Hco|cbn; by rewrite Hkeep|].
  transitivity (delete id (children w1), connections w1); [done|]. apply f_equal2; symmetry; [exact Hch|exact Hco].
Qed.
Lemma nt_removeElement id w : nt (removeElement id) w.
Proof. eapply tells_weaken, removals_removeElement. Qed.
Lemma removals_disconnect id w : frames (tells_by removal) (pinConnectionDisconnect id) w.
Proof. apply ct_threadUnsafeDisconnect. Qed.

(** ** Sessions of editing *)
Inductive Edit :=
  | EditAdd (e : eptr)
  | EditRemove (id : Z)
  | EditConnect (o : optr) (i : iptr)
  | EditDisconnect (id : Z).
Definition edit (a : Edit) : W unit :=
  match a with
  | EditAdd e => addElement e ;; mret tt
  | EditRemove id => removeElement id
  | EditConnect o i => connectPins o i ;; mret tt
  | EditDisconnect id => pinConnectionDisconnect id
  end.
(** An exception ends one call, not the session. *)
Fixpoint session (l : list Edit) (w : World) : World :=
  match l with [] => w | a :: l => session l (edit a w).2 end.

Lemma nt_edit a w : nt (edit a) w.
Proof.
  destruct a; cbn; [|apply nt_removeElement| |apply nt_threadUnsafeDisconnect].
  - frame_rule @frames_bind; [apply nt_addElement|]. intros. nt.
  - frame_rule @frames_bind; [apply nt_connectPins|]. intros. nt.
Qed.
Lemma tells_session l : ∀ w, tells w (session l w).
Proof. induction l as [|a l IH]; intros w; cbn; [reflexivity|]. etrans; [apply nt_edit|apply IH]. Qed.

(** ** Clearing *)
Lemma replay_cut l v : replay (cut_signals l) v = (v.1, foldl (λ m kc, delete kc.1 m) v.2 l).
Proof. revert v. induction l as [|[k c] l IH]; intros v; cbn; [by destruct v|]. unfold replay in IH. by rewrite IH. Qed.
Lemma replay_gone l v : replay (gone_signals l) v = (foldl (λ m ke, delete ke.1 m) v.1 l, v.2).
Proof. revert v. induction l as [|[k c] l IH]; intros v; cbn; [by destruct v|]. unfold replay in IH. by rewrite IH. Qed.
Lemma told_ok_cut l : ∀ v, NoDup l.*1 → (∀ k c, (k, c) ∈ l → v.2 !! k = Some c) → told_ok v (cut_signals l).
Proof.
  induction l as [|[k c] l IH]; intros v Hnd Hl; cbn; [done|]. cbn in Hnd. apply NoDup_cons in Hnd as [Hk Hnd].
  split; [apply Hl; set_solver|]. apply IH; [done|]. intros k' c' Hin. cbn. rewrite lookup_delete_ne; [apply Hl; set_solver|].
  intros ->. apply Hk. by apply (list_elem_of_fmap_2 fst _ (k', c')).
Qed.
Lemma told_ok_gone l : ∀ v, NoDup l.*1 → (∀ k e, (k, e) ∈ l → v.1 !! k = Some e) → told_ok v (gone_signals l).
Proof.
  induction l as [|[k e] l IH]; intros v Hnd Hl; cbn; [done|]. cbn in Hnd. apply NoDup_cons in Hnd as [Hk Hnd].
  split; [apply Hl; set_solver|]. apply IH; [done|]. intros k' e' Hin. cbn. rewrite lookup_delete_ne; [apply Hl; set_solver|].
  intros ->. apply Hk. by apply (list_elem_of_fmap_2 fst _ (k', e')).
Qed.
Lemma delete_all {A} (l : list (Z * A)) : ∀ m : gmap Z A, (∀ k, is_Some (m !! k) → k ∈ l.*1) →
  foldl (λ m kc, delete kc.1 m) m l = ∅.
Proof.
  induction l as [|[k a] l IH]; intros m Hm; cbn.
  - apply map_eq. intros k. rewrite lookup_empty. apply eq_None_not_Some. intros Hk%Hm. by apply elem_of_nil in Hk.
  - apply IH. intros k' [a' [Hne Ha]%lookup_delete_Some]. cbn in Hm.
    destruct (proj1 (elem_of_cons _ _ _) (Hm k' (mk_is_Some _ _ Ha))); [by subst|done].
Qed.
Lemma delete_items {A} (m : gmap Z A) : foldl (λ m kc, delete kc.1 m) m (qmap_items m) = ∅.
Proof. apply delete_all. intros k [a Hk]. apply list_elem_of_fmap. exists (k, a). split; [done|]. by apply elem_of_qmap_items. Qed.
Lemma clear_tells w : graph_wf w → pl_running (w_pipe w) = false →
  ∃ told w', clear w = (Ok tt, w') ∧ w_signals w' = w_signals w ++ told ∧
    told_ok (tables w) told ∧ replay told (tables w) = tables w' ∧ tables w' = (∅, ∅).
Proof.
  intros Hwf Hrun. destruct (run_clear w Hwf Hrun) as (w' & Hc & _ & Hch & Hco & Hs).
  eexists _, w'. split_and!; [exact Hc|exact Hs| | |unfold tables; by rewrite Hch, Hco].
  { rewrite told_ok_app, replay_cut. split.
    - apply told_ok_cut; [apply NoDup_qmap_keys|]. intros k c Hk. by apply elem_of_qmap_items.
    - apply told_ok_gone; [apply NoDup_qmap_keys|]. intros k e Hk. by apply elem_of_qmap_items. }
  rewrite replay_app, replay_cut, replay_gone. cbn. unfold tables. cbn. by rewrite !delete_items, Hch, Hco.
Qed.

(** C23: a listener that starts in step with the pipeline and follows its
    signals stays in step, whatever elements are added and removed and
    whatever pins are connected and disconnected, in any order and also when
    calls end in an exception: every removal it is told of names an element
    or a connection it knows under that id, every new connection an id that
    is free, and what it was told, replayed, gives the tables of the pipeline.
    On a well-formed stopped pipeline this includes [clear], which announces
    every connection and every element it drops although it never takes the
    connections out of the table one by one. *)
Theorem listeners_in_step w l : graph_wf w →
  (∃ told, w_signals (session l w) = w_signals w ++ told ∧ told_ok (tables w) told ∧
    replay told (tables w) = tables (session l w)) ∧
  (pl_running (w_pipe w) = false → ∃ told w', clear w = (Ok tt, w') ∧ w_signals w' = w_signals w ++ told ∧
    told_ok (tables w) told ∧ replay told (tables w) = tables w' ∧ tables w' = (∅, ∅)).
Proof.
  intros Hwf. split; [|by apply clear_tells].
  destruct (tells_session l w (wf_ids_known w Hwf)) as (_ & told & Hs & _ & Ho & Hr). by exists told.
Qed.
End calls.
