(* ===== verification/Scheduler.v ===== *)
(** The scheduler: the invariant that ties element states, the run queue, the
    pool's jobs and their futures together while the pipeline runs, and that
    workers and every part of [schedule] keep it. *)
From S2P Require Export Frame GraphConnect.

Abbreviation runQueue w := (pl_runQueue (w_pipe w)).
Abbreviation readyQueue w := (pl_readyQueue (w_pipe w)).

(** ** The invariant of a running pipeline *)

(** A run item whose job has not been taken up yet ... *)
Definition pending (w : World) (it : RunItem) : Prop :=
  w_jobs w !! ri_result it = Some (ri_element it, ri_serial it) ∧
  w_futures w !! ri_result it = None ∧ state_of w (ri_element it) = Some PLE_DISPATCHED.
(** ... and one whose job has returned. *)
Definition settled (w : World) (it : RunItem) : Prop :=
  w_jobs w !! ri_result it = None ∧ is_Some (w_futures w !! ri_result it) ∧
  (state_of w (ri_element it) = Some PLE_DONE ∨ state_of w (ri_element it) = Some PLE_ERROR).

Record running_inv (w : World) : Prop := {
  rn_wf : graph_wf w;
  rn_running : pl_running (w_pipe w) = true;
  rn_items : ∀ id it, runQueue w !! id = Some it →
    children w !! id = Some (ri_element it) ∧ ri_dispatched it = true ∧ (pending w it ∨ settled w it);
  rn_idle : ∀ id e, children w !! id = Some e → runQueue w !! id = None →
    state_of w e = Some PLE_STARTED;
  rn_distinct : ∀ id1 id2 it1 it2, runQueue w !! id1 = Some it1 → runQueue w !! id2 = Some it2 →
    ri_result it1 = ri_result it2 → id1 = id2;
  rn_jobs : ∀ f e s, w_jobs w !! f = Some (e, s) →
    ∃ id it, runQueue w !! id = Some it ∧ ri_result it = f;
  rn_ready : ∀ k l, readyQueue w !! k = Some l → Forall (ready_item w k) l
}.

(** Two children under different ids are different elements. *)


Section updates.
Implicit Types w : World.

Lemma state_of_insert w e x s e' : w_elems w !! e = Some x →
  state_of (set_elems (insert e (el_set_state s x)) w) e' =
    if bool_decide (e' = e) then Some s else state_of w e'.
Proof.
  intros Hx. unfold state_of. cbn. case_bool_decide as E; subst.
  - by rewrite lookup_insert_eq.
  - by rewrite lookup_insert_ne.
Qed.

(** ** An item leaves the run queue *)

Definition release (w : World) (id : Z) (e : eptr) (x : Element) : World :=
  set_pipe (λ p, pl_set_runQueue (delete id (pl_runQueue p)) p)
    (set_elems (insert e (el_set_state PLE_STARTED x)) w).

Lemma release_graph w id e x : w_elems w !! e = Some x → same_graph w (release w id e x).
Proof.
  intros Hx. unfold same_graph, skeleton, release. cbn. f_equal.
  symmetry. by eapply insert_skeleton.
Qed.

Lemma release_inv w id it x : running_inv w → runQueue w !! id = Some it → settled w it →
  w_elems w !! ri_element it = Some x → running_inv (release w id (ri_element it) x).
Proof.
  intros Hinv Hit (Hj & Hf & _) Hx. destruct (rn_items _ Hinv _ _ Hit) as (Hch & _ & _).
  assert (Hother : ∀ id' e', children w !! id' = Some e' → id' ≠ id → e' ≠ ri_element it).
  { intros id' e' Hc Hne ->. apply Hne. by eapply child_id_unique; [apply Hinv|..]. }
  split.
  - rewrite <-(release_graph w id _ x Hx). apply Hinv.
  - apply Hinv.
  - intros id' it'. cbn. intros [Hne Hit']%lookup_delete_Some.
    destruct (rn_items _ Hinv _ _ Hit') as (Hch' & Hd & Hstate).
    split_and!; [done|done|]. assert (ri_element it' ≠ ri_element it) by (by eapply Hother).
    unfold pending, settled, release. cbn.
    change (state_of (set_pipe _ _) ?e) with (state_of (set_elems (insert (ri_element it) (el_set_state PLE_STARTED x)) w) e).
    rewrite (state_of_insert _ _ _ _ _ Hx), bool_decide_false by done. apply Hstate.
  - intros id' e'. cbn. intros Hc Hnone.
    change (state_of (release w id (ri_element it) x) e')
      with (state_of (set_elems (insert (ri_element it) (el_set_state PLE_STARTED x)) w) e').
    rewrite (state_of_insert _ _ _ _ _ Hx). case_bool_decide as E; [done|].
    apply (rn_idle _ Hinv id'); [done|]. apply lookup_delete_None in Hnone as [->|]; [|done]. congruence.
  - intros id1 id2 it1 it2. cbn. intros [_ H1]%lookup_delete_Some [_ H2]%lookup_delete_Some.
    by eapply rn_distinct.
  - intros f e s. cbn. intros Hjob. destruct (rn_jobs _ Hinv _ _ _ Hjob) as (id' & it' & Hit' & Hr).
    exists id', it'. split; [|done]. apply lookup_delete_Some. split; [|done].
    intros ->. simplify_eq.
  - apply Hinv.
Qed.

(** ** An item enters it *)

Definition fresh_future (w : World) : positive :=
  Pos.max (fresh_key (w_jobs w)) (fresh_key (w_futures w)).

Lemma fresh_key_above {A} (m : gmap positive A) k : (fresh_key m ≤ k)%positive → m !! k = None.
Proof.
  intros Hk. apply eq_None_not_Some. intros Hs. apply fresh_key_lt in Hs. lia.
Qed.
Lemma fresh_future_jobs w : w_jobs w !! fresh_future w = None.
Proof. apply fresh_key_above. unfold fresh_future. lia. Qed.
Lemma fresh_future_futures w : w_futures w !! fresh_future w = None.
Proof. apply fresh_key_above. unfold fresh_future. lia. Qed.

Definition dispatched_item (w : World) (e : eptr) (serial : Z) : RunItem :=
  mkRunItem e serial true (fresh_future w).
(** The heap after [dispatch]. *)
Definition after_dispatch (w : World) (e : eptr) (x : Element) (serial : Z) : World :=
  set_jobs (<[fresh_future w := (e, serial)]> (w_jobs w)) (w_futures w)
    (set_elems (insert e (el_set_state PLE_DISPATCHED x)) w).
Definition enqueue (id : Z) (it : RunItem) (w : World) : World :=
  set_pipe (λ p, pl_set_runQueue (<[id := it]> (pl_runQueue p)) p) w.

Lemma run_dispatch w it x : w_elems w !! ri_element it = Some x → el_state x = PLE_STARTED →
  ri_dispatched it = false →
  dispatch it w = (Ok (dispatched_item w (ri_element it) (ri_serial it)),
                   after_dispatch w (ri_element it) x (ri_serial it)).
Proof.
  intros Hx Hs Hd. unfold dispatch, el_getState.
  erewrite run_bind by (run; reflexivity). rewrite Hs. run. rewrite Hd. run.
  erewrite run_bind by (by apply run_set_state). unfold concurrent_run.
  erewrite run_bind by (run; run; run; reflexivity). reflexivity.
Qed.

Lemma enqueue_inv w id e x serial : running_inv w → children w !! id = Some e →
  runQueue w !! id = None → w_elems w !! e = Some x →
  running_inv (enqueue id (dispatched_item w e serial) (after_dispatch w e x serial)).
Proof.
  intros Hinv Hch Hnone Hx. set (f := fresh_future w).
  assert (Hstate : ∀ e', state_of (enqueue id (dispatched_item w e serial) (after_dispatch w e x serial)) e' =
    if bool_decide (e' = e) then Some PLE_DISPATCHED else state_of w e').
  { intros e'. apply (state_of_insert w e x PLE_DISPATCHED e' Hx). }
  assert (Hold : ∀ id' it', runQueue w !! id' = Some it' → id' ≠ id ∧ ri_element it' ≠ e ∧ ri_result it' ≠ f).
  { intros id' it' Hit'. destruct (rn_items _ Hinv _ _ Hit') as (Hc & _ & Hcase).
    assert (id' ≠ id) as Hne by congruence. split_and!; [done| |].
    - intros He. apply Hne. rewrite He in Hc. by eapply child_id_unique; [apply Hinv|..].
    - intros Hr. destruct Hcase as [(Hj & _)|(_ & [b Hf] & _)]; rewrite Hr in *; unfold f in *.
      + by rewrite fresh_future_jobs in Hj.
      + by rewrite fresh_future_futures in Hf. }
  split.
  - apply (graph_wf_same w); [|apply Hinv].
    unfold same_graph, skeleton. cbn. f_equal. symmetry. by eapply insert_skeleton.
  - apply Hinv.
  - intros id' it'. cbn. intros [[<- <-]|[Hne Hit']]%lookup_insert_Some.
    + split_and!; [done|done|]. left. unfold pending. rewrite Hstate. cbn.
      rewrite lookup_insert_eq, bool_decide_true by done. split_and!; [done|apply fresh_future_futures|done].
    + destruct (rn_items _ Hinv _ _ Hit') as (Hc & Hd & Hcase). destruct (Hold _ _ Hit') as (_ & He & Hr).
      split_and!; [done|done|]. unfold pending, settled. rewrite Hstate, bool_decide_false by done. cbn.
      by rewrite lookup_insert_ne by (by apply not_eq_sym).
  - intros id' e'. cbn. intros Hc [Hn Hne]%lookup_insert_None. rewrite Hstate.
    rewrite bool_decide_false; [by eapply rn_idle|]. intros ->. apply Hne. by eapply child_id_unique; [apply Hinv|..].
  - intros id1 id2 it1 it2. cbn.
    intros [[<- <-]|[Hne1 H1]]%lookup_insert_Some [[<- <-]|[Hne2 H2]]%lookup_insert_Some Hr; cbn in Hr.
    + done.
    + destruct (Hold _ _ H2) as (_ & _ & Hf). by symmetry in Hr.
    + by destruct (Hold _ _ H1) as (_ & _ & Hf).
    + by eapply rn_distinct.
  - intros f' e' s'. cbn. intros [[<- Heq]|[Hne Hj]]%lookup_insert_Some.
    + eexists id, _. by rewrite lookup_insert_eq.
    + destruct (rn_jobs _ Hinv _ _ _ Hj) as (id' & it' & Hit' & Hr). exists id', it'.
      rewrite lookup_insert_ne; [done|]. by apply not_eq_sym, (Hold _ _ Hit').
  - apply Hinv.
Qed.
End updates.

(** ** A worker's step *)
Section job.
Context `{HashOrder}.

Lemma works_as_pipe_fields P w w' : works_as P w w' →
  runQueue w' = runQueue w ∧ pl_running (w_pipe w') = pl_running (w_pipe w) ∧
  children w' = children w ∧ pl_testCount (w_pipe w') = pl_testCount (w_pipe w).
Proof. intros Hw. rewrite (wa_pipe _ _ _ Hw). done. Qed.

Lemma ready_works P w w' : works_as P w w' →
  (∀ k l, readyQueue w !! k = Some l → Forall (ready_item w k) l) →
  ∀ k l, readyQueue w' !! k = Some l → Forall (ready_item w' k) l.
Proof.
  intros Hw Hready k l Hl. pose proof (wa_ready _ _ _ Hw k) as Hgrow. rewrite Hl in Hgrow.
  inversion Hgrow as [l0 l' (new & -> & Hnew) E1 E2|]; subst.
  apply (Forall_impl (ready_item w k)); [apply Forall_app; split; [by eapply Hready|done]|].
  intros it [Hd Hc]. split; [done|]. by rewrite (same_children _ _ (wa_graph _ _ _ Hw)).
Qed.

Lemma graph_wf_jobs w js fs : graph_wf w → graph_wf (set_jobs js fs w).
Proof. by apply graph_wf_same. Qed.

(** A worker that executes a job keeps the invariant, whatever the plugin
    code does. *)
Lemma run_job_inv w f body w' : running_inv w → run_job f body w = (Ok tt, w') → running_inv w'.
Proof.
  intros Hinv Hrun. unfold run_job in Hrun.
  do 2 (apply bind_ok in Hrun as (? & ? & Hg & Hrun); injection Hg as <- <-).
  destruct (w_jobs w !! f) as [[e serial]|] eqn:Hjob; [|by injection Hrun as <-].
  apply bind_ok in Hrun as ([] & w1 & Hm & Hrun). injection Hm as <-.
  apply bind_ok in Hrun as (b & w2 & Hel & Hrun).
  do 2 (apply bind_ok in Hrun as (? & ? & Hg & Hrun); injection Hg as <- <-).
  injection Hrun as <-.
  destruct (rn_jobs _ Hinv _ _ _ Hjob) as (id & it & Hit & Hres).
  destruct (rn_items _ Hinv _ _ Hit) as (Hch & _ & Hcase).
  destruct Hcase as [(Hj & Hnf & _)|(Hj & _)]; [|congruence]. rewrite Hres, Hjob in Hj.
  injection Hj as -> ->. rewrite Hres in Hnf.
  pose proof (frames_el_run (λ e0, e0 = ri_element it) body (ri_element it) (ri_serial it) (set_jobs (delete f (w_jobs w)) (w_futures w) w)) as Hw.
  unfold frames in Hw. rewrite Hel in Hw. cbn in Hw. specialize (Hw (graph_wf_jobs _ _ _ (rn_wf _ Hinv)) eq_refl).
  apply el_run_settled in Hel.
  destruct (works_as_pipe_fields _ _ _ Hw) as (Hrq & Hrunning & Hchild & _). cbn in Hrq, Hrunning, Hchild.
  assert (Hother : ∀ id' it', runQueue w !! id' = Some it' → id' ≠ id →
    ri_element it' ≠ ri_element it ∧ ri_result it' ≠ f).
  { intros id' it' Hit' Hne. destruct (rn_items _ Hinv _ _ Hit') as (Hc & _). split.
    - intros He. rewrite He in Hc. apply Hne. by eapply child_id_unique; [apply Hinv|..].
    - intros Hr. apply Hne. eapply rn_distinct; [exact Hinv|exact Hit'|exact Hit|congruence]. }
  split.
  - apply graph_wf_jobs. eapply wf_works; [exact Hw|]. by apply graph_wf_jobs, Hinv.
  - cbn. rewrite Hrunning. apply Hinv.
  - intros id' it'. cbn. rewrite Hrq, Hchild. intros Hit'.
    destruct (rn_items _ Hinv _ _ Hit') as (Hc & Hd & Hcase). split_and!; [done|done|].
    destruct (decide (id' = id)) as [->|Hne].
    + assert (it' = it) as -> by congruence. right. unfold settled. cbn. rewrite (wa_jobs _ _ _ Hw). cbn.
      rewrite Hres, lookup_delete_eq, lookup_insert_eq. split_and!; [done|by eexists|exact Hel].
    + destruct (Hother _ _ Hit' Hne) as [He Hr]. unfold pending, settled. cbn.
      rewrite (wa_jobs _ _ _ Hw), (wa_futures _ _ _ Hw). cbn.
      rewrite lookup_delete_ne, lookup_insert_ne by (by apply not_eq_sym).
      change (state_of (set_jobs _ _ w2) (ri_element it')) with (state_of w2 (ri_element it')).
      by rewrite (wa_state _ _ _ Hw).
  - intros id' e'. cbn. rewrite Hrq, Hchild. intros Hc Hn.
    change (state_of (set_jobs _ _ w2) e') with (state_of w2 e').
    rewrite (wa_state _ _ _ Hw); [by eapply (rn_idle _ Hinv)|].
    intros ->. assert (id' = id) as -> by (by eapply child_id_unique; [apply Hinv|..]). congruence.
  - intros id1 id2 it1 it2. cbn. rewrite Hrq. apply (rn_distinct _ Hinv).
  - intros f' e' s'. cbn. rewrite Hrq, (wa_jobs _ _ _ Hw). cbn.
    intros [_ Hj]%lookup_delete_Some. by eapply (rn_jobs _ Hinv).
  - apply (ready_works _ _ _ Hw). cbn. apply Hinv.
Qed.
End job.

(** ** The parts of [schedule] *)

(** What the scheduler itself changes: element states, the two queues, and the
    pool. *)
Record schedules (w w' : World) : Prop := {
  sc_graph : same_graph w w';
  sc_pipe : w_pipe w' = pl_set_runQueue (runQueue w') (pl_set_readyQueue (readyQueue w') (w_pipe w))
}.
#[export] Instance schedules_preorder : PreOrder schedules.
Proof.
  split.
  - intros w. split; [reflexivity|]. by destruct w as [? ? ? ? [] ? ? ?].
  - intros w1 w2 w3 [G1 P1] [G2 P2]. split; [by etrans|]. by rewrite P2, P1.
Qed.

Section collecting.
Context `{HashOrder}.

Lemma item_element w id it : running_inv w → runQueue w !! id = Some it →
  ∃ x, w_elems w !! ri_element it = Some x ∧ el_id x = id.
Proof.
  intros Hinv Hit. destruct (rn_items _ Hinv _ _ Hit) as (Hc & _).
  destruct (wf_children _ (rn_wf _ Hinv) _ _ Hc) as (x & ? & ? & _). eauto.
Qed.

Lemma run_collect_loop w l : running_inv w → NoDup l.*1 →
  (∀ id it, (id, it) ∈ l → runQueue w !! id = Some it) →
  ∃ r w', for_return l (λ '(id, item),
    assert (ri_dispatched item) ;;
    fs ← gets w_futures ;
    match fs !! ri_result item with
    | None => mret None
    | Some true =>
        el_setState (ri_element item) PLE_STARTED ;;
        upd_pipe (λ p, pl_set_runQueue (delete id (pl_runQueue p)) p) ;;
        mret None
    | Some false =>
        x ← get_elem (ri_element item) ;
        mret (Some ("Pipeline stopped because of an error in " +:+ el_name x +:+
          ". The error is " +:+ el_errorString x))
    end) w = (Ok r, w') ∧ running_inv w' ∧ schedules w w' ∧ w_jobs w' = w_jobs w ∧
    (r = None ↔ ∀ id it, (id, it) ∈ l → w_futures w !! ri_result it ≠ Some false).
Proof.
  revert w. induction l as [|[id it] l IH]; intros w Hinv Hnd Hl; cbn [for_return].
  { exists None, w. split_and!; [done..|]. split; [set_solver|done]. }
  cbn in Hnd. apply NoDup_cons in Hnd as [Hid Hnd].
  assert (Hit : runQueue w !! id = Some it) by (apply Hl; set_solver).
  destruct (rn_items _ Hinv _ _ Hit) as (Hc & Hd & Hcase). rewrite Hd.
  destruct (item_element w id it Hinv Hit) as (x & Hx & _).
  destruct (w_futures w !! ri_result it) as [[]|] eqn:Hf.
  - assert (Hset : settled w it) by (destruct Hcase as [(_ & Hn & _)|]; [congruence|done]).
    erewrite run_bind by (run; run; rewrite Hf; erewrite run_bind by (by apply run_set_state);
      run; reflexivity).
    destruct (IH (release w id (ri_element it) x)) as (r & w' & Hrun & Hinv' & Hsc & Hj & Hr).
    + by apply release_inv.
    + done.
    + intros id' it' Hin. cbn. rewrite lookup_delete_ne; [apply Hl; set_solver|].
      intros <-. apply Hid. apply list_elem_of_fmap. by exists (id, it').
    + exists r, w'. split_and!; [exact Hrun|done| |exact Hj|].
      * etrans; [|exact Hsc]. split; [by apply release_graph|]. by destruct w as [? ? ? ? [] ? ? ?].
      * rewrite Hr. cbn. split; intros Hall id' it' Hin; [|apply (Hall id'); set_solver].
        apply elem_of_cons in Hin as [[= -> ->]|Hin]; [by rewrite Hf|by apply (Hall id')].
  - erewrite run_bind by (run; run; rewrite Hf; run; reflexivity).
    eexists _, w. split_and!; [done..|]. split; [done|]. intros Hall. destruct (Hall id it); [set_solver|done].
  - erewrite run_bind by (run; run; rewrite Hf; reflexivity).
    destruct (IH w) as (r & w' & Hrun & Hinv' & Hsc & Hj & Hr); [done|done|intros id' it' Hin; apply Hl; set_solver|].
    exists r, w'. split_and!; [exact Hrun|done..|]. rewrite Hr.
    split; intros Hall id' it' Hin; [|apply (Hall id'); set_solver].
    apply elem_of_cons in Hin as [[= -> ->]|Hin]; [by rewrite Hf|by apply (Hall id')].
Qed.

Lemma run_collect w : running_inv w →
  ∃ r w', collect w = (Ok r, w') ∧ running_inv w' ∧ schedules w w' ∧ w_jobs w' = w_jobs w ∧
    (r = None ↔ ∀ id it, runQueue w !! id = Some it → w_futures w !! ri_result it ≠ Some false).
Proof.
  intros Hinv. unfold collect. run.
  destruct (run_collect_loop w (hash_items (runQueue w)) Hinv) as (r & w' & Hrun & Hinv' & Hsc & Hj & Hr).
  - apply NoDup_hash_keys.
  - intros id it. by rewrite elem_of_hash_items.
  - exists r, w'. split_and!; [done..|]. rewrite Hr. split; intros Hall id it Hin; apply (Hall id);
      by apply elem_of_hash_items.
Qed.

(** ** Dispatching *)

(** Child [k] is busy or has nothing to do. *)
Definition attended (w : World) (k : Z) : Prop :=
  ∀ it rest, readyQueue w !! k = Some (it :: rest) → is_Some (runQueue w !! k).

Lemma enqueue_schedules w id e x serial : w_elems w !! e = Some x →
  schedules w (enqueue id (dispatched_item w e serial) (after_dispatch w e x serial)).
Proof.
  intros Hx. split.
  - unfold same_graph, skeleton. cbn. f_equal. symmetry. by eapply insert_skeleton.
  - by destruct w as [? ? ? ? [] ? ? ?].
Qed.

(** An idle child can be dispatched: the assertions hold. *)
Lemma idle_element w k e : running_inv w → children w !! k = Some e → runQueue w !! k = None →
  ∃ x, w_elems w !! e = Some x ∧ el_state x = PLE_STARTED ∧ el_id x = k.
Proof.
  intros Hinv Hc Hn. destruct (wf_children _ (rn_wf _ Hinv) _ _ Hc) as (x & Hx & Hid & _).
  exists x. pose proof (rn_idle _ Hinv _ _ Hc Hn) as Hs. unfold state_of in Hs. rewrite Hx in Hs.
  split_and!; [done|by injection Hs|done].
Qed.

Lemma pop_ready_inv w k it rest : running_inv w → readyQueue w !! k = Some (it :: rest) →
  running_inv (set_pipe (λ p, pl_set_readyQueue (<[k := rest]> (pl_readyQueue p)) p) w).
Proof.
  intros Hinv Hk. split; try apply Hinv.
  - apply (graph_wf_same w); [done|apply Hinv].
  - intros k' l'. cbn. intros [[<- <-]|[Hne Hl]]%lookup_insert_Some; [|by apply (rn_ready _ Hinv)].
    pose proof (rn_ready _ Hinv _ _ Hk) as Hall. by inversion Hall.
Qed.

Lemma run_dispatch_first w k : running_inv w →
  ∃ w', dispatch_first k w = (Ok tt, w') ∧ running_inv w' ∧ schedules w w' ∧
    attended w' k ∧ (∀ k', attended w k' → attended w' k').
Proof.
  intros Hinv. unfold dispatch_first. run.
  destruct (readyQueue w !! k) as [[|it rest]|] eqn:Hk;
    [exists w; split_and!; [done|done|done| |done]; intros ? ? ?; congruence| |
     exists w; split_and!; [done|done|done| |done]; intros ? ? ?; congruence].
  pose proof (rn_ready _ Hinv _ _ Hk) as Hall. inversion Hall as [|? ? [Hd Hc] Hrest]; subst.
  destruct (wf_children _ (rn_wf _ Hinv) _ _ Hc) as (x & Hx & Hid & _).
  run. rewrite Hid. destruct (runQueue w !! k) as [it'|] eqn:Hrq.
  { rewrite bool_decide_false by done. exists w. split_and!; [done|done|done| |done].
    intros ? ? _. by rewrite Hrq. }
  rewrite bool_decide_true by done.
  destruct (idle_element w k _ Hinv Hc Hrq) as (x' & Hx' & Hs & _). assert (x' = x) as -> by congruence.
  rewrite Hs. run. erewrite run_bind by (by apply run_dispatch).
  run. eexists. split; [reflexivity|].
  pose proof (enqueue_inv w k _ x (ri_serial it) Hinv Hc Hrq Hx) as Hinv1.
  split_and!.
  - eapply pop_ready_inv; [exact Hinv1|exact Hk].
  - etrans; [by apply (enqueue_schedules w k (ri_element it) x (ri_serial it))|].
    split; [done|]. by destruct w as [? ? ? ? [] ? ? ?].
  - intros ? ? _. cbn. rewrite lookup_insert_eq. eauto.
  - intros k' Hatt i' r'. cbn. destruct (decide (k' = k)) as [->|Hne].
    + rewrite !lookup_insert_eq. eauto.
    + rewrite !lookup_insert_ne by done. apply Hatt.
Qed.

Lemma run_dispatch_keys w ks : running_inv w →
  ∃ w', for_each ks dispatch_first w = (Ok tt, w') ∧ running_inv w' ∧ schedules w w' ∧
    (∀ k, k ∈ ks → attended w' k) ∧ (∀ k, attended w k → attended w' k).
Proof.
  revert w. induction ks as [|k ks IH]; intros w Hinv; cbn.
  { exists w. split_and!; [done|done|done|set_solver|done]. }
  destruct (run_dispatch_first w k Hinv) as (w1 & Hrun & Hinv1 & Hsc & Hatt & Hkeep).
  erewrite run_bind by exact Hrun.
  destruct (IH w1 Hinv1) as (w2 & Hrun2 & Hinv2 & Hsc2 & Hatt2 & Hkeep2).
  exists w2. split_and!; [done|done|by etrans| |auto].
  intros k' [->|Hk']%elem_of_cons; auto.
Qed.

Lemma run_dispatch_processors w : running_inv w →
  ∃ w', dispatch_processors w = (Ok tt, w') ∧ running_inv w' ∧ schedules w w' ∧
    ∀ k, attended w' k.
Proof.
  intros Hinv. unfold dispatch_processors. run.
  destruct (run_dispatch_keys w (hash_items (readyQueue w)).*1 Hinv) as (w' & Hrun & Hinv' & Hsc & Hatt & Hkeep).
  exists w'. split_and!; [done|done|done|]. intros k.
  destruct (readyQueue w !! k) as [l|] eqn:Hk.
  - apply Hatt. apply list_elem_of_fmap. exists (k, l). by rewrite elem_of_hash_items.
  - apply Hkeep. intros it rest Hit. congruence.
Qed.
End collecting.

Section producing.
Context `{HashOrder}.

Lemma run_max_size w l acc : (∀ c, c ∈ l → is_Some (w_conns w !! c)) →
  ∃ n, max_size l acc w = (Ok n, w).
Proof.
  revert acc. induction l as [|c l IH]; intros acc Hl; cbn; [by eexists|].
  destruct (Hl c) as [x Hx]; [set_solver|].
  erewrite run_bind by (unfold conn_size; run; reflexivity). apply IH. set_solver.
Qed.

Lemma run_all_ready w ready l acc : (∀ e, e ∈ l → is_Some (w_elems w !! e)) →
  ∃ b, all_ready ready l acc w = (Ok b, w) ∧
    (b = true → acc = true ∧ ∀ e x, e ∈ l → w_elems w !! e = Some x →
       state_rank (el_state x) < state_rank PLE_DISPATCHED).
Proof.
  revert acc. induction l as [|e l IH]; intros acc Hl; cbn [all_ready].
  { exists acc. split; [done|]. intros ->. split; [done|]. set_solver. }
  destruct (Hl e) as [x Hx]; [set_solver|].
  erewrite run_bind by (unfold producer_ready, el_getState; erewrite run_bind by (run; reflexivity); reflexivity).
  destruct (IH (if bool_decide (state_rank (el_state x) < state_rank PLE_DISPATCHED) && ready e then acc else false))
    as (b & Hrun & Hb); [set_solver|]. exists b. split; [exact Hrun|]. intros Ht.
  destruct (Hb Ht) as [Hacc Hall]. destruct (bool_decide (state_rank (el_state x) < _)) eqn:Es; [|done].
  destruct (ready e); [|done]. split; [done|].
  intros e' x' [->|He']%elem_of_cons Hx'; [|by eapply Hall].
  simplify_eq. by apply bool_decide_eq_true in Es.
Qed.

Lemma ready_idle w k e x : running_inv w → children w !! k = Some e → w_elems w !! e = Some x →
  state_rank (el_state x) < state_rank PLE_DISPATCHED → runQueue w !! k = None.
Proof.
  intros Hinv Hc Hx Hs. destruct (runQueue w !! k) as [it|] eqn:Hrq; [|done].
  destruct (rn_items _ Hinv _ _ Hrq) as (Hc' & _ & Hcase).
  assert (ri_element it = e) as He by congruence.
  destruct Hcase as [(_ & _ & Hst)|(_ & _ & [Hst|Hst])]; rewrite He in Hst; unfold state_of in Hst;
    rewrite Hx in Hst; injection Hst as Hst; rewrite Hst in Hs; cbn in Hs; lia.
Qed.

Lemma run_dispatch_producer w k e : running_inv w → children w !! k = Some e → runQueue w !! k = None →
  ∃ it, dispatch_producer e w = (Ok tt, it) ∧ running_inv it ∧ schedules w it ∧
    (∃ ri, runQueue it = <[k := ri]> (runQueue w)) ∧ readyQueue it = readyQueue w.
Proof.
  intros Hinv Hc Hn. destruct (idle_element w k e Hinv Hc Hn) as (x & Hx & Hs & Hid).
  unfold dispatch_producer. run.
  erewrite run_bind by (by apply (run_dispatch _ (new_RunItem e (pl_serial (w_pipe w))) x)).
  unfold after_dispatch at 1. run. cbn [el_id el_set_state]. rewrite Hid.
  eexists. split; [reflexivity|].
  split_and!; [by apply (enqueue_inv w k e x)|by apply (enqueue_schedules w k e x)|by eexists|done].
Qed.

Lemma run_dispatch_producers w l : running_inv w → NoDup l.*1 →
  (∀ k e, (k, e) ∈ l → children w !! k = Some e ∧ runQueue w !! k = None) →
  ∃ w', for_each l.*2 dispatch_producer w = (Ok tt, w') ∧ running_inv w' ∧ schedules w w' ∧
    (∀ k e, (k, e) ∈ l → is_Some (runQueue w' !! k)) ∧
    (∀ k, is_Some (runQueue w !! k) → is_Some (runQueue w' !! k)) ∧ readyQueue w' = readyQueue w.
Proof.
  revert w. induction l as [|[k e] l IH]; intros w Hinv Hnd Hl; cbn.
  { exists w. split_and!; [done|done|done|set_solver|done|done]. }
  cbn in Hnd. apply NoDup_cons in Hnd as [Hk Hnd]. destruct (Hl k e) as [Hc Hn]; [set_solver|].
  destruct (run_dispatch_producer w k e Hinv Hc Hn) as (w1 & Hrun & Hinv1 & Hsc & [ri Hrq] & Hready).
  erewrite run_bind by exact Hrun.
  destruct (IH w1 Hinv1 Hnd) as (w2 & Hrun2 & Hinv2 & Hsc2 & Hin2 & Hkeep & Hready2).
  { intros k' e' Hin. destruct (Hl k' e') as [Hc' Hn']; [set_solver|].
    rewrite (same_children _ _ (sc_graph _ _ Hsc)), Hrq. split; [done|]. rewrite lookup_insert_ne; [done|].
    intros <-. apply Hk. apply list_elem_of_fmap. by exists (k, e'). }
  exists w2. split_and!; [done|done|by etrans| | |by rewrite Hready2].
  - intros k' e' [[= -> ->]|Hin]%elem_of_cons; [|by eapply Hin2].
    apply Hkeep. rewrite Hrq, lookup_insert_eq. eauto.
  - intros k' Hs. apply Hkeep. rewrite Hrq. destruct (decide (k' = k)) as [->|Hne].
    + rewrite lookup_insert_eq. eauto.
    + by rewrite lookup_insert_ne.
Qed.

(** The bookkeeping fields of the pipeline do not matter to the invariant. *)
Lemma running_inv_pipe w f : running_inv w →
  (∀ p, pipe_skeleton (f p) = pipe_skeleton p) → (∀ p, pl_running (f p) = pl_running p) →
  (∀ p, pl_runQueue (f p) = pl_runQueue p) → (∀ p, pl_readyQueue (f p) = pl_readyQueue p) →
  running_inv (set_pipe f w).
Proof.
  intros Hinv Hs Hr Hrq Hready.
  assert (Hg : same_graph w (set_pipe f w)) by (unfold same_graph, skeleton; cbn; by rewrite Hs).
  pose proof (same_children _ _ Hg) as Hch. split; cbn.
  - by rewrite <-Hg; apply Hinv.
  - rewrite Hr. apply Hinv.
  - rewrite Hrq. cbn in Hch. rewrite Hch. apply Hinv.
  - rewrite Hrq. cbn in Hch. rewrite Hch. apply Hinv.
  - rewrite Hrq. apply Hinv.
  - rewrite Hrq. apply Hinv.
  - rewrite Hready. unfold ready_item. rewrite Hch. apply Hinv.
Qed.
Lemma running_inv_signal w s : running_inv w → running_inv (add_signal s w).
Proof.
  intros Hinv. split; try apply Hinv. apply (graph_wf_same w); [done|apply Hinv].
Qed.

Lemma run_run_producers w ready elapsed : running_inv w →
  ∃ w', run_producers ready elapsed w = (Ok tt, w') ∧ running_inv w' ∧ same_graph w w' ∧
    pl_testCount (w_pipe w') = pl_testCount (w_pipe w) ∧
    readyQueue w' = readyQueue w ∧ (∀ k, is_Some (runQueue w !! k) → is_Some (runQueue w' !! k)).
Proof.
  intros Hinv. unfold run_producers. run.
  destruct (run_max_size w (qmap_values (connections w)) 0) as [n Hmax].
  { intros c [k Hk]%elem_of_qmap_values. destruct (wf_connections _ (rn_wf _ Hinv) _ _ Hk) as (x & o & i & [] & _). eauto. }
  erewrite run_bind by exact Hmax. case_bool_decide; cbn [when]; [|by exists w; split_and!].
  destruct (run_all_ready w ready (qmap_values (pl_producers (w_pipe w))) true) as (b & Hrun & Hb).
  { intros e [k Hk]%elem_of_qmap_values. apply (wf_producers _ (rn_wf _ Hinv)) in Hk as [_ Hk].
    by destruct (w_elems w !! e). }
  erewrite run_bind by exact Hrun. destruct b; cbn [when]; [|by exists w; split_and!].
  destruct (Hb eq_refl) as [_ Hstates].
  destruct (run_dispatch_producers w (qmap_items (pl_producers (w_pipe w))) Hinv) as (w1 & Hrun1 & Hinv1 & Hsc & _ & Hkeep & Hready).
  { apply NoDup_qmap_keys. }
  { intros k e Hin. pose proof Hin as Hin'%elem_of_qmap_items.
    apply (wf_producers _ (rn_wf _ Hinv)) in Hin' as [Hc Hkind].
    destruct (w_elems w !! e) as [x|] eqn:Hx; [|done]. split; [done|].
    eapply ready_idle; [done..|]. apply (Hstates e); [|done].
    apply list_elem_of_fmap. by exists (k, e). }
  erewrite run_bind by exact Hrun1. run.
  pose proof (sc_pipe _ _ Hsc) as Hpipe.
  set (w2 := set_pipe (λ p, pl_set_serial (u32 (pl_serial p + 1)) p) w1).
  assert (Hinv2 : running_inv w2) by (by apply running_inv_pipe).
  assert (H2 : same_graph w1 w2) by done.
  unfold count_frame. destruct (bool_decide (10000 < elapsed)); cbn [when];
    (erewrite run_bind by (run; runs; reflexivity)); run;
    (eexists; split; [reflexivity|]); split_and!.
  - do 2 apply running_inv_signal. by do 2 (apply running_inv_pipe; [|done..]).
  - etrans; [apply (sc_graph _ _ Hsc)|done].
  - cbn. by rewrite Hpipe.
  - done.
  - done.
  - apply running_inv_signal. by apply running_inv_pipe.
  - etrans; [apply (sc_graph _ _ Hsc)|done].
  - cbn. by rewrite Hpipe.
  - done.
  - done.
Qed.
End producing.
