(* ===== verification/StartStop.v ===== *)
(** Starting and stopping: the state changes of whole pipelines, built from
    those of single elements. *)
From S2P Require Export Scheduler.

(** ** Plugin code that does not use the pins *)

(** Such code may report an error and then returns; this is what the life
    cycle methods of a plugin are allowed to do here.  [result p] is the value
    it returns. *)
Fixpoint offline (p : Prog) : bool :=
  match p with
  | PReturn _ => true
  | PSetError _ _ k => offline k
  | _ => false
  end.
Fixpoint result (p : Prog) : bool :=
  match p with
  | PReturn b => b
  | PSetError _ _ k => result k
  | _ => false
  end.

(** What code [p] of an element leaves of it. *)
Fixpoint offline_elem (p : Prog) (x : Element) : Element :=
  match p with
  | PSetError t m k => offline_elem k (el_set_error t m (el_set_state PLE_ERROR x))
  | _ => x
  end.

Lemma run_setError e t m w x : w_elems w !! e = Some x →
  el_setError e t m w = (Ok tt, set_elems (insert e (el_set_error t m (el_set_state PLE_ERROR x))) w).
Proof.
  intros Hx. unfold el_setError. erewrite run_bind by (by apply run_set_state).
  rewrite (run_upd_elem _ _ _ (el_set_state PLE_ERROR x)) by (cbn; by rewrite lookup_insert_eq).
  unfold set_elems. cbn. by rewrite insert_insert_eq.
Qed.

Lemma run_offline p e w x : offline p = true → w_elems w !! e = Some x →
  run_prog e p w = (Ok (result p), set_elems (insert e (offline_elem p x)) w).
Proof.
  revert w x. induction p as [b|ex|t m k IH|i k IH|i k IH|i k IH|o v k IH];
    intros w x Hoff Hx; try done; cbn in *.
  - unfold mret, M_ret. f_equal. unfold set_elems. rewrite insert_id by done. by destruct w.
  - erewrite run_bind by (by apply run_setError).
    rewrite (IH _ (el_set_error t m (el_set_state PLE_ERROR x))).
    + unfold set_elems. cbn. by rewrite insert_insert_eq.
    + done.
    + cbn. by rewrite lookup_insert_eq.
Qed.

Lemma offline_elem_skeleton p x : el_skeleton (offline_elem p x) = el_skeleton x.
Proof. revert x. induction p as [| |t m k IH| | | |]; intros x; cbn; [done|done|by rewrite IH|done..]. Qed.

(** ** Single elements *)
Section element.
Implicit Types w : World.

Lemma run_getState w e x : w_elems w !! e = Some x → el_getState e w = (Ok (el_state x), w).
Proof. intros Hx. unfold el_getState. by run. Qed.

Lemma set_elems_twice w e x1 x2 :
  set_elems (insert e x2) (set_elems (insert e x1) w) = set_elems (insert e x2) w.
Proof. unfold set_elems. cbn. by rewrite insert_insert_eq. Qed.
Lemma lookup_set_elems w e x : w_elems (set_elems (insert e x) w) !! e = Some x.
Proof. cbn. by rewrite lookup_insert_eq. Qed.

(** A life cycle method with offline code, from a state its assertion
    accepts: the state afterwards says how it went. *)
Lemma run_checked (ok_state : State → bool) (good : State) body e w x :
  ok_state (el_state x) = true → w_elems w !! e = Some x → offline body = true →
  ∃ x', (s ← el_getState e ; assert (ok_state s) ;; ok ← run_prog e body ;
         if negb ok then el_setState e PLE_ERROR ;; mret false
         else el_setState e good ;; mret true) w = (Ok (result body), set_elems (insert e x') w) ∧
    el_skeleton x' = el_skeleton x ∧ el_state x' = (if result body then good else PLE_ERROR) ∧
    el_errorType x' = el_errorType (offline_elem body x).
Proof.
  intros Hok Hx Hoff. erewrite run_bind by (by apply run_getState). rewrite Hok. run.
  erewrite run_bind by (by apply run_offline).
  destruct (result body); cbn [negb];
    (erewrite run_bind by (apply run_set_state, lookup_set_elems));
    eexists; (split; [unfold mret, M_ret; rewrite set_elems_twice; reflexivity|]);
    (split; [apply (offline_elem_skeleton body x)|done]).
Qed.

Lemma run_ple_stop body e w x : state_rank PLE_STARTED ≤ state_rank (el_state x) →
  w_elems w !! e = Some x → offline body = true →
  ∃ x', ple_stop body e w = (Ok (result body), set_elems (insert e x') w) ∧
    el_skeleton x' = el_skeleton x ∧ el_state x' = (if result body then PLE_INITIALIZED else PLE_ERROR).
Proof.
  intros Hs Hx Hoff.
  destruct (run_checked (λ s, bool_decide (state_rank PLE_STARTED ≤ state_rank s)) PLE_INITIALIZED body e w x)
    as (x' & Hrun & Hf & Hst & _); [by apply bool_decide_true|done..|]. by exists x'.
Qed.

Lemma run_ple_start body e w x : el_state x = PLE_INITIALIZED →
  w_elems w !! e = Some x → offline body = true →
  ∃ x', ple_start body e w = (Ok (result body), set_elems (insert e x') w) ∧
    el_skeleton x' = el_skeleton x ∧ el_state x' = (if result body then PLE_STARTED else PLE_ERROR).
Proof.
  intros Hs Hx Hoff.
  destruct (run_checked (λ s, bool_decide (s = PLE_INITIALIZED)) PLE_STARTED body e w x)
    as (x' & Hrun & Hf & Hst & _); [by apply bool_decide_true|done..|]. by exists x'.
Qed.

Lemma run_ple_init body e w x : el_state x = PLE_UNDEFINED →
  w_elems w !! e = Some x → offline body = true →
  ∃ x', ple_init body e w = (Ok (result body), set_elems (insert e x') w) ∧
    el_skeleton x' = el_skeleton x ∧ el_state x' = (if result body then PLE_INITIALIZED else PLE_ERROR) ∧
    el_errorType x' = el_errorType (offline_elem body x).
Proof.
  intros Hs Hx Hoff.
  apply (run_checked (λ s, bool_decide (s = PLE_UNDEFINED)) PLE_INITIALIZED body e w x);
    [by apply bool_decide_true|done..].
Qed.

Lemma run_ple_deinit body e w x : el_state x = PLE_ERROR ∨ el_state x = PLE_INITIALIZED →
  w_elems w !! e = Some x → offline body = true → result body = true →
  ∃ x', ple_deinit body e w = (Ok true, set_elems (insert e x') w) ∧
    el_skeleton x' = el_skeleton x ∧ el_state x' = PLE_UNDEFINED.
Proof.
  intros Hs Hx Hoff Hres. unfold ple_deinit. erewrite run_bind by (by apply run_getState).
  erewrite run_bind; [|destruct Hs as [-> | ->]; reflexivity].
  erewrite run_bind by (unfold nothrow, try_catch; rewrite (run_offline _ _ _ _ Hoff Hx); reflexivity).
  rewrite Hres. cbn [negb].
  erewrite run_bind by (apply run_set_state, lookup_set_elems). rewrite set_elems_twice.
  erewrite run_bind by (apply run_upd_elem, lookup_set_elems). rewrite set_elems_twice.
  eexists. split; [reflexivity|]. split; [apply (offline_elem_skeleton body x)|done].
Qed.
End element.

(** ** Loops that advance one element after another *)

(** [m] holds the same elements, up to what the skeleton forgets. *)
Definition same_elems (m m' : gmap eptr Element) : Prop := el_skeleton <$> m = el_skeleton <$> m'.

Lemma same_elems_graph w m : same_elems (w_elems w) m → same_graph w (set_elems (λ _, m) w).
Proof. intros Hm. unfold same_graph, skeleton. cbn. by rewrite Hm. Qed.

Section advance.
Implicit Types w : World.

(** The elements [l], all in a state [pre], have been brought to states
    [post], and no other element was touched. *)
Definition advanced (l : list eptr) (post : State → Prop) (m m' : gmap eptr Element) : Prop :=
  same_elems m m' ∧ (∀ e, e ∈ l → ∃ x, m' !! e = Some x ∧ post (el_state x)) ∧
  (∀ e, e ∉ l → m' !! e = m !! e).

Lemma advanced_nil post m : advanced [] post m m.
Proof. split_and!; [done|set_solver|done]. Qed.

Lemma advanced_cons e l post m m' x x' : m !! e = Some x → el_skeleton x' = el_skeleton x →
  post (el_state x') → e ∉ l → advanced l post (<[e := x']> m) m' → advanced (e :: l) post m m'.
Proof.
  intros Hx Hf Hp He (Hs & Hin & Hout). split_and!.
  - unfold same_elems in *. by rewrite <-Hs, (insert_skeleton el_skeleton m e x x').
  - intros e' [->|He']%elem_of_cons; [|auto]. exists x'. by rewrite (Hout e He), lookup_insert_eq.
  - intros e' [Hne He']%not_elem_of_cons. by rewrite (Hout e' He'), lookup_insert_ne.
Qed.

Lemma run_advance (body : eptr → W unit) (pre post : State → Prop) l w :
  NoDup l → (∀ e, e ∈ l → ∃ x, w_elems w !! e = Some x ∧ pre (el_state x)) →
  (∀ e x w1, e ∈ l → same_elems (w_elems w) (w_elems w1) → w_elems w1 !! e = Some x → pre (el_state x) →
     w_ins w1 = w_ins w → w_conns w1 = w_conns w →
     ∃ x', body e w1 = (Ok tt, set_elems (insert e x') w1) ∧ el_skeleton x' = el_skeleton x ∧
       post (el_state x')) →
  ∃ m, for_each l body w = (Ok tt, set_elems (λ _, m) w) ∧ advanced l post (w_elems w) m.
Proof.
  revert w. induction l as [|e l IH]; intros w Hnd Hpre Hbody; cbn.
  { exists (w_elems w). split; [by destruct w|]. apply advanced_nil. }
  apply NoDup_cons in Hnd as [He Hnd]. destruct (Hpre e) as (x & Hx & Hs); [set_solver|].
  destruct (Hbody e x w) as (x' & Hrun & Hf & Hp); [set_solver|done..|].
  erewrite run_bind by exact Hrun.
  assert (Hsame : same_elems (w_elems w) (<[e := x']> (w_elems w))).
  { symmetry. by eapply insert_skeleton. }
  destruct (IH (set_elems (insert e x') w) Hnd) as (m & Hrun2 & Hadv).
  - intros e' He'. cbn. rewrite lookup_insert_ne by (intros ->; done). apply Hpre. set_solver.
  - intros e' y w1 He' Hs1. cbn in Hs1. apply Hbody; [set_solver|]. unfold same_elems in *. congruence.
  - exists m. split; [exact Hrun2|]. eapply advanced_cons; [exact Hx|done|done|done|exact Hadv].
Qed.
End advance.
