(* ===== verification/StopProof.v ===== *)
(** [Pipeline::stop]: it waits until the workers are done, takes every element
    back to PLE_UNDEFINED and leaves all queues empty. *)
From S2P Require Export StartStop.

(** A pipeline at rest: what [start] expects and [stop] restores. *)
Record stopped_inv (w : World) : Prop := {
  st_wf : graph_wf w;
  st_running : pl_running (w_pipe w) = false;
  st_runQueue : runQueue w = ∅;
  st_jobs : w_jobs w = ∅;
  st_states : ∀ e, child w e → state_of w e = Some PLE_UNDEFINED;
  st_heartbeat : pl_heartbeatActive (w_pipe w) = false;
  st_testCount : pl_testCount (w_pipe w) = 0;
  st_ready : ∀ k l, readyQueue w !! k = Some l → l = []
}.

(** No data is left on any connection. *)
Definition drained (w : World) : Prop :=
  ∀ k c, connections w !! k = Some c → ∃ x, w_conns w !! c = Some x ∧ pc_queue x = [].


Section waiting.
Context `{HashOrder} `{QMetaType}.
Implicit Types w : World.

(** One sweep releases every item whose element is done or in error. *)
Lemma run_sweep_loop w l : running_inv w → NoDup l.*1 →
  (∀ id it, (id, it) ∈ l → runQueue w !! id = Some it) →
  ∃ w', for_each l (λ '(id, item),
    s ← el_getState (ri_element item) ;
    when (bool_decide (s = PLE_DONE) || bool_decide (s = PLE_ERROR))
      (upd_pipe (λ p, pl_set_runQueue (delete id (pl_runQueue p)) p) ;;
       el_setState (ri_element item) PLE_STARTED)) w = (Ok tt, w') ∧
    running_inv w' ∧ schedules w w' ∧ w_jobs w' = w_jobs w ∧ runQueue w' ⊆ runQueue w ∧
    readyQueue w' = readyQueue w ∧
    ∀ id it, (id, it) ∈ l → runQueue w' !! id = Some it → is_Some (w_jobs w !! ri_result it).
Proof.
  revert w. induction l as [|[id it] l IH]; intros w Hinv Hnd Hl; cbn [for_each].
  { exists w. split_and!; try done. set_solver. }
  cbn in Hnd. apply NoDup_cons in Hnd as [Hid Hnd].
  assert (Hit : runQueue w !! id = Some it) by (apply Hl; set_solver).
  destruct (rn_items _ Hinv _ _ Hit) as (Hc & Hd & Hcase).
  destruct (item_element w id it Hinv Hit) as (x & Hx & _).
  destruct Hcase as [Hpend|Hset].
  - pose proof Hpend as (Hj & _ & Hst).
    assert (el_state x = PLE_DISPATCHED) as Hs by (unfold state_of in Hst; rewrite Hx in Hst; by injection Hst).
    erewrite run_bind by (erewrite run_bind by (by apply run_getState); rewrite Hs; reflexivity).
    destruct (IH w Hinv Hnd) as (w' & Hrun & Hinv' & Hsc & Hjobs & Hsub & Hready & Hall).
    { intros id' it' Hin. apply Hl. set_solver. }
    exists w'. split_and!; [done..|].
    intros id' it' [[= -> ->]|Hin]%elem_of_cons Hrq; [by eexists|by eapply Hall].
  - pose proof Hset as (Hj & _ & Hst).
    assert (el_state x = PLE_DONE ∨ el_state x = PLE_ERROR) as Hs.
    { unfold state_of in Hst. rewrite Hx in Hst. destruct Hst as [Hst|Hst]; injection Hst; auto. }
    erewrite run_bind.
    2: { erewrite run_bind by (by apply run_getState).
         assert (bool_decide (el_state x = PLE_DONE) || bool_decide (el_state x = PLE_ERROR) = true) as ->
           by (by destruct Hs as [-> | ->]).
         cbn [when]. run. by apply run_set_state. }
    destruct (IH (release w id (ri_element it) x)) as (w' & Hrun & Hinv' & Hsc & Hjobs & Hsub & Hready & Hall).
    + by apply release_inv.
    + done.
    + intros id' it' Hin. cbn. rewrite lookup_delete_ne; [apply Hl; set_solver|].
      intros <-. apply Hid. apply list_elem_of_fmap. by exists (id, it').
    + exists w'. split_and!; [exact Hrun|done| |done| |done|].
      * etrans; [|exact Hsc]. split; [by apply release_graph|]. by destruct w as [? ? ? ? [] ? ? ?].
      * etrans; [exact Hsub|]. apply delete_subseteq.
      * intros id' it' [[= -> ->]|Hin]%elem_of_cons Hrq; [|by eapply Hall].
        exfalso. apply (lookup_weaken _ _ _ _ Hrq) in Hsub. cbn in Hsub. by rewrite lookup_delete_eq in Hsub.
Qed.

Lemma run_sweep w : running_inv w →
  ∃ w', stop_sweep w = (Ok tt, w') ∧ running_inv w' ∧ schedules w w' ∧ w_jobs w' = w_jobs w ∧
    (w_jobs w = ∅ → runQueue w' = ∅).
Proof.
  intros Hinv. unfold stop_sweep. run.
  destruct (run_sweep_loop w (hash_items (runQueue w)) Hinv) as (w' & Hrun & Hinv' & Hsc & Hjobs & Hsub & _ & Hall).
  - apply NoDup_hash_keys.
  - intros id it. by rewrite elem_of_hash_items.
  - exists w'. split_and!; [done..|]. intros Hnone. apply map_eq. intros id. rewrite lookup_empty.
    apply eq_None_not_Some. intros [it Hit].
    destruct (Hall id it) as [j Hj]; [|done|by rewrite Hnone in Hj].
    apply elem_of_hash_items. by eapply lookup_weaken.
Qed.

(** Workers that take jobs in the order [picks]: before sweep [n] they
    execute the jobs [picks n]. *)
Context (picks : nat → list (positive * Prog)).
Definition pool (n : nat) : W unit := for_each (picks n) (λ '(f, body), run_job f body).

(** [k] rounds of working and sweeping. *)
Fixpoint rounds (k n : nat) : W unit :=
  match k with
  | O => mret tt
  | S k' => pool n ;; stop_sweep ;; rounds k' (S n)
  end.

(** What the workers and the sweeps leave alone. *)
Definition waiting (w w' : World) : Prop :=
  same_graph w w' ∧
  w_pipe w' = pl_set_runQueue (runQueue w') (pl_set_readyQueue (readyQueue w') (w_pipe w)).
#[local] Instance waiting_preorder : PreOrder waiting.
Proof.
  split.
  - intros w. split; [reflexivity|]. by destruct w as [? ? ? ? [] ? ? ?].
  - intros w1 w2 w3 [G1 P1] [G2 P2]. split; [by etrans|]. by rewrite P2, P1.
Qed.

Lemma run_job_waiting w f body w' : running_inv w → run_job f body w = (Ok tt, w') → waiting w w'.
Proof.
  intros Hinv Hrun. unfold run_job in Hrun.
  do 2 (apply bind_ok in Hrun as (? & ? & Hg & Hrun); injection Hg as <- <-).
  destruct (w_jobs w !! f) as [[e serial]|] eqn:Hjob; [|injection Hrun as <-; reflexivity].
  apply bind_ok in Hrun as ([] & w1 & Hm & Hrun). injection Hm as <-.
  apply bind_ok in Hrun as (b & w2 & Hel & Hrun).
  do 2 (apply bind_ok in Hrun as (? & ? & Hg & Hrun); injection Hg as <- <-).
  injection Hrun as <-.
  pose proof (frames_el_run (λ e0, e0 = e) body e serial (set_jobs (delete f (w_jobs w)) (w_futures w) w)) as Hw.
  unfold frames in Hw. rewrite Hel in Hw. cbn in Hw. specialize (Hw (graph_wf_jobs _ _ _ (rn_wf _ Hinv)) eq_refl).
  split.
  - etrans; [|etrans; [exact (wa_graph _ _ _ Hw)|]]; done.
  - cbn. rewrite (wa_pipe _ _ _ Hw). by destruct w as [? ? ? ? [] ? ? ?].
Qed.

Lemma pool_inv l w w' : running_inv w → for_each l (λ '(f, body), run_job f body) w = (Ok tt, w') →
  running_inv w' ∧ waiting w w'.
Proof.
  revert w. induction l as [|[f body] l IH]; intros w Hinv Hrun; cbn in Hrun.
  { injection Hrun as <-. by split. }
  apply bind_ok in Hrun as ([] & w1 & Hjob & Hrun).
  pose proof (run_job_inv _ _ _ _ Hinv Hjob) as Hinv1.
  destruct (IH w1 Hinv1 Hrun) as [Hinv' Hw]. split; [done|].
  etrans; [by eapply run_job_waiting|done].
Qed.

Lemma pool_no_jobs l w : w_jobs w = ∅ → for_each l (λ '(f, body), run_job f body) w = (Ok tt, w).
Proof.
  intros Hj. induction l as [|[f body] l IH]; cbn; [done|].
  erewrite run_bind by (unfold run_job; run; run; rewrite Hj, lookup_empty; reflexivity). exact IH.
Qed.

(** The waiting loop ends one sweep after the workers have finished. *)
Lemma run_stop_wait w k n wk : running_inv w → rounds k n w = (Ok tt, wk) → w_jobs wk = ∅ →
  ∃ w', stop_wait pool (S k) n w = (Ok tt, w') ∧ running_inv w' ∧ waiting w w' ∧ runQueue w' = ∅.
Proof.
  revert n w. induction k as [|k IH]; intros n w Hinv Hrounds Hjobs.
  - injection Hrounds as ->. cbn. run. case_bool_decide as E; [by exists wk|].
    unfold pool. erewrite run_bind by (by apply pool_no_jobs).
    destruct (run_sweep wk Hinv) as (w1 & Hrun & Hinv1 & Hsc & Hj1 & Hempty).
    erewrite run_bind by exact Hrun. run. rewrite bool_decide_true by auto.
    exists w1. split_and!; [done|done| |auto]. destruct Hsc. by split.
  - change (stop_wait pool (S (S k)) n) with (pl ← get_pipe ;
      if bool_decide (pl_runQueue pl = ∅) then mret tt
      else pool n ;; stop_sweep ;; stop_wait pool (S k) (S n)).
    run. case_bool_decide as E; [by exists w|].
    cbn [rounds] in Hrounds. apply bind_ok in Hrounds as ([] & w1 & Hpool & Hrounds).
    apply bind_ok in Hrounds as ([] & w2 & Hsweep & Hrounds).
    destruct (pool_inv _ _ _ Hinv Hpool) as [Hinv1 Hw1].
    destruct (run_sweep w1 Hinv1) as (w2' & Hrun & Hinv2 & Hsc & _). assert (w2' = w2) as -> by congruence.
    destruct (IH (S n) w2 Hinv2 Hrounds Hjobs) as (w' & Hrun' & Hinv' & Hw' & Hempty).
    erewrite run_bind by exact Hpool. erewrite run_bind by exact Hrun.
    exists w'. split_and!; [exact Hrun'|done| |done].
    etrans; [exact Hw1|]. etrans; [|exact Hw']. destruct Hsc. by split.
Qed.
End waiting.

Section flushing.
Context `{HashOrder}.
Implicit Types w : World.

Lemma run_flush_one c w x : w_conns w !! c = Some x →
  (conn_flush c ;; has ← conn_hasDataItems c ; assert (negb has)) w =
    (Ok tt, set_conns (insert c (pc_set_queue [] x)) w).
Proof.
  intros Hx. unfold conn_flush. run.
  erewrite run_bind by (unfold conn_hasDataItems; run; reflexivity). done.
Qed.

(** Flushing connections: their queues are empty, nothing else changed. *)
Lemma run_flush l w : (∀ c, c ∈ l → is_Some (w_conns w !! c)) →
  ∃ m, for_each l (λ c, conn_flush c ;; has ← conn_hasDataItems c ; assert (negb has)) w =
      (Ok tt, set_conns (λ _, m) w) ∧
    pc_set_queue [] <$> m = pc_set_queue [] <$> w_conns w ∧
    ∀ c, (c ∈ l ∨ pc_queue <$> w_conns w !! c = Some []) → pc_queue <$> m !! c = Some [].
Proof.
  revert w. induction l as [|c l IH]; intros w Hl; cbn [for_each].
  { exists (w_conns w). split_and!; [by destruct w|done|]. intros c [Hc|Hc]; [set_solver|done]. }
  destruct (Hl c) as [x Hx]; [set_solver|].
  erewrite run_bind by (by apply run_flush_one).
  destruct (IH (set_conns (insert c (pc_set_queue [] x)) w)) as (m & Hrun & Hs & Hq).
  { intros c' Hc'. cbn. destruct (decide (c' = c)) as [->|Hne]; [rewrite lookup_insert_eq; eauto|].
    rewrite lookup_insert_ne by done. apply Hl. set_solver. }
  exists m. split_and!; [exact Hrun| |].
  - rewrite Hs. cbn. by apply (insert_skeleton _ _ _ x).
  - intros c' Hc'. apply Hq. cbn. destruct (decide (c' = c)) as [->|Hne].
    + right. by rewrite lookup_insert_eq.
    + rewrite lookup_insert_ne by done. set_solver.
Qed.
End flushing.

Section stopping.
Context `{HashOrder} `{QMetaType} (beh : eptr → Behaviour).
(** What is asked of the plugins' [stop()] and [deinit()]: they return, and
    [deinit()] succeeds. *)
Context (stop_offline : ∀ e, offline (b_stop (beh e)) = true).
Context (deinit_offline : ∀ e, offline (b_deinit (beh e)) = true).
Context (deinit_ok : ∀ e, result (b_deinit (beh e)) = true).
Implicit Types w : World.

Lemma run_stop_deinit e w x : el_state x = PLE_STARTED → w_elems w !! e = Some x →
  ∃ x', (stop_element beh e ;; deinit_element beh e ;; mret tt) w = (Ok tt, set_elems (insert e x') w) ∧
    el_skeleton x' = el_skeleton x ∧ el_state x' = PLE_UNDEFINED.
Proof using stop_offline deinit_offline deinit_ok.
  intros Hs Hx.
  destruct (run_ple_stop (b_stop (beh e)) e w x) as (x1 & Hrun1 & Hf1 & Hs1); [by rewrite Hs|done..|].
  erewrite run_bind by exact Hrun1.
  destruct (run_ple_deinit (b_deinit (beh e)) e (set_elems (insert e x1) w) x1) as (x2 & Hrun2 & Hf2 & Hs2).
  { rewrite Hs1. destruct (result _); auto. }
  { apply lookup_set_elems. }
  { done. }
  { done. }
  erewrite run_bind by exact Hrun2. rewrite set_elems_twice.
  exists x2. split_and!; [done|congruence|done].
Qed.

Lemma run_teardown w : running_inv w → runQueue w = ∅ →
  ∃ m, for_each (qmap_values (children w)) (λ e, stop_element beh e ;; deinit_element beh e ;; mret tt) w =
      (Ok tt, set_elems (λ _, m) w) ∧ same_elems (w_elems w) m ∧
    ∀ e, child w e → el_state <$> m !! e = Some PLE_UNDEFINED.
Proof using stop_offline deinit_offline deinit_ok.
  intros Hinv Hrq.
  destruct (run_advance (λ e, stop_element beh e ;; deinit_element beh e ;; mret tt)
    (λ s, s = PLE_STARTED) (λ s, s = PLE_UNDEFINED) (qmap_values (children w)) w)
    as (m & Hrun & Hsame & Hin & _).
  - apply NoDup_child_values, Hinv.
  - intros e [k Hk]%elem_of_qmap_values.
    destruct (idle_element w k e Hinv Hk) as (x & Hx & Hs & _); [by rewrite Hrq|]. eauto.
  - intros e x w1 _ _ Hx Hs _ _. by apply run_stop_deinit.
  - exists m. split_and!; [done|done|]. intros e [k Hk].
    destruct (Hin e) as (x & -> & Hs); [apply elem_of_qmap_values; eauto|]. cbn. by rewrite Hs.
Qed.

Lemma run_stop w picks k wk :
  running_inv w → rounds picks k 0 (set_pipe (pl_set_heartbeatActive false) w) = (Ok tt, wk) →
  w_jobs wk = ∅ →
  ∃ w', stop beh (pool picks) (S k) w = (Ok tt, w') ∧ stopped_inv w' ∧ same_graph w w' ∧
    drained w' ∧ readyQueue w' = ∅ ∧ last (w_signals w') = Some pipelineStopped.
Proof using stop_offline deinit_offline deinit_ok.
  intros Hinv Hrounds Hjobs. set (w0 := set_pipe (pl_set_heartbeatActive false) w).
  assert (Hinv0 : running_inv w0) by (by apply running_inv_pipe).
  destruct (run_stop_wait picks w0 k 0 wk Hinv0 Hrounds Hjobs) as (w1 & Hwait & Hinv1 & [Hg1 Hp1] & Hrq1).
  destruct (run_teardown w1 Hinv1 Hrq1) as (m & Hdown & Hsame & Hstates).
  set (w2 := set_elems (λ _, m) w1).
  assert (Hg2 : same_graph w1 w2) by (by apply same_elems_graph).
  destruct (run_flush (qmap_values (connections w2)) w2) as (cm & Hflush & Hcs & Hq).
  { intros c [k' Hk']%elem_of_qmap_values.
    assert (Hwf2 : graph_wf w2) by (by rewrite <-Hg2; apply Hinv1).
    destruct (wf_connections _ Hwf2 _ _ Hk') as (x & o & i & [] & _). eauto. }
  set (w3 := set_conns (λ _, cm) w2).
  assert (Hg3 : same_graph w2 w3) by (unfold same_graph, skeleton; cbn; by rewrite Hcs).
  assert (Hch : children w1 = children w) by (by rewrite Hp1).
  assert (Hcn : connections w2 = connections w) by (cbn; by rewrite Hp1).
  assert (Hjobs1 : w_jobs w1 = ∅).
  { apply map_eq. intros f. rewrite lookup_empty. apply eq_None_not_Some. intros [[e s] Hj].
    destruct (rn_jobs _ Hinv1 _ _ _ Hj) as (id & it & Hit & _). by rewrite Hrq1 in Hit. }
  set (w' := add_signal pipelineStopped (set_pipe (λ p, pl_set_running false (pl_set_testCount 0
    (pl_set_readyQueue ∅ p))) w3)).
  assert (Hg : same_graph w w').
  { transitivity w1; [transitivity w0; [done|exact Hg1]|]. transitivity w2; [done|]. transitivity w3; done. }
  exists w'. split_and!.
  - unfold stop. run. rewrite (rn_running _ Hinv). run. run. fold w0.
    erewrite run_bind by exact Hwait.
    replace (qmap_values (pl_children (w_pipe w))) with (qmap_values (children w1)) by (by rewrite Hch).
    erewrite run_bind by exact Hdown. fold w2.
    replace (qmap_values (pl_connections (w_pipe w))) with (qmap_values (connections w2)) by (by rewrite Hcn).
    erewrite run_bind by exact Hflush. reflexivity.
  - split; cbn; try done.
    + rewrite <-Hg. apply Hinv.
    + by rewrite Hp1.
  - done.
  - intros k' c Hk'. cbn in Hk'. assert (Hqc : pc_queue <$> cm !! c = Some []).
    { apply Hq. left. apply elem_of_qmap_values. by exists k'. }
    cbn. destruct (cm !! c) as [x|]; [|done]. exists x. split; [done|]. by injection Hqc.
  - done.
  - cbn. by rewrite last_snoc.
Qed.

End stopping.
