(* ===== verification/StartProof.v ===== *)
(** [Pipeline::init] and [Pipeline::start]: what they establish when they
    succeed and what they leave behind on each kind of failure. *)
From S2P Require Export StopProof.

Lemma advanced_app l1 l2 post m m1 m2 : advanced l1 post m m1 → advanced l2 post m1 m2 →
  (∀ e, e ∈ l1 → e ∉ l2) → advanced (l1 ++ l2) post m m2.
Proof.
  intros (S1 & I1 & O1) (S2 & I2 & O2) Hd. split_and!.
  - unfold same_elems in *. congruence.
  - intros e [He|He]%elem_of_app; [|auto]. destruct (I1 e He) as (x & Hx & Hp).
    exists x. by rewrite (O2 e (Hd e He)).
  - intros e He. apply not_elem_of_app in He as [H1 H2]. by rewrite O2, O1.
Qed.

Lemma advanced_mono l (post post' : State → Prop) m m' : (∀ s, post s → post' s) →
  advanced l post m m' → advanced l post' m m'.
Proof. intros Hp (S1 & I1 & O1). split_and!; [done| |done]. intros e He. naive_solver. Qed.

Section counting.
Context `{HashOrder}.
Implicit Types w : World.

(** The input pins of element [x] exist. *)
Definition pins_exist (w : World) (x : Element) : Prop :=
  ∀ k i, el_inputPins x !! k = Some i → is_Some (w_ins w !! i).

Lemma run_count_pins w l acc : (∀ i, i ∈ l → is_Some (w_ins w !! i)) →
  ∃ r, count_pins l acc w = (Ok r, w).
Proof.
  revert acc. induction l as [|i l IH]; intros acc Hl; cbn; [by eexists|].
  destruct (Hl i) as [p Hp]; [set_solver|]. run. destruct acc as [[a s] n]. apply IH. set_solver.
Qed.

Lemma run_initInputPins w e x : w_elems w !! e = Some x → pins_exist w x →
  ∃ x', initInputPins e w = (Ok tt, set_elems (insert e x') w) ∧
    el_skeleton x' = el_skeleton x ∧ el_state x' = el_state x ∧ el_errorType x' = el_errorType x.
Proof.
  intros Hx Hp. unfold initInputPins. run.
  destruct (run_count_pins w (hash_values (el_inputPins x)) (false, false, 0)) as [[[a s] n] Hrun].
  { intros i [k Hk]%elem_of_hash_values. by eapply Hp. }
  erewrite run_bind by exact Hrun. cbv beta iota. rewrite (run_upd_elem _ _ _ _ Hx). eexists. split; [reflexivity|done].
Qed.

Lemma run_el_init w e x body : w_elems w !! e = Some x → pins_exist w x → offline body = true →
  el_state x = PLE_UNDEFINED →
  ∃ x', el_init body e w = (Ok (result body), set_elems (insert e x') w) ∧
    el_skeleton x' = el_skeleton x ∧ el_state x' = (if result body then PLE_INITIALIZED else PLE_ERROR) ∧
    ∃ x0, el_errorType x0 = el_errorType x ∧ el_errorType x' = el_errorType (offline_elem body x0).
Proof.
  intros Hx Hpins Hoff Hs. unfold el_init. run. destruct (el_kind x).
  - destruct (run_ple_init body e w x Hs Hx Hoff) as (x1 & Hrun1 & Hf1 & Hs1 & He1). exists x1. split_and!; [done..|by exists x].
  - destruct (run_initInputPins w e x Hx Hpins) as (x1 & Hrun1 & Hf1 & Hs1 & He1).
    erewrite run_bind by exact Hrun1.
    destruct (run_ple_init body e (set_elems (insert e x1) w) x1) as (x' & Hrun & Hf & Hs' & He');
      [congruence|apply lookup_set_elems|done|].
    exists x'. rewrite Hrun, set_elems_twice. split_and!; [done|congruence|done|eauto].
Qed.

Lemma pins_exist_wf w e x : graph_wf w → w_elems w !! e = Some x → pins_exist w x.
Proof. intros Hwf Hx k i Hk. destruct (wf_inputPins _ Hwf _ _ _ _ Hx Hk) as (p & -> & _). eauto. Qed.
(** New, empty ready lists. *)
Lemma run_init_readyQueues w l : (∀ e, e ∈ l → is_Some (w_elems w !! e)) →
  ∃ rq, for_each l init_readyQueue w = (Ok tt, set_pipe (pl_set_readyQueue rq) w) ∧
    ∀ k q, rq !! k = Some q → q = [] ∨ readyQueue w !! k = Some q.
Proof.
  revert w. induction l as [|e l IH]; intros w Hl; cbn [for_each].
  { exists (readyQueue w). split; [|auto]. by destruct w as [? ? ? ? [] ? ? ?]. }
  destruct (Hl e) as [x Hx]; [set_solver|].
  erewrite run_bind by (unfold init_readyQueue; run; reflexivity).
  destruct (IH (set_pipe (λ p, pl_set_readyQueue (<[el_id x := []]> (pl_readyQueue p)) p) w)) as (rq & Hrun & Hrq).
  { intros e' He'. apply Hl. set_solver. }
  exists rq. split; [exact Hrun|]. intros k q Hk. destruct (Hrq k q Hk) as [|Hk']; [auto|].
  cbn in Hk'. apply lookup_insert_Some in Hk' as [[_ <-]|[_ Hk']]; auto.
Qed.

Lemma children_advanced w post m : graph_wf w → advanced (qmap_values (children w)) post (w_elems w) m →
  ∀ e, child w e → ∃ x, m !! e = Some x ∧ post (el_state x).
Proof. intros Hwf (_ & Hin & _) e [k Hk]. apply Hin, elem_of_qmap_values. eauto. Qed.
End counting.

Section initialising.
Context `{HashOrder} `{QMetaType} (beh : eptr → Behaviour).
Implicit Types w : World.

(** One round of [init] with code that returns [true]. *)
Lemma run_init_element_ok w e x : w_elems w !! e = Some x → pins_exist w x →
  offline (b_init (beh e)) = true → result (b_init (beh e)) = true → el_state x = PLE_UNDEFINED →
  ∃ x', init_element beh e w = (Ok (PlvNoError, EmptyString), set_elems (insert e x') w) ∧
    el_skeleton x' = el_skeleton x ∧ el_state x' = PLE_INITIALIZED.
Proof.
  intros Hx Hpins Hoff Hres Hs.
  destruct (run_el_init w e x _ Hx Hpins Hoff Hs) as (x' & Hrun & Hf & Hs' & _). rewrite Hres in *.
  exists x'. split; [|done]. unfold init_element, try_catch.
  erewrite run_bind by exact Hrun. erewrite run_bind by (apply run_get_elem, lookup_set_elems). done.
Qed.

(** One round with code that reports an error and returns [false]. *)
Lemma run_init_element_false w e x : w_elems w !! e = Some x → pins_exist w x →
  offline (b_init (beh e)) = true → result (b_init (beh e)) = false → el_state x = PLE_UNDEFINED →
  (∀ x0, el_errorType (offline_elem (b_init (beh e)) x0) ≠ PlvNoError) →
  ∃ x' t msg, init_element beh e w = (Ok (t, msg), set_elems (insert e x') w) ∧ t ≠ PlvNoError ∧
    el_skeleton x' = el_skeleton x ∧ el_state x' = PLE_ERROR.
Proof.
  intros Hx Hpins Hoff Hres Hs Herr.
  destruct (run_el_init w e x _ Hx Hpins Hoff Hs) as (x' & Hrun & Hf & Hs' & x0 & _ & Ht). rewrite Hres in *.
  eexists x', _, _. split.
  - unfold init_element, try_catch. erewrite run_bind by exact Hrun.
    erewrite run_bind by (apply run_get_elem, lookup_set_elems). reflexivity.
  - split_and!; [|done|done]. rewrite Ht. apply Herr.
Qed.

(** ** The loop *)

(** Elements whose [init()] returns [true]. *)
Definition inits (e : eptr) : Prop := offline (b_init (beh e)) = true ∧ result (b_init (beh e)) = true.

Lemma run_init_prefix l1 l2 acc w : graph_wf w → NoDup l1 →
  (∀ e, e ∈ l1 → inits e ∧ state_of w e = Some PLE_UNDEFINED) →
  ∃ m, init_loop beh (l1 ++ l2) acc w = init_loop beh l2 (list_to_set l1 ∪ acc) (set_elems (λ _, m) w) ∧
    advanced l1 (λ s, s = PLE_INITIALIZED) (w_elems w) m.
Proof.
  revert acc w. induction l1 as [|e l1 IH]; intros acc w Hwf Hnd Hl; cbn [app init_loop].
  { exists (w_elems w). split; [|apply advanced_nil].
    replace (list_to_set [] ∪ acc) with acc by set_solver. by destruct w. }
  apply NoDup_cons in Hnd as [He Hnd].
  destruct (Hl e) as [[Hoff Hres] Hst]; [set_solver|]. unfold state_of in Hst.
  destruct (w_elems w !! e) as [x|] eqn:Hx; [|done]. injection Hst as Hs.
  destruct (run_init_element_ok w e x Hx) as (x' & Hrun & Hf & Hs'); [by eapply pins_exist_wf|done..|].
  erewrite run_bind by exact Hrun. cbv beta iota. rewrite bool_decide_false by (by intros Hne; apply Hne).
  assert (Hg : same_graph w (set_elems (insert e x') w)).
  { unfold same_graph, skeleton. cbn. f_equal. symmetry. by eapply insert_skeleton. }
  destruct (IH ({[e]} ∪ acc) (set_elems (insert e x') w)) as (m & Hrun2 & Hadv).
  - by rewrite <-Hg.
  - done.
  - intros e' He'. destruct (Hl e') as [Hi Hs2]; [set_solver|]. split; [done|].
    unfold state_of in *. cbn. by rewrite lookup_insert_ne by (intros ->; done).
  - exists m. split.
    + rewrite Hrun2. cbn [list_to_set foldr]. f_equal. unfold list_to_set; cbn. set_solver.
    + eapply advanced_cons; [exact Hx|done|done|done|exact Hadv].
Qed.
End initialising.

Section init_outcomes.
Context `{HashOrder} `{QMetaType} (beh : eptr → Behaviour).
Context (deinit_offline : ∀ e, offline (b_deinit (beh e)) = true).
Context (deinit_ok : ∀ e, result (b_deinit (beh e)) = true).
Implicit Types w : World.

Lemma run_deinit_element e w x : el_state x = PLE_ERROR ∨ el_state x = PLE_INITIALIZED →
  w_elems w !! e = Some x →
  ∃ x', deinit_element beh e w = (Ok true, set_elems (insert e x') w) ∧
    el_skeleton x' = el_skeleton x ∧ el_state x' = PLE_UNDEFINED.
Proof using deinit_offline deinit_ok. intros Hs Hx. by apply run_ple_deinit. Qed.

(** Deinitialising a set of initialised elements. *)
Lemma run_deinit_all w l : NoDup l → (∀ e, e ∈ l → state_of w e = Some PLE_INITIALIZED) →
  ∃ m, for_each l (λ e, deinit_element beh e ;; mret tt) w = (Ok tt, set_elems (λ _, m) w) ∧
    advanced l (λ s, s = PLE_UNDEFINED) (w_elems w) m.
Proof using deinit_offline deinit_ok.
  intros Hnd Hl. apply (run_advance _ (λ s, s = PLE_INITIALIZED)); [done| |].
  - intros e He. specialize (Hl e He). unfold state_of in Hl.
    destruct (w_elems w !! e) as [x|]; [|done]. injection Hl as Hs. eauto.
  - intros e x w1 _ _ Hx Hs _ _. destruct (run_deinit_element e w1 x) as (x' & Hrun & Hx'); [auto|done|].
    exists x'. split; [|done]. by erewrite run_bind by exact Hrun.
Qed.

(** [init] when every plugin's [init()] returns [true]. *)
Lemma run_init_ok w : stopped_inv w → (∀ e, child w e → inits beh e) →
  ∃ m rq, init beh w = (Ok true, set_pipe (λ p, pl_set_heartbeatSlots (S (pl_heartbeatSlots p))
      (pl_set_readyQueue rq p)) (set_elems (λ _, m) w)) ∧
    advanced (qmap_values (children w)) (λ s, s = PLE_INITIALIZED) (w_elems w) m ∧
    (∀ k q, rq !! k = Some q → q = []).
Proof using Type.
  clear deinit_offline deinit_ok.
  intros Hst Hinits.
  destruct (run_init_prefix beh (qmap_values (children w)) [] ∅ w) as (m & Hrun & Hadv).
  - apply Hst.
  - apply NoDup_child_values, Hst.
  - intros e [k Hk]%elem_of_qmap_values. split; [apply Hinits|apply (st_states _ Hst)]; by exists k.
  - rewrite app_nil_r in Hrun. cbn [init_loop] in Hrun.
    set (w1 := set_elems (λ _, m) w). set (ini := list_to_set (qmap_values (children w)) ∪ ∅) in *.
    destruct (run_init_readyQueues w1 (set_items ini)) as (rq & Hrq & Hempty).
    { intros e He%elem_of_set_items. unfold ini in He.
      apply elem_of_union in He as [He|He]; [|set_solver]. apply elem_of_list_to_set in He.
      destruct Hadv as (_ & Hin & _). destruct (Hin e He) as (x & Hx & _). cbn. eauto. }
    exists m, rq. split_and!; [|done|].
    + unfold init. run. erewrite run_bind by exact Hrun. cbv beta iota.
      fold w1. erewrite run_bind by exact Hrq. run. reflexivity.
    + intros k q Hk. destruct (Hempty k q Hk) as [->|Hk']; [done|]. cbn in Hk'. by eapply (st_ready _ Hst).
Qed.

(** [init] when an element reports an error: everything is rolled back. *)
Lemma run_init_failed w l1 e l2 : stopped_inv w → qmap_values (children w) = l1 ++ e :: l2 →
  (∀ e', e' ∈ l1 → inits beh e') → offline (b_init (beh e)) = true → result (b_init (beh e)) = false →
  (∀ x0, el_errorType (offline_elem (b_init (beh e)) x0) ≠ PlvNoError) →
  ∃ m msg, init beh w = (Ok false, add_signal (pipelineMessage QtWarningMsg msg) (set_elems (λ _, m) w)) ∧
    same_elems (w_elems w) m ∧ ∀ e', child w e' → el_state <$> m !! e' = Some PLE_UNDEFINED.
Proof using deinit_offline deinit_ok.
  intros Hst Heq Hl1 Hoff Hres Herr.
  pose proof (NoDup_child_values w (st_wf _ Hst)) as Hnd. rewrite Heq in Hnd.
  apply NoDup_app in Hnd as (Hnd1 & Hdisj & Hnd2). apply NoDup_cons in Hnd2 as [Hel2 Hnd2].
  assert (Hund : ∀ e', e' ∈ l1 ++ e :: l2 → state_of w e' = Some PLE_UNDEFINED).
  { intros e' He'. rewrite <-Heq in He'. apply elem_of_qmap_values in He' as [k Hk].
    apply (st_states _ Hst). by exists k. }
  destruct (run_init_prefix beh l1 (e :: l2) ∅ w) as (m1 & Hrun1 & Hadv1); [apply Hst|done| |].
  { intros e' He'. split; [auto|]. apply Hund. set_solver. }
  set (w1 := set_elems (λ _, m1) w) in *.
  assert (He1 : w_elems w1 !! e = w_elems w !! e) by (apply Hadv1; set_solver).
  pose proof (Hund e ltac:(set_solver)) as Hs. unfold state_of in Hs.
  destruct (w_elems w !! e) as [x|] eqn:Hx; [|done]. injection Hs as Hs.
  assert (Hwf1 : graph_wf w1) by (apply (graph_wf_same w); [by apply same_elems_graph, Hadv1|apply Hst]).
  destruct (run_init_element_false beh w1 e x) as (x1 & t & msg & Hrun & Ht & Hf & Hs1);
    [done|by eapply pins_exist_wf|done..|].
  destruct (run_deinit_element e (set_elems (insert e x1) w1) x1) as (x2 & Hrun2 & Hf2 & Hs2);
    [auto|apply lookup_set_elems|]. rewrite set_elems_twice in Hrun2.
  set (w2 := add_signal (pipelineMessage QtWarningMsg msg) (set_elems (insert e x2) w1)).
  set (ini := list_to_set l1 ∪ ∅ : gset eptr) in *.
  destruct (run_deinit_all w2 (set_items ini)) as (m3 & Hrun3 & Hadv3).
  { apply NoDup_set_items. }
  { intros e' He'%elem_of_set_items. assert (e' ∈ l1) as Hin by (unfold ini in He'; set_solver).
    destruct Hadv1 as (_ & Hin1 & _). destruct (Hin1 e' Hin) as (x' & Hx' & Hs').
    unfold state_of, w2. cbn. rewrite lookup_insert_ne by (intros ->; by apply (Hdisj e' Hin); left).
    rewrite Hx'. cbn. by rewrite Hs'. }
  exists m3, msg. split_and!.
  - unfold init. run. rewrite Heq. erewrite run_bind; [|rewrite Hrun1; cbn [init_loop];
      erewrite run_bind by exact Hrun; cbv beta iota; rewrite bool_decide_true by done;
      erewrite run_bind by exact Hrun2;
      unfold handleMessage; run; fold w2; erewrite run_bind by exact Hrun3; reflexivity].
    reflexivity.
  - destruct Hadv1 as (S1 & _ & _), Hadv3 as (S3 & _ & _). unfold same_elems in *. rewrite S1, <-S3.
    unfold w2. cbn. symmetry. apply (insert_skeleton _ _ _ x); [exact He1|congruence].
  - intros e' [k Hk]. assert (He' : e' ∈ l1 ++ e :: l2) by (rewrite <-Heq; apply elem_of_qmap_values; eauto).
    destruct Hadv3 as (_ & Hin3 & Hout3). destruct (decide (e' ∈ set_items ini)) as [Hi|Hi].
    { destruct (Hin3 e' Hi) as (x' & -> & Hs'). cbn. by rewrite Hs'. }
    rewrite Hout3 by done. unfold w2. cbn. destruct (decide (e' = e)) as [->|Hne].
    { rewrite lookup_insert_eq. cbn. by rewrite Hs2. }
    rewrite lookup_insert_ne by done. destruct Hadv1 as (_ & _ & Hout1).
    rewrite Hout1; [by apply Hund|]. intros Hin1. apply Hi, elem_of_set_items. unfold ini. set_solver.
Qed.
End init_outcomes.
