(* ===== verification/StartTheorems.v ===== *)
(** [Pipeline::start]: the theorems. *)
From S2P Require Export StartProof.

(** ** Required pins *)

(** Every required input pin of [e] is connected (producers have none). *)
Definition satisfied (w : World) (e : eptr) : Prop :=
  ∀ x k i p, w_elems w !! e = Some x → el_kind x = KProcessor →
    el_inputPins x !! k = Some i → w_ins w !! i = Some p →
    ip_isRequired p = true → ip_isConnected p = true.

Section required.
Context `{HashOrder}.
Implicit Types w : World.

Lemma run_required w l : (∀ i, i ∈ l → is_Some (w_ins w !! i)) →
  ∃ r, for_return l (λ i, p ← get_in i ;
      mret (if ip_isRequired p && negb (ip_isConnected p) then Some false else None)) w = (Ok r, w) ∧
    (default true r = true ↔
     ∀ i p, i ∈ l → w_ins w !! i = Some p → ip_isRequired p = true → ip_isConnected p = true).
Proof.
  induction l as [|i l IH]; intros Hl; cbn [for_return].
  { exists None. split; [done|]. cbn. split; [|done]. set_solver. }
  destruct (Hl i) as [p Hp]; [set_solver|]. erewrite run_bind by (run; reflexivity). cbv beta.
  destruct (ip_isRequired p && negb (ip_isConnected p)) eqn:Ep; cbv iota.
  - exists (Some false). split; [done|]. cbn. split; [done|]. intros Hall.
    apply andb_prop in Ep as [Hr Hc]. rewrite (Hall i p) in Hc; [done|set_solver|done..].
  - destruct IH as (r & Hrun & Hspec); [set_solver|]. exists r. split; [done|]. rewrite Hspec. split.
    + intros Hall j q [->|Hj]%elem_of_cons Hq Hr; [|by eapply Hall].
      assert (q = p) as -> by congruence. rewrite Hr in Ep. by destruct (ip_isConnected p).
    + intros Hall j q Hj. apply Hall. set_solver.
Qed.

Lemma run_requiredPinsConnected w e : graph_wf w → is_Some (w_elems w !! e) →
  ∃ b, requiredPinsConnected e w = (Ok b, w) ∧ (b = true ↔ satisfied w e).
Proof.
  intros Hwf [x Hx]. unfold requiredPinsConnected. run. destruct (el_kind x) eqn:Ek.
  - exists true. split; [done|]. split; [|done]. intros _ x' k i p Hx' Hk. congruence.
  - destruct (run_required w (hash_values (el_inputPins x))) as (r & Hrun & Hspec).
    { intros i [k Hk]%elem_of_hash_values. by eapply (pins_exist_wf w e x). }
    exists (default true r). split.
    + unfold requiredInputPinsConnected. run. by erewrite run_bind by exact Hrun.
    + rewrite Hspec. split.
      * intros Hall x' k i p Hx' _ Hk. simplify_eq. apply Hall, elem_of_hash_values. eauto.
      * intros Hsat i p [k Hk]%elem_of_hash_values. by eapply Hsat.
Qed.

Lemma run_find_unconnected w l : graph_wf w → (∀ e, e ∈ l → is_Some (w_elems w !! e)) →
  ∃ r, find_unconnected l w = (Ok r, w) ∧
    match r with
    | None => ∀ e, e ∈ l → satisfied w e
    | Some e => e ∈ l ∧ ¬ satisfied w e
    end.
Proof.
  intros Hwf. induction l as [|e l IH]; intros Hl; cbn.
  { exists None. split; [done|]. set_solver. }
  destruct (run_requiredPinsConnected w e Hwf) as (b & Hrun & Hb); [apply Hl; set_solver|].
  erewrite run_bind by (erewrite run_bind by exact Hrun; reflexivity). destruct b; cbv iota.
  - destruct IH as (r & Hr & Hspec); [set_solver|]. exists r. split; [exact Hr|].
    destruct r; [set_solver|]. intros e' [->|He']%elem_of_cons; [by apply Hb|auto].
  - exists (Some e). split; [done|]. split; [set_solver|]. intros Hsat. by apply Hb in Hsat.
Qed.
End required.

#[export] Instance satisfied_proper : Proper (same_graph ==> eq ==> iff) satisfied.
Proof.
  assert (Hone : ∀ w w' e, same_graph w w' → satisfied w e → satisfied w' e).
  { intros w w' e Hs Hsat x k i p Hx Hk Hi Hp Hr. symmetry in Hs.
    destruct (same_elem _ _ _ _ Hs Hx) as (x0 & Hx0 & Hfx). destruct (same_in _ _ _ _ Hs Hp) as (p0 & Hp0 & Hfp).
    apply el_skeleton_fields in Hfx as (Hkind & _ & _ & Hins & _).
    apply ip_skeleton_fields in Hfp as (_ & _ & _ & Hcon & Hreq & _).
    unfold ip_isRequired, ip_isConnected in *. rewrite <-Hcon. rewrite <-Hreq in Hr.
    apply (Hsat x0 k i p0); [done|congruence|by rewrite Hins|done|done]. }
  intros w w' Hs e ? <-. split; apply Hone; [done|by symmetry].
Qed.

(** ** The start loop *)
Section loops.
Context `{HashOrder} `{QMetaType} (beh : eptr → Behaviour).
Implicit Types w : World.

(** Elements whose [start()] returns [true]. *)
Definition starts (e : eptr) : Prop := offline (b_start (beh e)) = true ∧ result (b_start (beh e)) = true.

Lemma run_start_prefix l1 l2 acc w : NoDup l1 →
  (∀ e, e ∈ l1 → starts e ∧ state_of w e = Some PLE_INITIALIZED) →
  ∃ m, start_loop beh (l1 ++ l2) acc w = start_loop beh l2 (list_to_set l1 ∪ acc) (set_elems (λ _, m) w) ∧
    advanced l1 (λ s, s = PLE_STARTED) (w_elems w) m.
Proof.
  revert acc w. induction l1 as [|e l1 IH]; intros acc w Hnd Hl; cbn [app start_loop].
  { exists (w_elems w). split; [|apply advanced_nil].
    replace (list_to_set [] ∪ acc) with acc by set_solver. by destruct w. }
  apply NoDup_cons in Hnd as [He Hnd].
  destruct (Hl e) as [[Hoff Hres] Hst]; [set_solver|]. unfold state_of in Hst.
  destruct (w_elems w !! e) as [x|] eqn:Hx; [|done]. injection Hst as Hs.
  destruct (run_ple_start (b_start (beh e)) e w x Hs Hx Hoff) as (x' & Hrun & Hf & Hs'). rewrite Hres in *.
  erewrite run_bind by (unfold start_element, try_catch; erewrite run_bind by exact Hrun; reflexivity).
  cbv iota.
  destruct (IH ({[e]} ∪ acc) (set_elems (insert e x') w) Hnd) as (m & Hrun2 & Hadv).
  - intros e' He'. destruct (Hl e') as [Hi Hs2]; [set_solver|]. split; [done|].
    unfold state_of in *. cbn. by rewrite lookup_insert_ne by (intros ->; done).
  - exists m. split.
    + rewrite Hrun2. f_equal. unfold list_to_set; cbn. set_solver.
    + eapply advanced_cons; [exact Hx|done|done|done|exact Hadv].
Qed.
End loops.

Section start.
Context `{HashOrder} `{QMetaType} (beh : eptr → Behaviour).
Implicit Types w : World.

(** The heap after a successful [init]. *)
Definition initialised (w : World) (m : gmap eptr Element) (rq : gmap Z (list RunItem)) : World :=
  set_pipe (λ p, pl_set_heartbeatSlots (S (pl_heartbeatSlots p)) (pl_set_readyQueue rq p))
    (set_elems (λ _, m) w).

Lemma initialised_graph w m rq : same_elems (w_elems w) m → same_graph w (initialised w m rq).
Proof. intros Hm. unfold same_graph, skeleton. cbn. by rewrite Hm. Qed.

Lemma children_nonempty w : children w ≠ ∅ → size (children w) ≠ 0%nat.
Proof. intros Hne Hs. apply Hne. by apply map_size_empty_inv. Qed.

(** [start] up to the start loop, when all elements initialise. *)
Lemma run_start_upto w : stopped_inv w → children w ≠ ∅ → (∀ e, child w e → inits beh e) →
  ∃ m rq, advanced (qmap_values (children w)) (λ s, s = PLE_INITIALIZED) (w_elems w) m ∧
    (∀ k q, rq !! k = Some q → q = []) ∧
    start beh w =
      (missing ← find_unconnected (qmap_values (children w)) ;
       match missing with
       | Some e =>
           x ← get_elem e ;
           handleMessage QtWarningMsg
             ("PipelineElement's' " +:+ el_name x +:+ " required pins are not all connected.") ;;
           deinit beh
       | None =>
           '(b, ord) ← generateGraphOrdering ;
           upd_pipe (pl_set_ordering ord) ;;
           if negb b then handleMessage QtWarningMsg "Cycle detected in pipeline graph"
           else
             '(started, error) ← start_loop beh (qmap_values (children w)) ∅ ;
             if (error : bool) then
               for_each (set_items started) (λ e, stop_element beh e ;; deinit_element beh e ;; mret tt)
             else
               upd_pipe (pl_set_heartbeatActive true) ;;
               upd_pipe (pl_set_running true) ;;
               upd_pipe (λ p, pl_set_runQueueThreshold
                 (i32 (Z.of_nat (size (pl_processors p)) + Z.of_nat (size (pl_producers p)) + 1)) p) ;;
               emit pipelineStarted
       end) (initialised w m rq).
Proof.
  intros Hst Hne Hinits. destruct (run_init_ok beh w Hst Hinits) as (m & rq & Hrun & Hadv & Hrq).
  exists m, rq. split_and!; [done|done|]. unfold start. run.
  rewrite bool_decide_false by (by apply children_nonempty).
  erewrite run_bind by exact Hrun. reflexivity.
Qed.

Lemma initialised_find w m rq : stopped_inv w →
  advanced (qmap_values (children w)) (λ s, s = PLE_INITIALIZED) (w_elems w) m →
  ∃ r, find_unconnected (qmap_values (children w)) (initialised w m rq) = (Ok r, initialised w m rq) ∧
    match r with
    | None => ∀ e, child w e → satisfied w e
    | Some e => child w e ∧ ¬ satisfied w e
    end.
Proof.
  intros Hst Hadv. assert (Hg : same_graph w (initialised w m rq)) by (apply initialised_graph, Hadv).
  destruct (run_find_unconnected (initialised w m rq) (qmap_values (children w))) as (r & Hrun & Hspec).
  - rewrite <-Hg. apply Hst.
  - intros e He. destruct Hadv as (_ & Hin & _). destruct (Hin e He) as (x & Hx & _). cbn. eauto.
  - exists r. split; [done|]. destruct r as [e|].
    + destruct Hspec as [Hin Hns]. rewrite <-Hg in Hns. split; [|done].
      apply elem_of_qmap_values in Hin as [k Hk]. by exists k.
    + intros e [k Hk]. rewrite Hg. apply Hspec, elem_of_qmap_values. eauto.
Qed.

Lemma initialised_states w m rq : graph_wf w →
  advanced (qmap_values (children w)) (λ s, s = PLE_INITIALIZED) (w_elems w) m →
  ∀ e, child w e → state_of (initialised w m rq) e = Some PLE_INITIALIZED.
Proof.
  intros Hwf Hadv e He. destruct (children_advanced _ _ _ Hwf Hadv e He) as (x & Hx & Hs).
  unfold state_of. cbn. rewrite Hx. cbn. by rewrite Hs.
Qed.

Lemma run_start w : stopped_inv w → children w ≠ ∅ → acyclic w →
  (∀ e, child w e → satisfied w e ∧ inits beh e ∧ starts beh e) →
  ∃ w', start beh w = (Ok tt, w') ∧ running_inv w' ∧ same_graph w w' ∧ runQueue w' = ∅ ∧
    pl_testCount (w_pipe w') = 0 ∧ start_order w (pl_ordering (w_pipe w')) ∧
    pl_heartbeatActive (w_pipe w') = true ∧
    pl_heartbeatSlots (w_pipe w') = S (pl_heartbeatSlots (w_pipe w)) ∧
    last (w_signals w') = Some pipelineStarted.
Proof.
  intros Hst Hne Hac Hall.
  destruct (run_start_upto w Hst Hne) as (m & rq & Hadv & Hrq & Hstart); [by intros; apply Hall|].
  destruct (initialised_find w m rq Hst Hadv) as ([e|] & Hfind & Hspec).
  { destruct Hspec as [Hc Hns]. by destruct (Hall e Hc). }
  assert (Hg1 : same_graph w (initialised w m rq)) by (apply initialised_graph, Hadv).
  destruct (run_generateGraphOrdering (initialised w m rq)) as (b & ord & Hord & Hb & Htop).
  { rewrite <-Hg1. apply Hst. }
  { done. }
  rewrite <-Hg1 in Hb. assert (b = true) as -> by (by apply Hb). specialize (Htop eq_refl). rewrite <-Hg1 in Htop.
  set (w2 := set_pipe (pl_set_ordering ord) (initialised w m rq)).
  destruct (run_start_prefix beh (qmap_values (children w)) [] ∅ w2) as (m' & Hloop & Hadv').
  { apply NoDup_child_values, Hst. }
  { intros e [k Hk]%elem_of_qmap_values. assert (child w e) as Hc by (by exists k).
    split; [by apply Hall|]. by apply (initialised_states w m rq (st_wf _ Hst) Hadv). }
  rewrite app_nil_r in Hloop. cbn [start_loop] in Hloop.
  set (w3 := set_elems (λ _, m') w2).
  assert (Hg3 : same_graph w w3).
  { transitivity (initialised w m rq); [done|]. transitivity w2; [done|].
    by apply same_elems_graph, Hadv'. }
  eexists. split; [rewrite Hstart; erewrite run_bind by exact Hfind; cbv beta iota;
    erewrite run_bind by exact Hord; cbv beta iota; run;
    cbn [negb]; fold w2; erewrite run_bind by exact Hloop; cbv iota; fold w3; run; reflexivity|].
  split_and!; [|done|apply (st_runQueue _ Hst)|apply (st_testCount _ Hst)|exact Htop|done|done|apply last_snoc].
  split; cbn.
  - apply (graph_wf_same w3); [done|]. rewrite <-Hg3. apply Hst.
  - done.
  - intros id it. by rewrite (st_runQueue _ Hst).
  - intros id e Hc _.
    destruct Hadv' as (_ & Hin & _).
    destruct (Hin e) as (x & Hx & Hs); [apply elem_of_qmap_values; by exists id|].
    unfold state_of. cbn. rewrite Hx. cbn. by rewrite Hs.
  - intros id1 id2 it1 it2. by rewrite (st_runQueue _ Hst).
  - intros f e s. by rewrite (st_jobs _ Hst).
  - intros k l Hk. by rewrite (Hrq k l Hk).
Qed.

End start.
