(* ===== verification/StartFailures.v ===== *)
(** What [start] leaves behind when it does not start the pipeline. *)
From S2P Require Export StartTheorems.

Section failures.
Context `{HashOrder} `{QMetaType} (beh : eptr → Behaviour).
Context (deinit_offline : ∀ e, offline (b_deinit (beh e)) = true).
Context (deinit_ok : ∀ e, result (b_deinit (beh e)) = true).
Implicit Types w : World.

(** ** Rollback *)

(** [deinit] of a pipeline whose elements are all initialised. *)
Lemma run_deinit w : graph_wf w → (∀ e, child w e → state_of w e = Some PLE_INITIALIZED) →
  ∃ m, deinit beh w = (Ok tt, set_pipe (pl_set_heartbeatSlots 0) (set_elems (λ _, m) w)) ∧
    advanced (qmap_values (children w)) (λ s, s = PLE_UNDEFINED) (w_elems w) m.
Proof using deinit_offline deinit_ok.
  intros Hwf Hini. unfold deinit. run.
  destruct (run_advance (λ e,
    ok ← deinit_element beh e ;
    when (negb ok)
      (x ← get_elem e ;
       when (bool_decide (el_errorType x ≠ PlvNoError))
         (handleMessage QtWarningMsg
            ("Error in PipelineElement " +:+ el_name x +:+ ": " +:+ el_errorString x))))
    (λ s, s = PLE_INITIALIZED) (λ s, s = PLE_UNDEFINED) (qmap_values (children w)) w) as (m & Hrun & Hadv).
  - by apply NoDup_child_values.
  - intros e [k Hk]%elem_of_qmap_values. specialize (Hini e (ex_intro _ k Hk)). unfold state_of in Hini.
    destruct (w_elems w !! e) as [x|]; [|done]. injection Hini as Hs. eauto.
  - intros e x w1 _ _ Hx Hs _ _.
    destruct (run_deinit_element beh deinit_offline deinit_ok e w1 x) as (x' & Hrun & Hx'); [auto|done|].
    exists x'. split; [|done]. by erewrite run_bind by exact Hrun.
  - exists m. split; [|done]. by erewrite run_bind by exact Hrun.
Qed.

(** A stopped pipeline stays one when its elements pass through other states
    and come back, and only bookkeeping fields of the pipeline differ. *)
Lemma stopped_again w w' : stopped_inv w → same_graph w w' →
  pl_running (w_pipe w') = false → runQueue w' = ∅ → w_jobs w' = ∅ →
  pl_heartbeatActive (w_pipe w') = false → pl_testCount (w_pipe w') = 0 →
  (∀ k l, readyQueue w' !! k = Some l → l = []) →
  (∀ e, child w e → state_of w' e = Some PLE_UNDEFINED) → stopped_inv w'.
Proof.
  intros Hst Hg Hr Hrq Hj Hh Ht Hready Hstates. split; try done.
  - rewrite <-Hg. apply Hst.
  - intros e He. apply Hstates. by rewrite Hg.
Qed.

(** If an element's [init()] reports an error and returns [false] (those
    before it having succeeded), [start] warns, takes back what was
    initialised and leaves a stopped pipeline: nothing is left half
    initialised and a later [start] finds what this one found. *)
Theorem start_init_error w l1 e l2 : stopped_inv w → qmap_values (children w) = l1 ++ e :: l2 →
  (∀ e', e' ∈ l1 → inits beh e') → offline (b_init (beh e)) = true → result (b_init (beh e)) = false →
  (∀ x, el_errorType (offline_elem (b_init (beh e)) x) ≠ PlvNoError) →
  ∃ w' msg, start beh w = (Ok tt, w') ∧ stopped_inv w' ∧ same_graph w w' ∧
    w_signals w' = w_signals w ++ [pipelineMessage QtWarningMsg msg].
Proof using deinit_offline deinit_ok.
  intros Hst Heq Hl1 Hoff Hres Herr.
  destruct (run_init_failed beh deinit_offline deinit_ok w l1 e l2 Hst Heq Hl1 Hoff Hres Herr)
    as (m & msg & Hrun & Hsame & Hstates).
  assert (Hne : children w ≠ ∅).
  { intros Hn. assert (Hin : e ∈ qmap_values (children w)) by (rewrite Heq; set_solver).
    apply elem_of_qmap_values in Hin as [k Hk]. by rewrite Hn in Hk. }
  assert (Hg : same_graph w (add_signal (pipelineMessage QtWarningMsg msg) (set_elems (λ _, m) w))).
  { by transitivity (set_elems (λ _, m) w); [apply same_elems_graph|]. }
  eexists _, msg. split_and!.
  - unfold start. run. rewrite bool_decide_false by (by apply children_nonempty).
    erewrite run_bind by exact Hrun. reflexivity.
  - apply (stopped_again w); [done|exact Hg|apply Hst..|exact Hstates].
  - exact Hg.
  - done.
Qed.

(** If the elements initialise but a required input pin is not
    connected, [start] warns, deinitialises every element and leaves a
    stopped pipeline over the same graph. *)
Theorem start_required_missing w e : stopped_inv w → (∀ e', child w e' → inits beh e') →
  child w e → ¬ satisfied w e →
  ∃ w' msg, start beh w = (Ok tt, w') ∧ stopped_inv w' ∧ same_graph w w' ∧
    w_signals w' = w_signals w ++ [pipelineMessage QtWarningMsg msg].
Proof using deinit_offline deinit_ok.
  intros Hst Hinits He Hns.
  assert (Hne : children w ≠ ∅) by (intros Hn; destruct He as [k Hk]; by rewrite Hn in Hk).
  destruct (run_start_upto beh w Hst Hne Hinits) as (m & rq & Hadv & Hrq & Hstart).
  assert (Hg1 : same_graph w (initialised w m rq)) by (apply initialised_graph, Hadv).
  destruct (initialised_find w m rq Hst Hadv) as ([e'|] & Hfind & Hspec); [|by destruct Hns; apply Hspec].
  destruct Hspec as [He' _].
  pose proof (initialised_states w m rq (st_wf _ Hst) Hadv) as Hini.
  destruct (w_elems (initialised w m rq) !! e') as [x|] eqn:Hx;
    [|specialize (Hini e' He'); unfold state_of in Hini; by rewrite Hx in Hini].
  set (msg := "PipelineElement's' " +:+ el_name x +:+ " required pins are not all connected.").
  set (w1 := add_signal (pipelineMessage QtWarningMsg msg) (initialised w m rq)).
  destruct (run_deinit w1) as (m' & Hdeinit & Hadv').
  { apply graph_wf_signal. rewrite <-Hg1. apply Hst. }
  { intros e0 [k Hk]. cbn in Hk. apply Hini. by exists k. }
  assert (Hg2 : same_graph w (set_elems (λ _, m') w1)).
  { transitivity (initialised w m rq); [done|]. transitivity w1; [done|]. apply same_elems_graph, Hadv'. }
  eexists _, msg. split_and!.
  - rewrite Hstart. erewrite run_bind by exact Hfind. cbv beta iota.
    erewrite run_bind by (by apply run_get_elem). run. exact Hdeinit.
  - apply (stopped_again w); [done|exact Hg2|apply Hst..| |].
    + intros k l. apply Hrq.
    + intros e0 [k Hk]. destruct Hadv' as (_ & Hin & _).
      destruct (Hin e0) as (x0 & Hx0 & Hs0); [apply elem_of_qmap_values; by exists k|].
      unfold state_of. cbn. rewrite Hx0. cbn. by rewrite Hs0.
  - exact Hg2.
  - done.
Qed.
End failures.

(** ** Failures that are not cleaned up *)
Section residue.
Context `{HashOrder} `{QMetaType} (beh : eptr → Behaviour).
Implicit Types w : World.

(** [__init] of an element that is not in PLE_UNDEFINED fails its assertion,
    which no handler of [init] catches. *)
Lemma run_init_element_stuck w e x : graph_wf w → w_elems w !! e = Some x → el_state x ≠ PLE_UNDEFINED →
  ∃ w', init_element beh e w = (Abort AssertFailed, w').
Proof.
  intros Hwf Hx Hs. unfold init_element, try_catch, el_init.
  assert (Hple : ∀ w1 x1, w_elems w1 !! e = Some x1 → el_state x1 = el_state x →
    ple_init (b_init (beh e)) e w1 = (Abort AssertFailed, w1)).
  { intros w1 x1 Hx1 Hs1. unfold ple_init. erewrite run_bind by (by apply run_getState).
    rewrite bool_decide_false by congruence. reflexivity. }
  destruct (el_kind x) eqn:Ek.
  - exists w. erewrite run_bind_abort; [done|]. run. rewrite Ek. by eapply Hple.
  - destruct (run_initInputPins w e x Hx (pins_exist_wf w e x Hwf Hx)) as (x1 & Hrun & _ & Hs1 & _).
    eexists. erewrite run_bind_abort; [reflexivity|]. run. rewrite Ek.
    erewrite run_bind by exact Hrun. eapply Hple; [apply lookup_set_elems|done].
Qed.

(** So [start] ends the program when its first element is left over from an
    earlier attempt. *)
Lemma start_stuck w e l : graph_wf w → qmap_values (children w) = e :: l →
  (∃ s, state_of w e = Some s ∧ s ≠ PLE_UNDEFINED) →
  ∃ w', start beh w = (Abort AssertFailed, w').
Proof.
  intros Hwf Heq (s & Hst & Hs). unfold state_of in Hst.
  destruct (w_elems w !! e) as [x|] eqn:Hx; [|done]. injection Hst as Hst.
  destruct (run_init_element_stuck w e x Hwf Hx) as [w' Hrun]; [congruence|].
  assert (Hne : children w ≠ ∅).
  { intros Hn. assert (Hin : e ∈ qmap_values (children w)) by (rewrite Heq; set_solver).
    apply elem_of_qmap_values in Hin as [k Hk]. by rewrite Hn in Hk. }
  exists w'. unfold start. run. rewrite bool_decide_false by (by apply children_nonempty).
  erewrite run_bind_abort; [reflexivity|]. unfold init. run. rewrite Heq. cbn [init_loop].
  erewrite run_bind_abort; [reflexivity|]. by erewrite run_bind_abort by exact Hrun.
Qed.

Lemma first_child w : children w ≠ ∅ → ∃ e l, qmap_values (children w) = e :: l ∧ child w e.
Proof.
  clear beh. intros (k & e & Hk)%map_choose.
  assert (Hin : e ∈ qmap_values (children w)) by (apply elem_of_qmap_values; eauto).
  destruct (qmap_values (children w)) as [|e0 l] eqn:Hl; [set_solver|].
  exists e0, l. split; [done|]. assert (Hin0 : e0 ∈ qmap_values (children w)) by (rewrite Hl; set_solver).
  apply elem_of_qmap_values in Hin0 as [k0 Hk0]. by exists k0.
Qed.

(** [start] on a pipeline with a cycle warns and does not start it, but
    unlike on the other errors it does not deinitialise the elements: they
    stay in PLE_INITIALIZED, and the next [start] fails the assertion of
    [__init]. *)
Theorem start_cycle_leaves_initialized w : stopped_inv w → children w ≠ ∅ → ¬ acyclic w →
  (∀ e, child w e → satisfied w e ∧ inits beh e) →
  ∃ w', start beh w = (Ok tt, w') ∧ pl_running (w_pipe w') = false ∧
    w_signals w' = w_signals w ++ [pipelineMessage QtWarningMsg "Cycle detected in pipeline graph"] ∧
    (∀ e, child w' e → state_of w' e = Some PLE_INITIALIZED) ∧
    ∃ w'', start beh w' = (Abort AssertFailed, w'').
Proof.
  intros Hst Hne Hcyc Hall.
  destruct (run_start_upto beh w Hst Hne) as (m & rq & Hadv & Hrq & Hstart); [by intros; apply Hall|].
  assert (Hg1 : same_graph w (initialised w m rq)) by (apply initialised_graph, Hadv).
  destruct (initialised_find w m rq Hst Hadv) as ([e'|] & Hfind & Hspec).
  { destruct Hspec as [Hc Hns]. by destruct (Hall e' Hc). }
  destruct (run_generateGraphOrdering (initialised w m rq)) as (b & ord & Hord & Hb & _).
  { rewrite <-Hg1. apply Hst. }
  { done. }
  rewrite <-Hg1 in Hb. assert (b = false) as -> by (destruct b; [by destruct Hcyc; apply Hb|done]).
  pose proof (initialised_states w m rq (st_wf _ Hst) Hadv) as Hini.
  set (w' := add_signal (pipelineMessage QtWarningMsg "Cycle detected in pipeline graph")
    (set_pipe (pl_set_ordering ord) (initialised w m rq))).
  assert (Hw' : ∀ e, child w' e → state_of w' e = Some PLE_INITIALIZED) by exact Hini.
  exists w'. split_and!; [|apply (st_running _ Hst)|done|exact Hw'|].
  - rewrite Hstart. erewrite run_bind by exact Hfind. cbv beta iota.
    erewrite run_bind by exact Hord. cbv beta iota. run. reflexivity.
  - destruct (first_child w' Hne) as (e & l & Heq & He).
    apply (start_stuck w' e l); [|exact Heq|eexists; split; [by apply Hw'|done]].
    apply (graph_wf_same (initialised w m rq)); [done|]. rewrite <-Hg1. apply Hst.
Qed.

(** Code that reports nothing and throws. *)
Lemma run_init_element_throws w e x ex : w_elems w !! e = Some x → pins_exist w x →
  b_init (beh e) = PThrow ex → el_state x = PLE_UNDEFINED →
  ∃ msg x', init_element beh e w = (Ok (PlvPipelineRuntimeError, msg), set_elems (insert e x') w) ∧
    el_state x' = PLE_UNDEFINED.
Proof.
  intros Hx Hpins Hthrow Hs. unfold init_element, try_catch, el_init. rewrite Hthrow.
  assert (Hple : ∀ w1 x1, w_elems w1 !! e = Some x1 → el_state x1 = PLE_UNDEFINED →
    ple_init (PThrow ex) e w1 = (Throw ex, w1)).
  { intros w1 x1 Hx1 Hs1. unfold ple_init. erewrite run_bind by (by apply run_getState).
    rewrite bool_decide_true by done. by run. }
  destruct (el_kind x) eqn:Ek.
  - erewrite run_bind_throw by (run; rewrite Ek; by eapply Hple). run.
    exists (if is_plv_exception ex
      then "Exception caught in PipelineElement " +:+ el_name x +:+ ": " +:+ exn_text ex
      else "Unknown exception caught in PipelineElement " +:+ el_name x), x.
    split; [|done]. replace (set_elems (insert e x) w) with w
      by (unfold set_elems; rewrite insert_id by done; by destruct w).
    by destruct (is_plv_exception ex).
  - destruct (run_initInputPins w e x Hx Hpins) as (x1 & Hrun & _ & Hs1 & _).
    erewrite run_bind_throw; [|run; rewrite Ek; erewrite run_bind by exact Hrun; eapply Hple;
      [apply lookup_set_elems|congruence]].
    cbv beta iota. erewrite run_bind by (apply run_get_elem, lookup_set_elems).
    exists (if is_plv_exception ex
      then "Exception caught in PipelineElement " +:+ el_name x1 +:+ ": " +:+ exn_text ex
      else "Unknown exception caught in PipelineElement " +:+ el_name x1), x1.
    split; [|congruence]. by destruct (is_plv_exception ex).
Qed.

(** An exception in an element's [init()] is caught, but the clean-up
    that follows calls [__deinit] on that element, whose assertion (state
    PLE_ERROR or PLE_INITIALIZED) fails because the state is still
    PLE_UNDEFINED: the program ends. *)
Theorem start_init_exception_aborts w l1 e l2 ex : stopped_inv w →
  qmap_values (children w) = l1 ++ e :: l2 → (∀ e', e' ∈ l1 → inits beh e') →
  b_init (beh e) = PThrow ex → ∃ w', start beh w = (Abort AssertFailed, w').
Proof.
  intros Hst Heq Hl1 Hthrow.
  pose proof (NoDup_child_values w (st_wf _ Hst)) as Hnd. rewrite Heq in Hnd.
  apply NoDup_app in Hnd as (Hnd1 & Hdisj & Hnd2).
  assert (Hund : ∀ e', e' ∈ l1 ++ e :: l2 → child w e' ∧ state_of w e' = Some PLE_UNDEFINED).
  { intros e' He'. rewrite <-Heq in He'. apply elem_of_qmap_values in He' as [k Hk].
    split; [by exists k|]. apply (st_states _ Hst). by exists k. }
  destruct (run_init_prefix beh l1 (e :: l2) ∅ w) as (m1 & Hrun1 & Hadv1); [apply Hst|done| |].
  { intros e' He'. split; [auto|]. apply Hund. set_solver. }
  set (w1 := set_elems (λ _, m1) w) in *.
  destruct (Hund e ltac:(set_solver)) as [Hc Hs]. unfold state_of in Hs.
  destruct (w_elems w !! e) as [x|] eqn:Hx; [|done]. injection Hs as Hs.
  assert (Hx1 : w_elems w1 !! e = Some x).
  { destruct Hadv1 as (_ & _ & Hout). cbn. rewrite Hout; [done|]. intros Hin. apply (Hdisj e Hin). by left. }
  assert (Hwf1 : graph_wf w1) by (apply (graph_wf_same w); [by apply same_elems_graph, Hadv1|apply Hst]).
  destruct (run_init_element_throws w1 e x ex Hx1 (pins_exist_wf w1 e x Hwf1 Hx1) Hthrow Hs)
    as (msg & x' & Hrun & Hs').
  assert (Hne : children w ≠ ∅) by (intros Hn; destruct Hc as [k Hk]; by rewrite Hn in Hk).
  eexists. unfold start. run. rewrite bool_decide_false by (by apply children_nonempty).
  erewrite run_bind_abort; [reflexivity|]. unfold init. run. rewrite Heq.
  erewrite run_bind_abort; [reflexivity|]. rewrite Hrun1. cbn [init_loop]. erewrite run_bind by exact Hrun. cbv beta iota.
  rewrite bool_decide_true by done. erewrite run_bind_abort; [reflexivity|].
  unfold deinit_element, ple_deinit. erewrite run_bind by (apply run_getState, lookup_set_elems).
  rewrite Hs'. reflexivity.
Qed.
End residue.
