(* ===== verification/ScheduleProof.v ===== *)
(** [Pipeline::schedule] and the life of a running pipeline. *)
From S2P Require Export StartFailures.

Section schedule.
Context `{HashOrder} `{QMetaType} (beh : eptr → Behaviour).
Implicit Types w : World.

Definition enter (w : World) : World := set_pipe (λ p, pl_set_testCount (pl_testCount p + 1) p) w.

(** The scheduler may be entered: it runs, and no other call is in it. *)
Definition ready_to_schedule (w : World) : Prop := running_inv w ∧ pl_testCount (w_pipe w) = 0.

Lemma enter_inv w : ready_to_schedule w → running_inv (enter w) ∧ pl_testCount (w_pipe (enter w)) = 1.
Proof. intros [Hinv Ht]. split; [by apply running_inv_pipe|]. cbn. by rewrite Ht. Qed.

(** One call whose collected futures all succeeded. *)
Lemma run_schedule_ok w ready elapsed pl fuel : ready_to_schedule w →
  (∀ id it, runQueue w !! id = Some it → w_futures w !! ri_result it ≠ Some false) →
  ∃ w', schedule beh ready elapsed pl fuel w = (Ok tt, w') ∧ ready_to_schedule w' ∧
    same_graph w w' ∧ ∀ k, attended w' k.
Proof.
  intros Hw Hok. destruct (enter_inv w Hw) as [Hinv0 Ht0].
  destruct (run_collect (enter w) Hinv0) as (r & w1 & Hcol & Hinv1 & Hsc1 & _ & Hr).
  assert (r = None) as -> by (apply Hr; exact Hok).
  destruct (run_dispatch_processors w1 Hinv1) as (w2 & Hdis & Hinv2 & Hsc2 & Hatt).
  destruct (run_run_producers w2 ready elapsed Hinv2) as (w3 & Hprod & Hinv3 & Hg3 & Ht3 & Hready3 & Hrq3).
  assert (Ht2 : pl_testCount (w_pipe w2) = 1) by (by rewrite (sc_pipe _ _ Hsc2), (sc_pipe _ _ Hsc1)).
  set (w' := set_pipe (λ p, pl_set_testCount (pl_testCount p - 1) p) w3).
  assert (Ht' : pl_testCount (w_pipe w') = 0) by (cbn; by rewrite Ht3, Ht2).
  exists w'. split_and!.
  - unfold schedule. run. fold (enter w). run. rewrite Ht0. run.
    erewrite run_bind by exact Hcol. cbv beta iota.
    erewrite run_bind by exact Hdis. erewrite run_bind by exact Hprod. run. fold w'. run. by rewrite Ht'.
  - split; [by apply running_inv_pipe|done].
  - transitivity (enter w); [done|]. etrans; [apply (sc_graph _ _ Hsc1)|].
    etrans; [apply (sc_graph _ _ Hsc2)|]. etrans; [exact Hg3|done].
  - intros k it rest. cbn. rewrite Hready3. intros Hk. by eapply Hrq3, Hatt.
Qed.


Context (stop_offline : ∀ e, offline (b_stop (beh e)) = true).
Context (deinit_offline : ∀ e, offline (b_deinit (beh e)) = true).
Context (deinit_ok : ∀ e, result (b_deinit (beh e)) = true).


(** ** Life cycle *)

(** The steps of a running pipeline: a heartbeat, or a worker executing a
    dispatched job, with any plugin code. *)
Inductive tick : World → World → Prop :=
| tick_schedule w w' ready elapsed pl fuel :
    (∀ id it, runQueue w !! id = Some it → w_futures w !! ri_result it ≠ Some false) →
    schedule beh ready elapsed pl fuel w = (Ok tt, w') → tick w w'
| tick_job w w' f body : run_job f body w = (Ok tt, w') → tick w w'.

Lemma tick_inv w w' : ready_to_schedule w → tick w w' → ready_to_schedule w' ∧ same_graph w w'.
Proof using Type.
  clear stop_offline deinit_offline deinit_ok.
  intros Hw Hstep. revert Hw.
  destruct Hstep as [w1 w1' ready elapsed pl fuel Hok Hrun|w1 w1' f body Hrun]; intros Hw.
  - destruct (run_schedule_ok w1 ready elapsed pl fuel Hw Hok) as (w2 & Hrun2 & Hw2 & Hg & _).
    assert (w2 = w1') as -> by congruence. done.
  - destruct Hw as [Hinv Ht]. pose proof (run_job_waiting _ _ _ _ Hinv Hrun) as [Hg Hp].
    split; [split; [by eapply run_job_inv|by rewrite Hp]|done].
Qed.

Lemma ticks_inv w w' : ready_to_schedule w → rtc tick w w' → ready_to_schedule w' ∧ same_graph w w'.
Proof using Type.
  clear stop_offline deinit_offline deinit_ok.
  intros Hw Hsteps. induction Hsteps as [w|w w2 w3 Hstep _ IH]; [done|].
  destruct (tick_inv _ _ Hw Hstep) as [Hw2 Hg2]. destruct (IH Hw2). split; [done|]. by etrans.
Qed.

End schedule.
