(* ===== verification/Typing.v ===== *)
(** The data on the connections of a running pipeline have the types of the
    pins: InputPin<T>::get (InputPin.h) never fails to convert what it reads. *)
From S2P Require Export ScheduleProof.

(** ** InputPin<T>::get

    Qt's conversions between variants. *)
Class QtConversions := {
  canConvert : QVariant → Z → bool;
  value : QVariant → Z → QVariant   (** [value<T>()]: the default of [T] when there is no conversion *)
}.
Class QtConversionLaws `{QtConversions} := {
  canConvert_self v : canConvert v (userType v) = true;
  value_self v : value v (userType v) = v
}.

Definition in_get `{QtConversions} (i : iptr) : W QVariant :=
  v ← in_getVariant i ;
  p ← get_in i ;
  when (negb (canConvert v (ip_typeId p))) (emit (pinError i "Type conversion error")) ;;
  mret (value v (ip_typeId p)).

(** ** Typed queues *)
Definition payloads (q : list Data) : list QVariant := omap d_payload q.

Definition typed (w : World) : Prop := ∀ c x o po v,
  w_conns w !! c = Some x → pc_producer x = Some o → w_outs w !! o = Some po → v ∈ payloads (pc_queue x) →
  userType v = op_typeId po.

(** What [OutputPin<T>::put] asks of plug-in code at compile time: it puts
    values of the type of the pin. *)
Fixpoint prog_typed (ty : optr → option Z) (p : Prog) : Prop :=
  match p with
  | PReturn _ | PThrow _ => True
  | PSetError _ _ k | PClear _ k => prog_typed ty k
  | PGet _ k => ∀ v, prog_typed ty (k v)
  | PHasData _ k => ∀ b, prog_typed ty (k b)
  | PPut o v k => (∀ t, ty o = Some t → userType v = t) ∧ prog_typed ty k
  end.
Definition out_types (w : World) (o : optr) : option Z := op_typeId <$> w_outs w !! o.

(** Calls that leave the graph alone and put typed data only. *)
Definition keeps (w w' : World) : Prop := same_graph w w' ∧ (typed w → typed w').
#[export] Instance keeps_preorder : PreOrder keeps.
Proof. split; [by split|]. intros w1 w2 w3 [G1 T1] [G2 T2]. split; [by etrans|auto]. Qed.

Lemma out_types_same w w' o : same_graph w w' → out_types w' o = out_types w o.
Proof.
  intros Hs. unfold out_types. pose proof (skeleton_out w' o) as H1. rewrite <-Hs, skeleton_out in H1.
  destruct (w_outs w !! o), (w_outs w' !! o); try done. injection H1. intros. cbn. by f_equal.
Qed.

(** ** Rules *)
Section rules.
Implicit Types w : World.

Lemma keeps_conns w w' : same_graph w w' → w_conns w' = w_conns w → keeps w w'.
Proof.
  intros Hs Hc. split; [done|]. intros Ht c x o po v Hx Ho Hpo Hv. rewrite Hc in Hx.
  pose proof (out_types_same _ _ o Hs) as Hty. unfold out_types in Hty. rewrite Hpo in Hty. cbn in Hty.
  destruct (w_outs w !! o) as [po'|] eqn:Hpo'; [|done]. cbn in Hty. injection Hty as ->. by eapply Ht.
Qed.
Lemma keeps_works P w w' : works_as P w w' → w_conns w' = w_conns w → keeps w w'.
Proof. intros Hw. by apply keeps_conns, Hw. Qed.

Lemma keeps_queue w c x q : w_conns w !! c = Some x →
  (∀ v, v ∈ payloads q → v ∈ payloads (pc_queue x) ∨ ∀ o po, pc_producer x = Some o → w_outs w !! o = Some po → userType v = op_typeId po) →
  keeps w (set_conns (insert c (pc_set_queue q x)) w).
Proof.
  intros Hx Hq. split; [by apply (wa_graph (λ _, True)), (works_as_conn _ _ _ x)|].
  intros Ht c' x' o po v Hx' Ho Hpo Hv. cbn in Hx'. destruct (decide (c' = c)) as [->|Hne].
  - rewrite lookup_insert_eq in Hx'. injection Hx' as <-. destruct (Hq v Hv) as [Hin|Hty]; [by eapply Ht|by eapply Hty].
  - rewrite lookup_insert_ne in Hx' by done. by eapply Ht.
Qed.

Abbreviation kp := (frames keeps).
Lemma kp_upd_elem e f w : (∀ x, el_skeleton (f x) = el_skeleton x) → kp (upd_elem e f) w.
Proof.
  intros Hf. apply (gframes_deref keeps). intros x Hx. apply frames_modify.
  apply (keeps_works (λ _, True)); [|done]. eapply works_as_elem; [done|apply Hf|by left].
Qed.
Lemma kp_upd_in i f w : (∀ p, ip_set_called false (f p) = ip_set_called false p) → kp (upd_in i f) w.
Proof.
  intros Hf. apply (gframes_deref keeps). intros x Hx. apply frames_modify.
  apply (keeps_works (λ _, True)); [|done]. by eapply works_as_in.
Qed.
Lemma kp_upd_out o f w : (∀ p, op_set_called false (f p) = op_set_called false p) → kp (upd_out o f) w.
Proof.
  intros Hf. apply (gframes_deref keeps). intros x Hx. apply frames_modify.
  apply (keeps_works (λ _, True)); [|done]. by eapply works_as_out.
Qed.
Lemma kp_emit s w : kp (emit s) w.
Proof. apply frames_modify, keeps_conns; done. Qed.
Lemma kp_upd_pipe f w : (∀ p, pipe_skeleton (f p) = pipe_skeleton p) → kp (upd_pipe f) w.
Proof.
  intros Hf. apply frames_modify, keeps_conns; [|done]. unfold same_graph, skeleton. cbn. by rewrite Hf.
Qed.
Lemma kp_modify_jobs js fs w : kp (modify (set_jobs js fs)) w.
Proof. apply frames_modify, keeps_conns; done. Qed.
End rules.

(** One rule, chosen by the shape of the call. *)
Create HintDb keeps.
#[export] Hint Resolve kp_emit gframes_deref_only kp_modify_jobs : keeps.
Ltac kp_prim :=
  idtac; lazymatch goal with
  | |- frames _ (emit _) _ => apply kp_emit
  | |- frames _ (upd_in _ _) _ => apply kp_upd_in; intros ?; reflexivity
  | |- frames _ (upd_out _ _) _ => apply kp_upd_out; intros ?; reflexivity
  | |- frames _ (upd_elem _ _) _ => apply kp_upd_elem; intros ?; reflexivity
  | |- frames _ (upd_pipe _) _ => apply kp_upd_pipe; intros ?; reflexivity
  | |- _ => solve [eauto 3 with keeps]
  end.
Ltac kp_step := gframe_step keeps kp_prim.
Ltac kp := repeat (progress cbn beta iota || kp_step).

(** ** The calls of a running element *)
Section calls.
Context `{HashOrder}.
Implicit Types w : World.
Abbreviation kp := (frames keeps).

Lemma kp_set_state e s w : kp (el_setState e s) w.
Proof. unfold el_setState. kp. Qed.
Lemma kp_setError e t m w : kp (el_setError e t m) w.
Proof. unfold el_setError, el_setState. kp. Qed.
Lemma kp_throw_empty {A} m x w : kp (conn_throw_empty m x : W A) w.
Proof. unfold conn_throw_empty, owner_name_out, owner_name_in. kp. Qed.
Lemma kp_conn_get c w : kp (conn_get c) w.
Proof.
  unfold conn_get. kp_step. destruct (pc_queue x) as [|d q] eqn:Hq; [apply kp_throw_empty|].
  frame_rule @frames_bind; [|intros; kp]. unfold upd_conn. kp_step. simplify_eq.
  apply frames_modify, keeps_queue; [done|]. intros v Hv. left. rewrite Hq. unfold payloads in *. cbn.
  destruct (d_payload d); [by right|done].
Qed.
Lemma kp_conn_peekNext c w : kp (conn_peekNext c) w.
Proof. unfold conn_peekNext. kp. all: apply kp_throw_empty. Qed.
Lemma kp_in_hasDataItems i w : kp (in_hasDataItems i) w.
Proof. unfold in_hasDataItems, conn_hasDataItems. kp. Qed.
Lemma kp_in_peekNext i w : kp (in_peekNext i) w.
Proof. unfold in_peekNext. kp. apply kp_conn_peekNext. Qed.
#[local] Hint Resolve kp_set_state kp_setError kp_conn_get kp_in_hasDataItems kp_in_peekNext : keeps.
Lemma kp_in_hasData i w : kp (in_hasData i) w.
Proof. unfold in_hasData. kp. Qed.
Lemma kp_in_take_guard i a b w : kp (in_take_guard i a b) w.
Proof. unfold in_take_guard. kp. Qed.
Lemma kp_in_removeFirst i w : kp (in_removeFirst i) w.
Proof. unfold in_removeFirst. kp. Qed.
#[local] Hint Resolve kp_in_take_guard kp_in_removeFirst : keeps.
Lemma kp_in_clear i w : kp (in_clear i) w.
Proof. unfold in_clear. kp. Qed.
Lemma kp_in_getVariant i w : kp (in_getVariant i) w.
Proof. unfold in_getVariant. kp. Qed.
Lemma kp_newData e i serial w : kp (newData e i serial) w.
Proof. unfold newData, pipelineDataConsumerReady. kp. Qed.
#[local] Hint Resolve kp_in_clear kp_in_getVariant kp_in_hasData kp_newData : keeps.

(** Putting an item that the connection may carry. *)
Lemma kp_conn_put c d w :
  (∀ x o po v, w_conns w !! c = Some x → pc_producer x = Some o → w_outs w !! o = Some po → d_payload d = Some v → userType v = op_typeId po) →
  kp (conn_put c d) w.
Proof.
  intros Hd. unfold conn_put. kp_step. frame_rule @frames_bind; [|intros; unfold in_acceptData; kp].
  unfold upd_conn. kp_step. simplify_eq. apply frames_modify, keeps_queue; [done|].
  intros v Hv. unfold payloads in Hv. rewrite omap_app in Hv. apply elem_of_app in Hv as [Hv|Hv]; [by left|].
  right. intros o po Ho Hpo. cbn in Hv. destruct (d_payload d) as [v'|] eqn:Hv'; [|by apply not_elem_of_nil in Hv].
  apply list_elem_of_singleton in Hv as ->. by eapply Hd.
Qed.
End calls.
#[export] Hint Resolve kp_set_state kp_setError kp_conn_get kp_in_hasDataItems kp_in_peekNext kp_in_take_guard
  kp_in_removeFirst kp_in_clear kp_in_getVariant kp_in_hasData kp_newData : keeps.

Section programs.
Context `{HashOrder}.
Implicit Types w : World.
Abbreviation kp := (frames keeps).

Lemma wf_keeps w w' : keeps w w' → graph_wf w → graph_wf w'.
Proof. intros [Hs _]. by rewrite Hs. Qed.

(** What may be put on every connection of an output pin. *)
Lemma kp_put_all w o p (body : cptr → W unit) : graph_wf w → w_outs w !! o = Some p →
  (∀ c w', keeps w w' → (∀ x, w_conns w' !! c = Some x → pc_producer x = Some o) → kp (body c) w') →
  kp (for_each (op_connections p) body) w.
Proof.
  intros Hwf Hp Hbody. frame_rule @frames_for_each. intros c w' Hc Hw. apply Hbody; [done|].
  intros x Hx. destruct (wf_outputs _ Hwf _ _ _ Hp Hc) as (x0 & Hx0 & Ho & _).
  destruct (same_conn _ _ _ _ (proj1 Hw) Hx0) as (x' & Hx' & Hf). apply pc_skeleton_fields in Hf as (_ & Hprod & _). congruence.
Qed.

Lemma kp_out_putVariant w o serial v : graph_wf w → (∀ t, out_types w o = Some t → userType v = t) →
  kp (out_putVariant o serial v) w.
Proof.
  intros Hwf Hty. unfold out_putVariant. kp_step. kp_step.
  do 3 (frame_rule @frames_bind; [kp|intros ? ? _ ?]).
  match goal with |- kp _ ?w3 => assert (Hw : keeps w w3) by (by etrans; [|etrans]) end.
  destruct (same_out _ _ _ _ (proj1 Hw) H0) as (p3 & Hp3 & Hf).
  pose proof (op_skeleton_fields _ _ Hf) as (_ & _ & _ & <-).
  eapply kp_put_all; [by eapply wf_keeps|exact Hp3|]. intros c w' Hw' Hprod. apply kp_conn_put.
  intros x' o' po v' Hx Ho Hpo [= <-]. rewrite (Hprod _ Hx) in Ho. injection Ho as <-.
  apply Hty. rewrite <-(out_types_same w w') by (by etrans; [apply Hw|apply Hw']). unfold out_types. by rewrite Hpo.
Qed.

Lemma kp_out_post w o : graph_wf w → kp (out_post o) w.
Proof.
  intros Hwf. unfold out_post. kp_step. kp_step. kp_step. eapply kp_put_all; [done..|].
  intros c w' Hw' Hprod. unfold conn_isSynchronous. kp_step; [kp|]. kp_step. by apply kp_conn_put.
Qed.

Lemma prog_typed_ext ty ty' p : (∀ o, ty o = ty' o) → prog_typed ty p → prog_typed ty' p.
Proof.
  intros Hty. induction p as [b|x|t m k IH|i k IH|i k IH|i k IH|o v k IH]; cbn; auto.
  intros [Hv Hk]. split; [intros t Ht; apply Hv; by rewrite Hty|auto].
Qed.

Lemma kp_run_prog e p : ∀ w, graph_wf w → prog_typed (out_types w) p → kp (run_prog e p) w.
Proof.
  induction p as [b|x|t m k IH|i k IH|i k IH|i k IH|o v k IH]; intros w Hwf Hp; cbn in *; [kp|kp|..];
    (frame_rule @frames_bind; [|intros ? w1 _ Hw1;
      apply IH; [by eapply wf_keeps|eapply prog_typed_ext; [intros o'; symmetry; apply out_types_same, Hw1|]; by try apply Hp]]).
  - kp.
  - kp.
  - kp.
  - kp.
  - unfold out_put. kp_step. kp_step. apply kp_out_putVariant; [done|apply Hp].
Qed.

Lemma kp_each_out (body : optr → W unit) w l : graph_wf w →
  (∀ o w', graph_wf w' → kp (body o) w') → kp (for_each l body) w.
Proof. intros Hwf Hbody. frame_rule @frames_for_each. intros o w' _ Hw. apply Hbody. by eapply wf_keeps. Qed.
Lemma kp_preOutput w e : graph_wf w → kp (preOutput e) w.
Proof. intros Hwf. unfold preOutput. kp_step. apply kp_each_out; [done|]. intros o w' _. unfold out_pre. kp. Qed.
Lemma kp_postOutput w e : graph_wf w → kp (postOutput e) w.
Proof. intros Hwf. unfold postOutput. kp_step. apply kp_each_out; [done|]. intros o w' Hwf'. by apply kp_out_post. Qed.
Lemma kp_pre_inputs l : ∀ acc w, kp (pre_inputs l acc) w.
Proof.
  induction l as [|i l IH]; intros acc w; cbn; [kp|]. kp_step.
  frame_rule @frames_bind; [kp|intros]. frame_rule @frames_bind; [unfold in_pre; kp|intros]. apply IH.
Qed.
Lemma kp_preInput e w : kp (preInput e) w.
Proof. unfold preInput. kp_step. apply kp_pre_inputs. Qed.
Lemma kp_flushFirst e w : kp (flushFirstOnSynchronousPins e) w.
Proof. unfold flushFirstOnSynchronousPins. kp_step. frame_rule @frames_for_each. intros i w' _ _. kp. Qed.
Lemma kp_requiredPins e w : kp (requiredPinsConnected e) w.
Proof.
  assert (Hloop : ∀ l w, kp (for_return l (λ i, p ← get_in i ;
    mret (if ip_isRequired p && negb (ip_isConnected p) then Some false else None))) w).
  { induction l as [|i l IH]; intros w'; cbn; [kp|].
    frame_rule @frames_bind; [kp|intros r w1 _ _]. destruct r; [kp|apply IH]. }
  unfold requiredPinsConnected, requiredInputPinsConnected. kp_step. destruct (el_kind _); [kp|].
  kp_step. frame_rule @frames_bind; [apply Hloop|intros; kp].
Qed.
#[local] Hint Resolve kp_preInput kp_flushFirst kp_requiredPins : keeps.

(** ** Processing and running *)
Ltac seq := frame_rule @frames_bind; [|intros ? ? _ ?].
(** The heap is still well formed, and the program still typed in it. *)
Ltac later := repeat match goal with
  | |- graph_wf _ => assumption
  | H : keeps ?w ?w' |- graph_wf ?w' => apply (wf_keeps w w' H)
  | H : keeps ?w ?w' |- prog_typed (out_types ?w') _ =>
      apply (prog_typed_ext (out_types w)); [intros ?; symmetry; apply out_types_same, H|]
  end; try assumption.

Lemma kp_producer_process body e serial w : graph_wf w → prog_typed (out_types w) body → kp (producer_process body e serial) w.
Proof.
  intros Hwf Hp. unfold producer_process. kp_step. seq; [kp|]. seq; [kp|].
  seq; [apply kp_preOutput; later|]. seq; [apply kp_run_prog; later|]. seq; [apply kp_postOutput; later|].
  kp.
Qed.
Lemma kp_processor_process body e serial w : graph_wf w → prog_typed (out_types w) body → kp (processor_process body e serial) w.
Proof.
  intros Hwf Hp. unfold processor_process. seq; [kp|]. seq; [kp|]. seq; [unfold el_getState; kp|]. seq; [kp|]. seq; [kp|]. seq; [kp|].
  case_match.
  - seq; [kp|]. seq; [apply kp_preOutput; later|]. seq; [apply kp_postOutput; later|kp].
  - seq; [apply kp_preOutput; later|]. seq; [apply kp_run_prog; later|]. seq; [unfold postInput; kp|].
    seq; [apply kp_postOutput; later|kp].
Qed.
Lemma kp_el_process body e serial w : graph_wf w → prog_typed (out_types w) body → kp (el_process body e serial) w.
Proof.
  intros Hwf Hp. unfold el_process. kp_step. destruct (el_kind _); [by apply kp_producer_process|by apply kp_processor_process].
Qed.
Lemma kp_el_run body e serial w : graph_wf w → prog_typed (out_types w) body → kp (el_run body e serial) w.
Proof.
  intros Hwf Hp. unfold el_run. seq; [unfold el_getState; kp|]. seq; [kp|]. seq; [kp|].
  seq; [|destruct a2; [|kp]; seq; [unfold el_getState; kp|kp]].
  frame_rule @frames_try; [|intros; kp]. seq; [apply kp_el_process; later|kp].
Qed.
Lemma kp_run_job f body w : graph_wf w → prog_typed (out_types w) body → kp (run_job f body) w.
Proof.
  intros Hwf Hp. unfold run_job. seq; [kp|]. seq; [kp|]. destruct (_ !! f) as [[e serial]|]; [|kp].
  seq; [kp|]. seq; [apply kp_el_run; later|]. kp.
Qed.
End programs.

(** ** A heartbeat leaves the connections alone *)
Section heartbeat.
Context `{HashOrder} `{QMetaType} (beh : eptr → Behaviour).
Implicit Types w : World.

Definition same_conns (w w' : World) : Prop := w_conns w' = w_conns w.
#[local] Instance same_conns_preorder : PreOrder same_conns.
Proof. unfold same_conns. split; [done|]. intros ? ? ? ? ?. congruence. Qed.
Abbreviation sc := (frames same_conns).

Lemma sc_upd_elem e f w : sc (upd_elem e f) w.
Proof. apply (gframes_deref same_conns). intros x _. by apply frames_modify. Qed.
Lemma sc_upd_pipe f w : sc (upd_pipe f) w.
Proof. by apply frames_modify. Qed.
Lemma sc_emit s w : sc (emit s) w.
Proof. by apply frames_modify. Qed.
Lemma sc_modify_jobs js fs w : sc (modify (set_jobs js fs)) w.
Proof. by apply frames_modify. Qed.
Ltac sc_step :=
  lazymatch goal with
  | |- frames _ (get_elem _ ≫= _) _ => apply (gframes_deref same_conns); intros ? ?
  | |- frames _ (get_conn _ ≫= _) _ => apply (gframes_deref same_conns); intros ? ?
  | |- frames _ (get_pipe ≫= _) _ => apply (gframes_pipe same_conns)
  | |- frames _ (_ ≫= _) _ => frame_rule @frames_bind; [|intros ? ? ? ?]
  | |- frames _ (mret _) _ => frame_rule @frames_ret
  | |- frames _ (assert _) _ => frame_rule @frames_assert
  | |- frames _ (gets _) _ => frame_rule @frames_gets
  | |- frames _ (when _ _) _ => frame_rule @frames_when; intros ?
  | |- frames _ (for_each _ _) _ => frame_rule @frames_for_each; intros ? ? _ _
  | |- frames _ (upd_elem _ _) _ => apply sc_upd_elem
  | |- frames _ (upd_pipe _) _ => apply sc_upd_pipe
  | |- frames _ (emit _) _ => apply sc_emit
  | |- frames _ (modify (set_jobs _ _)) _ => apply sc_modify_jobs
  | |- frames _ (if ?b then _ else _) _ => destruct b eqn:?
  | |- frames _ (match ?x with _ => _ end) _ => destruct x eqn:?
  | |- frames _ _ _ => solve [eauto 3]
  end.
Ltac sc := repeat (progress cbn beta iota || sc_step).

Lemma sc_for_return {A R} (body : A → W (option R)) l : (∀ x w, sc (body x) w) → ∀ w, sc (for_return l body) w.
Proof.
  intros Hb. induction l as [|x l IH]; intros w; cbn; [sc|]. frame_rule @frames_bind; [apply Hb|]. intros [r|] w1 _ _; [sc|apply IH].
Qed.
Lemma sc_dispatch it w : sc (dispatch it) w.
Proof. unfold dispatch, concurrent_run, el_getState, el_setState. sc. Qed.
Lemma sc_collect w : sc collect w.
Proof.
  unfold collect. sc_step. apply sc_for_return. intros [id item] w'. unfold el_setState. sc.
Qed.
#[local] Hint Resolve sc_dispatch : core.
Lemma sc_dispatch_processors w : sc dispatch_processors w.
Proof. unfold dispatch_processors, dispatch_first. sc. Qed.
Lemma sc_max_size l : ∀ acc w, sc (max_size l acc) w.
Proof. induction l as [|c l IH]; intros acc w; cbn; unfold conn_size; sc; apply IH. Qed.
Lemma sc_all_ready ready l : ∀ acc w, sc (all_ready ready l acc) w.
Proof. induction l as [|e l IH]; intros acc w; cbn; unfold producer_ready, el_getState; sc; apply IH. Qed.
#[local] Hint Resolve sc_max_size sc_all_ready : core.
Lemma sc_run_producers ready elapsed w : sc (run_producers ready elapsed) w.
Proof. unfold run_producers, dispatch_producer, count_frame. sc. Qed.

Lemma schedule_keeps w ready elapsed pl fuel w' : ready_to_schedule w →
  (∀ id it, runQueue w !! id = Some it → w_futures w !! ri_result it ≠ Some false) →
  schedule beh ready elapsed pl fuel w = (Ok tt, w') → w_conns w' = w_conns w.
Proof.
  intros Hw Hok. destruct (enter_inv w Hw) as [Hinv0 Ht0].
  destruct (run_collect (enter w) Hinv0) as (r & w1 & Hcol & _ & _ & _ & Hr).
  assert (r = None) as -> by (apply Hr; exact Hok).
  unfold schedule. run. fold (enter w). run. rewrite Ht0. run. erewrite run_bind by exact Hcol. cbv beta iota.
  intros Hrest. pose proof (sc_collect (enter w)) as H1. unfold frames in H1. rewrite Hcol in H1. cbn in H1.
  match type of Hrest with ?m _ = _ => assert (H2 : sc m w1) by (sc; auto using sc_dispatch_processors, sc_run_producers) end.
  unfold frames in H2. rewrite Hrest in H2. cbn in H2. unfold same_conns in *. by rewrite H2, H1.
Qed.

(** ** Typed pipelines *)

(** The steps of a running pipeline whose plug-ins put values of the types of
    their pins. *)
Inductive typed_tick : World → World → Prop :=
| typed_tick_schedule w w' ready elapsed pl fuel :
    (∀ id it, runQueue w !! id = Some it → w_futures w !! ri_result it ≠ Some false) →
    schedule beh ready elapsed pl fuel w = (Ok tt, w') → typed_tick w w'
| typed_tick_job w w' f body : prog_typed (out_types w) body → run_job f body w = (Ok tt, w') → typed_tick w w'.

Lemma typed_tick_keeps w w' : ready_to_schedule w → typed w → typed_tick w w' → ready_to_schedule w' ∧ typed w'.
Proof.
  intros Hw Ht Hstep. destruct Hstep as [w w' ready elapsed pl fuel Hok Hrun|w w' f body Hp Hrun].
  - destruct (tick_inv beh w w' Hw) as [Hw' Hg]; [by eapply tick_schedule|]. split; [done|].
    apply (keeps_conns w w'); [done|by eapply schedule_keeps|done].
  - destruct (tick_inv beh w w' Hw) as [Hw' _]; [by eapply tick_job|]. split; [done|].
    pose proof (kp_run_job f body w (rn_wf _ (proj1 Hw)) Hp) as Hk. unfold frames in Hk. rewrite Hrun in Hk. by apply Hk.
Qed.

Lemma typed_ticks_keep w w' : ready_to_schedule w → typed w → rtc typed_tick w w' → ready_to_schedule w' ∧ typed w'.
Proof.
  intros Hw Ht Hsteps. revert Hw Ht. induction Hsteps as [w|w w2 w3 Hstep _ IH]; intros Hw Ht; [done|].
  destruct (typed_tick_keeps _ _ Hw Ht Hstep). auto.
Qed.

End heartbeat.

(** ** Reading *)
Lemma deref_ok {A} (heap : World → gmap positive A) p w x w' : deref heap p w = (Ok x, w') → w' = w ∧ heap w !! p = Some x.
Proof. intros Hd. destruct (deref_cases heap p w) as [(x' & Hx & Hr)|Hr]; rewrite Hr in Hd; by simplify_eq. Qed.
Lemma when_throw_ok (b : bool) ex w w' : when b (throw ex : W unit) w = (Ok tt, w') → b = false ∧ w' = w.
Proof. destruct b; [done|]. by intros [= <-]. Qed.
Lemma hasDataItems_ok i w b w' : in_hasDataItems i w = (Ok b, w') → w' = w.
Proof.
  unfold in_hasDataItems, conn_hasDataItems. intros (p & w1 & [-> _]%deref_ok & Hm)%bind_ok.
  destruct (ip_connection p); [|by injection Hm]. apply bind_ok in Hm as (x & w2 & [-> _]%deref_ok & Hm). by injection Hm.
Qed.

(** What is read is the front of the queue. *)
Lemma getVariant_ok i w v w' : in_getVariant i w = (Ok v, w') →
  ∃ p c x d q, w_ins w !! i = Some p ∧ ip_connection p = Some c ∧ w_conns w !! c = Some x ∧ pc_queue x = d :: q ∧
    d_payload d = Some v ∧ w_ins w' !! i = Some (ip_set_called true p) ∧ w_signals w' = w_signals w.
Proof.
  unfold in_getVariant, in_take_guard. intros ([] & w1 & Hg & Hrest)%bind_ok.
  apply bind_ok in Hg as (p & w2 & [-> Hp]%deref_ok & (e & w3 & [-> _]%deref_ok & ([] & w4 & [_ ->]%when_throw_ok & Hg)%bind_ok)%bind_ok).
  apply bind_ok in Hg as ([] & w5 & Hu & (has & w6 & ->%hasDataItems_ok & [_ ->]%when_throw_ok)%bind_ok).
  unfold upd_in in Hu. apply bind_ok in Hu as (p' & w6 & [-> Hp']%deref_ok & Hm). injection Hm as <-. simplify_eq.
  apply bind_ok in Hrest as (p1 & w7 & [-> Hp1]%deref_ok & (c & w8 & Hc & (d & w9 & Hd & Hrest)%bind_ok)%bind_ok).
  cbn in Hp1. rewrite lookup_insert_eq in Hp1. injection Hp1 as <-. cbn in Hc.
  destruct (ip_connection p) as [c'|] eqn:Hcon; [|done]. injection Hc as -> <-.
  unfold conn_get in Hd. apply bind_ok in Hd as (x & w10 & [-> Hx]%deref_ok & Hd). cbn in Hx.
  destruct (pc_queue x) as [|d' q] eqn:Hq.
  { unfold conn_throw_empty in Hd. apply bind_ok in Hd as (? & ? & _ & (? & ? & _ & Hd)%bind_ok). done. }
  apply bind_ok in Hd as ([] & w11 & Hu & Hd). injection Hd as -> <-.
  unfold upd_conn in Hu. apply bind_ok in Hu as (x' & w12 & [-> Hx']%deref_ok & Hm). injection Hm as <-.
  exists p, c, x, d, q. destruct (d_null d), (d_payload d) as [v'|] eqn:Hpay.
  2,3,4: try by (apply bind_ok in Hrest as (? & ? & _ & Hrest)).
  - by apply bind_ok in Hrest as (? & ? & _ & Hrest).
  - injection Hrest as -> <-. split_and!; [done..|cbn; apply lookup_insert_eq|done].
Qed.

Section reading.
Context `{QtConversionLaws}.
#[local] Set Default Proof Using "Type*".

(** A typed value is read as it is: nothing is reported. *)
Lemma typed_get w i v w' : graph_wf w → typed w → in_get i w = (Ok v, w') →
  ∃ p, w_ins w !! i = Some p ∧ userType v = ip_typeId p ∧ w_signals w' = w_signals w.
Proof.
  intros Hwf Ht. unfold in_get. intros (u & w1 & Hv & Hrest)%bind_ok.
  apply getVariant_ok in Hv as (p & c & x & d & q & Hp & Hc & Hx & Hq & Hd & Hp1 & Hsig).
  destruct (wf_inputs _ Hwf _ _ _ Hp Hc) as (x' & Hx' & Hcons & Hk). simplify_eq.
  destruct (wf_connections _ Hwf _ _ Hk) as (x' & o & i' & [Hx1 Ho Hi' (po & pi & Hpo & Hpi & _ & _ & _ & Hty & _)] & _). simplify_eq.
  assert (Hu : userType u = ip_typeId p).
  { rewrite <-Hty. eapply Ht; [exact Hx|exact Ho|exact Hpo|]. rewrite Hq. unfold payloads. cbn. rewrite Hd. by left. }
  apply bind_ok in Hrest as (p2 & w2 & [-> Hp2]%deref_ok & ([] & w3 & Hwhen & Hret)%bind_ok).
  rewrite Hp1 in Hp2. injection Hp2 as <-. cbn in *. rewrite <-Hu, canConvert_self in Hwhen. injection Hwhen as <-.
  rewrite <-Hu, value_self in Hret. injection Hret as <- <-. by exists p.
Qed.

End reading.

(** Empty queues are typed: so it is when a pipeline is started. *)
Lemma typed_empty w : (∀ c x, w_conns w !! c = Some x → pc_queue x = []) → typed w.
Proof. intros Hall c x o po v Hx _ _ Hv. rewrite (Hall _ _ Hx) in Hv. by apply not_elem_of_nil in Hv. Qed.
