(* ===== verification/Construction.v ===== *)
(** Creating elements and pins: the constructors of PipelineElement,
    IInputPin, IOutputPin and their concrete pin classes, and the [create...Pin]
    functions, which give every new pin the first free id of its element. *)
From S2P Require Export GraphConnect.

(** [PipelineElement()] of a concrete class with the given name. *)
Definition fresh_element (kind : ElementKind) (name : string) : Element :=
  mkElement kind name (-1) PLE_UNDEFINED PlvNoError EmptyString 0 false ∅ ∅ false false sb_new.

Definition new_element (kind : ElementKind) (name : string) : W eptr :=
  heap ← gets w_elems ;
  let e := fresh_key heap in
  modify (set_elems (insert e (fresh_element kind name))) ;; mret e.

(** [IInputPin( name, consumer, required, sync, guarantee )], with the
    assertions of Pin's constructor. *)
Definition fresh_input (name : string) (owner : eptr) (required : Required) (sync : Synchronized)
    (guarantee : DataGuarantee) (cls : PinClass) (typeId : Z) : IInputPin :=
  mkIn (-1) name owner required sync guarantee cls typeId None false.

Definition new_input (p : IInputPin) : W iptr :=
  assert (bool_decide (ip_name p ≠ EmptyString)) ;;
  heap ← gets w_ins ;
  let i := fresh_key heap in
  modify (set_ins (insert i p)) ;; mret i.

(** [IOutputPin( name, producer )] *)
Definition fresh_output (name : string) (owner : eptr) (cls : PinClass) (typeId : Z) : IOutputPin :=
  mkOut (-1) name owner cls typeId [] false.

Definition new_output (p : IOutputPin) : W optr :=
  assert (bool_decide (op_name p ≠ EmptyString)) ;;
  heap ← gets w_outs ;
  let o := fresh_key heap in
  modify (set_outs (insert o p)) ;; mret o.

(** [createInputPin<T>], [createCvMatDataInputPin] *)
Definition createInputPin (name : string) (owner : eptr) (required : Required) (sync : Synchronized)
    (guarantee : DataGuarantee) (cls : PinClass) (typeId : Z) : W iptr :=
  i ← new_input (fresh_input name owner required sync guarantee cls typeId) ;
  addInputPin owner i ;; mret i.

(** [createOutputPin<T>], [createCvMatDataOutputPin] *)
Definition createOutputPin (name : string) (owner : eptr) (cls : PinClass) (typeId : Z) : W optr :=
  o ← new_output (fresh_output name owner cls typeId) ;
  addOutputPin owner o ;; mret o.

(** ** The first free id *)

(** [n] consecutive keys from [lo] on need a map of at least [n] entries. *)
Lemma consecutive_keys {A} (m : gmap Z A) lo n :
  (∀ k, lo ≤ k < lo + Z.of_nat n → is_Some (m !! k)) → (n ≤ size m)%nat.
Proof.
  intros Hall. rewrite <-size_dom.
  assert (Hsub : list_to_set (seqZ lo (Z.of_nat n)) ⊆ dom m).
  { intros k Hk%elem_of_list_to_set. apply elem_of_seqZ in Hk. apply elem_of_dom, Hall. lia. }
  apply subseteq_size in Hsub. rewrite size_list_to_set, length_seqZ in Hsub by apply NoDup_seqZ. lia.
Qed.

Lemma next_pin_id_scan {A} (m : gmap Z A) fuel id :
  id ≤ next_pin_id fuel m id ≤ id + Z.of_nat fuel ∧
  (∀ k, id ≤ k < next_pin_id fuel m id → is_Some (m !! k)) ∧
  (next_pin_id fuel m id < id + Z.of_nat fuel → m !! next_pin_id fuel m id = None).
Proof.
  revert id. induction fuel as [|fuel IH]; intros id; cbn [next_pin_id].
  - split_and!; [lia..|lia|lia].
  - case_bool_decide as Hk.
    + destruct (IH (id + 1)) as (Hr & Hall & Hfree). split_and!; [lia..| |].
      * intros k Hle. destruct (decide (k = id)) as [->|]; [done|]. apply Hall. lia.
      * intros Hlt. apply Hfree. lia.
    + split_and!; [lia..|lia|]. intros _. by apply eq_None_not_Some.
Qed.

(** The search ends at an id that is free, and all smaller ones are taken. *)
Lemma next_pin_id_least {A} (m : gmap Z A) :
  m !! next_pin_id (size m) m 0 = None ∧ 0 ≤ next_pin_id (size m) m 0 ∧
  ∀ k, 0 ≤ k < next_pin_id (size m) m 0 → is_Some (m !! k).
Proof.
  destruct (next_pin_id_scan m (size m) 0) as (Hr & Hall & Hfree).
  split_and!; [|lia|done].
  destruct (decide (next_pin_id (size m) m 0 < 0 + Z.of_nat (size m))) as [|Hge]; [auto|].
  apply eq_None_not_Some. intros Hs.
  assert (Heq : next_pin_id (size m) m 0 = Z.of_nat (size m)) by lia.
  assert (S (size m) ≤ size m)%nat; [|lia].
  apply (consecutive_keys m 0). intros k Hk.
  destruct (decide (k = Z.of_nat (size m))) as [->|]; [by rewrite <-Heq|apply Hall; lia].
Qed.

(** ** Creation keeps the graph well formed *)
Section create.
Context `{HashOrder} `{QMetaType}.
Implicit Types w : World.

(** Pins added to an element leave what it had. *)
Definition el_extends (x x' : Element) : Prop :=
  el_kind x' = el_kind x ∧ el_id x' = el_id x ∧ el_hasPipeline x' = el_hasPipeline x ∧
  el_inputPins x ⊆ el_inputPins x' ∧ el_outputPins x ⊆ el_outputPins x'.

(** The heap extended by unconnected pins and by elements outside the
    pipeline. *)
Record extends (w w' : World) : Prop := {
  ex_elems : ∀ e x, w_elems w !! e = Some x → ∃ x', w_elems w' !! e = Some x' ∧ el_extends x x';
  ex_ins : w_ins w ⊆ w_ins w';
  ex_outs : w_outs w ⊆ w_outs w';
  ex_conns : w_conns w' = w_conns w;
  ex_pipe : w_pipe w' = w_pipe w;
  ex_new_ins : ∀ i p, w_ins w !! i = None → w_ins w' !! i = Some p → ip_connection p = None;
  ex_new_outs : ∀ o p, w_outs w !! o = None → w_outs w' !! o = Some p → op_connections p = []
}.

(** The pin maps of every element lead to pins that know their place. *)
Definition pins_placed (w : World) : Prop :=
  (∀ e x k i, w_elems w !! e = Some x → el_inputPins x !! k = Some i →
     ∃ p, w_ins w !! i = Some p ∧ ip_id p = k ∧ ip_owner p = e) ∧
  (∀ e x k o, w_elems w !! e = Some x → el_outputPins x !! k = Some o →
     ∃ p, w_outs w !! o = Some p ∧ op_id p = k ∧ op_owner p = e).

Lemma extends_in_pipeline w w' e x : extends w w' → in_pipeline w e x →
  ∃ x', in_pipeline w' e x' ∧ el_extends x x'.
Proof.
  intros Hex [Hx Hc]. destruct (ex_elems _ _ Hex _ _ Hx) as (x' & Hx' & Hext).
  exists x'. split; [|done]. split; [done|]. destruct Hext as (_ & -> & _). by rewrite (ex_pipe _ _ Hex).
Qed.

Lemma extends_kind w w' e kind : extends w w' → (∃ k, children w !! k = Some e) → graph_wf w →
  el_kind <$> w_elems w' !! e = Some kind ↔ el_kind <$> w_elems w !! e = Some kind.
Proof.
  intros Hex [k Hk] Hwf. destruct (wf_children _ Hwf _ _ Hk) as (x & Hx & _).
  destruct (ex_elems _ _ Hex _ _ Hx) as (x' & Hx' & Hkind & _). rewrite Hx, Hx'. cbn. by rewrite Hkind.
Qed.

Lemma extends_wf w w' : graph_wf w → extends w w' → pins_placed w' → graph_wf w'.
Proof.
  intros Hwf Hex [Hins Houts]. split; rewrite ?(ex_pipe _ _ Hex), ?(ex_conns _ _ Hex).
  - intros k c Hk. destruct (wf_connections _ Hwf _ _ Hk) as (x & o & i & Hat & Hid).
    destruct Hat as [Hx Ho Hi (po & pi & Hpo & Hpi & Hin & Hcon & Hne & Hty & (xo & Hxo & Hko) & (xi & Hxi & Hkind & Hki))].
    destruct (extends_in_pipeline _ _ _ _ Hex Hxo) as (xo' & Hxo' & _ & _ & _ & _ & Ho').
    destruct (extends_in_pipeline _ _ _ _ Hex Hxi) as (xi' & Hxi' & Hk' & _ & _ & Hi' & _).
    exists x, o, i. split; [|done]. split; [by rewrite (ex_conns _ _ Hex)|done..|].
    exists po, pi. split_and!; [by eapply lookup_weaken, Hex|by eapply lookup_weaken, Hex|done..| |].
    + exists xo'. split; [done|]. by eapply lookup_weaken.
    + exists xi'. split_and!; [done|congruence|]. by eapply lookup_weaken.
  - intros i p c Hp Hc. destruct (w_ins w !! i) as [p0|] eqn:Hi.
    + pose proof (lookup_weaken _ _ _ _ Hi (ex_ins _ _ Hex)). simplify_eq. by eapply wf_inputs.
    + rewrite (ex_new_ins _ _ Hex _ _ Hi Hp) in Hc. done.
  - intros o p c Hp Hc. destruct (w_outs w !! o) as [p0|] eqn:Ho.
    + pose proof (lookup_weaken _ _ _ _ Ho (ex_outs _ _ Hex)). simplify_eq. by eapply wf_outputs.
    + rewrite (ex_new_outs _ _ Hex _ _ Ho Hp) in Hc. set_solver.
  - intros o p Hp. destruct (w_outs w !! o) as [p0|] eqn:Ho.
    + pose proof (lookup_weaken _ _ _ _ Ho (ex_outs _ _ Hex)). simplify_eq. by eapply wf_nodup.
    + rewrite (ex_new_outs _ _ Hex _ _ Ho Hp). constructor.
  - intros k e Hk. destruct (wf_children _ Hwf _ _ Hk) as (x & Hx & Hid & Hpl).
    destruct (ex_elems _ _ Hex _ _ Hx) as (x' & Hx' & _ & Hid' & Hpl' & _). exists x'. split_and!; [done|congruence|congruence].
  - intros k e. rewrite (wf_producers _ Hwf). split; intros [Hc Hk]; (split; [done|]);
      apply (extends_kind w w'); eauto.
  - intros k e. rewrite (wf_processors _ Hwf). split; intros [Hc Hk]; (split; [done|]);
      apply (extends_kind w w'); eauto.
  - exact Hins.
  - exact Houts.
Qed.

(** ** The effect of the calls *)

Definition with_input (w : World) (e : eptr) (x : Element) (i : iptr) (p : IInputPin) (id : Z) : World :=
  add_signal (inputPinAdded i)
    (set_elems (insert e (el_set_inputPins (<[id := i]> (el_inputPins x)) x))
      (set_ins (insert i (ip_set_id id p)) w)).
Definition with_output (w : World) (e : eptr) (x : Element) (o : optr) (p : IOutputPin) (id : Z) : World :=
  add_signal (outputPinAdded o)
    (set_elems (insert e (el_set_outputPins (<[id := o]> (el_outputPins x)) x))
      (set_outs (insert o (op_set_id id p)) w)).

Lemma run_createInputPin w e x name r s g cls t : w_elems w !! e = Some x → name ≠ EmptyString →
  createInputPin name e r s g cls t w =
    (Ok (fresh_key (w_ins w)),
     with_input w e x (fresh_key (w_ins w)) (fresh_input name e r s g cls t) (getNextInputPinId (el_inputPins x))).
Proof.
  intros Hx Hname. unfold createInputPin.
  erewrite run_bind by (unfold new_input; cbn [ip_name fresh_input]; rewrite bool_decide_true by done;
    runs; reflexivity).
  erewrite run_bind; [reflexivity|]. unfold addInputPin. run. run. cbn [ip_id fresh_input].
  rewrite (bool_decide_true (-1 = -1)) by done. run.
  destruct (next_pin_id_least (el_inputPins x)) as (Hfree & _).
  rewrite (bool_decide_true (el_inputPins x !! _ = None)) by done. run.
  run. run. unfold with_input, set_ins, set_elems. cbn. by rewrite insert_insert_eq.
Qed.

Lemma run_createOutputPin w e x name cls t : w_elems w !! e = Some x → name ≠ EmptyString →
  createOutputPin name e cls t w =
    (Ok (fresh_key (w_outs w)),
     with_output w e x (fresh_key (w_outs w)) (fresh_output name e cls t) (getNextOutputPinId (el_outputPins x))).
Proof.
  intros Hx Hname. unfold createOutputPin.
  erewrite run_bind by (unfold new_output; cbn [op_name fresh_output]; rewrite bool_decide_true by done;
    runs; reflexivity).
  erewrite run_bind; [reflexivity|]. unfold addOutputPin. run. run. cbn [op_id fresh_output].
  rewrite (bool_decide_true (-1 = -1)) by done.
  destruct (next_pin_id_least (el_outputPins x)) as (Hfree & _).
  rewrite (bool_decide_true (el_outputPins x !! _ = None)) by done. run.
  run. run. run. unfold with_output, set_outs, set_elems. cbn. by rewrite insert_insert_eq.
Qed.

(** The invariant after adding one unconnected pin. *)
Lemma with_input_wf w e x i p id : graph_wf w → w_elems w !! e = Some x → w_ins w !! i = None →
  el_inputPins x !! id = None → ip_connection p = None → ip_owner p = e →
  graph_wf (with_input w e x i p id).
Proof.
  intros Hwf Hx Hi Hid Hcon Hown. apply (extends_wf w); [done| |].
  - split; cbn; try done.
    + intros e' x' Hx'. destruct (decide (e' = e)) as [->|Hne].
      * rewrite lookup_insert_eq. eexists. split; [done|]. simplify_eq. unfold el_extends. cbn.
        split_and!; try done. by apply insert_subseteq.
      * exists x'. rewrite lookup_insert_ne by done. unfold el_extends. done.
    + by apply insert_subseteq.
    + intros i' p' Hn [[<- <-]|[Hne Hp']]%lookup_insert_Some; [done|congruence].
    + intros o p' Hn Hs. congruence.
  - split; cbn.
    + intros e' x' k i' Hx' Hk.
      assert (Hcase : (e' = e ∧ k = id ∧ i' = i) ∨
        ∃ x0, w_elems w !! e' = Some x0 ∧ el_inputPins x0 !! k = Some i').
      { apply lookup_insert_Some in Hx' as [[<- <-]|[Hne Hx']]; [|eauto].
        cbn in Hk. apply lookup_insert_Some in Hk as [[<- <-]|[Hne Hk]]; eauto. }
      destruct Hcase as [(-> & -> & ->)|(x0 & Hx0 & Hk0)].
      * eexists. by rewrite lookup_insert_eq.
      * destruct (wf_inputPins _ Hwf _ _ _ _ Hx0 Hk0) as (p0 & Hp0 & ?).
        exists p0. rewrite lookup_insert_ne by congruence. done.
    + intros e' x' k o Hx' Hk. apply lookup_insert_Some in Hx' as [[<- <-]|[Hne Hx']].
      * by eapply (wf_outputPins _ Hwf).
      * by eapply (wf_outputPins _ Hwf).
Qed.

Lemma with_output_wf w e x o p id : graph_wf w → w_elems w !! e = Some x → w_outs w !! o = None →
  el_outputPins x !! id = None → op_connections p = [] → op_owner p = e →
  graph_wf (with_output w e x o p id).
Proof.
  intros Hwf Hx Ho Hid Hcon Hown. apply (extends_wf w); [done| |].
  - split; cbn; try done.
    + intros e' x' Hx'. destruct (decide (e' = e)) as [->|Hne].
      * rewrite lookup_insert_eq. eexists. split; [done|]. simplify_eq. unfold el_extends. cbn.
        split_and!; try done. by apply insert_subseteq.
      * exists x'. rewrite lookup_insert_ne by done. unfold el_extends. done.
    + by apply insert_subseteq.
    + intros i p' Hn Hs. congruence.
    + intros o' p' Hn [[<- <-]|[Hne Hp']]%lookup_insert_Some; [done|congruence].
  - split; cbn.
    + intros e' x' k i Hx' Hk. apply lookup_insert_Some in Hx' as [[<- <-]|[Hne Hx']].
      * by eapply (wf_inputPins _ Hwf).
      * by eapply (wf_inputPins _ Hwf).
    + intros e' x' k o' Hx' Hk.
      assert (Hcase : (e' = e ∧ k = id ∧ o' = o) ∨
        ∃ x0, w_elems w !! e' = Some x0 ∧ el_outputPins x0 !! k = Some o').
      { apply lookup_insert_Some in Hx' as [[<- <-]|[Hne Hx']]; [|eauto].
        cbn in Hk. apply lookup_insert_Some in Hk as [[<- <-]|[Hne Hk]]; eauto. }
      destruct Hcase as [(-> & -> & ->)|(x0 & Hx0 & Hk0)].
      * eexists. by rewrite lookup_insert_eq.
      * destruct (wf_outputPins _ Hwf _ _ _ _ Hx0 Hk0) as (p0 & Hp0 & ?).
        exists p0. rewrite lookup_insert_ne by congruence. done.
Qed.

Lemma new_element_wf w kind name : graph_wf w →
  graph_wf (set_elems (insert (fresh_key (w_elems w)) (fresh_element kind name)) w).
Proof.
  intros Hwf. pose proof (fresh_key_fresh (w_elems w)) as Hfresh. apply (extends_wf w); [done| |].
  - split; cbn; try done.
    + intros e x Hx. exists x. rewrite lookup_insert_ne by congruence. done.
    + intros i p Hn Hs. congruence.
    + intros o p Hn Hs. congruence.
  - split; cbn; intros e x k i [[<- <-]|[Hne Hx]]%lookup_insert_Some Hk; cbn in Hk; try done.
    + by eapply (wf_inputPins _ Hwf).
    + by eapply (wf_outputPins _ Hwf).
Qed.

(** Creating an input pin gives it the smallest id not in use on its
    element, files it there unconnected, and keeps the graph well formed. *)
Theorem createInputPin_correct w e x name r s g cls t :
  graph_wf w → w_elems w !! e = Some x → name ≠ EmptyString →
  ∃ i id w', createInputPin name e r s g cls t w = (Ok i, w') ∧ graph_wf w' ∧
    w_ins w !! i = None ∧ w_ins w' !! i = Some (ip_set_id id (fresh_input name e r s g cls t)) ∧
    0 ≤ id ∧ el_inputPins x !! id = None ∧ (∀ k, 0 ≤ k < id → is_Some (el_inputPins x !! k)) ∧
    w_elems w' !! e = Some (el_set_inputPins (<[id := i]> (el_inputPins x)) x).
Proof.
  intros Hwf Hx Hname. destruct (next_pin_id_least (el_inputPins x)) as (Hfree & Hpos & Hleast).
  pose proof (fresh_key_fresh (w_ins w)) as Hi.
  eexists _, (getNextInputPinId (el_inputPins x)), _.
  split; [by apply run_createInputPin|]. split_and!; try done.
  - by apply with_input_wf.
  - cbn. by rewrite lookup_insert_eq.
  - cbn. by rewrite lookup_insert_eq.
Qed.
End create.
