(* ===== verification/Editor.v ===== *)
(** The graphical editor: the scene that shows a pipeline and edits it
    (plvgui/PipelineScene.cpp), the widgets of its elements and of their pins
    (PipelineElementWidget.cpp, PinWidget.cpp) and the lines of its connections
    (ConnectionLine.cpp, InteractiveLine.cpp).

    The scene listens to the pipeline.  Its slots run while the pipeline emits;
    they never call back into it and read nothing of it that the rest of the
    emitting call changes, so [pipeline_call] runs them, in order, at the end
    of the call.  What Qt does is in the model as far as the scene relies on
    it: which items are on the canvas, that deleting an item takes it off, that
    [QGraphicsScene::clear] deletes the items on the canvas. *)
From Stdlib Require Import Floats.SpecFloat.
From S2P Require Export Notifications Construction Factory.

(** ** Items *)
Abbreviation wptr := positive.  (** PipelineElementWidget* *)
Abbreviation lptr := positive.  (** ConnectionLine* *)
Abbreviation dptr := positive.  (** InteractiveLine* *)

Inductive PinRef := InPin (i : iptr) | OutPin (o : optr).
(** [InputPinWidget], [OutputPinWidget]: one per pin of an element widget. *)
Record PinWidget := mkPinWidget { pw_parent : wptr; pw_pin : PinRef }.

(** [qreal] is a double. *)
Abbreviation qreal := spec_float.
Definition qadd (x y : qreal) : qreal := SFadd 53 1024 x y.
Definition qzero : qreal := S754_zero false.

Record ElementWidget := mkElementWidget {
  ew_element : eptr;
  ew_inputPinWidgets : gmap Z PinWidget;
  ew_outputPinWidgets : gmap Z PinWidget;
  ew_lines : list lptr;
  ew_pos : qreal * qreal;    (** pos() *)
  ew_shift : qreal * qreal   (** the translation of transform() *)
}.
Definition ew_set_inputs m (w : ElementWidget) : ElementWidget :=
  mkElementWidget (ew_element w) m (ew_outputPinWidgets w) (ew_lines w) (ew_pos w) (ew_shift w).
Definition ew_set_outputs m (w : ElementWidget) : ElementWidget :=
  mkElementWidget (ew_element w) (ew_inputPinWidgets w) m (ew_lines w) (ew_pos w) (ew_shift w).
Definition ew_set_lines l (w : ElementWidget) : ElementWidget :=
  mkElementWidget (ew_element w) (ew_inputPinWidgets w) (ew_outputPinWidgets w) l (ew_pos w) (ew_shift w).
Definition ew_set_pos p (w : ElementWidget) : ElementWidget :=
  mkElementWidget (ew_element w) (ew_inputPinWidgets w) (ew_outputPinWidgets w) (ew_lines w) p (ew_shift w).
Definition ew_set_shift p (w : ElementWidget) : ElementWidget :=
  mkElementWidget (ew_element w) (ew_inputPinWidgets w) (ew_outputPinWidgets w) (ew_lines w) (ew_pos w) p.

Record ConnectionLine := mkConnectionLine {
  cl_fromPin : option PinWidget;
  cl_toPin : option PinWidget;
  cl_connection : cptr
}.
(** The line that follows the mouse, and where it ends. *)
Record InteractiveLine := mkInteractiveLine { il_fromPin : PinWidget; il_target : qreal * qreal }.

Inductive Item := WidgetItem (w : wptr) | LineItem (l : lptr) | DragItem (d : dptr).
#[export] Instance PinRef_eq_dec : EqDecision PinRef.
Proof. solve_decision. Defined.
#[export] Instance PinWidget_eq_dec : EqDecision PinWidget.
Proof. solve_decision. Defined.
#[export] Instance Item_eq_dec : EqDecision Item.
Proof. solve_decision. Defined.
#[export] Instance Item_countable : Countable Item.
Proof.
  refine (inj_countable' (λ it, match it with WidgetItem w => inl w | LineItem l => inr (inl l) | DragItem d => inr (inr d) end)
    (λ s, match s with inl w => WidgetItem w | inr (inl l) => LineItem l | inr (inr d) => DragItem d end) _).
  by intros [].
Defined.

(** ** The scene

    [sc_pipeline]: [m_pipeline] is not null, and the slots are connected.
    [sc_items] is what is on the canvas; the objects live in [sc_widgets],
    [sc_lines] and [sc_drags] whether on the canvas or not.  [sc_coords] are
    the properties [sceneCoordX] and [sceneCoordY] of the elements. *)
Record Scene := mkScene {
  sc_pipeline : bool;
  sc_elementWidgets : gmap eptr wptr;      (** QHash *)
  sc_connectionLines : gmap cptr lptr;     (** QHash *)
  sc_line : option dptr;
  sc_items : gset Item;
  sc_widgets : gmap wptr ElementWidget;
  sc_lines : gmap lptr ConnectionLine;
  sc_drags : gmap dptr InteractiveLine;
  sc_coords : gmap eptr (qreal * qreal);
  sc_contentsChanged : nat;                (** signals emitted *)
  sc_messages : list (QtMsgType * string)  (** handed to the main window *)
}.
Definition new_scene : Scene := mkScene false ∅ ∅ None ∅ ∅ ∅ ∅ ∅ 0 [].

Definition sc_set_pipeline b (s : Scene) : Scene :=
  mkScene b (sc_elementWidgets s) (sc_connectionLines s) (sc_line s) (sc_items s) (sc_widgets s)
    (sc_lines s) (sc_drags s) (sc_coords s) (sc_contentsChanged s) (sc_messages s).
Definition sc_set_elementWidgets m (s : Scene) : Scene :=
  mkScene (sc_pipeline s) m (sc_connectionLines s) (sc_line s) (sc_items s) (sc_widgets s)
    (sc_lines s) (sc_drags s) (sc_coords s) (sc_contentsChanged s) (sc_messages s).
Definition sc_set_connectionLines m (s : Scene) : Scene :=
  mkScene (sc_pipeline s) (sc_elementWidgets s) m (sc_line s) (sc_items s) (sc_widgets s)
    (sc_lines s) (sc_drags s) (sc_coords s) (sc_contentsChanged s) (sc_messages s).
Definition sc_set_line l (s : Scene) : Scene :=
  mkScene (sc_pipeline s) (sc_elementWidgets s) (sc_connectionLines s) l (sc_items s) (sc_widgets s)
    (sc_lines s) (sc_drags s) (sc_coords s) (sc_contentsChanged s) (sc_messages s).
Definition sc_set_items m (s : Scene) : Scene :=
  mkScene (sc_pipeline s) (sc_elementWidgets s) (sc_connectionLines s) (sc_line s) m (sc_widgets s)
    (sc_lines s) (sc_drags s) (sc_coords s) (sc_contentsChanged s) (sc_messages s).
Definition sc_set_widgets m (s : Scene) : Scene :=
  mkScene (sc_pipeline s) (sc_elementWidgets s) (sc_connectionLines s) (sc_line s) (sc_items s) m
    (sc_lines s) (sc_drags s) (sc_coords s) (sc_contentsChanged s) (sc_messages s).
Definition sc_set_lines m (s : Scene) : Scene :=
  mkScene (sc_pipeline s) (sc_elementWidgets s) (sc_connectionLines s) (sc_line s) (sc_items s) (sc_widgets s)
    m (sc_drags s) (sc_coords s) (sc_contentsChanged s) (sc_messages s).
Definition sc_set_drags m (s : Scene) : Scene :=
  mkScene (sc_pipeline s) (sc_elementWidgets s) (sc_connectionLines s) (sc_line s) (sc_items s) (sc_widgets s)
    (sc_lines s) m (sc_coords s) (sc_contentsChanged s) (sc_messages s).
Definition sc_set_coords e p (s : Scene) : Scene :=
  mkScene (sc_pipeline s) (sc_elementWidgets s) (sc_connectionLines s) (sc_line s) (sc_items s) (sc_widgets s)
    (sc_lines s) (sc_drags s) (<[e := p]> (sc_coords s)) (sc_contentsChanged s) (sc_messages s).
Definition sc_changed (n : nat) (s : Scene) : Scene :=
  mkScene (sc_pipeline s) (sc_elementWidgets s) (sc_connectionLines s) (sc_line s) (sc_items s) (sc_widgets s)
    (sc_lines s) (sc_drags s) (sc_coords s) (sc_contentsChanged s + n) (sc_messages s).
Definition sc_message t m (s : Scene) : Scene :=
  mkScene (sc_pipeline s) (sc_elementWidgets s) (sc_connectionLines s) (sc_line s) (sc_items s) (sc_widgets s)
    (sc_lines s) (sc_drags s) (sc_coords s) (sc_contentsChanged s) (sc_messages s ++ [(t, m)]).

(** The pipeline's heap and the scene. *)
Record Desk := mkDesk { dk_world : World; dk_scene : Scene }.
Abbreviation X := (M Desk).

(** The pipeline is read; the scene is read and changed. *)
Definition look {A} (m : W A) : X A := λ d, ((m (dk_world d)).1, d).
Definition scene {A} (f : Scene → A) : X A := gets (λ d, f (dk_scene d)).
Definition upd_scene (f : Scene → Scene) : X unit := modify (λ d, mkDesk (dk_world d) (f (dk_scene d))).
Definition need {A} (o : option A) : X A := match o with Some a => mret a | None => abort NullPointer end.
Definition get_widget (w : wptr) : X ElementWidget := m ← scene sc_widgets ; need (m !! w).
Definition upd_widget (w : wptr) (f : ElementWidget → ElementWidget) : X unit :=
  x ← get_widget w ; upd_scene (λ s, sc_set_widgets (<[w := f x]> (sc_widgets s)) s).
Definition get_line (l : lptr) : X ConnectionLine := m ← scene sc_lines ; need (m !! l).
Definition addItem (it : Item) : X unit := upd_scene (λ s, sc_set_items ({[it]} ∪ sc_items s) s).
Definition removeItem (it : Item) : X unit := upd_scene (λ s, sc_set_items (sc_items s ∖ {[it]}) s).

Section editor.
Context `{HashOrder} `{QMetaType}.

(** ** Element widgets *)

(** PipelineElementWidget::addInputPin, addOutputPin *)
Definition addInputPin_widget (w : wptr) (i : iptr) : X unit :=
  p ← look (get_in i) ;
  upd_widget w (λ x, ew_set_inputs (<[ip_id p := mkPinWidget w (InPin i)]> (ew_inputPinWidgets x)) x).
Definition addOutputPin_widget (w : wptr) (o : optr) : X unit :=
  p ← look (get_out o) ;
  upd_widget w (λ x, ew_set_outputs (<[op_id p := mkPinWidget w (OutPin o)]> (ew_outputPinWidgets x)) x).
(** [removeInputPin] insists on the pin; [removeOutputPin] does not, and
    leaves its widget on the canvas. *)
Definition removeInputPin_widget (w : wptr) (id : Z) : X unit :=
  x ← get_widget w ;
  assert (bool_decide (is_Some (ew_inputPinWidgets x !! id))) ;;
  upd_widget w (λ x, ew_set_inputs (delete id (ew_inputPinWidgets x)) x).
Definition removeOutputPin_widget (w : wptr) (id : Z) : X unit :=
  upd_widget w (λ x, ew_set_outputs (delete id (ew_outputPinWidgets x)) x).

(** The constructor: the pins in the order of the element's hashes. *)
Definition new_PipelineElementWidget (e : eptr) : X wptr :=
  m ← scene sc_widgets ;
  let w := fresh_key m in
  upd_scene (λ s, sc_set_widgets (<[w := mkElementWidget e ∅ ∅ [] (qzero, qzero) (qzero, qzero)]> (sc_widgets s)) s) ;;
  x ← look (get_elem e) ;
  (match el_kind x with
   | KProcessor => for_each (hash_values (el_inputPins x)) (addInputPin_widget w)
   | KProducer => mret tt
   end) ;;
  for_each (hash_values (el_outputPins x)) (addOutputPin_widget w) ;;
  mret w.

Definition addLine (w : wptr) (l : lptr) : X unit := upd_widget w (λ x, ew_set_lines (ew_lines x ++ [l]) x).
(** [lines.removeAll( line )] *)
Definition removeLine (w : wptr) (l : lptr) : X unit :=
  upd_widget w (λ x, ew_set_lines (filter (λ l', l' ≠ l) (ew_lines x)) x).

(** ConnectionLine::updatePosition reads the line; a pin widget that is null
    stands for the scene itself. *)
Definition updatePosition (l : lptr) : X unit := get_line l ;; mret tt.

(** PipelineElementWidget::savePositionProperties: both properties are set,
    and each tells the scene. *)
Definition savePositionProperties (w : wptr) : X unit :=
  x ← get_widget w ;
  upd_scene (sc_set_coords (ew_element x) (qadd (ew_pos x).1 (ew_shift x).1, qadd (ew_pos x).2 (ew_shift x).2)) ;;
  upd_scene (sc_changed 2).

(** [setPos]: nothing happens unless the position changes; the lines follow,
    then each coordinate that changed is announced. *)
Definition setPos (w : wptr) (p : qreal * qreal) : X unit :=
  x ← get_widget w ;
  let dx := negb (SFeqb (ew_pos x).1 p.1) in
  let dy := negb (SFeqb (ew_pos x).2 p.2) in
  when (dx || dy) (
    for_each (ew_lines x) updatePosition ;;
    upd_widget w (ew_set_pos p) ;;
    when dx (savePositionProperties w) ;;
    when dy (savePositionProperties w)).

(** ** Looking up widgets *)
Definition widget_of_element (e : eptr) : X (option wptr) := m ← scene sc_elementWidgets ; mret (m !! e).
Definition widget_of_connection (c : cptr) : X (option lptr) := m ← scene sc_connectionLines ; mret (m !! c).
Definition owner_widget (e : eptr) : X wptr := w ← widget_of_element e ; need w.
Definition widget_of_input (i : option iptr) : X (option PinWidget) :=
  i ← need i ; p ← look (get_in i) ;
  w ← owner_widget (ip_owner p) ; x ← get_widget w ; mret (ew_inputPinWidgets x !! ip_id p).
Definition widget_of_output (o : option optr) : X (option PinWidget) :=
  o ← need o ; p ← look (get_out o) ;
  w ← owner_widget (op_owner p) ; x ← get_widget w ; mret (ew_outputPinWidgets x !! op_id p).

(** ** PipelineScene::ensureFit *)
Definition scenePos (x : ElementWidget) : qreal * qreal :=
  (qadd (ew_pos x).1 (ew_shift x).1, qadd (ew_pos x).2 (ew_shift x).2).
Definition translate_x (dx : qreal) (x : ElementWidget) : ElementWidget :=
  ew_set_shift (qadd dx (ew_shift x).1, (ew_shift x).2) x.
(** Both cases shift along x. *)
Definition fit (x : ElementWidget) : ElementWidget :=
  let x1 := if SFltb (scenePos x).1 qzero then translate_x (SFopp (scenePos x).1) x else x in
  if SFltb (scenePos x1).2 qzero then translate_x (SFopp (scenePos x1).1) x1 else x1.
Definition ensureFit : X unit :=
  m ← scene sc_elementWidgets ;
  for_each (map_to_list m).*2 (λ w, upd_widget w fit).

(** ** Slots for what the pipeline tells *)

(** PipelineScene::add( element ) *)
Definition add_element (e : eptr) : X unit :=
  m ← scene sc_elementWidgets ;
  assert (bool_decide (m !! e = None)) ;;
  w ← new_PipelineElementWidget e ;
  addItem (WidgetItem w) ;;
  upd_scene (λ s, sc_set_elementWidgets (<[e := w]> (sc_elementWidgets s)) s) ;;
  coords ← scene sc_coords ;
  setPos w (default (qzero, qzero) (coords !! e)) ;;
  ensureFit.

(** PipelineScene::add( connection ) *)
Definition add_connection (c : cptr) : X unit :=
  x ← look (get_conn c) ;
  from ← widget_of_output (pc_producer x) ;
  to ← widget_of_input (pc_consumer x) ;
  m ← scene sc_lines ;
  let l := fresh_key m in
  upd_scene (λ s, sc_set_lines (<[l := mkConnectionLine from to c]> (sc_lines s)) s) ;;
  addItem (LineItem l) ;;
  updatePosition l ;;
  lines ← scene sc_connectionLines ;
  assert (bool_decide (lines !! c = None)) ;;
  upd_scene (λ s, sc_set_connectionLines (<[c := l]> (sc_connectionLines s)) s) ;;
  o ← need (pc_producer x) ; po ← look (get_out o) ;
  wf ← owner_widget (op_owner po) ; addLine wf l ;;
  i ← need (pc_consumer x) ; pi ← look (get_in i) ;
  wt ← owner_widget (ip_owner pi) ; addLine wt l.

(** PipelineScene::handleRemove: the item goes, the hash keeps its entry. *)
Definition handleRemove_element (e : eptr) : X unit :=
  w ← widget_of_element e ;
  match w with Some w => removeItem (WidgetItem w) | None => mret tt end.
Definition handleRemove_connection (c : cptr) : X unit :=
  l ← widget_of_connection c ;
  match l with Some l => removeItem (LineItem l) | None => mret tt end.

Definition on_widget (e : eptr) (f : wptr → X unit) : X unit :=
  w ← widget_of_element e ;
  match w with Some w => f w | None => mret tt end.
Definition slot (s : Signal) : X unit :=
  match s with
  | elementAdded _ e => add_element e
  | connectionAdded _ c => add_connection c
  | elementRemoved _ e => handleRemove_element e
  | connectionRemoved _ c => handleRemove_connection c
  | inputPinAdded i => p ← look (get_in i) ; on_widget (ip_owner p) (λ w, addInputPin_widget w i)
  | outputPinAdded o => p ← look (get_out o) ; on_widget (op_owner p) (λ w, addOutputPin_widget w o)
  | inputPinRemoved e id => on_widget e (λ w, removeInputPin_widget w id)
  | outputPinRemoved e id => on_widget e (λ w, removeOutputPin_widget w id)
  | _ => mret tt
  end.
Definition deliver (l : list Signal) : X unit :=
  connected ← scene sc_pipeline ;
  when connected (for_each l slot).

(** A call of the pipeline, with what it emits delivered. *)
Definition pipeline_call {A} (m : W A) : X A := λ d,
  let '(r, w') := m (dk_world d) in
  let told := drop (length (w_signals (dk_world d))) (w_signals w') in
  match deliver told (mkDesk w' (dk_scene d)) with
  | (Ok _, d') => (r, d')
  | (Throw x, d') => (Throw x, d')
  | (Abort x, d') => (Abort x, d')
  end.

(** [m_pipeline->]: there is a pipeline. *)
Definition the_pipeline : X unit := b ← scene sc_pipeline ; when (negb b) (abort NullPointer).

(** ** Showing a pipeline *)
Definition setPipeline : X unit :=
  b ← scene sc_pipeline ;
  assert (negb b) ;;
  pl ← look get_pipe ;
  for_each (qmap_values (pl_children pl)) add_element ;;
  for_each (qmap_values (pl_connections pl)) add_connection ;;
  upd_scene (sc_set_pipeline true).

(** [QGraphicsScene::clear] deletes the items on the canvas; [line] keeps
    pointing where it did. *)
Definition clear_canvas (s : Scene) : Scene :=
  mkScene (sc_pipeline s) (sc_elementWidgets s) (sc_connectionLines s) (sc_line s) ∅
    (filter (λ '(w, _), WidgetItem w ∉ sc_items s) (sc_widgets s))
    (filter (λ '(l, _), LineItem l ∉ sc_items s) (sc_lines s))
    (filter (λ '(d, _), DragItem d ∉ sc_items s) (sc_drags s))
    (sc_coords s) (sc_contentsChanged s) (sc_messages s).
Definition reset : X unit :=
  upd_scene (sc_set_elementWidgets ∅) ;; upd_scene (sc_set_connectionLines ∅) ;;
  upd_scene clear_canvas ;; upd_scene (sc_set_pipeline false).

(** ** Editing *)

(** PipelineScene::remove( element ), remove( connection ) *)
Definition remove_element (e : eptr) : X unit :=
  x ← look (get_elem e) ; pipeline_call (removeElement (el_id x)).

Definition delete_line (l : lptr) : X unit :=
  removeItem (LineItem l) ;; upd_scene (λ s, sc_set_lines (delete l (sc_lines s)) s).

Definition remove_connection (c : cptr) : X unit :=
  lines ← scene sc_connectionLines ;
  assert (bool_decide (is_Some (lines !! c))) ;;
  l ← need (lines !! c) ;
  upd_scene (λ s, sc_set_connectionLines (delete c (sc_connectionLines s)) s) ;;
  x ← look (get_conn c) ;
  o ← need (pc_producer x) ; po ← look (get_out o) ;
  wf ← owner_widget (op_owner po) ; removeLine wf l ;;
  i ← need (pc_consumer x) ; pi ← look (get_in i) ;
  wt ← owner_widget (ip_owner pi) ; removeLine wt l ;;
  pipeline_call (pinConnectionDisconnect (pc_id x)) ;;
  delete_line l.

(** PipelineScene::deleteSelected, over the selected items in Qt's order. *)
Definition no_editing : string := "You are not allowed to edit the pipeline while it is running.".
Definition remove_item (it : Item) : X unit :=
  match it with
  | LineItem l => x ← get_line l ; remove_connection (cl_connection x)
  | WidgetItem w => x ← get_widget w ; remove_element (ew_element x)
  | DragItem _ => mret tt
  end.
Definition deleteSelected (selected : list Item) : X unit :=
  the_pipeline ;;
  pl ← look get_pipe ;
  if pl_running pl then upd_scene (sc_message QtWarningMsg no_editing)
  else for_each selected remove_item.

(** ** Dragging a line *)
Definition clearLine : X unit :=
  d ← scene sc_line ;
  match d with
  | Some d =>
      removeItem (DragItem d) ;;
      upd_scene (λ s, sc_set_drags (delete d (sc_drags s)) s) ;;
      upd_scene (sc_set_line None)
  | None => mret tt
  end.

(** PipelineScene::event: a click on the circle of an output pin. *)
Definition pinClicked (source : PinWidget) (centre : qreal * qreal) : X unit :=
  b ← scene sc_pipeline ;
  when b (match pw_pin source with
    | OutPin _ =>
        clearLine ;;
        m ← scene sc_drags ;
        let d := fresh_key m in
        upd_scene (λ s, sc_set_drags (<[d := mkInteractiveLine source centre]> (sc_drags s)) s) ;;
        addItem (DragItem d) ;;
        upd_scene (sc_set_line (Some d))
    | InPin _ => mret tt
    end).

Definition get_drag (d : dptr) : X InteractiveLine := m ← scene sc_drags ; need (m !! d).
Definition mouseMove (p : qreal * qreal) : X unit :=
  d ← scene sc_line ;
  match d with
  | Some d =>
      x ← get_drag d ;
      upd_scene (λ s, sc_set_drags (<[d := mkInteractiveLine (il_fromPin x) p]> (sc_drags s)) s)
  | None => mret tt
  end.

(** [throw (NonFatalException)]: any other exception ends the program. *)
Definition throws_non_fatal {A} (m : X A) : X A := λ d,
  match m d with
  | (Throw (NonFatalException x), d') => (Throw (NonFatalException x), d')
  | (Throw _, d') => (Abort UnexpectedException, d')
  | r => r
  end.

Definition handleConnectionCreation (source target : PinWidget) : X unit := throws_non_fatal (
  the_pipeline ;;
  pl ← look get_pipe ;
  when (pl_running pl) (throw (NonFatalException
    "Cannot make new connections while pipeline is running. Stop the pipeline first. ")) ;;
  match pw_pin source with
  | InPin _ => throw (NonFatalException "Cannot make connection: Source is not an output pin")
  | OutPin o =>
      match pw_pin target with
      | OutPin _ => throw (NonFatalException "Cannot make connection: Target is not an input pin")
      | InPin i =>
          '(ok, error) ← pipeline_call (canConnectPins o i) ;
          when (negb ok) (throw (NonFatalException error)) ;;
          pipeline_call (connectPins o i) ;; mret tt
      end
  end).

(** PipelineScene::mouseReleaseEvent, over the pin widgets under the mouse. *)
Definition release_on (d : dptr) (target : PinWidget) : X unit :=
  try_catch (x ← get_drag d ; handleConnectionCreation (il_fromPin x) target)
    (λ x, match x with
          | NonFatalException msg => upd_scene (sc_message QtCriticalMsg msg)
          | x => throw x
          end).
Definition mouseRelease (under : list PinWidget) : X unit :=
  d ← scene sc_line ;
  (match d with Some d => for_each under (release_on d) | None => mret tt end) ;;
  clearLine ;;
  ensureFit.

(** PipelineScene::dropEvent, of something that names a class of elements or
    of something else; the factory gives the constructor of a class. *)
Context {C : Type} (make : C → W eptr).
Definition on_factory {A} (f : Factory C) (m : M (Factory C) A) : X A := λ d, ((m f).1, d).
Definition dropEvent (f : Factory C) (dropped : option string) (p : qreal * qreal) : X unit :=
  b ← scene sc_pipeline ;
  assert b ;;
  pl ← look get_pipe ;
  if pl_running pl then upd_scene (sc_message QtWarningMsg no_editing)
  else match dropped with
  | None => mret tt
  | Some elementName =>
      typeId ← on_factory f (elementId elementName) ;
      when (bool_decide (typeId = -1))
        (throw (RuntimeError ("Tried to create unknown element " +:+ elementName +:+ "."))) ;;
      c ← on_factory f (construct_id typeId) ;
      c ← need c ;
      e ← pipeline_call (make c) ;
      upd_scene (sc_set_coords e p) ;;
      pipeline_call (addElement e) ;; mret tt
  end.
End editor.
