(* ===== verification/EditorProof.v ===== *)
(** The scene shows the pipeline: the invariant of the editor and what keeps it. *)
From Stdlib Require Import Floats.SpecFloat.
From S2P Require Export Editor.

(** ** Steps of the scene *)
Section steps.
Implicit Types d : Desk.

Lemma run_look {A} (m : W A) d a w : m (dk_world d) = (Ok a, w) → look m d = (Ok a, d).
Proof. intros H. unfold look. by rewrite H. Qed.
Lemma run_need {A} (a : A) d : need (Some a) d = (Ok a, d).
Proof. done. Qed.
Lemma run_get_widget pw ew d : sc_widgets (dk_scene d) !! pw = Some ew → get_widget pw d = (Ok ew, d).
Proof. intros H. unfold get_widget. erewrite run_bind by reflexivity. by rewrite H. Qed.
Lemma run_get_line l li d : sc_lines (dk_scene d) !! l = Some li → get_line l d = (Ok li, d).
Proof. intros H. unfold get_line. erewrite run_bind by reflexivity. by rewrite H. Qed.
Lemma run_upd_widget pw f ew d : sc_widgets (dk_scene d) !! pw = Some ew →
  upd_widget pw f d = (Ok tt, mkDesk (dk_world d) (sc_set_widgets (<[pw := f ew]> (sc_widgets (dk_scene d))) (dk_scene d))).
Proof. intros H. unfold upd_widget. erewrite run_bind by (by apply run_get_widget). reflexivity. Qed.
Lemma run_owner_widget e pw d : sc_elementWidgets (dk_scene d) !! e = Some pw → owner_widget e d = (Ok pw, d).
Proof.
  intros H. unfold owner_widget, widget_of_element. erewrite run_bind by (erewrite run_bind by reflexivity; reflexivity).
  by rewrite H.
Qed.
End steps.
Ltac xprim := first [ reflexivity | eassumption | by apply run_get_widget | by apply run_get_line | by apply run_owner_widget
  | eapply run_look; first [by apply run_get_in | by apply run_get_out | by apply run_get_conn | by apply run_get_elem ] ].
Ltac xrun := erewrite run_bind by xprim; cbv beta iota zeta.
Ltac xruns := repeat xrun.

(** ** Where the widgets are

    Moving a widget changes its place, what is saved of it and nothing else. *)
Definition ew_moved (x y : ElementWidget) : Prop := ∃ p q, y = ew_set_shift q (ew_set_pos p x).
Record moves (d d' : Desk) : Prop := {
  mv_world : dk_world d' = dk_world d;
  mv_widgets : ∀ w, option_Forall2 ew_moved (sc_widgets (dk_scene d) !! w) (sc_widgets (dk_scene d') !! w);
  mv_scene : ∃ m co n, dk_scene d' = mkScene (sc_pipeline (dk_scene d)) (sc_elementWidgets (dk_scene d))
    (sc_connectionLines (dk_scene d)) (sc_line (dk_scene d)) (sc_items (dk_scene d)) m (sc_lines (dk_scene d))
    (sc_drags (dk_scene d)) co n (sc_messages (dk_scene d))
}.
Lemma ew_moved_refl x : ew_moved x x.
Proof. exists (ew_pos x), (ew_shift x). by destruct x. Qed.
#[export] Instance moves_preorder : PreOrder moves.
Proof.
  split.
  - intros d. split; [done| |].
    + intros w. destruct (_ !! w); constructor. apply ew_moved_refl.
    + destruct d as [w s]. exists (sc_widgets s), (sc_coords s), (sc_contentsChanged s). by destruct s.
  - intros d1 d2 d3 [W1 M1 (m1 & c1 & n1 & S1)] [W2 M2 (m2 & c2 & n2 & S2)]. split; [congruence| |].
    + intros w. specialize (M1 w). specialize (M2 w).
      inversion M1 as [a b (p & q & ->) E1 E2|E1 E2]; rewrite <-E2 in M2; inversion M2 as [b' c (p' & q' & ->) E3 E4|E3 E4]; constructor.
      exists p', q'. subst. done.
    + exists m2, c2, n2. rewrite S2, S1. done.
Qed.

Lemma moves_widget d pw ew f : sc_widgets (dk_scene d) !! pw = Some ew → ew_moved ew (f ew) →
  moves d (mkDesk (dk_world d) (sc_set_widgets (<[pw := f ew]> (sc_widgets (dk_scene d))) (dk_scene d))).
Proof.
  intros Hw Hm. split; [done| |by do 3 eexists]. intros w. cbn. destruct (decide (w = pw)) as [->|Hne].
  - rewrite lookup_insert_eq, Hw. by constructor.
  - rewrite lookup_insert_ne by done. destruct (_ !! w); constructor. apply ew_moved_refl.
Qed.
Lemma moves_alive d d' pw ew : moves d d' → sc_widgets (dk_scene d) !! pw = Some ew →
  ∃ ew', sc_widgets (dk_scene d') !! pw = Some ew' ∧ ew_moved ew ew'.
Proof. intros Hm Hw. pose proof (mv_widgets _ _ Hm pw) as H. rewrite Hw in H. inversion H; eauto. Qed.

Lemma fit_moved x : ew_moved x (fit x).
Proof.
  unfold fit, translate_x. destruct x as [e i o l p q].
  destruct (SFltb _ _); cbn; destruct (SFltb _ _); by do 2 eexists.
Qed.

(** [ensureFit] on a scene whose hash leads to living widgets. *)
Lemma run_ensureFit d : (∀ e pw, sc_elementWidgets (dk_scene d) !! e = Some pw → is_Some (sc_widgets (dk_scene d) !! pw)) →
  wpr ensureFit (λ _ d', moves d d') d.
Proof.
  intros Hal. unfold ensureFit. apply wpr_bind, wpr_gets.
  apply (wpr_for_each (λ _ d', moves d d')); [reflexivity|].
  intros seen pw rest d' Hl Hm. assert (is_Some (sc_widgets (dk_scene d) !! pw)) as [ew Hew].
  { assert (pw ∈ (map_to_list (sc_elementWidgets (dk_scene d))).*2) as Hin by (rewrite Hl; set_solver).
    apply list_elem_of_fmap in Hin as ([e pw'] & -> & Hin%elem_of_map_to_list). by eapply Hal. }
  destruct (moves_alive _ _ _ _ Hm Hew) as (ew' & Hew' & _).
  eapply wpr_intro; [by apply run_upd_widget|]. etrans; [exact Hm|]. apply moves_widget; [done|apply fit_moved].
Qed.

(** [setPos] of a living widget whose lines are alive. *)
Lemma run_savePosition d pw ew : sc_widgets (dk_scene d) !! pw = Some ew →
  wpr (savePositionProperties pw) (λ _ d', moves d d') d.
Proof.
  intros Hw. unfold savePositionProperties. eapply wpr_intro; [by xruns|].
  split; [done| |by do 3 eexists]. intros w. cbn. destruct (_ !! w); constructor. apply ew_moved_refl.
Qed.
Lemma run_setPos d pw ew p : sc_widgets (dk_scene d) !! pw = Some ew →
  (∀ l, l ∈ ew_lines ew → is_Some (sc_lines (dk_scene d) !! l)) →
  wpr (setPos pw p) (λ _ d', moves d d') d.
Proof.
  intros Hw Hl. unfold setPos. apply wpr_bind. eapply wpr_intro; [by apply run_get_widget|].
  apply wpr_when; [|intros; reflexivity]. intros _. apply wpr_bind.
  apply (wpr_mono _ (λ _ d', d' = d)).
  { intros _ d' ->. apply wpr_bind. eapply wpr_intro; [by apply run_upd_widget|].
    set (d1 := mkDesk _ _). assert (H1 : moves d d1) by (apply (moves_widget _ _ ew (ew_set_pos p)); [done|by exists p, (ew_shift ew)]).
    apply wpr_bind. apply (wpr_mono _ (λ _ d', moves d d')).
    - intros _ d2 H2. apply wpr_when; [|done]. intros _.
      destruct (moves_alive _ _ _ _ H2 Hw) as (ew2 & Hew2 & _).
      eapply wpr_mono; [|by eapply run_savePosition]. intros ? d3 H3. by etrans.
    - apply wpr_when; [|done]. intros _.
      destruct (moves_alive _ _ _ _ H1 Hw) as (ew1 & Hew1 & _).
      eapply wpr_mono; [|by eapply run_savePosition]. intros ? d3 H3. by etrans. }
  apply (wpr_for_each (λ _ d', d' = d)); [done|]. intros seen l rest d' Hs ->.
  destruct (Hl l) as [li Hli]; [rewrite Hs; set_solver|].
  eapply wpr_intro; [unfold updatePosition; by xruns|done].
Qed.

(** ** A new widget *)
Section widgets.
Context `{HashOrder}.

(** Filling a map item by item. *)
Definition inserts {A B} (f : A → B) (l : list (Z * A)) (m : gmap Z B) : gmap Z B :=
  foldl (λ m kc, <[kc.1 := f kc.2]> m) m l.
Lemma inserts_lookup {A B} (f : A → B) l : ∀ m, NoDup l.*1 →
  (∀ k a, (k, a) ∈ l → inserts f l m !! k = Some (f a)) ∧ (∀ k, k ∉ l.*1 → inserts f l m !! k = m !! k).
Proof.
  induction l as [|[k a] l IH]; intros m; cbn; [set_solver|]. intros [Hk Hnd]%NoDup_cons.
  destruct (IH (<[k := f a]> m) Hnd) as [Hin Hout]. split.
  - intros k' a' [[= -> ->]|Hka]%elem_of_cons; [|by apply Hin].
    change (inserts f l (<[k := f a]> m) !! k = Some (f a)). by rewrite Hout, lookup_insert_eq.
  - intros k' Hk'. change (inserts f l (<[k := f a]> m) !! k' = m !! k').
    rewrite Hout by set_solver. by rewrite lookup_insert_ne by set_solver.
Qed.
Lemma inserts_map {A B} (f : A → B) l (m : gmap Z A) : NoDup l.*1 → (∀ k a, (k, a) ∈ l ↔ m !! k = Some a) →
  inserts f l ∅ = f <$> m.
Proof.
  intros Hnd Hl. destruct (inserts_lookup f l ∅ Hnd) as [Hin Hout].
  apply map_eq. intros k. rewrite lookup_fmap. destruct (m !! k) as [a|] eqn:Hk; cbn; [by apply Hin, Hl|].
  rewrite Hout; [apply lookup_empty|]. intros ([k' a] & -> & Ha%Hl)%list_elem_of_fmap. cbn in Hk. congruence.
Qed.

Definition pin_widgets {A} (pw : wptr) (ref : A → PinRef) : list (Z * A) → gmap Z PinWidget → gmap Z PinWidget :=
  inserts (λ a, mkPinWidget pw (ref a)).
Lemma pin_widgets_hash {A} pw (ref : A → PinRef) (m : gmap Z A) :
  pin_widgets pw ref (hash_items m) ∅ = (λ a, mkPinWidget pw (ref a)) <$> m.
Proof. apply inserts_map; [apply NoDup_hash_keys|intros; apply elem_of_hash_items]. Qed.

Definition with_widget (pw : wptr) (ew : ElementWidget) (d : Desk) : Desk :=
  mkDesk (dk_world d) (sc_set_widgets (<[pw := ew]> (sc_widgets (dk_scene d))) (dk_scene d)).
Lemma with_widget_same pw ew d : sc_widgets (dk_scene d) !! pw = Some ew → with_widget pw ew d = d.
Proof. intros Hw. unfold with_widget, sc_set_widgets. rewrite insert_id by done. by destruct d as [? []]. Qed.
Lemma with_widget_twice pw ew ew' d : with_widget pw ew' (with_widget pw ew d) = with_widget pw ew' d.
Proof. unfold with_widget, sc_set_widgets. cbn. by rewrite insert_insert_eq. Qed.
Lemma run_upd_with pw f ew d : upd_widget pw f (with_widget pw ew d) = (Ok tt, with_widget pw (f ew) d).
Proof.
  erewrite run_upd_widget by apply lookup_insert_eq. f_equal. apply with_widget_twice.
Qed.

(** The loops of the constructor. *)
Lemma run_add_inputs pw l d : ∀ ew, (∀ k i, (k, i) ∈ l → ∃ p, w_ins (dk_world d) !! i = Some p ∧ ip_id p = k) →
  for_each l.*2 (addInputPin_widget pw) (with_widget pw ew d) =
    (Ok tt, with_widget pw (ew_set_inputs (pin_widgets pw InPin l (ew_inputPinWidgets ew)) ew) d).
Proof.
  induction l as [|[k i] l IH]; intros ew Hl; cbn [fmap list_fmap for_each snd]; [by destruct ew|].
  destruct (Hl k i) as (p & Hp & <-); [set_solver|].
  erewrite run_bind by (unfold addInputPin_widget; xrun; apply run_upd_with).
  rewrite IH; [done|intros k' i' Hin; apply Hl; set_solver].
Qed.
Lemma run_add_outputs pw l d : ∀ ew, (∀ k o, (k, o) ∈ l → ∃ p, w_outs (dk_world d) !! o = Some p ∧ op_id p = k) →
  for_each l.*2 (addOutputPin_widget pw) (with_widget pw ew d) =
    (Ok tt, with_widget pw (ew_set_outputs (pin_widgets pw OutPin l (ew_outputPinWidgets ew)) ew) d).
Proof.
  induction l as [|[k o] l IH]; intros ew Hl; cbn [fmap list_fmap for_each snd]; [by destruct ew|].
  destruct (Hl k o) as (p & Hp & <-); [set_solver|].
  erewrite run_bind by (unfold addOutputPin_widget; xrun; apply run_upd_with).
  rewrite IH; [done|intros k' i' Hin; apply Hl; set_solver].
Qed.

(** What the widget of an element shows: its pins. *)
Definition shown_inputs (x : Element) : gmap Z iptr :=
  match el_kind x with KProcessor => el_inputPins x | KProducer => ∅ end.
Definition widget_for (pw : wptr) (e : eptr) (x : Element) : ElementWidget :=
  mkElementWidget e ((λ i, mkPinWidget pw (InPin i)) <$> shown_inputs x)
    ((λ o, mkPinWidget pw (OutPin o)) <$> el_outputPins x) [] (qzero, qzero) (qzero, qzero).

Lemma run_new_widget d e x : graph_wf (dk_world d) → w_elems (dk_world d) !! e = Some x →
  let pw := fresh_key (sc_widgets (dk_scene d)) in
  new_PipelineElementWidget e d = (Ok pw, with_widget pw (widget_for pw e x) d).
Proof.
  intros Hwf Hx pw. unfold new_PipelineElementWidget. erewrite run_bind by reflexivity. cbv zeta. fold pw.
  set (ew0 := mkElementWidget e ∅ ∅ [] (qzero, qzero) (qzero, qzero)).
  erewrite run_bind with (s' := with_widget pw ew0 d) by reflexivity.
  erewrite run_bind by (eapply run_look; by apply run_get_elem).
  assert (Hins : (match el_kind x with KProcessor => for_each (hash_values (el_inputPins x)) (addInputPin_widget pw)
    | KProducer => mret tt end) (with_widget pw ew0 d) =
    (Ok tt, with_widget pw (ew_set_inputs ((λ i, mkPinWidget pw (InPin i)) <$> shown_inputs x) ew0) d)).
  { unfold shown_inputs. destruct (el_kind x); [by rewrite fmap_empty|].
    unfold hash_values. rewrite run_add_inputs; [cbn; by rewrite pin_widgets_hash|].
    intros k i Hk%elem_of_hash_items. destruct (wf_inputPins _ Hwf _ _ _ _ Hx Hk) as (p & ? & ? & _). by exists p. }
  erewrite run_bind by exact Hins. unfold hash_values.
  erewrite run_bind.
  2:{ apply run_add_outputs. intros k o Hk%elem_of_hash_items.
      destruct (wf_outputPins _ Hwf _ _ _ _ Hx Hk) as (p & ? & ? & _). by exists p. }
  cbn. by rewrite pin_widgets_hash.
Qed.
End widgets.

(** ** The invariant

    The scene against the tables [v] of the elements and connections it was
    told of, in a heap [w]. *)
Record scene_ok (w : World) (v : View) (s : Scene) : Prop := {
  so_element : ∀ e pw, sc_elementWidgets s !! e = Some pw → ∃ x ew, w_elems w !! e = Some x ∧
    sc_widgets s !! pw = Some ew ∧ ew_element ew = e ∧
    ew_inputPinWidgets ew = (λ i, mkPinWidget pw (InPin i)) <$> shown_inputs x ∧
    ew_outputPinWidgets ew = (λ o, mkPinWidget pw (OutPin o)) <$> el_outputPins x;
  so_child : ∀ k e, v.1 !! k = Some e → ∃ pw, sc_elementWidgets s !! e = Some pw ∧ WidgetItem pw ∈ sc_items s;
  so_widget : ∀ pw, WidgetItem pw ∈ sc_items s → ∃ e k, v.1 !! k = Some e ∧ sc_elementWidgets s !! e = Some pw;
  so_line : ∀ c l, sc_connectionLines s !! c = Some l → is_Some (w_conns w !! c) ∧
    ∃ li, sc_lines s !! l = Some li ∧ cl_connection li = c;
  so_connection : ∀ k c, v.2 !! k = Some c → ∃ l, sc_connectionLines s !! c = Some l ∧ LineItem l ∈ sc_items s;
  so_lineitem : ∀ l, LineItem l ∈ sc_items s → ∃ c k, v.2 !! k = Some c ∧ sc_connectionLines s !! c = Some l;
  so_lines : ∀ pw ew l, sc_widgets s !! pw = Some ew → l ∈ ew_lines ew → ∃ li, sc_lines s !! l = Some li ∧
    (pw_parent <$> cl_fromPin li = Some pw ∨ pw_parent <$> cl_toPin li = Some pw);
  so_unique : (∀ k k' e, v.1 !! k = Some e → v.1 !! k' = Some e → k = k') ∧
    (∀ k k' c, v.2 !! k = Some c → v.2 !! k' = Some c → k = k')
}.

(** One widget per element, one line per connection. *)
Lemma so_widget_inj w v s e e' pw : scene_ok w v s →
  sc_elementWidgets s !! e = Some pw → sc_elementWidgets s !! e' = Some pw → e = e'.
Proof.
  intros Hok H1 H2. destruct (so_element _ _ _ Hok _ _ H1) as (x & ew & _ & Hw & <- & _).
  destruct (so_element _ _ _ Hok _ _ H2) as (x' & ew' & _ & Hw' & <- & _). congruence.
Qed.
Lemma so_line_inj w v s c c' l : scene_ok w v s →
  sc_connectionLines s !! c = Some l → sc_connectionLines s !! c' = Some l → c = c'.
Proof.
  intros Hok H1 H2. destruct (so_line _ _ _ Hok _ _ H1) as (_ & li & Hl & <-).
  destruct (so_line _ _ _ Hok _ _ H2) as (_ & li' & Hl' & <-). congruence.
Qed.

(** Moving widgets changes nothing of it. *)
Lemma so_moves w v s d' : scene_ok w v s → moves (mkDesk w s) d' → scene_ok w v (dk_scene d').
Proof.
  intros [E C W L K I N U] [_ M (m & co & n & S)]. cbn in M. destruct d' as [w' s']. cbn in *. subst s'. cbn in M.
  split; cbn; try done.
  - intros e pw Hp. destruct (E e pw Hp) as (x & ew & Hx & Hew & He & Hi & Ho).
    specialize (M pw). rewrite Hew in M. inversion M as [a b (p & q & ->) E1 E2|]; subst.
    exists x. eexists. split; [done|]. split; [done|]. done.
  - intros pw ew l Hew Hl. specialize (M pw). rewrite Hew in M. inversion M as [a b (p & q & ->) E1 E2|]; subst.
    by apply (N pw a).
Qed.

(** It survives changes of the heap that keep the pins of the elements. *)
Definition keeps_pins (w w' : World) : Prop :=
  (∀ e x, w_elems w !! e = Some x → ∃ x', w_elems w' !! e = Some x' ∧
     shown_inputs x' = shown_inputs x ∧ el_outputPins x' = el_outputPins x) ∧
  (∀ c, is_Some (w_conns w !! c) → is_Some (w_conns w' !! c)).
Lemma so_heap w w' v s : keeps_pins w w' → scene_ok w v s → scene_ok w' v s.
Proof.
  intros [He Hc] [E C W L K I N U]. split; try done.
  - intros e pw Hp. destruct (E e pw Hp) as (x & ew & Hx & Hew & Hel & Hi & Ho).
    destruct (He e x Hx) as (x' & Hx' & Hi' & Ho'). exists x', ew. by rewrite Hi', Ho'.
  - intros c l Hl. destruct (L c l Hl) as [H1 H2]. auto.
Qed.

(** ** Slots *)

(** What a slot about removals can change: what is on the canvas. *)
Definition takes_off (s s' : Scene) : Prop := ∃ m, s' = sc_set_items m s ∧ m ⊆ sc_items s.
#[export] Instance takes_off_preorder : PreOrder takes_off.
Proof.
  split; [intros s; exists (sc_items s); by destruct s|].
  intros s1 s2 s3 (m & -> & Hm) (m' & -> & Hm'). exists m'. cbn in Hm'. split; [done|set_solver].
Qed.

Section slots.
Context `{HashOrder}.
Implicit Types w : World.

Lemma slot_elementRemoved w v s k e : scene_ok w v s → v.1 !! k = Some e →
  ∃ s', slot (elementRemoved k e) (mkDesk w s) = (Ok tt, mkDesk w s') ∧ takes_off s s' ∧ scene_ok w (delete k v.1, v.2) s'.
Proof.
  intros Hok Hk. destruct (so_child _ _ _ Hok _ _ Hk) as (pw & Hpw & Hit).
  exists (sc_set_items (sc_items s ∖ {[WidgetItem pw]}) s). split; [|split; [eexists; split; [done|set_solver]|]].
  - cbn. unfold handleRemove_element, widget_of_element. erewrite run_bind by reflexivity. cbn. by rewrite Hpw.
  - pose proof (so_widget_inj w v s) as Hinj. destruct (so_unique _ _ _ Hok) as [U1 U2].
    destruct Hok as [E C W L K I N U]. split; cbn; try done.
    + intros k' e' [Hne Hk']%lookup_delete_Some. destruct (C k' e' Hk') as (pw' & Hp' & Hi'). exists pw'. split; [done|].
      apply elem_of_difference. split; [done|]. intros [= ->]%elem_of_singleton. apply Hne.
      apply (U1 k k' e); [done|]. rewrite (Hinj e e' pw); done.
    + intros pw' [Hi Hn]%elem_of_difference. destruct (W pw' Hi) as (e' & k' & Hk' & Hp'). exists e', k'. split; [|done].
      apply lookup_delete_Some. split; [|done]. intros <-. apply Hn. rewrite Hk in Hk'. injection Hk' as ->. set_solver.
    + intros k' c Hc. destruct (K k' c Hc) as (l & Hl & Hi). exists l. set_solver.
    + intros l [Hi _]%elem_of_difference. by apply I.
    + split; [|done]. intros k1 k2 e' [_ H1]%lookup_delete_Some [_ H2]%lookup_delete_Some. by apply (U1 k1 k2 e').
Qed.

Lemma slot_connectionRemoved w v s k c : scene_ok w v s → v.2 !! k = Some c →
  ∃ s', slot (connectionRemoved k c) (mkDesk w s) = (Ok tt, mkDesk w s') ∧ takes_off s s' ∧ scene_ok w (v.1, delete k v.2) s'.
Proof.
  intros Hok Hk. destruct (so_connection _ _ _ Hok _ _ Hk) as (l & Hl & Hit).
  exists (sc_set_items (sc_items s ∖ {[LineItem l]}) s). split; [|split; [eexists; split; [done|set_solver]|]].
  - cbn. unfold handleRemove_connection, widget_of_connection. erewrite run_bind by reflexivity. cbn. by rewrite Hl.
  - pose proof (so_line_inj w v s) as Hinj. destruct (so_unique _ _ _ Hok) as [U1 U2].
    destruct Hok as [E C W L K I N U]. split; cbn; try done.
    + intros k' e' Hc. destruct (C k' e' Hc) as (pw & Hp & Hi). exists pw. set_solver.
    + intros pw [Hi _]%elem_of_difference. by apply W.
    + intros k' c' [Hne Hk']%lookup_delete_Some. destruct (K k' c' Hk') as (l' & Hl' & Hi'). exists l'. split; [done|].
      apply elem_of_difference. split; [done|]. intros [= ->]%elem_of_singleton. apply Hne.
      apply (U2 k k' c); [done|]. rewrite (Hinj c c' l); done.
    + intros l' [Hi Hn]%elem_of_difference. destruct (I l' Hi) as (c' & k' & Hk' & Hl'). exists c', k'. split; [|done].
      apply lookup_delete_Some. split; [|done]. intros <-. apply Hn. rewrite Hk in Hk'. injection Hk' as ->. set_solver.
    + split; [done|]. intros k1 k2 c' [_ H1]%lookup_delete_Some [_ H2]%lookup_delete_Some. by apply (U2 k1 k2 c').
Qed.

Lemma deliver_removals w l : ∀ v s, scene_ok w v s → Forall removal l → told_ok v l →
  ∃ s', for_each l slot (mkDesk w s) = (Ok tt, mkDesk w s') ∧ takes_off s s' ∧ scene_ok w (replay l v) s'.
Proof.
  induction l as [|a l IH]; intros v s Hok Hr Ho; cbn; [exists s; split; [done|]; split; [reflexivity|done]|].
  apply Forall_cons in Hr as [Ha Hr]. destruct Ho as [Hh Ho].
  assert (∃ s1, slot a (mkDesk w s) = (Ok tt, mkDesk w s1) ∧ takes_off s s1 ∧ scene_ok w (view_step v a) s1)
    as (s1 & Hrun & Ht & Hok1).
  { destruct a; try done; [by apply slot_elementRemoved|by apply slot_connectionRemoved]. }
  destruct (IH _ _ Hok1 Hr Ho) as (s2 & Hrun2 & Ht2 & Hok2). exists s2. erewrite run_bind by exact Hrun.
  split; [done|]. split; [by etrans|done].
Qed.
End slots.

(** ** Calls of the pipeline *)
Section calls.
Context `{HashOrder} `{QMetaType}.
Implicit Types w : World.

Lemma run_pipeline_call {A} (m : W A) w s r w' told d' : m w = (r, w') → w_signals w' = w_signals w ++ told →
  deliver told (mkDesk w' s) = (Ok tt, d') → pipeline_call m (mkDesk w s) = (r, d').
Proof. intros Hm Hs Hd. unfold pipeline_call. cbn. rewrite Hm, Hs, drop_app_length, Hd. done. Qed.
Lemma run_deliver l w s : sc_pipeline s = true → deliver l (mkDesk w s) = for_each l slot (mkDesk w s).
Proof. intros Hp. unfold deliver. erewrite run_bind by reflexivity. cbn. by rewrite Hp. Qed.

(** A call that removes. *)
Lemma pipeline_removals {A} (m : W A) w s a w' : graph_wf w → sc_pipeline s = true → scene_ok w (tables w) s →
  m w = (Ok a, w') → frames (tells_by removal) m w → w_elems w' = w_elems w →
  ∃ s', pipeline_call m (mkDesk w s) = (Ok a, mkDesk w' s') ∧ takes_off s s' ∧ scene_ok w' (tables w') s'.
Proof.
  intros Hwf Hp Hok Hm Ht He. unfold frames in Ht. rewrite Hm in Ht.
  destruct (Ht (wf_ids_known _ Hwf)) as ([_ Hkeep] & told & Hs & Hr & Ho & Hre).
  destruct (deliver_removals w' told (tables w) s) as (s' & Hrun & Htake & Hok'); [|done|done|].
  { eapply so_heap; [|exact Hok]. split; [|exact Hkeep]. intros e x Hx. exists x. by rewrite He. }
  cbn in Hre. rewrite Hre in Hok'. exists s'. split; [|done]. eapply run_pipeline_call; [exact Hm|exact Hs|]. by rewrite run_deliver.
Qed.

(** The lines show the connections as they are. *)
Definition line_at w (s : Scene) (x : PinConnection) (li : ConnectionLine) : Prop := ∃ o po i pi wf wt,
  (pc_producer x = Some o ∧ w_outs w !! o = Some po ∧ sc_elementWidgets s !! op_owner po = Some wf ∧
     cl_fromPin li = Some (mkPinWidget wf (OutPin o))) ∧
  (pc_consumer x = Some i ∧ w_ins w !! i = Some pi ∧ sc_elementWidgets s !! ip_owner pi = Some wt ∧
     cl_toPin li = Some (mkPinWidget wt (InPin i))).
Definition ends_ok w (s : Scene) : Prop := ∀ k c x l li, connections w !! k = Some c → w_conns w !! c = Some x →
  sc_connectionLines s !! c = Some l → sc_lines s !! l = Some li → line_at w s x li.

(** What is in the pipeline stays there, and pins stay where they are. *)
Record keeps_places w w' : Prop := {
  kpl_elements : ∀ e x, in_pipeline w e x → in_pipeline w' e x;
  kpl_outs : ∀ o p, w_outs w !! o = Some p → ∃ p', w_outs w' !! o = Some p' ∧ op_owner p' = op_owner p ∧ op_id p' = op_id p;
  kpl_ins : ∀ i p, w_ins w !! i = Some p → ∃ p', w_ins w' !! i = Some p' ∧ ip_owner p' = ip_owner p ∧ ip_id p' = ip_id p
}.
#[export] Instance keeps_places_preorder : PreOrder keeps_places.
Proof.
  split; [split; eauto|]. intros w1 w2 w3 [A1 B1 C1] [A2 B2 C2]. split; [by auto| |].
  - intros o p Hp. destruct (B1 o p Hp) as (p1 & Hp1 & E1 & F1). destruct (B2 o p1 Hp1) as (p2 & Hp2 & E2 & F2).
    exists p2. split_and!; [done|congruence|congruence].
  - intros i p Hp. destruct (C1 i p Hp) as (p1 & Hp1 & E1 & F1). destruct (C2 i p1 Hp1) as (p2 & Hp2 & E2 & F2).
    exists p2. split_and!; [done|congruence|congruence].
Qed.
Lemma shrinks_places w w' : shrinks w w' → keeps_places w w'.
Proof.
  intros Hs. split.
  - intros e x [Hx Hc]. split; [by rewrite (sh_elems _ _ Hs)|]. by rewrite (shrinks_children _ _ Hs).
  - intros o p Hp. destruct (shrinks_out _ _ _ _ Hs Hp) as (p' & Hp' & l & -> & _). by eexists.
  - intros i p Hp. destruct (shrinks_in _ _ _ _ Hs Hp) as (p' & Hp' & l & -> & _). by eexists.
Qed.
Lemma line_at_places w w' s s' x li : keeps_places w w' → sc_elementWidgets s ⊆ sc_elementWidgets s' →
  line_at w s x li → line_at w' s' x li.
Proof.
  intros [_ Hout Hin] Hsub (o & po & i & pi & wf & wt & (H1 & Hpo & H3 & H4) & (H5 & Hpi & H7 & H8)).
  destruct (Hout o po Hpo) as (po' & Hpo' & Ho & _). destruct (Hin i pi Hpi) as (pi' & Hpi' & Hi & _).
  exists o, po', i, pi', wf, wt. rewrite Ho, Hi. split; (split_and!; [done|done| |done]); by eapply lookup_weaken.
Qed.
(** A line is drawn from a pin of an element of the pipeline. *)
Definition pin_owned w (r : PinRef) : Prop :=
  match r with
  | InPin i => ∃ pi, w_ins w !! i = Some pi ∧ owned_in w i pi
  | OutPin o => ∃ po, w_outs w !! o = Some po ∧ owned_out w o po
  end.
Definition drag_ok w (s : Scene) : Prop := ∀ d, sc_line s = Some d → ∃ il o, sc_drags s !! d = Some il ∧
  pw_pin (il_fromPin il) = OutPin o ∧ pin_owned w (OutPin o).

Record desk_ok (d : Desk) : Prop := {
  do_wf : graph_wf (dk_world d);
  do_pipeline : sc_pipeline (dk_scene d) = true;
  do_scene : scene_ok (dk_world d) (tables (dk_world d)) (dk_scene d);
  do_ends : ends_ok (dk_world d) (dk_scene d);
  do_drag : drag_ok (dk_world d) (dk_scene d)
}.

(** ** Removing *)
Lemma do_element d pw : desk_ok d → WidgetItem pw ∈ sc_items (dk_scene d) → ∃ e k ew x,
  children (dk_world d) !! k = Some e ∧ sc_elementWidgets (dk_scene d) !! e = Some pw ∧
  sc_widgets (dk_scene d) !! pw = Some ew ∧ ew_element ew = e ∧ w_elems (dk_world d) !! e = Some x ∧ el_id x = k.
Proof.
  intros Hd Hit. destruct (so_widget _ _ _ (do_scene _ Hd) _ Hit) as (e & k & Hk & Hpw).
  destruct (so_element _ _ _ (do_scene _ Hd) _ _ Hpw) as (x & ew & Hx & Hew & He & _).
  destruct (wf_children _ (do_wf _ Hd) _ _ Hk) as (x' & Hx' & Hid & _). simplify_eq. by exists (ew_element ew), (el_id x), ew, x.
Qed.

Lemma run_remove_element w s pw : desk_ok (mkDesk w s) → WidgetItem pw ∈ sc_items s → sc_line s = None →
  ∃ e w' s', remove_item (WidgetItem pw) (mkDesk w s) = (Ok tt, mkDesk w' s') ∧ desk_ok (mkDesk w' s') ∧
    takes_off s s' ∧ sc_elementWidgets s !! e = Some pw ∧
    (∀ k e', children w' !! k = Some e' ↔ children w !! k = Some e' ∧ e' ≠ e) ∧
    (∀ k c, connections w' !! k = Some c ↔ connections w !! k = Some c ∧ ¬ touches w e c) ∧
    (∀ k c e', connections w' !! k = Some c → touches w' e' c → touches w e' c) ∧
    ∃ k, removeElement k w = (Ok tt, w').
Proof.
  intros Hd Hit Hline. destruct (do_element _ _ Hd Hit) as (e & k & ew & x & Hk & Hpw & Hew & He & Hx & Hid). cbn in *.
  destruct (removeElement_effect w k e (do_wf _ Hd) Hk)
    as (w' & w1 & Hrun & Hwf' & Hch & Hco & Hs & E1 & E2 & E3 & E4 & E5).
  destruct (pipeline_removals (removeElement k) w s tt w') as (s' & Hcall & Htake & Hok');
    [apply Hd..|done|apply removals_removeElement|by rewrite E1, (sh_elems _ _ Hs)|].
  exists e, w', s'. split_and!; [| |done|done| |done| |by exists k].
  - cbn. erewrite run_bind by (by apply run_get_widget). rewrite He. unfold remove_element.
    erewrite run_bind by (eapply run_look; by apply run_get_elem). by rewrite Hid.
  - destruct Htake as (m & -> & Hm). split; cbn; [done|apply Hd|done| |intros d0 Hd0; cbn in Hd0; congruence].
    intros k' c y l li Hk' Hy Hl Hli. apply Hco in Hk' as Hk0. rewrite E5 in Hk'. rewrite E4, (sh_conns _ _ Hs _ _ Hk') in Hy.
    pose proof (line_at_places _ _ _ _ _ _ (shrinks_places _ _ Hs) (reflexivity _) (do_ends _ Hd k' c y l li (proj1 Hk0) Hy Hl Hli)) as Hat.
    unfold line_at in *. rewrite E2, E3. exact Hat.
  - intros k' e'. rewrite Hch, lookup_delete_Some. split.
    + intros [Hne H1]. split; [done|]. intros ->. apply Hne. by eapply child_id_unique; [apply Hd|..].
    + intros [H1 Hne]. split; [|done]. intros <-. congruence.
  - intros k' c e' Hk' Ht. rewrite E5 in Hk'. eapply touches_shrinks; [exact Hs|exact Hk'|].
    destruct Ht as (y & Hy & Ht). exists y. rewrite <-E4, <-E2, <-E3. by split.
Qed.

(** A line leaves the widgets at its ends. *)
Definition without (l : lptr) (ew : ElementWidget) : ElementWidget :=
  ew_set_lines (filter (λ l', l' ≠ l) (ew_lines ew)) ew.
Lemma without_twice l ew : without l (without l ew) = without l ew.
Proof.
  unfold without. destruct ew as [e i o ls p q]. unfold ew_set_lines. cbn. f_equal.
  rewrite list_filter_filter. apply list_filter_iff. intros l'. tauto.
Qed.
Definition detached (l : lptr) (wf wt : wptr) (m m' : gmap wptr ElementWidget) : Prop := ∀ pw,
  m' !! pw = if bool_decide (pw = wf ∨ pw = wt) then without l <$> m !! pw else m !! pw.
Lemma detached_both l wf wt m ewf ewt : m !! wf = Some ewf → <[wf := without l ewf]> m !! wt = Some ewt →
  detached l wf wt m (<[wt := without l ewt]> (<[wf := without l ewf]> m)).
Proof.
  intros Hf Ht pw. destruct (decide (pw = wt)) as [->|Hne].
  - rewrite lookup_insert_eq, bool_decide_true by auto. destruct (decide (wt = wf)) as [->|Hne'].
    + rewrite lookup_insert_eq in Ht. injection Ht as <-. rewrite Hf. cbn. by rewrite without_twice.
    + rewrite lookup_insert_ne in Ht by done. by rewrite Ht.
  - rewrite lookup_insert_ne by done. destruct (decide (pw = wf)) as [->|Hne'].
    + rewrite lookup_insert_eq, bool_decide_true by auto. by rewrite Hf.
    + rewrite lookup_insert_ne by done. rewrite bool_decide_false; [done|tauto].
Qed.

(** The scene once the line of a connection is deleted. *)
Definition line_deleted (c : cptr) (l : lptr) (m : gmap wptr ElementWidget) (s : Scene) : Scene :=
  sc_set_lines (delete l (sc_lines s)) (sc_set_items (sc_items s ∖ {[LineItem l]})
    (sc_set_widgets m (sc_set_connectionLines (delete c (sc_connectionLines s)) s))).

Lemma line_deleted_ok w v s k c l li wf wt m : scene_ok w v s → v.2 !! k = Some c →
  sc_connectionLines s !! c = Some l → sc_lines s !! l = Some li →
  pw_parent <$> cl_fromPin li = Some wf → pw_parent <$> cl_toPin li = Some wt → detached l wf wt (sc_widgets s) m →
  scene_ok w (v.1, delete k v.2) (line_deleted c l m s).
Proof.
  intros Hok Hk Hl Hli Hf Ht Hm. pose proof (so_line_inj w v s) as Hinj. destruct (so_unique _ _ _ Hok) as [U1 U2].
  assert (Hother : ∀ c' l', delete c (sc_connectionLines s) !! c' = Some l' → sc_connectionLines s !! c' = Some l' ∧ l' ≠ l).
  { intros c' l' [Hne Hl']%lookup_delete_Some. split; [done|]. intros ->. by rewrite (Hinj c c' l) in Hne. }
  assert (Hold : ∀ pw ew', m !! pw = Some ew' → ∃ ew, sc_widgets s !! pw = Some ew ∧
    (ew' = ew ∧ pw ≠ wf ∧ pw ≠ wt ∨ ew' = without l ew)).
  { intros pw ew' Hew. rewrite Hm in Hew. case_bool_decide as E; [|exists ew'; tauto].
    apply fmap_Some in Hew as (ew & Hew & ->). exists ew. by auto. }
  destruct Hok as [E C W L K I N U]. split; cbn; try done.
  - intros e pw Hpw. destruct (E e pw Hpw) as (x & ew & Hx & Hew & He & Hi & Ho). exists x.
    rewrite Hm, Hew. case_bool_decide; eexists; (split; [done|]); (split; [done|]); done.
  - intros k' e Hk'. destruct (C k' e Hk') as (pw & Hpw & Hit). exists pw. set_solver.
  - intros pw [Hit _]%elem_of_difference. by apply W.
  - intros c' l' [Hl' Hne]%Hother. rewrite lookup_delete_ne by done. by apply L.
  - intros k' c' [Hne Hk']%lookup_delete_Some. assert (Hcc : c ≠ c') by (intros <-; apply Hne; by eapply U2).
    destruct (K k' c' Hk') as (l' & Hl' & Hit). exists l'. rewrite lookup_delete_ne by done. split; [done|].
    apply elem_of_difference. split; [done|]. intros [= ->]%elem_of_singleton. by apply Hcc, (Hinj c c' l).
  - intros l' [Hit Hn]%elem_of_difference. destruct (I l' Hit) as (c' & k' & Hk' & Hl'). exists c', k'.
    assert (c ≠ c').
    { intros <-. apply Hn. rewrite Hl in Hl'. injection Hl' as ->. set_solver. }
    rewrite !lookup_delete_ne; [done|done|]. intros <-. congruence.
  - intros pw ew' l' (ew & Hew & Hcase)%Hold Hin.
    assert (l' ∈ ew_lines ew) as Hin0.
    { destruct Hcase as [[-> _]| ->]; [done|]. unfold without in Hin. cbn in Hin. by apply list_elem_of_filter in Hin as [_ ?]. }
    destruct (N pw ew l' Hew Hin0) as (li' & Hli' & Hpar).
    assert (l' ≠ l) as Hne; [|exists li'; by rewrite lookup_delete_ne].
    intros ->. destruct Hcase as [(-> & Hnf & Hnt)| ->].
    + simplify_eq. destruct Hpar; congruence.
    + unfold without in Hin. cbn in Hin. by apply list_elem_of_filter in Hin as [? _].
  - split; [done|]. intros k1 k2 c' [_ H1]%lookup_delete_Some [_ H2]%lookup_delete_Some. by apply (U2 k1 k2 c').
Qed.

Lemma pin_owned_places w w' r : keeps_places w w' → pin_owned w r → pin_owned w' r.
Proof.
  intros [He Hout Hin]. destruct r as [i|o]; intros (p & Hp & x & Hx & Hr).
  - destruct (Hin i p Hp) as (p' & Hp' & Ho & Hi). exists p'. split; [done|]. exists x. rewrite Ho, Hi. auto.
  - destruct (Hout o p Hp) as (p' & Hp' & Ho & Hi). exists p'. split; [done|]. exists x. rewrite Ho, Hi. auto.
Qed.

Lemma run_handleRemove_none c d : sc_connectionLines (dk_scene d) !! c = None → handleRemove_connection c d = (Ok tt, d).
Proof. intros Hc. unfold handleRemove_connection, widget_of_connection. xrun. by rewrite Hc. Qed.
Lemma run_removeLine pw l ew d : sc_widgets (dk_scene d) !! pw = Some ew →
  removeLine pw l d = (Ok tt, with_widget pw (without l ew) d).
Proof. intros Hw. unfold removeLine. erewrite run_upd_widget by done. done. Qed.

Lemma run_remove_line w s l : desk_ok (mkDesk w s) → LineItem l ∈ sc_items s →
  ∃ c k w' s', remove_item (LineItem l) (mkDesk w s) = (Ok tt, mkDesk w' s') ∧ desk_ok (mkDesk w' s') ∧
    connections w !! k = Some c ∧ sc_connectionLines s !! c = Some l ∧ sc_items s' = sc_items s ∖ {[LineItem l]} ∧
    sc_elementWidgets s' = sc_elementWidgets s ∧ sc_line s' = sc_line s ∧
    (∀ c', c' ≠ c → sc_connectionLines s' !! c' = sc_connectionLines s !! c') ∧
    children w' = children w ∧ connections w' = delete k (connections w) ∧
    (∀ k' c' e, connections w' !! k' = Some c' → touches w' e c' → touches w e c').
Proof.
  intros Hd Hit. destruct (so_lineitem _ _ _ (do_scene _ Hd) _ Hit) as (c & k & Hk & Hl).
  destruct (so_line _ _ _ (do_scene _ Hd) _ _ Hl) as (_ & li & Hli & Hcl). cbn in *.
  destruct (run_threadUnsafeDisconnect w k c (do_wf _ Hd) Hk)
    as (w' & x & o & i & po & pi & lo & Hat & Hid & Hpo & Hpi & Her & Hrun & Hwf' & Hs & Hco & _ & _ & Hsig).
  destruct (do_ends _ Hd k c x l li Hk (at_conn _ _ _ _ _ Hat) Hl Hli)
    as (o' & po' & i' & pi' & wf & wt & (H1 & Hpo' & Hwf & Hf) & (H2 & Hpi' & Hwt & Ht)). cbn in *.
  rewrite (at_producer _ _ _ _ _ Hat) in H1. rewrite (at_consumer _ _ _ _ _ Hat) in H2. simplify_eq.
  destruct (so_element _ _ _ (do_scene _ Hd) _ _ Hwf) as (_ & ewf & _ & Hewf & _). cbn in Hewf.
  set (s1 := sc_set_connectionLines (delete (cl_connection li) (sc_connectionLines s)) s).
  set (d2 := with_widget wf (without l ewf) (mkDesk w s1)).
  assert (∃ ewt, sc_widgets (dk_scene d2) !! wt = Some ewt) as [ewt Hewt].
  { destruct (so_element _ _ _ (do_scene _ Hd) _ _ Hwt) as (_ & ewt & _ & Hewt & _). cbn in Hewt.
    destruct (decide (wt = wf)) as [->|Hne]; [eexists; apply lookup_insert_eq|exists ewt]. cbn. by rewrite lookup_insert_ne. }
  set (m := <[wt := without l ewt]> (<[wf := without l ewf]> (sc_widgets s))).
  assert (Hm : detached l wf wt (sc_widgets s) m) by by apply detached_both.
  set (s3 := sc_set_widgets m s1).
  exists (cl_connection li), (pc_id x), w', (line_deleted (cl_connection li) l m s).
  assert (Hcall : pipeline_call (pinConnectionDisconnect (pc_id x)) (mkDesk w s3) = (Ok tt, mkDesk w' s3)).
  { eapply run_pipeline_call; [exact Hrun|exact Hsig|]. rewrite run_deliver by apply Hd.
    cbn. erewrite run_bind by (apply run_handleRemove_none, lookup_delete_eq). done. }
  split_and!; try done.
  - cbn. erewrite run_bind by (by apply run_get_line). unfold remove_connection. xrun.
    rewrite bool_decide_true by (by exists l). xrun. cbn. rewrite Hl. xrun.
    erewrite run_bind with (s' := mkDesk w s1) by done.
    erewrite run_bind by (eapply run_look; apply run_get_conn, Hat).
    rewrite (at_producer _ _ _ _ _ Hat). xrun. erewrite run_bind by (eapply run_look; by apply run_get_out).
    erewrite run_bind by (by apply run_owner_widget). erewrite run_bind by (by apply run_removeLine). fold d2.
    rewrite (at_consumer _ _ _ _ _ Hat). xrun. erewrite run_bind by (eapply run_look; by apply run_get_in).
    erewrite run_bind by (by apply run_owner_widget). erewrite run_bind by (by apply run_removeLine).
    erewrite run_bind by exact Hcall. done.
  - split; cbn; [done|apply Hd| | |].
    + unfold tables. rewrite Hco, (shrinks_children _ _ Hs).
      eapply (line_deleted_ok w' (tables w)); [|exact Hk|exact Hl|exact Hli|by rewrite Hf|by rewrite Ht|exact Hm].
      eapply so_heap; [|apply Hd]. split.
      * intros e y Hy. exists y. by rewrite (sh_elems _ _ Hs).
      * pose proof (removals_disconnect (pc_id x) w) as Hnt. unfold frames, pinConnectionDisconnect in Hnt. rewrite Hrun in Hnt.
        by destruct (Hnt (wf_ids_known _ (do_wf _ Hd))) as ([_ Hkeep] & _).
    + intros k' c' y l' li' Hk' Hy Hl' Hli'. cbn in Hl', Hli'. apply lookup_delete_Some in Hl' as [Hne Hl'].
      apply lookup_delete_Some in Hli' as [Hne' Hli']. rewrite (sh_conns _ _ Hs _ _ Hk') in Hy.
      rewrite Hco in Hk'. apply lookup_delete_Some in Hk' as [_ Hk'].
      eapply line_at_places; [by apply shrinks_places|reflexivity|]. exact (do_ends _ Hd k' c' y l' li' Hk' Hy Hl' Hli').
    + intros d0 Hd0. destruct (do_drag _ Hd d0 Hd0) as (il & o & H1 & H2 & H3). exists il, o. split_and!; [done..|].
      eapply pin_owned_places; [by apply shrinks_places|done].
  - intros c' Hne. cbn. by rewrite lookup_delete_ne.
  - by apply shrinks_children.
  - intros k' c' e Hk' Htt. by eapply touches_shrinks.
Qed.

(** A selection that can be deleted: no line comes after an element it is
    attached to. *)
Definition attached_to (d : Desk) (pw : wptr) (l : lptr) : Prop := ∃ e c,
  sc_elementWidgets (dk_scene d) !! e = Some pw ∧ sc_connectionLines (dk_scene d) !! c = Some l ∧ touches (dk_world d) e c.
Fixpoint safe_selection (d : Desk) (l : list Item) : Prop :=
  match l with
  | [] => True
  | it :: l' => it ∈ sc_items (dk_scene d) ∧ (it ∉ l') ∧
      (match it with
       | DragItem _ => False
       | LineItem _ => True
       | WidgetItem pw => ∀ l0, LineItem l0 ∈ l' → ¬ attached_to d pw l0
       end) ∧ safe_selection d l'
  end.
Lemma safe_selection_mono d d' l : (∀ it, it ∈ l → it ∈ sc_items (dk_scene d) → it ∈ sc_items (dk_scene d')) →
  (∀ pw l0, LineItem l0 ∈ l → attached_to d' pw l0 → attached_to d pw l0) →
  safe_selection d l → safe_selection d' l.
Proof.
  induction l as [|it l IH]; intros Hit Hat; [done|]. intros (H1 & H2 & H3 & H4). split_and!.
  - apply Hit; [set_solver|done].
  - done.
  - destruct it as [pw|l0|d0]; [|done|done]. intros l0 Hl0 Ha. apply (H3 l0 Hl0), Hat; [set_solver|done].
  - apply IH; [|intros pw l0 Hl0; apply Hat; set_solver|done]. intros it' Hin. apply Hit. set_solver.
Qed.

Lemma safe_selection_item d l it : safe_selection d l → it ∈ l →
  it ∈ sc_items (dk_scene d) ∧ match it with DragItem _ => False | _ => True end.
Proof.
  induction l as [|it' l IH]; [by intros _ ?%elem_of_nil|]. intros (H1 & _ & H2 & H3) [<-|Hin]%elem_of_cons; [|auto].
  split; [done|]. by destruct it.
Qed.

Lemma delete_items_ok l : ∀ d, desk_ok d → sc_line (dk_scene d) = None → safe_selection d l →
  wpr (for_each l remove_item) (λ _ d', desk_ok d') d.
Proof.
  induction l as [|it l IH]; intros [w s] Hd Hline Hsafe; [by apply wpr_ret|].
  destruct Hsafe as (Hit & Hnew & Hkind & Hsafe). cbn [for_each]. apply wpr_bind.
  destruct it as [pw|l0|d0]; [| |done].
  - destruct (run_remove_element w s pw Hd Hit Hline)
      as (e & w' & s' & Hrun & Hd' & (m & -> & Hm) & Hpw & Hch & Hco & Ht & _).
    eapply wpr_intro; [exact Hrun|]. apply IH; [done|done|]. eapply safe_selection_mono; [| |exact Hsafe]; cbn in *.
    + intros [pw'|l'|d'] Hin Hi; [| |].
      * destruct (so_widget _ _ _ (do_scene _ Hd) _ Hi) as (e' & k & Hk & Hpw'). cbn in *.
        destruct (so_child _ _ _ (do_scene _ Hd') k e') as (pw2 & Hpw2 & Hi2); cbn in *; [|congruence].
        apply Hch. split; [done|]. intros ->. apply Hnew. congruence.
      * destruct (so_lineitem _ _ _ (do_scene _ Hd) _ Hi) as (c & k & Hk & Hl'). cbn in *.
        destruct (so_connection _ _ _ (do_scene _ Hd') k c) as (l2 & Hl2 & Hi2); cbn in *; [|congruence].
        apply Hco. split; [done|]. intros Ha. apply (Hkind l' Hin). by exists e, c.
      * by destruct (safe_selection_item _ _ _ Hsafe Hin).
    + intros pw' l' Hin (e' & c & H1 & H2 & H3). exists e', c. split_and!; [done..|].
      destruct (safe_selection_item _ _ _ Hsafe Hin) as [Hi _].
      destruct (so_lineitem _ _ _ (do_scene _ Hd) _ Hi) as (c' & k & Hk & Hl'). cbn in *.
      assert (c' = c) as -> by (by eapply so_line_inj; [apply Hd|..]).
      apply (Ht k c e'); [|done]. apply Hco. split; [done|]. intros Ha. apply (Hkind l' Hin). by exists e, c.
  - destruct (run_remove_line w s l0 Hd Hit)
      as (c & k & w' & s' & Hrun & Hd' & Hk & Hl & Hitems & Hew & Hline' & Hlines & Hch & Hco & Ht).
    eapply wpr_intro; [exact Hrun|]. apply IH; [done|cbn in *; congruence|]. eapply safe_selection_mono; [| |exact Hsafe]; cbn in *.
    + intros it Hin Hi. rewrite Hitems. apply elem_of_difference. split; [done|]. intros ->%elem_of_singleton. done.
    + intros pw' l' Hin (e' & c' & H1 & H2 & H3). cbn in *.
      destruct (safe_selection_item _ _ _ Hsafe Hin) as [Hi _].
      destruct (so_lineitem _ _ _ (do_scene _ Hd) _ Hi) as (c2 & k2 & Hk2 & Hl2). cbn in *.
      assert (c2 ≠ c) as Hne by (intros ->; apply Hnew; congruence).
      assert (c' = c2) as ->.
      { apply (so_line_inj _ _ _ c' c2 l' (do_scene _ Hd')); [done|]. cbn. by rewrite Hlines. }
      exists e', c2. cbn. rewrite <-Hew. split_and!; [done|done|]. apply (Ht k2 c2 e'); [|done].
      rewrite Hco. apply lookup_delete_Some. split; [|done]. intros <-. congruence.
Qed.

(** ** Adding *)

(** What showing one more element leaves as it was. *)
Record gains (s s' : Scene) : Prop := {
  gn_pipeline : sc_pipeline s' = sc_pipeline s;
  gn_widgets : sc_elementWidgets s ⊆ sc_elementWidgets s';
  gn_connectionLines : sc_connectionLines s' = sc_connectionLines s;
  gn_line : sc_line s' = sc_line s;
  gn_lines : sc_lines s' = sc_lines s;
  gn_drags : sc_drags s' = sc_drags s;
  gn_items : sc_items s ⊆ sc_items s'
}.
#[export] Instance gains_preorder : PreOrder gains.
Proof.
  split; [by split|]. intros s1 s2 s3 [A1 B1 C1 D1 E1 F1 G1] [A2 B2 C2 D2 E2 F2 G2].
  split; [congruence|by etrans|congruence..|set_solver].
Qed.
Lemma moves_gains d d' : moves d d' → gains (dk_scene d) (dk_scene d') ∧ sc_elementWidgets (dk_scene d') = sc_elementWidgets (dk_scene d).
Proof. intros [_ _ (m & co & n & ->)]. by split. Qed.

Lemma shown_ok w v s k e x pw : scene_ok w v s → w_elems w !! e = Some x → sc_elementWidgets s !! e = None →
  v.1 !! k = None → (∀ k', v.1 !! k' ≠ Some e) → sc_widgets s !! pw = None →
  scene_ok w (<[k := e]> v.1, v.2) (sc_set_elementWidgets (<[e := pw]> (sc_elementWidgets s))
    (sc_set_items ({[WidgetItem pw]} ∪ sc_items s) (sc_set_widgets (<[pw := widget_for pw e x]> (sc_widgets s)) s))).
Proof.
  intros Hok Hx He Hk Hloose Hpw. destruct (so_unique _ _ _ Hok) as [U1 U2]. destruct Hok as [E C W L K I N U]. split; cbn; try done.
  - intros e' pw' [[<- <-]|[Hne Hp]]%lookup_insert_Some.
    + exists x, (widget_for pw e x). by rewrite lookup_insert_eq.
    + destruct (E e' pw' Hp) as (x' & ew & Hx' & Hew & Hrest). exists x', ew.
      rewrite lookup_insert_ne by congruence. done.
  - intros k' e' [[<- <-]|[Hne Hk']]%lookup_insert_Some.
    + exists pw. rewrite lookup_insert_eq. set_solver.
    + destruct (C k' e' Hk') as (pw' & Hp & Hi). exists pw'. rewrite lookup_insert_ne by congruence. set_solver.
  - intros pw' [[= ->]%elem_of_singleton|Hi]%elem_of_union.
    + exists e, k. by rewrite !lookup_insert_eq.
    + destruct (W pw' Hi) as (e' & k' & Hk' & Hp). exists e', k'. rewrite !lookup_insert_ne by congruence. done.
  - intros k' c Hc. destruct (K k' c Hc) as (l & Hl & Hi). exists l. set_solver.
  - intros l Hi. apply I. set_solver.
  - intros pw' ew l [[<- <-]|[Hne Hew]]%lookup_insert_Some; [by intros ?%elem_of_nil|]. by apply N.
  - split; [|done]. intros k1 k2 e' [[<- <-]|[Hn1 H1]]%lookup_insert_Some [[<- E2]|[Hn2 H2]]%lookup_insert_Some; [done| | |by eapply U1].
    + by apply Hloose in H2.
    + subst e'. by apply Hloose in H1.
Qed.

Lemma run_add_element w v s k e x : graph_wf w → scene_ok w v s → w_elems w !! e = Some x → sc_elementWidgets s !! e = None →
  v.1 !! k = None → (∀ k', v.1 !! k' ≠ Some e) →
  wpr (add_element e) (λ _ d', ∃ s', d' = mkDesk w s' ∧ scene_ok w (<[k := e]> v.1, v.2) s' ∧ gains s s' ∧
    ∃ pw, sc_elementWidgets s' = <[e := pw]> (sc_elementWidgets s)) (mkDesk w s).
Proof.
  intros Hwf Hok Hx He Hk Hloose. unfold add_element. set (pw := fresh_key (sc_widgets s)).
  assert (Hfresh : sc_widgets s !! pw = None) by apply fresh_key_fresh.
  pose proof (shown_ok w v s k e x pw Hok Hx He Hk Hloose Hfresh) as Hok1. set (s1 := sc_set_elementWidgets _ _) in Hok1.
  apply wpr_bind, wpr_gets, wpr_bind, wpr_assert; [by apply bool_decide_true|].
  apply wpr_bind. eapply wpr_intro; [by apply (run_new_widget (mkDesk w s))|].
  apply wpr_bind, wpr_modify, wpr_bind, wpr_modify, wpr_bind, wpr_gets, wpr_bind.
  assert (Hpw : sc_widgets s1 !! pw = Some (widget_for pw e x)) by apply lookup_insert_eq.
  assert (Hgain : gains s s1).
  { split; cbn; try done; [by apply insert_subseteq|set_solver]. }
  eapply wpr_mono; [|eapply (run_setPos (mkDesk w s1)); [exact Hpw|by intros l ?%elem_of_nil]].
  intros [] d2 Hm2. pose proof (so_moves _ _ _ _ Hok1 Hm2) as Hok2. destruct (moves_gains _ _ Hm2) as [Hg2 He2].
  eapply wpr_mono; [|apply run_ensureFit].
  - intros [] d3 Hm3. pose proof (mv_world _ _ Hm2) as Hw2. pose proof (mv_world _ _ Hm3) as Hw3.
    destruct d2 as [w2 s2], d3 as [w3 s3]. cbn in *. subst w2 w3. destruct (moves_gains _ _ Hm3) as [Hg3 He3]. cbn in *.
    exists s3. split; [done|]. split; [by apply (so_moves _ _ _ _ Hok2 Hm3)|]. split; [by etrans; [|etrans]|].
    exists pw. by rewrite He3, He2.
  - intros e' pw' Hp. destruct (so_element _ _ _ Hok2 _ _ Hp) as (_ & ew & _ & Hew & _). by exists ew.
Qed.

(** Two widgets get a line. *)
Definition with_line (l : lptr) (wf wt : wptr) (m m' : gmap wptr ElementWidget) : Prop := ∀ pw,
  option_Forall2 (λ a b, ∃ ls, b = ew_set_lines ls a ∧ ∀ l', l' ∈ ls → l' ∈ ew_lines a ∨ l' = l ∧ (pw = wf ∨ pw = wt))
    (m !! pw) (m' !! pw).
Lemma with_line_both l wf wt m ewf ewt : m !! wf = Some ewf →
  <[wf := ew_set_lines (ew_lines ewf ++ [l]) ewf]> m !! wt = Some ewt →
  with_line l wf wt m (<[wt := ew_set_lines (ew_lines ewt ++ [l]) ewt]> (<[wf := ew_set_lines (ew_lines ewf ++ [l]) ewf]> m)).
Proof.
  intros Hf Ht pw. destruct (decide (pw = wt)) as [->|Hne].
  - rewrite lookup_insert_eq. destruct (decide (wt = wf)) as [->|Hne'].
    + rewrite lookup_insert_eq in Ht. injection Ht as <-. rewrite Hf. constructor.
      eexists. split; [done|]. intros l' Hl'. cbn in Hl'. set_solver.
    + rewrite lookup_insert_ne in Ht by done. rewrite Ht. constructor. eexists. split; [done|]. set_solver.
  - rewrite lookup_insert_ne by done. destruct (decide (pw = wf)) as [->|Hne'].
    + rewrite lookup_insert_eq, Hf. constructor. eexists. split; [done|]. set_solver.
    + rewrite lookup_insert_ne by done. destruct (m !! pw) as [ew|]; constructor. exists (ew_lines ew). split; [by destruct ew|]. auto.
Qed.

Definition line_shown (c : cptr) (l : lptr) (li : ConnectionLine) (m : gmap wptr ElementWidget) (s : Scene) : Scene :=
  sc_set_widgets m (sc_set_connectionLines (<[c := l]> (sc_connectionLines s))
    (sc_set_items ({[LineItem l]} ∪ sc_items s) (sc_set_lines (<[l := li]> (sc_lines s)) s))).
Lemma line_shown_ok w v s k c l li wf wt m : scene_ok w v s → is_Some (w_conns w !! c) →
  sc_connectionLines s !! c = None → v.2 !! k = None → (∀ k', v.2 !! k' ≠ Some c) → sc_lines s !! l = None →
  cl_connection li = c → pw_parent <$> cl_fromPin li = Some wf → pw_parent <$> cl_toPin li = Some wt →
  with_line l wf wt (sc_widgets s) m → scene_ok w (v.1, <[k := c]> v.2) (line_shown c l li m s).
Proof.
  intros Hok Hc Hnew Hk Hloose Hl Hcl Hf Ht Hm. destruct (so_unique _ _ _ Hok) as [U1 U2].
  destruct Hok as [E C W L K I N U]. split; cbn; try done.
  - intros e pw Hpw. destruct (E e pw Hpw) as (x & ew & Hx & Hew & He & Hi & Ho). exists x.
    specialize (Hm pw). rewrite Hew in Hm. inversion Hm as [a b (ls & -> & _) E1 E2|]; subst. eexists. done.
  - intros k' e Hk'. destruct (C k' e Hk') as (pw & Hpw & Hit). exists pw. set_solver.
  - intros pw Hit. apply W. set_solver.
  - intros c' l' [[<- <-]|[Hne Hl']]%lookup_insert_Some; [split; [done|]; exists li; by rewrite lookup_insert_eq|].
    destruct (L c' l' Hl') as (Hc' & li' & Hli' & Hcl'). split; [done|]. exists li'. by rewrite lookup_insert_ne by congruence.
  - intros k' c' [[<- <-]|[Hne Hk']]%lookup_insert_Some; [exists l; rewrite lookup_insert_eq; set_solver|].
    destruct (K k' c' Hk') as (l' & Hl' & Hit). exists l'. rewrite lookup_insert_ne by congruence. set_solver.
  - intros l' [[= ->]%elem_of_singleton|Hit]%elem_of_union; [exists c, k; by rewrite !lookup_insert_eq|].
    destruct (I l' Hit) as (c' & k' & Hk' & Hl'). exists c', k'. rewrite !lookup_insert_ne by congruence. done.
  - intros pw ew' l' Hew Hin. specialize (Hm pw). rewrite Hew in Hm. inversion Hm as [a b (ls & -> & Hls) E1 E2|]; subst.
    destruct (Hls l' Hin) as [Hold|[-> Hpw]].
    + destruct (N pw a l' (eq_sym E1) Hold) as (li' & Hli' & Hpar). exists li'. by rewrite lookup_insert_ne by congruence.
    + exists li. rewrite lookup_insert_eq. split; [done|]. destruct Hpw as [->| ->]; auto.
  - split; [done|]. intros k1 k2 c' [[<- <-]|[Hn1 H1]]%lookup_insert_Some [[<- E2]|[Hn2 H2]]%lookup_insert_Some; [done| | |by eapply U2].
    + by apply Hloose in H2.
    + subst c'. by apply Hloose in H1.
Qed.

Lemma run_widget_of_output w v s o po wf x : scene_ok w v s → w_outs w !! o = Some po →
  w_elems w !! op_owner po = Some x → el_outputPins x !! op_id po = Some o → sc_elementWidgets s !! op_owner po = Some wf →
  widget_of_output (Some o) (mkDesk w s) = (Ok (Some (mkPinWidget wf (OutPin o))), mkDesk w s).
Proof.
  intros Hok Hpo Hx Ho Hwf. destruct (so_element _ _ _ Hok _ _ Hwf) as (x' & ew & Hx' & Hew & _ & _ & Houts). simplify_eq.
  unfold widget_of_output. erewrite run_bind by reflexivity. erewrite run_bind by (eapply run_look; by apply run_get_out).
  erewrite run_bind by (by apply run_owner_widget). erewrite run_bind by (by apply run_get_widget).
  rewrite Houts, lookup_fmap, Ho. done.
Qed.
Lemma run_widget_of_input w v s i pi wt x : scene_ok w v s → w_ins w !! i = Some pi →
  w_elems w !! ip_owner pi = Some x → el_kind x = KProcessor → el_inputPins x !! ip_id pi = Some i →
  sc_elementWidgets s !! ip_owner pi = Some wt →
  widget_of_input (Some i) (mkDesk w s) = (Ok (Some (mkPinWidget wt (InPin i))), mkDesk w s).
Proof.
  intros Hok Hpi Hx Hk Hi Hwt. destruct (so_element _ _ _ Hok _ _ Hwt) as (x' & ew & Hx' & Hew & _ & Hins & _). simplify_eq.
  unfold widget_of_input. erewrite run_bind by reflexivity. erewrite run_bind by (eapply run_look; by apply run_get_in).
  erewrite run_bind by (by apply run_owner_widget). erewrite run_bind by (by apply run_get_widget).
  rewrite Hins, lookup_fmap. unfold shown_inputs. rewrite Hk, Hi. done.
Qed.

Lemma run_addLine pw l ew d : sc_widgets (dk_scene d) !! pw = Some ew →
  addLine pw l d = (Ok tt, with_widget pw (ew_set_lines (ew_lines ew ++ [l]) ew) d).
Proof. intros Hw. unfold addLine. erewrite run_upd_widget by done. done. Qed.
Lemma run_add_connection w v s k c x o i : scene_ok w v s → attached w c x o i → v.2 !! k = None →
  (∀ k', v.2 !! k' ≠ Some c) → sc_connectionLines s !! c = None → (∀ e, is_Some (sc_elementWidgets s !! e) ∨ ∀ y, ¬ in_pipeline w e y) →
  ∃ s' l li m, add_connection c (mkDesk w s) = (Ok tt, mkDesk w s') ∧ s' = line_shown c l li m s ∧
    sc_lines s !! l = None ∧ scene_ok w (v.1, <[k := c]> v.2) s' ∧ line_at w s x li.
Proof.
  intros Hok [Hx Ho Hi (po & pi & Hpo & Hpi & _ & _ & _ & _ & (xo & Hxo & Hko) & (xi & Hxi & Hkind & Hki))] Hk Hloose Hnew Hall.
  destruct (Hall (op_owner po)) as [[wf Hwf]|Hno]; [|by apply Hno in Hxo].
  destruct (Hall (ip_owner pi)) as [[wt Hwt]|Hno]; [|by apply Hno in Hxi].
  destruct (so_element _ _ _ Hok _ _ Hwf) as (_ & ewf & _ & Hewf & _).
  set (l := fresh_key (sc_lines s)). assert (Hl : sc_lines s !! l = None) by apply fresh_key_fresh.
  set (li := mkConnectionLine (Some (mkPinWidget wf (OutPin o))) (Some (mkPinWidget wt (InPin i))) c).
  set (s1 := sc_set_connectionLines (<[c := l]> (sc_connectionLines s))
    (sc_set_items ({[LineItem l]} ∪ sc_items s) (sc_set_lines (<[l := li]> (sc_lines s)) s))).
  set (m1 := <[wf := ew_set_lines (ew_lines ewf ++ [l]) ewf]> (sc_widgets s)).
  assert (∃ ewt, m1 !! wt = Some ewt) as [ewt Hewt].
  { destruct (so_element _ _ _ Hok _ _ Hwt) as (_ & ewt & _ & Hewt & _).
    destruct (decide (wt = wf)) as [->|Hne]; [eexists; apply lookup_insert_eq|exists ewt]. unfold m1. by rewrite lookup_insert_ne. }
  set (m := <[wt := ew_set_lines (ew_lines ewt ++ [l]) ewt]> m1).
  exists (line_shown c l li m s), l, li, m. split_and!; [|done|done| |].
  - unfold add_connection. erewrite run_bind by (eapply run_look; by apply run_get_conn). rewrite Ho, Hi.
    erewrite run_bind by (eapply run_widget_of_output; [done|done|apply Hxo|done|done]).
    erewrite run_bind by (eapply run_widget_of_input; [done|done|apply Hxi|done|done|done]).
    erewrite run_bind by reflexivity. fold l. erewrite run_bind by reflexivity. erewrite run_bind by reflexivity.
    erewrite run_bind by (unfold updatePosition; erewrite run_bind by (apply run_get_line, lookup_insert_eq); reflexivity).
    erewrite run_bind by reflexivity. rewrite bool_decide_true by done. erewrite run_bind by reflexivity.
    erewrite run_bind with (s' := mkDesk w s1) by reflexivity.
    erewrite run_bind by reflexivity. erewrite run_bind by (eapply run_look; by apply run_get_out).
    erewrite run_bind by (by apply run_owner_widget).
    erewrite run_bind by (by apply (run_addLine wf l ewf)).
    erewrite run_bind by reflexivity. erewrite run_bind by (eapply run_look; by apply run_get_in).
    erewrite run_bind by (by apply run_owner_widget). by erewrite (run_addLine wt l ewt).
  - eapply line_shown_ok; [done|by exists x|done..|by apply with_line_both].
  - exists o, po, i, pi, wf, wt. done.
Qed.
End calls.
