(* ===== verification/EditorTheorems.v ===== *)
(** What the gestures of a user do to the scene and to the pipeline: deleting
    the selection, dragging lines between pins, dropping elements, showing a
    loaded pipeline. *)
From Stdlib Require Import Floats.SpecFloat.
From S2P Require Export EditorProof.

(** ** A connection that is cut has no ends *)
Definition endless (w : World) (c : cptr) : Prop := ∃ x, w_conns w !! c = Some x ∧ pc_producer x = None.
Definition severs (w w' : World) : Prop :=
  (∀ c, endless w c → endless w' c) ∧
  (∀ k c, connections w !! k = Some c → connections w' !! k = Some c ∨ endless w' c).
#[export] Instance severs_preorder : PreOrder severs.
Proof.
  split; [split; auto|]. intros w1 w2 w3 [A1 B1] [A2 B2]. split; [auto|].
  intros k c Hk. destruct (B1 k c Hk) as [H|H]; auto.
Qed.
Lemma severs_rest w w' : w_conns w' = w_conns w → connections w' = connections w → severs w w'.
Proof. intros Hc Ht. split; [intros c (x & Hx & Hn); exists x; by rewrite Hc|]. intros k c. rewrite Ht. auto. Qed.

Section severs.
Context `{HashOrder} `{QMetaType}.
Implicit Types w : World.
Abbreviation sv := (frames severs).
Lemma sv_upd_in i f w : sv (upd_in i f) w.
Proof. apply (gframes_deref severs). intros x Hx. apply frames_modify. by apply severs_rest. Qed.
Lemma sv_upd_out o f w : sv (upd_out o f) w.
Proof. apply (gframes_deref severs). intros x Hx. apply frames_modify. by apply severs_rest. Qed.
Lemma sv_upd_conn c f w : (∀ x, pc_producer x = None → pc_producer (f x) = None) → sv (upd_conn c f) w.
Proof.
  intros Hf. apply (gframes_deref severs). intros x Hx. apply frames_modify. split; [|by auto].
  intros c' (x' & Hx' & Hn). unfold endless. cbn. destruct (decide (c' = c)) as [->|Hne].
  - exists (f x). rewrite lookup_insert_eq. split; [done|]. apply Hf. congruence.
  - exists x'. by rewrite lookup_insert_ne.
Qed.
Lemma sv_emit s w : sv (emit s) w.
Proof. apply frames_modify. by apply severs_rest. Qed.
Lemma sv_upd_pipe f w : (∀ p, pl_connections (f p) = pl_connections p) → sv (upd_pipe f) w.
Proof. intros Hf. apply frames_modify. apply severs_rest; [done|]. apply Hf. Qed.
End severs.
Ltac sv_prim :=
  idtac; lazymatch goal with
  | |- frames _ (emit _) _ => apply sv_emit
  | |- frames _ (upd_in _ _) _ => apply sv_upd_in
  | |- frames _ (upd_out _ _) _ => apply sv_upd_out
  | |- frames _ (upd_conn _ _) _ => apply sv_upd_conn; intros ? ?; first [done|reflexivity]
  | |- frames _ (upd_pipe _) _ => apply sv_upd_pipe; intros ?
  | |- frames _ (get_conn _) _ => apply (gframes_deref_only severs)
  | |- frames _ (for_each _ _) _ => frame_rule @frames_for_each; intros ? ? ? ?
  | |- frames _ (non_null ?p) _ => destruct p; unfold frames; cbn; reflexivity
  end.
Ltac sv := repeat (progress cbn beta iota || gframe_step severs sv_prim).

Section cut.
Context `{HashOrder} `{QMetaType}.
Implicit Types w : World.
Abbreviation sv := (frames severs).

Lemma sv_conn_disconnect c w : sv (conn_disconnect c) w.
Proof. unfold conn_disconnect, out_removeConnection, in_removeConnection. sv. Qed.
Lemma upd_conn_ok c f w w' : upd_conn c f w = (Ok tt, w') → ∃ x, w_conns w !! c = Some x ∧ w_conns w' !! c = Some (f x).
Proof.
  unfold upd_conn. intros (x & w1 & Hx & Hm)%bind_ok. injection Hm as <-.
  unfold get_conn, deref in Hx. apply bind_ok in Hx as (o & w2 & Hg & Ho). injection Hg as <- <-.
  destruct (w_conns w !! c) as [y|] eqn:Hy; [|done]. injection Ho as <- <-. exists y. split; [done|]. apply lookup_insert_eq.
Qed.
Lemma conn_disconnect_endless c w w' : conn_disconnect c w = (Ok tt, w') → endless w' c.
Proof.
  unfold conn_disconnect. intros (x & w1 & _ & Hr)%bind_ok. do 4 (apply bind_ok in Hr as (? & ? & _ & Hr)).
  apply bind_ok in Hr as ([] & v2 & (y2 & _ & Hclear)%upd_conn_ok & (y3 & Hx3 & Hq)%upd_conn_ok).
  exists (pc_set_queue [] y3). split; [done|]. cbn. rewrite Hclear in Hx3. by injection Hx3 as <-.
Qed.
Lemma sv_threadUnsafeDisconnect id w : sv (threadUnsafeDisconnect id) w.
Proof.
  unfold threadUnsafeDisconnect. apply (gframes_pipe severs).
  destruct (pl_connections (w_pipe w) !! id) as [c|] eqn:Hk; [|unfold frames; reflexivity].
  pose proof (sv_conn_disconnect c w) as Hs. unfold frames in *.
  destruct (conn_disconnect c w) as [[[]|x|x] w1] eqn:Hrun; cbn [snd] in Hs;
    [erewrite run_bind by exact Hrun|by erewrite run_bind_throw by exact Hrun|by erewrite run_bind_abort by exact Hrun].
  pose proof (conn_disconnect_endless _ _ _ Hrun) as He.
  set (w2 := set_pipe (λ p, pl_set_connections (delete id (pl_connections p)) p) w1).
  assert (H2 : severs w w2).
  { destruct Hs as [A B]. split; [exact A|]. intros k c' Hk'. cbn. destruct (decide (k = id)) as [->|Hne].
    - right. rewrite Hk in Hk'. by injection Hk' as <-.
    - rewrite lookup_delete_ne by done. by apply B. }
  etrans; [exact H2|]. run. fold w2.
  change (sv (x ← get_conn c; emit (connectionRemoved (pc_id x) c)) w2). sv.
Qed.
Lemma sv_removeElement id w : sv (removeElement id) w.
Proof.
  unfold removeElement, removeConnectionsForElement, disconnect_input, disconnect_ptr, out_getConnections, in_getConnection.
  sv. all: first [apply sv_threadUnsafeDisconnect|apply forget_kind_tables|done].
Qed.

Lemma run_the_pipeline d : sc_pipeline (dk_scene d) = true → the_pipeline d = (Ok tt, d).
Proof. intros Hp. unfold the_pipeline. erewrite run_bind by reflexivity. by rewrite Hp. Qed.

(** When an element and one of its connection lines are selected together
    and Qt lists the element first, deleting the selection crashes: removing
    the element has already disconnected the connection, and the line - off
    the canvas but still in the hash - asks the connection for a pin it no
    longer has.  (With the line first, both are deleted.) *)
Theorem delete_element_then_line w s pw l : desk_ok (mkDesk w s) → pl_running (w_pipe w) = false → sc_line s = None →
  WidgetItem pw ∈ sc_items s → LineItem l ∈ sc_items s → attached_to (mkDesk w s) pw l →
  (deleteSelected [WidgetItem pw; LineItem l] (mkDesk w s)).1 = Abort NullPointer.
Proof.
  intros Hd Hrunning Hline Hpw Hl (e & c & He & Hc & Ht). cbn in *.
  destruct (run_remove_element w s pw Hd Hpw Hline) as (e' & w' & s' & Hrun & Hd' & (m & -> & _) & He' & _ & Hco & _ & k & Hrem).
  cbn in *. assert (e' = e) as -> by (by eapply so_widget_inj; [apply Hd|..]).
  destruct (so_line _ _ _ (do_scene _ Hd) _ _ Hc) as (_ & li & Hli & Hcl). cbn in *.
  assert (∃ k', connections w !! k' = Some c) as [k' Hk'].
  { destruct (so_lineitem _ _ _ (do_scene _ Hd) _ Hl) as (c' & k' & Hk' & Hc'). cbn in *.
    assert (c' = c) as -> by (by eapply so_line_inj; [apply Hd|..]). by exists k'. }
  pose proof (sv_removeElement k w) as [_ Hsev]. rewrite Hrem in Hsev. cbn in Hsev.
  destruct (Hsev k' c Hk') as [[_ Hno]%Hco|(x & Hx & Hnone)]; [done|].
  unfold deleteSelected. erewrite run_bind by apply run_the_pipeline, Hd.
  erewrite run_bind by (eapply run_look; reflexivity). cbn [dk_world]. rewrite Hrunning. cbn [for_each].
  erewrite run_bind by exact Hrun. erewrite run_bind_abort; [reflexivity|].
  cbn [remove_item]. erewrite run_bind by (by apply run_get_line). rewrite Hcl. unfold remove_connection.
  erewrite run_bind by reflexivity. rewrite bool_decide_true by (by exists l). erewrite run_bind by reflexivity. cbn. rewrite Hc.
  erewrite run_bind by reflexivity. erewrite run_bind by reflexivity.
  erewrite run_bind by (eapply run_look; by apply run_get_conn). rewrite Hnone. reflexivity.
Qed.
End cut.

(** ** Dragging a line from pin to pin *)
Section connecting.
Context `{HashOrder} `{QMetaType}.
Implicit Types w : World.

Lemma connected_places w id c o i po pi : w_outs w !! o = Some po → w_ins w !! i = Some pi →
  keeps_places w (connected w id c o i po pi).
Proof.
  intros Hpo Hpi. split; [done| |].
  - intros o' p Hp. cbn. destruct (decide (o' = o)) as [->|Hne].
    + rewrite lookup_insert_eq. simplify_eq. by eexists.
    + rewrite lookup_insert_ne by done. by exists p.
  - intros i' p Hp. cbn. destruct (decide (i' = i)) as [->|Hne].
    + rewrite lookup_insert_eq. simplify_eq. eexists. split; [done|]. cbn. by rewrite typed_owner, typed_id.
    + rewrite lookup_insert_ne by done. by exists p.
Qed.

(** What a gesture of this kind leaves of the scene. *)
Definition same_drag (s s' : Scene) : Prop := sc_line s' = sc_line s ∧ sc_drags s' = sc_drags s.

Lemma slot_connected w s o i po pi id : desk_ok (mkDesk w s) → w_outs w !! o = Some po → w_ins w !! i = Some pi →
  owned_out w o po → owned_in w i pi → verdict po pi = Accept → connections w !! id = None →
  let c := fresh_key (w_conns w) in let w' := connected w id c o i po pi in
  ∃ s', slot (connectionAdded id c) (mkDesk w' s) = (Ok tt, mkDesk w' s') ∧ desk_ok (mkDesk w' s') ∧ same_drag s s'.
Proof.
  intros Hd Hpo Hpi Hoo Hoi Hv Hid c w'. assert (Hc : w_conns w !! c = None) by apply fresh_key_fresh.
  pose proof (connected_places w id c o i po pi Hpo Hpi) as Hkeep. fold w' in Hkeep.
  assert (Hwf' : graph_wf w') by (by apply connected_wf; [apply Hd|..]).
  assert (Hok : scene_ok w' (tables w) s).
  { eapply so_heap; [|apply Hd]. split; [intros e x Hx; by exists x|]. intros c' [x Hx]. cbn in Hx. exists x.
    change (<[c := mkConn id (Some o) (Some i) []]> (w_conns w) !! c' = Some x). rewrite lookup_insert_ne; [done|congruence]. }
  destruct (wf_connections _ Hwf' id c) as (x & o' & i' & Hat & Hxid); [apply lookup_insert_eq|].
  assert (Hnot : ∀ k', (tables w).2 !! k' ≠ Some c).
  { intros k' Hk'. destruct (wf_connections _ (do_wf _ Hd) k' c Hk') as (y & ? & ? & [Hy _] & _). cbn in Hy. congruence. }
  destruct (run_add_connection w' (tables w) s id c x o' i' Hok Hat Hid Hnot) as (s' & l & li & m & Hrun & -> & Hl & Hok' & Hline).
  - apply eq_None_not_Some. intros [l Hl]. destruct (so_line _ _ _ (do_scene _ Hd) _ _ Hl) as ([y Hy] & _). cbn in Hy. congruence.
  - intros e. destruct (sc_elementWidgets s !! e) as [pw|] eqn:He; [by left; eexists|]. right. intros y [Hy Hch].
    destruct (so_child _ _ _ (do_scene _ Hd) _ _ Hch) as (pw & Hpw & _). cbn in Hpw. congruence.
  - exists (line_shown c l li m s). split; [exact Hrun|]. split; [|done]. split; cbn; [done|apply Hd|exact Hok'| |].
    + intros k c' y l' li' Hk Hy Hl' Hli'. cbn in Hl', Hli'. apply lookup_insert_Some in Hl' as [[<- <-]|[Hne Hl']].
      * rewrite lookup_insert_eq in Hli'. injection Hli' as <-. destruct Hat as [Hx _ _ _]. simplify_eq. exact Hline.
      * assert (l' ≠ l) as Hnl.
        { intros ->. destruct (so_line _ _ _ (do_scene _ Hd) _ _ Hl') as (_ & ? & Hlook & _). cbn in Hlook. congruence. }
        rewrite lookup_insert_ne in Hli' by done.
        assert (Hk0 : connections w !! k = Some c').
        { change (<[id := c]> (connections w) !! k = Some c') in Hk. apply lookup_insert_Some in Hk as [[_ <-]|[_ Hk]]; [done|exact Hk]. }
        change (<[c := mkConn id (Some o) (Some i) []]> (w_conns w) !! c' = Some y) in Hy.
        rewrite lookup_insert_ne in Hy by done.
        apply (line_at_places w w' s (line_shown c l li m s)); [done|reflexivity|].
        exact (do_ends _ Hd k c' y l' li' Hk0 Hy Hl' Hli').
    + intros d0 Hd0. destruct (do_drag _ Hd d0 Hd0) as (il & o0 & H1 & H2 & H3). exists il, o0. split_and!; [done..|].
      by eapply pin_owned_places.
Qed.

Lemma run_handleConnectionCreation w s source target o : desk_ok (mkDesk w s) →
  pw_pin source = OutPin o → pin_owned w (OutPin o) → pin_owned w (pw_pin target) →
  ∃ r w' s', handleConnectionCreation source target (mkDesk w s) = (r, mkDesk w' s') ∧ desk_ok (mkDesk w' s') ∧
    same_drag s s' ∧ keeps_places w w' ∧
    (r = Ok tt ∨ (∃ msg, r = Throw (NonFatalException msg)) ∧ w' = w ∧ s' = s).
Proof.
  intros Hd Hs (po & Hpo & Hoo) Ht.
  assert (Hrefused : ∀ msg, ∃ r w' s', (Throw (NonFatalException msg), mkDesk w s) = (r, mkDesk w' s') ∧ desk_ok (mkDesk w' s') ∧
    same_drag s s' ∧ keeps_places w w' ∧ (r = Ok tt ∨ (∃ msg, r = Throw (NonFatalException msg)) ∧ w' = w ∧ s' = s)).
  { intros msg. eexists _, w, s. split_and!; [done|done|done|reflexivity|]. right. by eauto. }
  assert (Hpl : the_pipeline (mkDesk w s) = (Ok tt, mkDesk w s)) by apply run_the_pipeline, Hd.
  unfold handleConnectionCreation, throws_non_fatal. erewrite run_bind by exact Hpl.
  erewrite run_bind by (eapply run_look; reflexivity). cbn [dk_world]. rewrite Hs.
  destruct (pl_running (w_pipe w)) eqn:Hrun; [by apply Hrefused|].
  destruct (pw_pin target) as [i|o'] eqn:Htp; [|by apply Hrefused].
  destruct Ht as (pi & Hpi & Hoi). pose proof (owned_pins_at _ _ _ _ _ Hpo Hpi Hoo Hoi) as Hpins.
  assert (Hquiet : ∀ w1 a, canConnectPins o i w = (Ok a, w1) → w_signals w1 = w_signals w →
    pipeline_call (canConnectPins o i) (mkDesk w s) = (Ok a, mkDesk w1 s)).
  { intros w1 a Hc Hsig. eapply run_pipeline_call; [exact Hc|by rewrite app_nil_r|]. by rewrite run_deliver by apply Hd. }
  destruct (decide (verdict po pi = Accept)) as [Hv|Hv].
  - destruct (run_can_then_connect w o i po pi Hpins Hv) as (reason & Hid & Hcan & Hcon).
    set (id := scan_ids (qmap_items (connections w)).*1 0) in *.
    destruct (slot_connected w s o i po pi id Hd Hpo Hpi Hoo Hoi Hv Hid) as (s' & Hslot & Hd' & Hdrag).
    exists (Ok tt), (connected w id (fresh_key (w_conns w)) o i po pi), s'. split_and!; [|done|done|by apply connected_places|by left].
    erewrite run_bind by reflexivity.
    erewrite run_bind by (apply (Hquiet (retyped w i po pi)); [exact Hcan|unfold retyped; by destruct (ip_isDynamicallyTyped pi)]).
    cbv beta iota. cbn [negb when]. erewrite run_bind by reflexivity.
    erewrite run_bind; [reflexivity|]. eapply run_pipeline_call; [exact Hcon| |].
    + cbn. unfold retyped. destruct (ip_isDynamicallyTyped pi); reflexivity.
    + rewrite run_deliver by apply Hd. cbn [for_each]. erewrite run_bind by exact Hslot. done.
  - destruct (run_canConnectPins w o i po pi Hpins) as [reason Hcan]. rewrite bool_decide_false in Hcan by done.
    erewrite run_bind by reflexivity. erewrite run_bind by (by apply (Hquiet w)).
    by apply Hrefused.
Qed.
End connecting.

(** ** The mouse *)
Section mouse.
Context `{HashOrder} `{QMetaType}.
Implicit Types w : World.

(** Items that are neither widgets nor lines come and go as they like. *)
Lemma so_canvas w v s s' : scene_ok w v s → sc_elementWidgets s' = sc_elementWidgets s →
  sc_connectionLines s' = sc_connectionLines s → sc_widgets s' = sc_widgets s → sc_lines s' = sc_lines s →
  (∀ it, match it with DragItem _ => True | _ => it ∈ sc_items s' ↔ it ∈ sc_items s end) → scene_ok w v s'.
Proof.
  intros [E C W L K I N U] H1 H2 H3 H4 H5. split; rewrite ?H1, ?H2, ?H3, ?H4; try done.
  - intros k e Hk. destruct (C k e Hk) as (pw & Hp & Hi). exists pw. split; [done|]. by apply (H5 (WidgetItem pw)).
  - intros pw Hi. by apply W, (H5 (WidgetItem pw)).
  - intros k c Hk. destruct (K k c Hk) as (l & Hl & Hi). exists l. split; [done|]. by apply (H5 (LineItem l)).
  - intros l Hi. by apply I, (H5 (LineItem l)).
Qed.
Lemma desk_canvas w s s' : desk_ok (mkDesk w s) → sc_pipeline s' = sc_pipeline s → sc_elementWidgets s' = sc_elementWidgets s →
  sc_connectionLines s' = sc_connectionLines s → sc_widgets s' = sc_widgets s → sc_lines s' = sc_lines s →
  (∀ it, match it with DragItem _ => True | _ => it ∈ sc_items s' ↔ it ∈ sc_items s end) → drag_ok w s' →
  desk_ok (mkDesk w s').
Proof.
  intros Hd P0 P1 P2 P3 P4 P5 P6. split; cbn; [apply Hd|rewrite P0; apply Hd|eapply so_canvas; [apply Hd|done..]| |done].
  intros k c x l li Hk Hx Hl Hli. rewrite P2 in Hl. rewrite P4 in Hli.
  pose proof (do_ends _ Hd k c x l li Hk Hx Hl Hli) as Hat. unfold line_at in *. by rewrite P1.
Qed.
Lemma desk_message w s t m : desk_ok (mkDesk w s) → desk_ok (mkDesk w (sc_message t m s)).
Proof. intros Hd. apply (desk_canvas w s); [done..|by intros []|apply Hd]. Qed.
Lemma desk_moves w s d' : desk_ok (mkDesk w s) → moves (mkDesk w s) d' → desk_ok d'.
Proof.
  intros Hd Hm. pose proof (so_moves _ _ _ _ (do_scene _ Hd) Hm) as Hok. destruct Hm as [Hw _ (m & co & n & Hs)].
  destruct d' as [w' s']. cbn in *. subst. split; cbn; [apply Hd|apply Hd|done|apply Hd|apply Hd].
Qed.

Lemma run_clearLine w s : desk_ok (mkDesk w s) → ∃ s', clearLine (mkDesk w s) = (Ok tt, mkDesk w s') ∧
  desk_ok (mkDesk w s') ∧ sc_line s' = None.
Proof.
  intros Hd. unfold clearLine. destruct (sc_line s) as [d|] eqn:Hl.
  - eexists. erewrite run_bind by reflexivity. cbn. rewrite Hl. split; [reflexivity|]. split; [|done].
    eapply desk_canvas; [exact Hd|done..| |by intros ?]. intros []; cbn; set_solver.
  - exists s. erewrite run_bind by reflexivity. cbn. by rewrite Hl.
Qed.

Lemma run_pinClicked w s source p : desk_ok (mkDesk w s) → pin_owned w (pw_pin source) →
  ∃ s', pinClicked source p (mkDesk w s) = (Ok tt, mkDesk w s') ∧ desk_ok (mkDesk w s').
Proof.
  intros Hd Ho. unfold pinClicked. erewrite run_bind by reflexivity.
  pose proof (do_pipeline _ Hd) as Hpl. cbn in Hpl. cbn [dk_scene]. rewrite Hpl. cbn [when].
  destruct (pw_pin source) as [i|o] eqn:Hp; [by exists s|].
  destruct (run_clearLine w s Hd) as (s1 & Hrun & Hd1 & Hl). erewrite run_bind by exact Hrun. eexists. split; [reflexivity|].
  eapply desk_canvas; [exact Hd1|done..| |].
  - intros []; cbn; set_solver.
  - intros d [= <-]. eexists _, o. cbn. rewrite lookup_insert_eq. by split_and!.
Qed.

Lemma run_mouseMove w s p : desk_ok (mkDesk w s) →
  ∃ s', mouseMove p (mkDesk w s) = (Ok tt, mkDesk w s') ∧ desk_ok (mkDesk w s').
Proof.
  intros Hd. unfold mouseMove. erewrite run_bind by reflexivity. cbn [dk_scene].
  destruct (sc_line s) as [d|] eqn:Hl; [|by exists s]. destruct (do_drag _ Hd d Hl) as (il & o & Hil & Hpin & Ho). cbn in *.
  unfold get_drag. erewrite run_bind by (erewrite run_bind by reflexivity; cbn; rewrite Hil; reflexivity).
  eexists. split; [reflexivity|]. eapply desk_canvas; [exact Hd|done..|by intros []|].
  intros d' Hd'. cbn in Hd'. rewrite Hl in Hd'. injection Hd' as <-. eexists _, o. cbn. rewrite lookup_insert_eq. by split_and!.
Qed.

Lemma desk_alive d : desk_ok d → ∀ e pw, sc_elementWidgets (dk_scene d) !! e = Some pw → is_Some (sc_widgets (dk_scene d) !! pw).
Proof. intros Hd e pw Hp. destruct (so_element _ _ _ (do_scene _ Hd) _ _ Hp) as (_ & ew & _ & Hew & _). by exists ew. Qed.

Lemma run_mouseRelease under d : desk_ok d → (∀ t, t ∈ under → pin_owned (dk_world d) (pw_pin t)) →
  wpr (mouseRelease under) (λ _ d', desk_ok d' ∧ sc_line (dk_scene d') = None) d.
Proof.
  intros Hd Hunder. unfold mouseRelease. apply wpr_bind, wpr_gets, wpr_bind.
  apply (wpr_mono _ (λ _ d', desk_ok d')).
  { intros [] [w s] Hd1. apply wpr_bind. destruct (run_clearLine w s Hd1) as (s2 & Hrun & Hd2 & Hl).
    eapply wpr_intro; [exact Hrun|]. eapply wpr_mono; [|apply run_ensureFit, desk_alive, Hd2].
    intros [] d3 Hm. split; [by eapply desk_moves|]. destruct Hm as [_ _ (m & co & n & ->)]. done. }
  destruct (sc_line (dk_scene d)) as [dr|] eqn:Hl; [|by apply wpr_ret].
  apply (wpr_mono _ (λ _ d', desk_ok d' ∧ sc_line (dk_scene d') = Some dr ∧ keeps_places (dk_world d) (dk_world d'))); [by intros ? ? (? & _)|].
  apply (wpr_for_each (λ _ d', desk_ok d' ∧ sc_line (dk_scene d') = Some dr ∧ keeps_places (dk_world d) (dk_world d'))).
  { split_and!; [done|done|reflexivity]. }
  intros seen t rest [w s] Heq (Hd1 & Hl1 & Hkeep). cbn in Hl1, Hkeep.
  destruct (do_drag _ Hd1 dr Hl1) as (il & o & Hil & Hpin & Ho). cbn in Hil.
  destruct (run_handleConnectionCreation w s (il_fromPin il) t o Hd1 Hpin Ho) as (r & w' & s' & Hrun & Hd' & [Hl' _] & Hk' & Hr).
  { eapply pin_owned_places; [exact Hkeep|]. apply Hunder. rewrite Heq. set_solver. }
  assert (Hget : get_drag dr (mkDesk w s) = (Ok il, mkDesk w s)).
  { unfold get_drag. erewrite run_bind by reflexivity. cbn. by rewrite Hil. }
  assert (Hall : keeps_places (dk_world d) w') by by etrans.
  destruct Hr as [->|((msg & ->) & -> & ->)].
  - eapply (wpr_intro _ _ _ tt (mkDesk w' s')); [|split_and!; [done|cbn; congruence|done]].
    unfold release_on, try_catch. erewrite run_bind by exact Hget. by rewrite Hrun.
  - eapply (wpr_intro _ _ _ tt (mkDesk w (sc_message QtCriticalMsg msg s))); [|split_and!; [by apply desk_message|done|done]].
    unfold release_on, try_catch. erewrite run_bind by exact Hget. by rewrite Hrun.
Qed.
End mouse.

(** ** Gestures *)
Section gestures.
Context `{HashOrder} `{QMetaType} {C : Type} (getClassName : C → string) (make : C → W eptr) (f : Factory C).
Implicit Types w : World.

Inductive Gesture :=
  | ClickPin (source : PinWidget) (centre : qreal * qreal)
  | MoveMouse (p : qreal * qreal)
  | ReleaseMouse (under : list PinWidget)
  | DeleteSelected (selected : list Item)
  | MoveWidget (pw : wptr) (p : qreal * qreal)
  | DropElement (name : option string) (p : qreal * qreal).
Definition gesture (g : Gesture) : X unit :=
  match g with
  | ClickPin source centre => pinClicked source centre
  | MoveMouse p => mouseMove p
  | ReleaseMouse under => mouseRelease under
  | DeleteSelected selected => deleteSelected selected
  | MoveWidget pw p => setPos pw p
  | DropElement name p => dropEvent make f name p
  end.

(** The pin widgets of the elements on the canvas. *)
Definition pin_shown (d : Desk) (t : PinWidget) : Prop := ∃ ew id, WidgetItem (pw_parent t) ∈ sc_items (dk_scene d) ∧
  sc_widgets (dk_scene d) !! pw_parent t = Some ew ∧
  (ew_inputPinWidgets ew !! id = Some t ∨ ew_outputPinWidgets ew !! id = Some t).
Lemma pin_shown_owned d t : desk_ok d → pin_shown d t → pin_owned (dk_world d) (pw_pin t).
Proof.
  intros Hd (ew & id & Hit & Hew & Hpin). destruct (do_element _ _ Hd Hit) as (e & k & ew' & x & Hk & Hpw & Hew' & He & Hx & Hid).
  destruct (so_element _ _ _ (do_scene _ Hd) _ _ Hpw) as (x' & ew2 & Hx' & Hew2 & _ & Hins & Houts). simplify_eq.
  assert (Hinp : in_pipeline (dk_world d) (ew_element ew) x) by by split.
  destruct Hpin as [Hpin|Hpin]; [rewrite Hins in Hpin|rewrite Houts in Hpin]; rewrite lookup_fmap in Hpin;
    apply fmap_Some in Hpin as (q & Hq & ->); cbn.
  - unfold shown_inputs in Hq. destruct (el_kind x) eqn:Hkind; [done|].
    destruct (wf_inputPins _ (do_wf _ Hd) _ _ _ _ Hx Hq) as (p & Hp & Hi & Ho). exists p. split; [done|]. exists x.
    by rewrite Ho, Hi.
  - destruct (wf_outputPins _ (do_wf _ Hd) _ _ _ _ Hx Hq) as (p & Hp & Hi & Ho). exists p. split; [done|]. exists x.
    by rewrite Ho, Hi.
Qed.

(** A constructor makes one new element with its pins and tells of no other. *)
Definition own_pin w (e : eptr) (s : Signal) : Prop :=
  match s with
  | inputPinAdded i => ∃ p, w_ins w !! i = Some p ∧ ip_owner p = e
  | outputPinAdded o => ∃ p, w_outs w !! o = Some p ∧ op_owner p = e
  | _ => False
  end.
Definition makes_element (m : W eptr) : Prop := ∀ w, graph_wf w → ∃ e x w' told,
  m w = (Ok e, w') ∧ graph_wf w' ∧ w_elems w !! e = None ∧ w_elems w' = <[e := x]> (w_elems w) ∧ el_id x = -1 ∧
  w_ins w ⊆ w_ins w' ∧ w_outs w ⊆ w_outs w' ∧ w_conns w' = w_conns w ∧ w_pipe w' = w_pipe w ∧
  w_signals w' = w_signals w ++ told ∧ Forall (own_pin w' e) told.

(** Signals about the pins of an element that is not shown. *)
Lemma deliver_own_pins w s e told : sc_elementWidgets s !! e = None → Forall (own_pin w e) told →
  for_each told slot (mkDesk w s) = (Ok tt, mkDesk w s).
Proof.
  intros He. induction 1 as [|sg told Hs _ IH]; cbn; [done|].
  erewrite run_bind; [exact IH|]. destruct sg; try done; destruct Hs as (q & Hq & <-); cbn;
    (erewrite run_bind by (eapply run_look; first [by apply run_get_in|by apply run_get_out]));
    unfold on_widget, widget_of_element; (erewrite run_bind by (erewrite run_bind by reflexivity; reflexivity)); cbn; by rewrite He.
Qed.

Lemma added_places w e x id : w_elems w !! e = Some x → loose w e → children w !! id = None → keeps_places w (added w e x id).
Proof.
  intros Hx Hloose Hid. split; [|by eauto..]. intros y xy [Hy Hc].
  assert (y ≠ e) by (intros ->; by apply (Hloose (el_id xy))). split; [by cbn; rewrite lookup_insert_ne|].
  rewrite children_added, lookup_insert_ne; [done|]. congruence.
Qed.

Lemma run_drop w s e x w1 told p : desk_ok (mkDesk w s) → graph_wf w1 → w_elems w !! e = None → w_elems w1 = <[e := x]> (w_elems w) →
  el_id x = -1 → w_ins w ⊆ w_ins w1 → w_outs w ⊆ w_outs w1 → w_conns w1 = w_conns w → w_pipe w1 = w_pipe w →
  w_signals w1 = w_signals w ++ told → Forall (own_pin w1 e) told →
  wpr (upd_scene (sc_set_coords e p) ;; pipeline_call (addElement e) ;; mret tt) (λ _ d', desk_ok d') (mkDesk w1 s).
Proof.
  intros Hd Hwf1 He Hel Hid Hins Houts Hconns Hpipe Hsig Htold.
  assert (Hx1 : w_elems w1 !! e = Some x) by (by rewrite Hel, lookup_insert_eq).
  assert (Hloose : loose w1 e).
  { intros k Hk. rewrite Hpipe in Hk. destruct (wf_children _ (do_wf _ Hd) _ _ Hk) as (y & Hy & _). cbn in Hy. congruence. }
  destruct (run_addElement w1 e x Hx1 Hid) as (id & Hfree & _ & Hrun).
  set (w2 := added w1 e x id). set (s1 := sc_set_coords e p s).
  assert (Hnone : sc_elementWidgets s !! e = None).
  { apply eq_None_not_Some. intros [pw Hpw]. destruct (so_element _ _ _ (do_scene _ Hd) _ _ Hpw) as (y & _ & Hy & _). cbn in Hy. congruence. }
  assert (Hok1 : scene_ok w2 (tables w) s1).
  { eapply so_heap; [|eapply so_canvas; [apply (do_scene _ Hd)|done..|by intros []]]. cbn. split.
    - intros y xy Hy. exists xy. unfold w2, added. destruct (el_kind x); cbn;
        (rewrite lookup_insert_ne, Hel, lookup_insert_ne by congruence); done.
    - intros c Hc. unfold w2, added. destruct (el_kind x); cbn; by rewrite Hconns. }
  assert (Hwf2 : graph_wf w2) by by apply added_wf.
  assert (Hx2 : w_elems w2 !! e = Some (el_set_pipeline (el_set_id id x))).
  { unfold w2, added. destruct (el_kind x); cbn; by rewrite lookup_insert_eq. }
  apply wpr_bind, wpr_modify, wpr_bind. fold s1. cbn [dk_world].
  assert (Hloose0 : ∀ k, (tables w).1 !! k ≠ Some e) by (intros k; cbn; rewrite <-Hpipe; apply Hloose).
  destruct (wpr_elim _ _ _ (run_add_element w2 (tables w) s1 id e _ Hwf2 Hok1 Hx2 Hnone
    ltac:(cbn; by rewrite <-Hpipe) Hloose0)) as ([] & d' & Hslot & s' & -> & Hok' & Hgain & pw & Hpw).
  eapply (wpr_intro _ _ _ id (mkDesk w2 s')).
  { eapply run_pipeline_call; [exact Hrun|by unfold added; destruct (el_kind x)|].
    rewrite run_deliver by apply (do_pipeline _ Hd). cbn [for_each slot]. fold w2. erewrite run_bind by exact Hslot. done. }
  apply wpr_ret. destruct Hgain as [G1 G2 G3 G4 G5 G6 G7].
  assert (Hplaces : keeps_places w w2).
  { transitivity w1; [|by apply added_places]. split.
    - intros y xy [Hy Hc]. split; [rewrite Hel, lookup_insert_ne; [done|congruence]|by rewrite Hpipe].
    - intros o q Hq. exists q. split; [|done]. by eapply lookup_weaken.
    - intros i q Hq. exists q. split; [|done]. by eapply lookup_weaken. }
  split; cbn.
  - done.
  - rewrite G1. apply (do_pipeline _ Hd).
  - unfold tables, w2. rewrite children_added, connections_added, Hpipe. exact Hok'.
  - intros k c y l li Hk Hy Hl Hli. rewrite G3 in Hl. rewrite G5 in Hli.
    unfold w2 in Hk. rewrite connections_added, Hpipe in Hk.
    assert (Hy0 : w_conns w !! c = Some y) by (revert Hy; unfold w2, added; destruct (el_kind x); cbn; by rewrite Hconns).
    eapply line_at_places; [exact Hplaces|exact G2|]. exact (do_ends _ Hd k c y l li Hk Hy0 Hl Hli).
  - intros d0 Hd0. rewrite G4 in Hd0. destruct (do_drag _ Hd d0 Hd0) as (il & o & H1 & H2 & H3). exists il, o.
    rewrite G6. split_and!; [done|done|]. by eapply pin_owned_places.
Qed.

(** What a user can do: pins are clicked and released on where they are
    shown, items are picked from the canvas, elements are not deleted together
    with a line listed after them nor while a line is dragged, and a dropped
    class, if the factory knows it, has a constructor that makes elements. *)
Definition allowed (d : Desk) (g : Gesture) : Prop :=
  match g with
  | ClickPin source _ => pin_shown d source
  | MoveMouse _ => True
  | ReleaseMouse under => ∀ t, t ∈ under → pin_shown d t
  | DeleteSelected selected => sc_line (dk_scene d) = None ∧ safe_selection d selected
  | MoveWidget pw _ => WidgetItem pw ∈ sc_items (dk_scene d)
  | DropElement name _ => ∀ n id c, name = Some n → registered_as f n id c → makes_element (make c)
  end.

(** The only gesture that can fail: dropping a class nobody registered. *)
Definition fails (g : Gesture) (r : outcome unit) : Prop := ∃ n p msg, g = DropElement (Some n) p ∧
  (∀ id c, ¬ registered_as f n id c) ∧ r = Throw (RuntimeError msg).

Lemma run_dropEvent d name p : registry_wf getClassName f → desk_ok d → allowed d (DropElement name p) →
  ∃ r d', dropEvent make f name p d = (r, d') ∧ desk_ok d' ∧ (r = Ok tt ∨ fails (DropElement name p) r ∧ d' = d).
Proof.
  intros Hf Hd Hmake. destruct d as [w s]. unfold dropEvent. pose proof (do_pipeline _ Hd) as Hpl. cbn in Hpl.
  erewrite run_bind by reflexivity. cbn [dk_scene]. rewrite Hpl. erewrite run_bind by reflexivity.
  erewrite run_bind by reflexivity. cbn [dk_world].
  destruct (pl_running (w_pipe w)); [eexists (Ok tt), _; split; [reflexivity|]; split; [by apply desk_message|by left]|].
  destruct name as [n|]; [|exists (Ok tt), (mkDesk w s); by auto].
  assert (Hunknown : ∀ f', elementId n f = (Ok (-1), f') → (∀ id c, ¬ registered_as f n id c) →
    ∃ r d', (typeId ← on_factory f (elementId n); when (bool_decide (typeId = -1))
        (throw (RuntimeError ("Tried to create unknown element " +:+ n +:+ "."))) ;;
      c ← on_factory f (construct_id typeId); c ← need c; e ← pipeline_call (make c);
      upd_scene (sc_set_coords e p) ;; pipeline_call (addElement e) ;; mret tt) (mkDesk w s) = (r, d') ∧ desk_ok d' ∧
      (r = Ok tt ∨ fails (DropElement (Some n) p) r ∧ d' = mkDesk w s)).
  { intros f' Hid Hno. eexists _, (mkDesk w s).
    erewrite run_bind by (unfold on_factory; rewrite Hid; reflexivity). rewrite bool_decide_true by done.
    split; [reflexivity|]. split; [done|]. right. split; [|done]. by eexists n, p, _. }
  destruct (f_nameIdMapping f !! n) as [id|] eqn:Hn.
  2:{ eapply Hunknown.
      - unfold elementId. erewrite run_bind by reflexivity. by rewrite Hn.
      - intros id c [Hid _]. congruence. }
  pose proof (rw_range _ _ Hf _ _ Hn) as Hr.
  destruct (lookup_lt_is_Some_2 (f_constructors f) (Z.to_nat id)) as [oc Hoc]; [lia|].
  pose proof (run_elementId getClassName f n id oc Hf Hn Hoc) as Hid.
  destruct oc as [c|]; [|eapply Hunknown; [exact Hid|intros id' c [Hid' Hc]; congruence]].
  erewrite run_bind by (unfold on_factory; rewrite Hid; reflexivity). rewrite bool_decide_false by lia.
  erewrite run_bind by reflexivity.
  erewrite run_bind by (unfold on_factory; rewrite (run_construct_id f id (Some c)) by (done || lia); reflexivity).
  erewrite run_bind by reflexivity.
  destruct (Hmake n id c eq_refl (conj Hn Hoc) w (do_wf _ Hd))
    as (e & x & w1 & told & Hrun & Hwf1 & He & Hel & Hxid & Hins & Houts & Hconns & Hpipe & Hsig & Htold).
  assert (Hnone : sc_elementWidgets s !! e = None).
  { apply eq_None_not_Some. intros [pw Hpw]. destruct (so_element _ _ _ (do_scene _ Hd) _ _ Hpw) as (y & _ & Hy & _). cbn in Hy. congruence. }
  erewrite run_bind by (eapply run_pipeline_call; [exact Hrun|exact Hsig|];
    rewrite run_deliver by exact Hpl; by apply (deliver_own_pins w1 s e)).
  destruct (wpr_elim _ _ _ (run_drop w s e x w1 told p Hd Hwf1 He Hel Hxid Hins Houts Hconns Hpipe Hsig Htold)) as ([] & d' & Hgo & Hd').
  exists (Ok tt), d'. split; [exact Hgo|]. auto.
Qed.

Lemma run_gesture d g : registry_wf getClassName f → desk_ok d → allowed d g →
  ∃ r d', gesture g d = (r, d') ∧ desk_ok d' ∧ (r = Ok tt ∨ fails g r ∧ d' = d).
Proof.
  intros Hf Hd Hg. destruct g as [source centre|p|under|selected|pw p|name p]; cbn in *.
  - destruct d as [w s]. destruct (run_pinClicked w s source centre Hd) as (s' & Hrun & Hd'); [by apply (pin_shown_owned (mkDesk w s))|].
    exists (Ok tt), (mkDesk w s'). auto.
  - destruct d as [w s]. destruct (run_mouseMove w s p Hd) as (s' & Hrun & Hd'). exists (Ok tt), (mkDesk w s'). auto.
  - destruct (wpr_elim _ _ _ (run_mouseRelease under d Hd ltac:(intros t Ht; by apply pin_shown_owned, Hg))) as ([] & d' & Hrun & Hd' & _).
    exists (Ok tt), d'. auto.
  - destruct Hg as [Hl Hsafe]. destruct d as [w s]. unfold deleteSelected. erewrite run_bind by apply run_the_pipeline, Hd.
    erewrite run_bind by reflexivity. cbn [dk_world].
    destruct (pl_running (w_pipe w)); [eexists (Ok tt), _; split; [reflexivity|]; split; [by apply desk_message|by left]|].
    destruct (wpr_elim _ _ _ (delete_items_ok selected _ Hd Hl Hsafe)) as ([] & d' & Hrun & Hd'). exists (Ok tt), d'. auto.
  - destruct (do_element _ _ Hd Hg) as (e & k & ew & x & _ & _ & Hew & _).
    destruct (wpr_elim _ _ _ (run_setPos d pw ew p Hew ltac:(intros l Hl; destruct (so_lines _ _ _ (do_scene _ Hd) _ _ _ Hew Hl) as (li & Hli & _); by exists li)))
      as ([] & d' & Hrun & Hm). exists (Ok tt), d'. split; [exact Hrun|]. split; [|by left].
    destruct d as [w s]. by eapply desk_moves.
  - by apply run_dropEvent.
Qed.

Inductive gestures : Desk → Desk → Prop :=
  | gestures_nil d : gestures d d
  | gestures_cons d g r d1 d2 : allowed d g → gesture g d = (r, d1) → gestures d1 d2 → gestures d d2.
Lemma gestures_ok d d' : registry_wf getClassName f → gestures d d' → desk_ok d → desk_ok d'.
Proof.
  intros Hf. induction 1 as [|d g r d1 d2 Hg Hrun _ IH]; [done|]. intros Hd. apply IH.
  destruct (run_gesture d g Hf Hd Hg) as (r' & d1' & Hrun' & Hd1 & _). congruence.
Qed.
End gestures.

(** ** Showing a pipeline *)
Section showing.
Context `{HashOrder} `{QMetaType}.
Implicit Types w : World.

Lemma run_show_elements w l : ∀ v s, graph_wf w → scene_ok w v s → NoDup l.*1 → NoDup l.*2 →
  (∀ k e, (k, e) ∈ l → children w !! k = Some e ∧ v.1 !! k = None ∧ (∀ k', v.1 !! k' ≠ Some e) ∧ sc_elementWidgets s !! e = None) →
  wpr (for_each l.*2 add_element) (λ _ d', ∃ s', d' = mkDesk w s' ∧ scene_ok w (inserts id l v.1, v.2) s' ∧ gains s s') (mkDesk w s).
Proof.
  induction l as [|[k e] l IH]; intros v s Hwf Hok Hk He Hl.
  { apply wpr_ret. exists s. destruct v. by split_and!. }
  cbn in Hk, He. apply NoDup_cons in Hk as [Hk Hkl]. apply NoDup_cons in He as [He Hel].
  destruct (Hl k e) as (Hch & Hfree & Hloose & Hnone); [set_solver|].
  destruct (wf_children _ Hwf _ _ Hch) as (x & Hx & _). cbn [fmap list_fmap for_each snd]. apply wpr_bind.
  eapply wpr_mono; [|by eapply (run_add_element w v s k e x)].
  intros [] d1 (s1 & -> & Hok1 & Hg1 & pw & Hpw). eapply wpr_mono; [|apply (IH (<[k:=e]> v.1, v.2) s1 Hwf Hok1 Hkl Hel)].
  - intros [] d2 (s2 & -> & Hok2 & Hg2). exists s2. split_and!; [done|done|by etrans].
  - intros k' e' Hin. destruct (Hl k' e') as (H1 & H2 & H3 & H4); [set_solver|].
    assert (k' ≠ k). { intros ->. apply Hk. by apply (list_elem_of_fmap_2 fst _ (k, e')). }
    assert (e' ≠ e). { intros ->. apply He. by apply (list_elem_of_fmap_2 snd _ (k', e)). }
    cbn. rewrite Hpw, !lookup_insert_ne by done. split_and!; [done|done| |done].
    intros k2 [[_ <-]|[_ Hk2]]%lookup_insert_Some; [done|]. by apply (H3 k2).
Qed.

Lemma run_show_connections w l : ∀ v s, graph_wf w → scene_ok w v s → v.1 = children w → NoDup l.*1 → NoDup l.*2 →
  (∀ k c, (k, c) ∈ l → connections w !! k = Some c ∧ v.2 !! k = None ∧ (∀ k', v.2 !! k' ≠ Some c) ∧ sc_connectionLines s !! c = None) →
  (∀ c x l li, w_conns w !! c = Some x → sc_connectionLines s !! c = Some l → sc_lines s !! l = Some li → line_at w s x li) →
  wpr (for_each l.*2 add_connection) (λ _ d', ∃ s', d' = mkDesk w s' ∧ scene_ok w (v.1, inserts id l v.2) s' ∧
    (sc_line s' = sc_line s) ∧
    (∀ c x l li, w_conns w !! c = Some x → sc_connectionLines s' !! c = Some l → sc_lines s' !! l = Some li → line_at w s' x li)) (mkDesk w s).
Proof.
  induction l as [|[k c] l IH]; intros v s Hwf Hok Hch Hk Hc Hl Hends.
  { apply wpr_ret. exists s. destruct v. by split_and!. }
  cbn in Hk, Hc. apply NoDup_cons in Hk as [Hk Hkl]. apply NoDup_cons in Hc as [Hc Hcl].
  destruct (Hl k c) as (Hcon & Hfree & Hloose & Hnone); [set_solver|].
  destruct (wf_connections _ Hwf _ _ Hcon) as (x & o & i & Hat & _). cbn [fmap list_fmap for_each snd]. apply wpr_bind.
  destruct (run_add_connection w v s k c x o i Hok Hat Hfree Hloose Hnone) as (s1 & ln & li & m & Hrun & -> & Hln & Hok1 & Hline).
  { intros e. destruct (sc_elementWidgets s !! e) as [pw|] eqn:He; [by left; eexists|]. right. intros y [Hy Hy2].
    rewrite <-Hch in Hy2. destruct (so_child _ _ _ Hok _ _ Hy2) as (pw & Hpw & _). congruence. }
  eapply wpr_intro; [exact Hrun|]. set (s1 := line_shown c ln li m s) in *.
  eapply wpr_mono; [|apply (IH (v.1, <[k:=c]> v.2) s1 Hwf Hok1 Hch Hkl Hcl)].
  - intros [] d2 (s2 & -> & Hok2 & Hl2 & Hends2). by exists s2.
  - intros k' c' Hin. destruct (Hl k' c') as (H1 & H2 & H3 & H4); [set_solver|].
    assert (k' ≠ k). { intros ->. apply Hk. by apply (list_elem_of_fmap_2 fst _ (k, c')). }
    assert (c' ≠ c). { intros ->. apply Hc. by apply (list_elem_of_fmap_2 snd _ (k', c)). }
    cbn. rewrite !lookup_insert_ne by done. split_and!; [done|done| |done].
    intros k2 [[_ <-]|[_ Hk2]]%lookup_insert_Some; [done|]. by apply (H3 k2).
  - intros c' x' l' li' Hx' Hl' Hli'. change (line_at w s x' li'). cbn in Hl', Hli'.
    apply lookup_insert_Some in Hl' as [[<- <-]|[Hne Hl']].
    + rewrite lookup_insert_eq in Hli'. injection Hli' as <-. destruct Hat as [Hx _ _ _]. by simplify_eq.
    + rewrite lookup_insert_ne in Hli'; [by eapply Hends|]. intros <-.
      destruct (so_line _ _ _ Hok _ _ Hl') as (_ & ? & ? & _). congruence.
Qed.

Lemma empty_scene_ok w : scene_ok w (∅, ∅) new_scene.
Proof. split; cbn; intros *; rewrite ?lookup_empty; try done; try set_solver. Qed.

Lemma run_setPipeline w : graph_wf w →
  wpr setPipeline (λ _ d, desk_ok d ∧ dk_world d = w) (mkDesk w new_scene).
Proof.
  intros Hwf. unfold setPipeline. apply wpr_bind, wpr_gets, wpr_bind, wpr_assert; [done|].
  apply wpr_bind. eapply (wpr_intro _ _ _ (w_pipe w) (mkDesk w new_scene)); [done|]. apply wpr_bind.
  assert (Hch : inserts id (qmap_items (children w)) ∅ = children w).
  { rewrite (inserts_map id _ (children w) (NoDup_qmap_keys _) (elem_of_qmap_items _)). apply map_fmap_id. }
  assert (Hco : inserts id (qmap_items (connections w)) ∅ = connections w).
  { rewrite (inserts_map id _ (connections w) (NoDup_qmap_keys _) (elem_of_qmap_items _)). apply map_fmap_id. }
  eapply wpr_mono; [|apply (run_show_elements w (qmap_items (children w)) (∅, ∅) new_scene Hwf (empty_scene_ok w))].
  - intros [] d1 (s1 & -> & Hok1 & Hg1). cbn in Hok1. rewrite Hch in Hok1. destruct Hg1 as [G1 G2 G3 G4 G5 G6 G7]. apply wpr_bind.
    eapply wpr_mono; [|apply (run_show_connections w (qmap_items (connections w)) (children w, ∅) s1 Hwf Hok1 eq_refl)].
    + intros [] d2 (s2 & -> & Hok2 & Hl2 & Hends2). cbn in Hok2. rewrite Hco in Hok2. apply wpr_modify. split; [|done].
      split; cbn; [done|done| | |].
      * eapply so_canvas; [exact Hok2|done..|by intros []].
      * intros k c x l li _ Hx Hl Hli. change (line_at w s2 x li). by eapply Hends2.
      * intros d0 Hd0. cbn in Hd0. rewrite Hl2, G4 in Hd0. done.
    + apply NoDup_qmap_keys.
    + apply NoDup_fmap_2_strong; [|eapply NoDup_fmap_1, NoDup_qmap_keys].
      intros [k1 c1] [k2 c2] H1%elem_of_qmap_items H2%elem_of_qmap_items E. cbn in E. subst. f_equal.
      destruct (wf_connections _ Hwf _ _ H1) as (x1 & ? & ? & [Hx1 _] & <-). destruct (wf_connections _ Hwf _ _ H2) as (x2 & ? & ? & [Hx2 _] & <-). congruence.
    + intros k c Hk%elem_of_qmap_items. split_and!; [done|apply lookup_empty|intros k'; cbn; by rewrite lookup_empty|].
      rewrite G3. apply lookup_empty.
    + intros c x l li _ Hl. rewrite G3 in Hl. done.
  - apply NoDup_qmap_keys.
  - by apply NoDup_child_values.
  - intros k e Hk%elem_of_qmap_items. split_and!; [done|apply lookup_empty|intros k'; cbn; by rewrite lookup_empty|apply lookup_empty].
Qed.
End showing.

(** ** The scene and the pipeline stay in step *)

(** What is on the canvas is the pipeline: a widget with the pins of each of
    its elements, a line between the right pins for each of its connections,
    nothing else; and no widget refers to a line that has been deleted. *)
Record shows `{HashOrder} (d : Desk) : Prop := {
  shows_elements : ∀ e, (∃ k, children (dk_world d) !! k = Some e) ↔
    ∃ pw, sc_elementWidgets (dk_scene d) !! e = Some pw ∧ WidgetItem pw ∈ sc_items (dk_scene d);
  shows_widgets : ∀ pw, WidgetItem pw ∈ sc_items (dk_scene d) → ∃ e x ew, sc_elementWidgets (dk_scene d) !! e = Some pw ∧
    w_elems (dk_world d) !! e = Some x ∧ sc_widgets (dk_scene d) !! pw = Some ew ∧
    ew_inputPinWidgets ew = (λ i, mkPinWidget pw (InPin i)) <$> shown_inputs x ∧
    ew_outputPinWidgets ew = (λ o, mkPinWidget pw (OutPin o)) <$> el_outputPins x;
  shows_connections : ∀ c, (∃ k, connections (dk_world d) !! k = Some c) ↔
    ∃ l, sc_connectionLines (dk_scene d) !! c = Some l ∧ LineItem l ∈ sc_items (dk_scene d);
  shows_lines : ends_ok (dk_world d) (dk_scene d);
  shows_alive : ∀ pw ew l, sc_widgets (dk_scene d) !! pw = Some ew → l ∈ ew_lines ew → is_Some (sc_lines (dk_scene d) !! l)
}.
Lemma desk_shows `{HashOrder} d : desk_ok d → shows d.
Proof.
  intros Hd. pose proof (do_scene _ Hd) as Hok. split.
  - intros e. split; [intros [k Hk]; by eapply so_child|]. intros (pw & Hpw & Hit).
    destruct (so_widget _ _ _ Hok _ Hit) as (e' & k & Hk & Hpw'). exists k. by rewrite (so_widget_inj _ _ _ e e' pw Hok Hpw Hpw').
  - intros pw Hit. destruct (so_widget _ _ _ Hok _ Hit) as (e & k & _ & Hpw).
    destruct (so_element _ _ _ Hok _ _ Hpw) as (x & ew & Hx & Hew & _ & Hi & Ho). by exists e, x, ew.
  - intros c. split; [intros [k Hk]; by eapply so_connection|]. intros (l & Hl & Hit).
    destruct (so_lineitem _ _ _ Hok _ Hit) as (c' & k & Hk & Hl'). exists k. by rewrite (so_line_inj _ _ _ c c' l Hok Hl Hl').
  - apply Hd.
  - intros pw ew l Hew Hl. destruct (so_lines _ _ _ Hok _ _ _ Hew Hl) as (li & Hli & _). by exists li.
Qed.

(** C24: the editor shows the pipeline it edits.  A new scene given any
    well-formed pipeline displays it, and whatever the user then does - clicks
    and drags lines between pins, deletes selections, moves and drops elements
    - no pointer is lost and no assertion fails, refusals become messages, the
    pipeline stays well formed, and the canvas again shows exactly its
    elements with their pins and its connections between those pins, although
    the hashes of the scene keep entries of everything that was removed. *)
Theorem editor_shows_pipeline `{HashOrder} `{QMetaType} {C : Type} (getClassName : C → string) (make : C → W eptr)
    (f : Factory C) (w : World) : registry_wf getClassName f → graph_wf w →
  ∃ d0, setPipeline (mkDesk w new_scene) = (Ok tt, d0) ∧ dk_world d0 = w ∧
    ∀ d, gestures make f d0 d → graph_wf (dk_world d) ∧ shows d ∧
      ∀ g, allowed make f d g → ∃ r d', gesture make f g d = (r, d') ∧ (r = Ok tt ∨ fails f g r ∧ d' = d).
Proof.
  intros Hf Hwf. destruct (wpr_elim _ _ _ (run_setPipeline w Hwf)) as ([] & d0 & Hrun & Hd0 & Hw).
  exists d0. split_and!; [done|done|]. intros d Hg. pose proof (gestures_ok getClassName make f d0 d Hf Hg Hd0) as Hd.
  split_and!; [apply Hd|by apply desk_shows|]. intros g Hal.
  destruct (run_gesture getClassName make f d g Hf Hd Hal) as (r & d' & Hgo & _ & Hr). by exists r, d'.
Qed.
