(* ===== verification/CvMat.v ===== *)
(** Matrix data and the pins that carry it (CvMatData.h/.cpp,
    CvMatDataPin.h/.cpp): a matrix pin keeps the sets of depths and channel
    counts it supports and checks every matrix it hands out against them. *)
From S2P Require Export Construction.

(** What is used of OpenCV: the type codes, and the properties of the matrix
    in a [QVariant], when it holds a [CvMatData]. *)
Record CvMatData := mkCvMat { mat_depth : Z; mat_channels : Z; mat_empty : bool }.

Class OpenCV := {
  CV_8U : Z; CV_8S : Z; CV_16U : Z; CV_16S : Z; CV_32S : Z; CV_32F : Z; CV_64F : Z;
  CV_MAT_DEPTH : Z → Z;
  int_toString : Z → string;                     (** QVariant( int ).toString() *)
  toCvMat : QVariant → option CvMatData;      (** canConvert and value *)
  ofCvMat : CvMatData → QVariant              (** setValue *)
}.

(** The sets of a CvMatDataInputPin or CvMatDataOutputPin. *)
Record Formats := mkFormats { m_depths : gset Z; m_channels : gset Z }.

Section matrices.
Context `{OpenCV} `{HashOrder}.

Definition isValid (m : CvMatData) : bool := negb (mat_empty m).

Definition depthToString (depth : Z) : string :=
  let d := CV_MAT_DEPTH depth in
  if bool_decide (d = CV_8U) then "CV_8U"
  else if bool_decide (d = CV_8S) then "CV_8S"
  else if bool_decide (d = CV_16U) then "CV_16U"
  else if bool_decide (d = CV_16S) then "CV_16S"
  else if bool_decide (d = CV_32S) then "CV_32S"
  else if bool_decide (d = CV_32F) then "CV_32F"
  else if bool_decide (d = CV_64F) then "CV_64F"
  else "Invalid depth".

(** ** CvMatDataInputPin *)
Definition addSupportedDepth (d : Z) (f : Formats) : Formats := mkFormats ({[d]} ∪ m_depths f) (m_channels f).
Definition addSupportedChannels (c : Z) (f : Formats) : Formats := mkFormats (m_depths f) ({[c]} ∪ m_channels f).
Definition removeSupportedDepth (d : Z) (f : Formats) : Formats := mkFormats (m_depths f ∖ {[d]}) (m_channels f).
Definition removeSupportedChannels (c : Z) (f : Formats) : Formats := mkFormats (m_depths f) (m_channels f ∖ {[c]}).
Definition supportsChannels (c : Z) (f : Formats) : bool := bool_decide (c ∈ m_channels f).
Definition supportsDepth (d : Z) (f : Formats) : bool := bool_decide (d ∈ m_depths f).
Definition clearDephts (f : Formats) : Formats := mkFormats ∅ (m_channels f).
Definition clearChannels (f : Formats) : Formats := mkFormats (m_depths f) ∅.
Definition addAllDepths (f : Formats) : Formats :=
  foldr addSupportedDepth f [CV_64F; CV_32F; CV_32S; CV_16S; CV_16U; CV_8S; CV_8U].
Definition addAllChannels (f : Formats) : Formats := foldr addSupportedChannels f [4; 3; 2; 1].

(** The loop that lists the supported channels. *)
Fixpoint join_numbers (l : list Z) : string :=
  match l with
  | [] => EmptyString
  | [c] => int_toString c
  | c :: l' => int_toString c +:+ "," +:+ join_numbers l'
  end.

Definition channels_msg (side : string) (m : CvMatData) (name : string) (f : Formats) : string :=
  "Number of channels " +:+ int_toString (mat_channels m) +:+ " unsupported by " +:+ side +:+ " pin " +:+
  dquote +:+ name +:+ dquote +:+ ". Supports channels (" +:+ join_numbers (int_items (m_channels f)) +:+ ").".

Definition in_checkImageFormat (i : iptr) (f : Formats) (m : CvMatData) : W unit :=
  p ← get_in i ;
  when (negb (supportsDepth (mat_depth m) f))
    (e ← get_elem (ip_owner p) ;
     throw (RuntimeError ("Depth " +:+ dquote +:+ depthToString (mat_depth m) +:+ dquote +:+
       " unsupported by input pin " +:+ dquote +:+ ip_name p +:+ dquote +:+ " of processor " +:+ el_name e))) ;;
  when (negb (supportsChannels (mat_channels m) f))
    (throw (RuntimeError (channels_msg "input" m (ip_name p) f))).

(** CvMatDataInputPin::get *)
Definition cvmat_get (i : iptr) (f : Formats) : W CvMatData :=
  v ← in_getVariant i ;
  match toCvMat v with
  | None => throw (RuntimeError "CvMatDataOutputPin expected data with type CvMatData")
  | Some m =>
      when (negb (isValid m)) (throw (RuntimeError "CvMatDataOutputPin received invalid data")) ;;
      in_checkImageFormat i f m ;;
      mret m
  end.

(** ** CvMatDataOutputPin: the same sets; [put] does not check them *)
Definition cvmat_put (o : optr) (m : CvMatData) : W unit :=
  p ← get_out o ; e ← get_elem (op_owner p) ; out_putVariant o (el_serial e) (ofCvMat m).

Definition out_checkImageFormat (o : optr) (f : Formats) (m : CvMatData) : W unit :=
  p ← get_out o ;
  when (negb (supportsDepth (mat_depth m) f))
    (throw (RuntimeError ("Depth " +:+ dquote +:+ depthToString (mat_depth m) +:+ dquote +:+
       " unsupported by output pin " +:+ dquote +:+ op_name p +:+ dquote))) ;;
  when (negb (supportsChannels (mat_channels m) f))
    (throw (RuntimeError (channels_msg "output" m (op_name p) f))).

Definition out_addSupportedDepth (d : Z) (f : Formats) : Formats := mkFormats ({[d]} ∪ m_depths f) (m_channels f).
Definition out_addSupportedChannels (c : Z) (f : Formats) : Formats := mkFormats (m_depths f) ({[c]} ∪ m_channels f).
Definition out_removeSupportedDepth (d : Z) (f : Formats) : Formats := mkFormats (m_depths f ∖ {[d]}) (m_channels f).
Definition out_removeSupportedChannels (c : Z) (f : Formats) : Formats := mkFormats (m_depths f) (m_channels f ∖ {[c]}).
Definition out_supportsChannels (c : Z) (f : Formats) : bool := bool_decide (c ∈ m_channels f).
Definition out_supportsDepth (d : Z) (f : Formats) : bool := bool_decide (d ∈ m_depths f).
Definition out_clearDephts (f : Formats) : Formats := mkFormats ∅ (m_channels f).
Definition out_clearChannels (f : Formats) : Formats := mkFormats (m_depths f) ∅.
Definition out_addAllDepths (f : Formats) : Formats :=
  foldr out_addSupportedDepth f [CV_64F; CV_32F; CV_32S; CV_16S; CV_16U; CV_8S; CV_8U].
Definition out_addAllChannels (f : Formats) : Formats := foldr out_addSupportedChannels f [4; 3; 2; 1].

(** [createCvMatDataInputPin], [createCvMatDataOutputPin], with the type id of
    CvMatData. *)
Definition createCvMatDataInputPin (cvMatType : Z) (name : string) (owner : eptr)
    (required : Required) (sync : Synchronized) : W iptr :=
  i ← new_input (fresh_input name owner required sync CONNECTION_GUARANTEES_DATA CvMatPin cvMatType) ;
  addInputPin owner i ;; mret i.
Definition createCvMatDataOutputPin (cvMatType : Z) (name : string) (owner : eptr) : W optr :=
  o ← new_output (fresh_output name owner CvMatPin cvMatType) ;
  addOutputPin owner o ;; mret o.

(** ** Properties *)

(** A pin about to be read: connected, not yet called, with item [d] first. *)
Record readable (w : World) (i : iptr) (p : IInputPin) (c : cptr) (x : PinConnection)
    (v : QVariant) (s : Z) (q : list Data) : Prop := {
  rd_in : w_ins w !! i = Some p;
  rd_owner : is_Some (w_elems w !! ip_owner p);
  rd_called : ip_called p = false;
  rd_connection : ip_connection p = Some c;
  rd_conn : w_conns w !! c = Some x;
  rd_queue : pc_queue x = payload_data s v :: q
}.

(** The heap once the item is taken. *)
Definition taken (w : World) (i : iptr) (p : IInputPin) (c : cptr) (x : PinConnection) (q : list Data) : World :=
  set_conns (insert c (pc_set_queue q x)) (set_ins (insert i (ip_set_called true p)) w).

Lemma run_getVariant w i p c x v s q : readable w i p c x v s q →
  in_getVariant i w = (Ok v, taken w i p c x q).
Proof.
  intros [Hp [e He] Hcalled Hc Hx Hq]. unfold in_getVariant, in_take_guard, taken.
  erewrite run_bind.
  2:{ run. run. rewrite Hcalled. run. run. unfold in_hasDataItems. 
      erewrite run_bind.
      2:{ erewrite run_bind by (eapply run_get_in; cbn; apply lookup_insert_eq). cbn [ip_connection ip_set_called]. rewrite Hc.
          unfold conn_hasDataItems. erewrite run_bind by (apply run_get_conn; exact Hx). rewrite Hq.
          rewrite bool_decide_true by done. reflexivity. }
      reflexivity. }
  erewrite run_bind by (eapply run_get_in; cbn; apply lookup_insert_eq). cbn [ip_connection ip_set_called]. rewrite Hc.
  erewrite run_bind by reflexivity. unfold conn_get.
  erewrite run_bind.
  2:{ erewrite run_bind by (apply run_get_conn; exact Hx). rewrite Hq.
      erewrite run_bind by (apply run_upd_conn; exact Hx). reflexivity. }
  reflexivity.
Qed.

Lemma run_in_check w i p e f m : w_ins w !! i = Some p → w_elems w !! ip_owner p = Some e →
  (mat_depth m ∈ m_depths f ∧ mat_channels m ∈ m_channels f → in_checkImageFormat i f m w = (Ok tt, w)) ∧
  (¬ (mat_depth m ∈ m_depths f ∧ mat_channels m ∈ m_channels f) →
     ∃ msg, in_checkImageFormat i f m w = (Throw (RuntimeError msg), w)).
Proof.
  intros Hp He. unfold in_checkImageFormat, supportsDepth, supportsChannels. rewrite (run_bind _ _ _ _ _ (run_get_in _ _ _ Hp)).
  destruct (decide (mat_depth m ∈ m_depths f)) as [Hd|Hd].
  - rewrite (bool_decide_true (mat_depth m ∈ m_depths f)) by done. cbn [negb when]. erewrite run_bind by reflexivity.
    case_bool_decide as Hc; cbn [negb when]; [by split; [|intros []]|].
    split; [by intros []|]. intros _. by eexists.
  - rewrite (bool_decide_false (mat_depth m ∈ m_depths f)) by done. cbn [negb when].
    split; [by intros []|]. intros _. eexists. apply run_bind_throw.
    by rewrite (run_bind _ _ _ _ _ (run_get_elem _ _ _ He)).
Qed.

(** The verdict on a matrix. *)
Definition acceptable (f : Formats) (m : CvMatData) : Prop :=
  mat_empty m = false ∧ mat_depth m ∈ m_depths f ∧ mat_channels m ∈ m_channels f.

(** C39: reading a matrix pin takes exactly the first item of its connection,
    whether or not the item is acceptable; the matrix is returned if and only
    if the item holds one that is not empty and whose depth and number of
    channels the pin supports, and otherwise a RuntimeError is thrown. *)
Theorem cvmat_get_correct w i p c x v s q f : readable w i p c x v s q →
  match toCvMat v with
  | Some m =>
      (acceptable f m → cvmat_get i f w = (Ok m, taken w i p c x q)) ∧
      (¬ acceptable f m → ∃ msg, cvmat_get i f w = (Throw (RuntimeError msg), taken w i p c x q))
  | None => ∃ msg, cvmat_get i f w = (Throw (RuntimeError msg), taken w i p c x q)
  end.
Proof.
  intros Hr. pose proof (run_getVariant _ _ _ _ _ _ _ _ Hr) as Hget. unfold cvmat_get.
  rewrite (run_bind _ _ _ _ _ Hget).
  destruct (toCvMat v) as [m|]; [|by eexists].
  assert (Hp : w_ins (taken w i p c x q) !! i = Some (ip_set_called true p)) by (cbn; apply lookup_insert_eq).
  destruct (rd_owner _ _ _ _ _ _ _ _ Hr) as [e He].
  assert (He' : w_elems (taken w i p c x q) !! ip_owner (ip_set_called true p) = Some e) by done.
  unfold acceptable, isValid. destruct (mat_empty m); cbn [negb when].
  { split; [by intros [? _]|]. intros _. by eexists. }
  erewrite run_bind by reflexivity. destruct (run_in_check _ i _ e f m Hp He') as [Hok Hno]. split.
  - intros (_ & Hd & Hc). by rewrite (run_bind _ _ _ _ _ (Hok (conj Hd Hc))).
  - intros Hn. destruct Hno as [msg Hno]; [by intros [? ?]; apply Hn|].
    exists msg. by apply run_bind_throw.
Qed.

End matrices.

(** ** Example: the consumer of a two-element pipeline reads a matrix *)
Definition ex_cv : OpenCV := {|
  CV_8U := 0; CV_8S := 1; CV_16U := 2; CV_16S := 3; CV_32S := 4; CV_32F := 5; CV_64F := 6;
  CV_MAT_DEPTH d := Z.land d 7; int_toString _ := "n";
  toCvMat v := Some (mkCvMat (contents v) (userType v) false);
  ofCvMat m := mkQVariant (mat_channels m) (mat_depth m)
|}.

Definition ex_pin : IInputPin :=
  fresh_input "image" 1 CONNECTION_REQUIRED CONNECTION_SYNCHRONOUS CONNECTION_GUARANTEES_DATA CvMatPin 9.
Definition ex_conn : PinConnection := mkConn 0 (Some 1%positive) (Some 1%positive) [payload_data 1 (mkQVariant 3 0)].
Definition ex_waiting : World :=
  mkWorld {[1%positive := fresh_element KProcessor "Show"]} {[1%positive := ip_set_connection (Some 1%positive) ex_pin]}
    ∅ {[1%positive := ex_conn]} empty_pipeline ∅ ∅ [].

Lemma cvmat_get_witness : ∃ w', cvmat_get (H:=ex_cv) (H0:=canonical_order) 1
    (addAllChannels (addAllDepths (H:=ex_cv) (mkFormats ∅ ∅))) ex_waiting = (Ok (mkCvMat 0 3 false), w').
Proof.
  eexists. apply (cvmat_get_correct (H:=ex_cv) (H0:=canonical_order) ex_waiting 1
    (ip_set_connection (Some 1%positive) ex_pin) 1 ex_conn (mkQVariant 3 0) 1 []).
  - split; try reflexivity. by eexists.
  - split; [reflexivity|]. split; apply (bool_decide_unpack _); vm_compute; exact I.
Defined.
