(* ===== verification/Loader.v ===== *)
(** Saving and loading pipelines: PipelineLoader.cpp and the load, save and
    saveAs of Pipeline.cpp; and the documents they are stored in, the part of
    Qt's QDomDocument that the loader uses, as trees of elements and text.

    The state extends the heap of Model.v by what the loader looks at beyond
    the graph: the class name of every element, the values of its properties,
    the registry of element classes and the files. *)
From S2P Require Export Prelude Enum Factory Lifecycle Construction.

Inductive QDomNode :=
  | QDomElement (tag : string) (attributes : list (string * string)) (children : list QDomNode)
  | QDomText (text : string).

(** [nodeName()]; a text node converted with [toElement()] is null and has no
    name. *)
Definition nodeName (n : QDomNode) : string :=
  match n with QDomElement tag _ _ => tag | QDomText _ => EmptyString end.

Definition childNodes (n : QDomNode) : list QDomNode :=
  match n with QDomElement _ _ cs => cs | QDomText _ => [] end.

Fixpoint attr_lookup (name : string) (l : list (string * string)) : option string :=
  match l with
  | [] => None
  | (k, v) :: l' => if bool_decide (k = name) then Some v else attr_lookup name l'
  end.

(** [attributes().namedItem( name ).nodeValue()] *)
Definition attribute (name : string) (n : QDomNode) : string :=
  match n with
  | QDomElement _ attrs _ => default EmptyString (attr_lookup name attrs)
  | QDomText _ => EmptyString
  end.

(** [text()]: the text of an element and all that is below it. *)
Fixpoint text (n : QDomNode) : string :=
  match n with
  | QDomElement _ _ cs =>
      (fix go (cs : list QDomNode) : string :=
         match cs with [] => EmptyString | c :: cs' => text c +:+ go cs' end) cs
  | QDomText s => s
  end.

Definition has_tag (tag : string) (n : QDomNode) : bool :=
  match n with QDomElement t _ _ => bool_decide (t = tag) | QDomText _ => false end.

(** [firstChildElement( tag )], of an element that may be null. *)
Definition firstChildElement (tag : string) (n : option QDomNode) : option QDomNode :=
  m ← n ; head (filter (λ c, has_tag tag c = true) (childNodes m)).

(** [text()] of an element that may be null. *)
Definition element_text (n : option QDomNode) : string :=
  match n with Some m => text m | None => EmptyString end.

(** All nodes of a tree, in document order. *)
Fixpoint nodes (n : QDomNode) : list QDomNode :=
  n :: match n with
       | QDomElement _ _ cs =>
           (fix go (cs : list QDomNode) : list QDomNode :=
              match cs with [] => [] | c :: cs' => nodes c ++ go cs' end) cs
       | QDomText _ => []
       end.

(** [elementsByTagName( tag )] of the document with this root. *)
Definition elementsByTagName (tag : string) (root : QDomNode) : list QDomNode :=
  filter (λ n, has_tag tag n = true) (nodes root).

Lemma nodes_element tag attrs cs : nodes (QDomElement tag attrs cs) = QDomElement tag attrs cs :: (cs ≫= nodes).
Proof. done. Qed.

Lemma by_tag_element tag t attrs cs : elementsByTagName tag (QDomElement t attrs cs) =
  (if bool_decide (t = tag) then [QDomElement t attrs cs] else []) ++ (cs ≫= elementsByTagName tag).
Proof.
  unfold elementsByTagName. rewrite nodes_element, filter_cons. cbn [has_tag].
  assert (Hcs : filter (λ n, has_tag tag n = true) (cs ≫= nodes) = cs ≫= (λ c, filter (λ n, has_tag tag n = true) (nodes c))).
  { induction cs as [|c cs IH]; [done|]. cbn. by rewrite filter_app, IH. }
  rewrite Hcs. by destruct (bool_decide (t = tag)).
Qed.

Lemma by_tag_text tag s : elementsByTagName tag (QDomText s) = [].
Proof. done. Qed.

(** ** Qt and the plug-ins *)

(** [QVariant::Type], as far as [convertData] distinguishes it. *)
Inductive PropType :=
  | TBool | TChar | TByteArray | TDate | TDouble | TInt | TLongLong | TTime
  | TUInt | TULongLong | TUrl | TUserType | TString | TInvalid.
#[export] Instance PropType_eq_dec : EqDecision PropType.
Proof. solve_decision. Defined.

(** Qt's variants, numbers as text, and documents as text. *)
Class QtCore := {
  Variant : Type;
  v_toString : Variant → string;
  v_bool : bool → Variant;                     (** QVariant( bool ) *)
  v_char : option Ascii.ascii → Variant;       (** QVariant( QChar ) *)
  v_string : string → Variant;                 (** QVariant( QString ) *)
  v_convert : PropType → string → Variant;     (** toDouble, toInt, QUrl, ... *)
  v_enum : Enum → Variant;                     (** setValue<plv::Enum> *)
  v_toEnum : Variant → option Enum;            (** canConvert, value<plv::Enum> *)
  compareInsensitive : string → string → bool; (** compare( s, Qt::CaseInsensitive ) == 0 *)
  num : Z → string;                            (** QString::number *)
  toInt : string → Z;                          (** QString::toInt *)
  qchar : Z → string;                          (** QString( QChar( n ) ).toStdString() *)
  doc_toString : QDomNode → string;            (** QDomDocument::toString *)
  doc_setContent : string → QDomNode;          (** QDomDocument::setContent *)
  canOpen : string → bool                      (** QFile::open succeeds *)
}.

(** The classes of the plug-ins: the properties a class declares itself
    (in order), the type [indexOfProperty] finds under a name, and what a
    property holds after its setter was called with a value. *)
Class Plugins `{QtCore} := {
  classProperties : string → list (string * PropType);
  propertyType : string → string → PropType;
  writeProperty : string → string → Variant → Variant
}.

(** A PipelineElementConstructor: its class, its constructor and the initial
    values of the properties. *)
Record Ctor `{QtCore} := mkCtor {
  ct_class : string;
  ct_construct : W eptr;
  ct_props : gmap string Variant
}.

Record Store `{QtCore} := mkStore {
  st_world : World;
  st_class : gmap eptr string;
  st_props : gmap eptr (gmap string Variant);
  st_factory : Factory Ctor;
  st_files : gmap string string
}.

Arguments mkCtor {_} _ _ _.
Arguments mkStore {_} _ _ _ _ _.

Section loader.
Context `{HashOrder} `{QMetaType} `{QtCore} `{!Plugins}.

Abbreviation L := (M Store).

Definition on_world {A} (m : W A) : L A := λ s,
  let '(r, w) := m (st_world s) in (r, mkStore w (st_class s) (st_props s) (st_factory s) (st_files s)).
Definition on_factory {A} (m : M (Factory Ctor) A) : L A := λ s,
  let '(r, f) := m (st_factory s) in (r, mkStore (st_world s) (st_class s) (st_props s) f (st_files s)).
Definition set_meta (e : eptr) (cls : string) (ps : gmap string Variant) (s : Store) : Store :=
  mkStore (st_world s) (<[e := cls]> (st_class s)) (<[e := ps]> (st_props s)) (st_factory s) (st_files s).
Definition set_props (e : eptr) (ps : gmap string Variant) (s : Store) : Store :=
  mkStore (st_world s) (st_class s) (<[e := ps]> (st_props s)) (st_factory s) (st_files s).
Definition set_file (name contents : string) (s : Store) : Store :=
  mkStore (st_world s) (st_class s) (st_props s) (st_factory s) (<[name := contents]> (st_files s)).

Definition deref_meta {A} (field : Store → gmap positive A) (e : eptr) : L A :=
  o ← gets (λ s, field s !! e) ;
  match o with Some x => mret x | None => abort NullPointer end.

(** [metaObject()->className()] *)
Definition className (e : eptr) : L string := deref_meta st_class e.
Definition properties (e : eptr) : L (gmap string Variant) := deref_meta st_props e.

(** PipelineElement::setProperty *)
Definition setProperty (e : eptr) (name : string) (v : Variant) : L unit :=
  cls ← className e ;
  ps ← properties e ;
  modify (set_props e (<[name := if bool_decide (propertyType cls name = TInvalid) then v
                                 else writeProperty cls name v]> ps)).

(** [plec->construct()] *)
Definition construct (c : Ctor) : L eptr :=
  e ← on_world (ct_construct c) ;
  modify (set_meta e (ct_class c) (ct_props c)) ;;
  mret e.

(** ** serialize *)

(** [getSelectedItemName] of the enumeration read from a property. *)
Definition selected_name (en : Enum) : L string := λ s, ((enum_getSelectedItemName en).1, s).

(** The text a static property is saved as. *)
Definition property_text (t : PropType) (v : option Variant) : L string :=
  if bool_decide (t = TUserType) then
    match v ≫= v_toEnum with Some en => selected_name en | None => mret EmptyString end
  else mret (match v with Some x => v_toString x | None => EmptyString end).

Fixpoint static_properties (ps : gmap string Variant) (l : list (string * PropType)) : L (list QDomNode) :=
  match l with
  | [] => mret []
  | (name, t) :: l' =>
      value ← property_text t (ps !! name) ;
      rest ← static_properties ps l' ;
      mret (QDomElement name [] [QDomText value] :: rest)
  end.

(** The place of the element in the editor, when it has one. *)
Definition scene_properties (ps : gmap string Variant) : list QDomNode :=
  match ps !! "sceneCoordX", ps !! "sceneCoordY" with
  | Some x, Some y => [QDomElement "sceneCoordX" [] [QDomText (v_toString x)];
                       QDomElement "sceneCoordY" [] [QDomText (v_toString y)]]
  | _, _ => []
  end.

Definition serialize_element (e : eptr) : L QDomNode :=
  cls ← className e ;
  x ← on_world (get_elem e) ;
  ps ← properties e ;
  static ← static_properties ps (classProperties cls) ;
  mret (QDomElement "element" [("id", num (el_id x)); ("name", cls)]
         [QDomElement "properties" [] (static ++ scene_properties ps)]).

(** [<sink>] or [<source>] *)
Definition end_node (tag : string) (pin owner : Z) : QDomNode :=
  QDomElement tag [] [QDomElement "pinId" [] [QDomText (num pin)];
                      QDomElement "processorId" [] [QDomText (num owner)]].

Definition serialize_connection (c : cptr) : W QDomNode :=
  x ← get_conn c ;
  i ← non_null (pc_consumer x) ; pi ← get_in i ; ei ← get_elem (ip_owner pi) ;
  o ← non_null (pc_producer x) ; po ← get_out o ; eo ← get_elem (op_owner po) ;
  mret (QDomElement "connection" [] [end_node "sink" (ip_id pi) (el_id ei);
                                     end_node "source" (op_id po) (el_id eo)]).

Fixpoint map_nodes {S A} (f : A → M S QDomNode) (l : list A) : M S (list QDomNode) :=
  match l with
  | [] => mret []
  | a :: l' => n ← f a ; rest ← map_nodes f l' ; mret (n :: rest)
  end.

(** PipelineLoader::serialize( Pipeline* ), before [toString]. *)
Definition serialize_doc : L QDomNode :=
  pl ← on_world get_pipe ;
  elements ← map_nodes serialize_element (qmap_values (pl_children pl)) ;
  connections ← on_world (map_nodes serialize_connection (qmap_values (pl_connections pl))) ;
  mret (QDomElement "pipeline" [] [QDomElement "elements" [] elements;
                                   QDomElement "connections" [] connections]).

(** PipelineLoader::serialize( filename, Pipeline* ): opening for writing
    empties the file. *)
Definition serialize (filename : string) : L unit :=
  if negb (canOpen filename) then throw (StdRuntimeError ("Failed to open file " +:+ filename))
  else
    modify (set_file filename EmptyString) ;;
    doc ← serialize_doc ;
    modify (set_file filename (doc_toString doc)).

(** ** deserialize *)
Definition convertData (t : PropType) (data : string) : Variant :=
  match t with
  | TBool => v_bool (compareInsensitive data "true" || bool_decide (data = "1"))
  | TChar => v_char (match data with String a _ => Some a | EmptyString => None end)
  | TByteArray | TDate | TDouble | TInt | TLongLong | TTime | TUInt | TULongLong | TUrl => v_convert t data
  | TUserType | TString | TInvalid => v_string data
  end.

(** A property of the class always has a value. *)
Definition parse_property (e : eptr) (n : QDomNode) : L unit :=
  cls ← className e ;
  let name := nodeName n in
  let value := text n in
  ps ← properties e ;
  propValue ←
    (if bool_decide (propertyType cls name = TUserType) then
       match ps !! name with
       | Some v => mret (match v_toEnum v with
                         | Some en => v_enum (enum_setSelected value en)
                         | None => v
                         end)
       | None => abort UndefinedBehaviour
       end
     else mret (convertData (propertyType cls name) value)) ;
  setProperty e name propValue.

(** The character the message ends with: [msg + id] appends [id] as a QChar of
    16 bits. *)
Definition as_char (id : Z) : string := qchar (id mod 2 ^ 16).

Definition parseElement (n : QDomNode) : L unit :=
  let id := toInt (attribute "id" n) in
  let name := attribute "name" n in
  typeId ← on_factory (elementId name) ;
  if bool_decide (typeId = -1) then
    throw (StdRuntimeError ("XML document contains unknown processor type " +:+ name))
  else
    plec ← on_factory (construct_id typeId) ;
    match plec with
    | None => abort NullPointer
    | Some c =>
        ple ← construct c ;
        on_world (el_setId ple id) ;;
        can ← on_world (canAddElement ple) ;
        if negb can then
          throw (StdRuntimeError ("XML parsing failed. PipelineElement with name " +:+ name +:+
            " has invalid or used id " +:+ as_char id))
        else
          on_world (addElement ple) ;;
          match firstChildElement "properties" (Some n) with
          | Some props => for_each (childNodes props) (parse_property ple)
          | None => mret tt
          end
    end.

Definition parseElements (list : list QDomNode) : L unit := for_each list parseElement.

Definition parseConnection (n : QDomNode) : L unit :=
  let sinkNode := firstChildElement "sink" (Some n) in
  let sinkProcId := toInt (element_text (firstChildElement "processorId" sinkNode)) in
  let sinkPinId := toInt (element_text (firstChildElement "pinId" sinkNode)) in
  let sourceNode := firstChildElement "source" (Some n) in
  let sourceProcId := toInt (element_text (firstChildElement "processorId" sourceNode)) in
  let sourcePinId := toInt (element_text (firstChildElement "pinId" sourceNode)) in
  sourceElement ← on_world (getElement sourceProcId) ;
  sinkElement ← on_world (getElement sinkProcId) ;
  match sourceElement, sinkElement with
  | None, _ => throw (StdRuntimeError "Connection specified with invalid source id")
  | _, None => throw (StdRuntimeError "Connection specified with invalid sink id")
  | Some producer, Some sink =>
      y ← on_world (get_elem sink) ;
      match el_kind y with
      | KProducer => throw (StdRuntimeError "Sink element is not a DataConsumer")
      | KProcessor =>
          iop ← on_world (getOutputPin producer sourcePinId) ;
          iip ← on_world (getInputPin sink sinkPinId) ;
          match iop, iip with
          | None, _ => throw (StdRuntimeError ("No output pin with id " +:+ num sourcePinId))
          | _, None => throw (StdRuntimeError ("No input pin with id " +:+ num sinkPinId))
          | Some o, Some i =>
              '(ok, errstr) ← on_world (canConnectPins o i) ;
              if negb ok then throw (StdRuntimeError ("Cannot connect pins because : " +:+ errstr))
              else on_world (connectPins o i) ;; mret tt
          end
      end
  end.

Definition parseConnections (list : list QDomNode) : L unit := for_each list parseConnection.

(** PipelineLoader::deserialize( QDomDocument*, Pipeline* ) *)
Definition deserialize_doc (doc : QDomNode) : L unit :=
  parseElements (elementsByTagName "element" doc) ;;
  parseConnections (elementsByTagName "connection" doc).

(** PipelineLoader::deserialize( filename, Pipeline* ) *)
Definition deserialize (filename : string) : L unit :=
  file ← gets (λ s, st_files s !! filename) ;
  match file with
  | None => throw (StdRuntimeError ("Failed to open file " +:+ filename +:+ ". File does not exist."))
  | Some contents =>
      if negb (canOpen filename) then throw (StdRuntimeError ("Failed to open file " +:+ filename))
      else deserialize_doc (doc_setContent contents)
  end.

(** ** Pipeline::load, save, saveAs *)

(** [catch( std::runtime_error& )]: all of PlvExceptions.h derives from it. *)
Definition is_runtime_error (x : exn) : bool :=
  match x with CvException _ | UnknownException => false | _ => true end.

Definition catch_runtime_error {A} (m : L A) (h : exn → L A) : L A :=
  try_catch m (λ x, if is_runtime_error x then h x else throw x).

Definition load (filename : string) : L bool :=
  empty ← on_world isEmpty ;
  if negb empty then abort AssertFailed
  else
    on_world (upd_pipe (pl_set_filename filename)) ;;
    catch_runtime_error
      (deserialize filename ;; on_world (emit (pipelineLoaded filename)) ;; mret true)
      (λ x, on_world (handleMessage QtWarningMsg ("Failed to load pipeline " +:+ exn_text x)) ;; mret false).

Definition save : L bool :=
  catch_runtime_error
    (pl ← on_world get_pipe ;
     when (pl_changed pl)
       (serialize (pl_filename pl) ;;
        on_world (upd_pipe (pl_set_changed false)) ;;
        on_world (emit (pipelineSaved (pl_filename pl)))) ;;
     mret true)
    (λ x, on_world (handleMessage QtWarningMsg ("Failed to save pipeline " +:+ exn_text x)) ;; mret false).

Definition saveAs (filename : string) : L bool :=
  pl ← on_world get_pipe ;
  when (negb (bool_decide (pl_filename pl = filename))) (on_world (upd_pipe (pl_set_filename filename))) ;;
  save.
End loader.
