(* ===== verification/LoaderProof.v ===== *)
(** What a saved document says about a pipeline, and parsing its elements: every
    element is created again with its class, its id, its pins and its properties. *)
From S2P Require Export Loader.

Section stored.
Context `{HashOrder} `{QMetaType} `{QtCore} `{!Plugins}.

(** ** Running graph operations and the registry on a store *)
Definition with_world (w : World) (s : Store) : Store :=
  mkStore w (st_class s) (st_props s) (st_factory s) (st_files s).

Lemma run_on_world {A} (m : W A) s r w : m (st_world s) = (r, w) → on_world m s = (r, with_world w s).
Proof. intros Hm. unfold on_world. by rewrite Hm. Qed.

Lemma with_world_same s : with_world (st_world s) s = s.
Proof. by destruct s. Qed.

Lemma run_query {A} (m : W A) s r : m (st_world s) = (r, st_world s) → on_world m s = (r, s).
Proof. intros Hm. rewrite (run_on_world _ _ _ _ Hm). by rewrite with_world_same. Qed.

Lemma run_on_factory {A} (m : M (Factory Ctor) A) s r : m (st_factory s) = (r, st_factory s) → on_factory m s = (r, s).
Proof. intros Hm. unfold on_factory. rewrite Hm. by destruct s. Qed.

(** ** The shape of a pipeline *)

(** The type an input pin insists on; a dynamic one insists on none. *)
Definition in_type (p : IInputPin) : option Z :=
  if ip_isDynamicallyTyped p then None else Some (ip_typeId p).

(** What the class of an element fixes: its kind and the types of its pins. *)
Record Layout := mkLayout {
  ly_kind : ElementKind;
  ly_ins : gmap Z (option Z);
  ly_outs : gmap Z Z
}.

Definition layout (w : World) (x : Element) : Layout :=
  mkLayout (el_kind x)
    (omap (λ i, in_type <$> w_ins w !! i) (el_inputPins x))
    (omap (λ o, op_typeId <$> w_outs w !! o) (el_outputPins x)).

(** A connection as the ids of its two ends: source element and pin, sink
    element and pin. *)
Definition Link : Type := Z * Z * Z * Z.

Definition link_of (w : World) (c : cptr) : option Link :=
  x ← w_conns w !! c ;
  o ← pc_producer x ; po ← w_outs w !! o ; xo ← w_elems w !! op_owner po ;
  i ← pc_consumer x ; pi ← w_ins w !! i ; xi ← w_elems w !! ip_owner pi ;
  Some (el_id xo, op_id po, el_id xi, ip_id pi).

(** The connections of a pipeline, in the order of their ids. *)
Definition links (w : World) : list Link := omap (link_of w) (qmap_values (connections w)).

(** The classes of the elements, by id. *)
Definition class_map (s : Store) : gmap Z string :=
  omap (λ e, st_class s !! e) (children (st_world s)).

(** ** The document of a pipeline *)
Definition link_node (l : Link) : QDomNode :=
  let '(eo, o, ei, i) := l in
  QDomElement "connection" [] [end_node "sink" i ei; end_node "source" o eo].

Lemma attached_link w c x o i : attached w c x o i → ∃ po pi xo xi,
  w_outs w !! o = Some po ∧ w_ins w !! i = Some pi ∧
  w_elems w !! op_owner po = Some xo ∧ w_elems w !! ip_owner pi = Some xi ∧
  link_of w c = Some (el_id xo, op_id po, el_id xi, ip_id pi).
Proof.
  intros [Hx Ho Hi (po & pi & Hpo & Hpi & _ & _ & _ & _ & (xo & [Hxo _] & _) & (xi & [Hxi _] & _))].
  exists po, pi, xo, xi. split_and!; [done..|].
  unfold link_of. rewrite Hx; cbn. rewrite Ho; cbn. rewrite Hpo; cbn. rewrite Hxo; cbn. rewrite Hi; cbn.
  rewrite Hpi; cbn. by rewrite Hxi.
Qed.

Lemma run_serialize_connection w c l : link_of w c = Some l → serialize_connection c w = (Ok (link_node l), w).
Proof.
  unfold link_of. intros Hl.
  apply bind_Some in Hl as (x & Hx & Hl). apply bind_Some in Hl as (o & Ho & Hl).
  apply bind_Some in Hl as (po & Hpo & Hl). apply bind_Some in Hl as (xo & Hxo & Hl).
  apply bind_Some in Hl as (i & Hi & Hl). apply bind_Some in Hl as (pi & Hpi & Hl).
  apply bind_Some in Hl as (xi & Hxi & [= <-]).
  unfold serialize_connection. run. rewrite Ho, Hi. runs. done.
Qed.

Lemma run_map_nodes {S A} (f : A → M S QDomNode) (g : A → QDomNode) l s :
  (∀ a, a ∈ l → f a s = (Ok (g a), s)) → map_nodes f l s = (Ok (g <$> l), s).
Proof.
  induction l as [|a l IH]; intros Hf; [done|]. cbn [map_nodes].
  erewrite run_bind by (apply Hf; set_solver). erewrite run_bind by (apply IH; set_solver). done.
Qed.

(** The connections of a well-formed pipeline all have links. *)
Lemma wf_links w : graph_wf w → ∃ ls, links w = ls ∧
  Forall2 (λ c l, link_of w c = Some l) (qmap_values (connections w)) ls.
Proof.
  intros Hwf. eexists. split; [reflexivity|]. unfold links.
  assert (Hall : Forall (λ c, is_Some (link_of w c)) (qmap_values (connections w))).
  { apply Forall_forall. intros c [k Hk]%elem_of_qmap_values.
    destruct (wf_connections _ Hwf _ _ Hk) as (x & o & i & Hat & _).
    destruct (attached_link _ _ _ _ _ Hat) as (? & ? & ? & ? & _ & _ & _ & _ & ->). eauto. }
  induction Hall as [|c cs [l Hl] _ IH]; [constructor|]. cbn. rewrite Hl. by constructor.
Qed.

Lemma run_serialize_connections w : graph_wf w →
  map_nodes serialize_connection (qmap_values (connections w)) w = (Ok (link_node <$> links w), w).
Proof.
  intros Hwf. destruct (wf_links w Hwf) as (ls & -> & Hls).
  induction Hls as [|c l cs ls Hl Hls IH]; [done|]. cbn [map_nodes].
  erewrite run_bind by (by apply run_serialize_connection). by rewrite (run_bind _ _ _ _ _ IH).
Qed.

(** The text of a property, when reading it does not throw. *)
Definition saved_text (t : PropType) (v : option Variant) : option string :=
  if bool_decide (t = TUserType) then
    match v ≫= v_toEnum with
    | Some en => match (enum_getSelectedItemName en).1 with Ok n => Some n | _ => None end
    | None => Some EmptyString
    end
  else Some (match v with Some x => v_toString x | None => EmptyString end).

Definition prop_nodes (ps : gmap string Variant) (l : list (string * PropType)) : list QDomNode :=
  (λ nt, QDomElement nt.1 [] [QDomText (default EmptyString (saved_text nt.2 (ps !! nt.1)))]) <$> l.

Definition element_node (x : Element) (cls : string) (ps : gmap string Variant) : QDomNode :=
  QDomElement "element" [("id", num (el_id x)); ("name", cls)]
    [QDomElement "properties" [] (prop_nodes ps (classProperties cls) ++ scene_properties ps)].

(** An element of a store: its class, its state and its properties. *)
Record stored (s : Store) (e : eptr) (x : Element) (cls : string) (ps : gmap string Variant) : Prop := {
  so_elem : w_elems (st_world s) !! e = Some x;
  so_class : st_class s !! e = Some cls;
  so_props : st_props s !! e = Some ps
}.

(** It can be saved: every enumeration has a selected item, and no property is
    called like the elements of the document that the loader searches for. *)
Definition storable (cls : string) (ps : gmap string Variant) : Prop :=
  Forall (λ nt, is_Some (saved_text nt.2 (ps !! nt.1)) ∧ nt.1 ≠ "element" ∧ nt.1 ≠ "connection")
    (classProperties cls).

Definition savable (s : Store) : Prop := ∀ e, e ∈ qmap_values (children (st_world s)) →
  ∃ x cls ps, stored s e x cls ps ∧ storable cls ps.

Definition node_of (s : Store) (e : eptr) : QDomNode :=
  match w_elems (st_world s) !! e, st_class s !! e, st_props s !! e with
  | Some x, Some cls, Some ps => element_node x cls ps
  | _, _, _ => QDomText EmptyString
  end.

Definition document (s : Store) : QDomNode :=
  QDomElement "pipeline" []
    [QDomElement "elements" [] (node_of s <$> qmap_values (children (st_world s)));
     QDomElement "connections" [] (link_node <$> links (st_world s))].

Lemma run_static_properties ps l s : Forall (λ nt, is_Some (saved_text nt.2 (ps !! nt.1))) l →
  static_properties ps l s = (Ok (prop_nodes ps l), s).
Proof.
  induction 1 as [|[name t] l [v Hv] _ IH]; [done|]. cbn [static_properties fst snd] in *.
  assert (Ht : property_text t (ps !! name) s = (Ok v, s)).
  { unfold property_text, saved_text in *. case_bool_decide; [|by injection Hv as <-].
    destruct (ps !! name ≫= v_toEnum) as [en|]; [|by injection Hv as <-].
    unfold selected_name. destruct (enum_getSelectedItemName en) as [[n| |] ?]; cbn in *; by simplify_eq. }
  rewrite (run_bind _ _ _ _ _ Ht), (run_bind _ _ _ _ _ IH). cbn. by rewrite Hv.
Qed.

Lemma stored_node s e x cls ps : stored s e x cls ps → node_of s e = element_node x cls ps.
Proof. intros [Hx Hc Hp]. unfold node_of. by rewrite Hx, Hc, Hp. Qed.

Lemma run_deref_meta {A} (field : Store → gmap positive A) e s x :
  field s !! e = Some x → deref_meta field e s = (Ok x, s).
Proof. intros Hx. unfold deref_meta. erewrite run_bind by reflexivity. by rewrite Hx. Qed.

Lemma run_serialize_element s e x cls ps : stored s e x cls ps → storable cls ps →
  serialize_element e s = (Ok (node_of s e), s).
Proof.
  intros Hs Hok. rewrite (stored_node _ _ _ _ _ Hs). destruct Hs as [Hx Hc Hp].
  unfold serialize_element, className, properties.
  rewrite (run_bind _ _ _ _ _ (run_deref_meta _ _ _ _ Hc)).
  rewrite (run_bind _ _ _ _ _ (run_query _ _ _ (run_get_elem _ _ _ Hx))).
  rewrite (run_bind _ _ _ _ _ (run_deref_meta _ _ _ _ Hp)).
  erewrite run_bind; [reflexivity|]. apply run_static_properties.
  eapply Forall_impl; [exact Hok|]. by intros nt [? _].
Qed.

Lemma run_serialize_doc s : graph_wf (st_world s) → savable s → serialize_doc s = (Ok (document s), s).
Proof.
  intros Hwf Hs. unfold serialize_doc. erewrite run_bind by (by apply run_query).
  erewrite run_bind.
  2:{ apply run_map_nodes. intros e He. destruct (Hs e He) as (x & cls & ps & Hst & Hok).
      by eapply run_serialize_element. }
  erewrite run_bind by (by apply run_query, run_serialize_connections). done.
Qed.

(** ** Finding the elements and the connections in it *)

Lemma by_tag_leaf tag name s : elementsByTagName tag (QDomElement name [] [QDomText s]) =
  if bool_decide (name = tag) then [QDomElement name [] [QDomText s]] else [].
Proof. rewrite by_tag_element. cbn. by rewrite app_nil_r. Qed.

Lemma by_tag_leaves tag l : Forall (λ n, ∃ name s, n = QDomElement name [] [QDomText s] ∧ name ≠ tag) l →
  l ≫= elementsByTagName tag = [].
Proof.
  induction 1 as [|n l (name & s & -> & Hne) _ IH]; [done|]. cbn [mbind list_bind].
  rewrite by_tag_leaf, bool_decide_false by done. exact IH.
Qed.

Lemma by_tag_props tag x cls ps : tag ≠ "properties" → tag ≠ "sceneCoordX" → tag ≠ "sceneCoordY" →
  Forall (λ nt, nt.1 ≠ tag) (classProperties cls) →
  elementsByTagName tag (element_node x cls ps) =
    if bool_decide ("element" = tag) then [element_node x cls ps] else [].
Proof.
  intros H1' H2' H3' Hn. unfold element_node. rewrite by_tag_element. cbn [mbind list_bind app].
  rewrite by_tag_element, (bool_decide_false ("properties" = tag)) by done. cbn [app]. rewrite by_tag_leaves, !app_nil_r; [done|].
  apply Forall_app. split.
  - unfold prop_nodes. apply Forall_fmap. eapply Forall_impl; [exact Hn|]. intros nt Hne. cbn. eauto.
  - unfold scene_properties. destruct (ps !! "sceneCoordX"), (ps !! "sceneCoordY"); repeat constructor; eauto.
Qed.

Lemma by_tag_link tag l : tag = "element" ∨ tag = "connection" → elementsByTagName tag (link_node l) =
  if bool_decide ("connection" = tag) then [link_node l] else [].
Proof. destruct l as [[[eo o] ei] i]. intros [-> | ->]; reflexivity. Qed.

Lemma list_bind_if {A B} (b : bool) (f : A → B) (g : A → list B) l :
  (∀ a, a ∈ l → g a = if b then [f a] else []) → l ≫= g = if b then f <$> l else [].
Proof.
  induction l as [|a l IH]; intros Hg; [by destruct b|]. cbn [mbind list_bind].
  rewrite (Hg a) by set_solver. rewrite IH by set_solver. by destruct b.
Qed.

Lemma list_bind_fmap {A B D} (f : A → B) (g : B → list D) l : (f <$> l) ≫= g = l ≫= (λ a, g (f a)).
Proof. induction l as [|a l IH]; cbn; [done|]. by rewrite IH. Qed.

Lemma document_tags s tag : savable s → tag = "element" ∨ tag = "connection" →
  elementsByTagName tag (document s) =
    if bool_decide (tag = "element") then node_of s <$> qmap_values (children (st_world s))
    else link_node <$> links (st_world s).
Proof.
  intros Hs Htag. unfold document. rewrite !by_tag_element. cbn [mbind list_bind].
  rewrite !by_tag_element, !list_bind_fmap.
  rewrite (list_bind_if (bool_decide ("element" = tag)) (node_of s)).
  2:{ intros e He. destruct (Hs e He) as (x & cls & ps & Hst & Hok). rewrite (stored_node _ _ _ _ _ Hst).
      apply by_tag_props; [by destruct Htag; subst..|].
      eapply Forall_impl; [exact Hok|]. intros nt (_ & ? & ?). by destruct Htag; subst. }
  rewrite (list_bind_if (bool_decide ("connection" = tag)) link_node) by (intros l _; by apply by_tag_link).
  destruct Htag as [-> | ->]; cbn; by rewrite !app_nil_r.
Qed.
End stored.

Section parsing.
Context `{HashOrder} `{QMetaType} `{QtCore} `{!Plugins}.

(** ** Properties *)

(** The value [parse_property] hands to the setter. *)
Definition parsed_value (cls : string) (ps : gmap string Variant) (n : QDomNode) : option Variant :=
  if bool_decide (propertyType cls (nodeName n) = TUserType) then
    v ← ps !! nodeName n ;
    Some (match v_toEnum v with Some en => v_enum (enum_setSelected (text n) en) | None => v end)
  else Some (convertData (propertyType cls (nodeName n)) (text n)).

Definition parse_into (cls : string) (ps : gmap string Variant) (n : QDomNode) : gmap string Variant :=
  match parsed_value cls ps n with
  | Some v => <[nodeName n := if bool_decide (propertyType cls (nodeName n) = TInvalid) then v
                              else writeProperty cls (nodeName n) v]> ps
  | None => ps
  end.

(** Every property of user type has a value. *)
Definition complete (cls : string) (ps : gmap string Variant) : Prop :=
  ∀ name, propertyType cls name = TUserType → is_Some (ps !! name).

Lemma parse_into_complete cls ps n : complete cls ps → complete cls (parse_into cls ps n).
Proof.
  intros Hc name Hn. unfold parse_into. destruct (parsed_value cls ps n); [|by apply Hc].
  destruct (decide (nodeName n = name)) as [->|]; [by rewrite lookup_insert_eq|].
  rewrite lookup_insert_ne by done. by apply Hc.
Qed.

Lemma run_parse_property e cls ps n t : st_class t !! e = Some cls → st_props t !! e = Some ps → complete cls ps →
  parse_property e n t = (Ok tt, set_props e (parse_into cls ps n) t).
Proof.
  intros Hc Hp Hcomp. unfold parse_property, className, properties.
  rewrite (run_bind _ _ _ _ _ (run_deref_meta _ _ _ _ Hc)), (run_bind _ _ _ _ _ (run_deref_meta _ _ _ _ Hp)).
  assert (Hset : ∀ v, setProperty e (nodeName n) v t = (Ok tt, set_props e (<[nodeName n :=
    if bool_decide (propertyType cls (nodeName n) = TInvalid) then v
    else writeProperty cls (nodeName n) v]> ps) t)).
  { intros v. unfold setProperty, className, properties.
    by rewrite (run_bind _ _ _ _ _ (run_deref_meta _ _ _ _ Hc)), (run_bind _ _ _ _ _ (run_deref_meta _ _ _ _ Hp)). }
  unfold parse_into, parsed_value.
  destruct (bool_decide (propertyType cls (nodeName n) = TUserType)) eqn:Hu.
  - apply bool_decide_eq_true in Hu. destruct (Hcomp _ Hu) as [v Hv]. rewrite Hv. erewrite run_bind by reflexivity. apply Hset.
  - erewrite run_bind by reflexivity. apply Hset.
Qed.

Lemma set_props_twice e ps ps' t : set_props e ps (set_props e ps' t) = set_props e ps t.
Proof. unfold set_props. cbn. by rewrite insert_insert_eq. Qed.

Lemma run_parse_properties e cls l : ∀ ps t, st_class t !! e = Some cls → st_props t !! e = Some ps → complete cls ps →
  for_each l (parse_property e) t = (Ok tt, set_props e (foldl (parse_into cls) ps l) t).
Proof.
  induction l as [|n l IH]; intros ps t Hc Hp Hcomp.
  - cbn. unfold mret, M_ret, set_props. rewrite insert_id by done. by destruct t.
  - cbn [for_each foldl]. rewrite (run_bind _ _ _ _ _ (run_parse_property e cls ps n t Hc Hp Hcomp)).
    rewrite (IH (parse_into cls ps n)); [by rewrite set_props_twice|done|cbn; apply lookup_insert_eq|].
    by apply parse_into_complete.
Qed.

(** A name that occurs once gets the value of its node. *)
Lemma foldl_parse_other cls l ps name : name ∉ (nodeName <$> l) → foldl (parse_into cls) ps l !! name = ps !! name.
Proof.
  revert ps. induction l as [|n l IH]; intros ps; cbn; [done|]. intros [Hne Hn]%not_elem_of_cons.
  rewrite IH by done. unfold parse_into. destruct (parsed_value cls ps n); [|done]. by rewrite lookup_insert_ne.
Qed.

Lemma parsed_value_ext cls ps ps' n : ps' !! nodeName n = ps !! nodeName n → parsed_value cls ps' n = parsed_value cls ps n.
Proof. intros Hn. unfold parsed_value. by rewrite Hn. Qed.

Lemma foldl_parse_lookup cls l ps n v : NoDup (nodeName <$> l) → n ∈ l → parsed_value cls ps n = Some v →
  foldl (parse_into cls) ps l !! nodeName n = Some
    (if bool_decide (propertyType cls (nodeName n) = TInvalid) then v else writeProperty cls (nodeName n) v).
Proof.
  revert ps. induction l as [|m l IH]; intros ps Hnd Hin Hv; [set_solver|]. cbn in Hnd. apply NoDup_cons in Hnd as [Hm Hnd].
  apply elem_of_cons in Hin as [->|Hin]; cbn [foldl].
  - rewrite foldl_parse_other by done. unfold parse_into. rewrite Hv. apply lookup_insert_eq.
  - apply IH; [done..|]. rewrite <-Hv. apply parsed_value_ext. unfold parse_into.
    destruct (parsed_value cls ps m); [|done]. rewrite lookup_insert_ne; [done|].
    intros Heq. apply Hm. rewrite Heq. by apply list_elem_of_fmap_2.
Qed.

(** The declarations of a class: distinct names with their types, none of them
    a name the editor uses. *)
Record class_ok (cls : string) : Prop := {
  co_names : NoDup (classProperties cls).*1;
  co_types : ∀ n t, (n, t) ∈ classProperties cls → propertyType cls n = t ∧ t ≠ TInvalid;
  co_scene : ("sceneCoordX" ∉ (classProperties cls).*1) ∧ ("sceneCoordY" ∉ (classProperties cls).*1)
}.

(** How the properties [ps] of an element come back in [ps'], from the values
    [ps0] its constructor gave it: converted from their text, or selected again
    by name. *)
Definition restored (cls : string) (ps ps0 ps' : gmap string Variant) : Prop :=
  ∀ n t v, (n, t) ∈ classProperties cls → ps !! n = Some v →
    (t ≠ TUserType → ps' !! n = Some (writeProperty cls n (convertData t (v_toString v)))) ∧
    (∀ en v0 en0 name, t = TUserType → v_toEnum v = Some en → ps0 !! n = Some v0 → v_toEnum v0 = Some en0 →
       (enum_getSelectedItemName en).1 = Ok name →
       ps' !! n = Some (writeProperty cls n (v_enum (enum_setSelected name en0)))).

Lemma prop_node_names ps l : nodeName <$> prop_nodes ps l = l.*1.
Proof. unfold prop_nodes. rewrite <-list_fmap_compose. by apply list_fmap_ext. Qed.

Lemma scene_names ps : nodeName <$> scene_properties ps = [] ∨
  nodeName <$> scene_properties ps = ["sceneCoordX"; "sceneCoordY"].
Proof. unfold scene_properties. destruct (ps !! "sceneCoordX"), (ps !! "sceneCoordY"); cbn; eauto. Qed.

Lemma node_names_nodup cls ps : class_ok cls →
  NoDup (nodeName <$> (prop_nodes ps (classProperties cls) ++ scene_properties ps)).
Proof.
  intros [Hn _ [HX HY]]. rewrite fmap_app, prop_node_names. apply NoDup_app. split; [done|].
  destruct (scene_names ps) as [-> | ->].
  - split; [by intros x _ ?%elem_of_nil|constructor].
  - split; [|by apply (bool_decide_unpack _)].
    intros x Hx [->|Hs]%elem_of_cons; [done|]. apply list_elem_of_singleton in Hs as ->. done.
Qed.

Lemma text_leaf name s : text (QDomElement name [] [QDomText s]) = s.
Proof. cbn. induction s as [|a s IH]; [done|]. exact (f_equal (String a) IH). Qed.

Lemma parse_restores cls ps ps0 : class_ok cls → storable cls ps →
  restored cls ps ps0 (foldl (parse_into cls) ps0 (prop_nodes ps (classProperties cls) ++ scene_properties ps)).
Proof.
  intros Hok Hst n t v Hin Hv. pose proof (node_names_nodup cls ps Hok) as Hnd.
  set (node := QDomElement n [] [QDomText (default EmptyString (saved_text t (ps !! n)))]).
  assert (Hnode : node ∈ prop_nodes ps (classProperties cls) ++ scene_properties ps).
  { apply elem_of_app. left. unfold prop_nodes. apply list_elem_of_fmap. by exists (n, t). }
  destruct (co_types _ Hok _ _ Hin) as [Ht Hinv]. split.
  - intros Hu. assert (Hp : parsed_value cls ps0 node = Some (convertData t (v_toString v))).
    { unfold parsed_value, node. rewrite text_leaf. cbn [nodeName]. unfold saved_text.
      by rewrite Ht, !bool_decide_false, Hv by done. }
    pose proof (foldl_parse_lookup cls _ ps0 node _ Hnd Hnode Hp) as Hl. cbn [node nodeName] in Hl.
    by rewrite Ht, bool_decide_false in Hl.
  - intros en v0 en0 name -> Hen Hv0 Hen0 Hname.
    assert (Hp : parsed_value cls ps0 node = Some (v_enum (enum_setSelected name en0))).
    { unfold parsed_value, node. rewrite text_leaf. cbn [nodeName]. unfold saved_text.
      rewrite Ht, !bool_decide_true, Hv0, Hv by done. cbn. by rewrite Hen, Hen0, Hname. }
    pose proof (foldl_parse_lookup cls _ ps0 node _ Hnd Hnode Hp) as Hl. cbn [node nodeName] in Hl.
    by rewrite Ht, bool_decide_false in Hl.
Qed.
End parsing.
