(* ===== verification/LoaderElements.v ===== *)
(** Parsing a saved document: the invariant of the loop of [parseElements], and
    that once the elements are back the same links are made in the same order. *)
From S2P Require Export LoaderProof.

Section elements.
Context `{HashOrder} `{QMetaType} `{QtCore} `{!Plugins}.

(** ** What the loader relies on *)

(** The constructor of a class makes one new element with pins of a fixed
    layout, and touches nothing else. *)
Definition constructs (c : Ctor) (ly : Layout) : Prop := ∀ w, graph_wf w → ∃ e x w',
  ct_construct c w = (Ok e, w') ∧
  w_elems w !! e = None ∧ w_elems w' = <[e := x]> (w_elems w) ∧
  w_ins w ⊆ w_ins w' ∧ w_outs w ⊆ w_outs w' ∧ w_conns w' = w_conns w ∧ w_pipe w' = w_pipe w ∧
  pins_placed w' ∧ el_id x = -1 ∧ layout w' x = ly ∧
  (∀ i p, w_ins w !! i = None → w_ins w' !! i = Some p → ip_connection p = None) ∧
  (∀ o p, w_outs w !! o = None → w_outs w' !! o = Some p → op_connections p = []).

(** The registry knows the class, and its constructor makes elements of this
    layout with a value for every property. *)
Definition constructible (f : Factory Ctor) (cls : string) (ly : Layout) (ps0 : gmap string Variant) : Prop :=
  ∃ tid c, registered_as f cls tid c ∧ ct_class c = cls ∧ ct_props c = ps0 ∧ complete cls ps0 ∧ constructs c ly.

(** [toInt] reads back what [number] wrote, for every [int]. *)
Definition reads_numbers : Prop := ∀ z, - 2 ^ 31 ≤ z < 2 ^ 31 → toInt (num z) = z.

(** An id the loader can use: an [int] that is not -1. *)
Definition usable (id : Z) : Prop := - 2 ^ 31 ≤ id < 2 ^ 31 ∧ id ≠ -1.

(** ** addElement with the id of the file *)

Lemma run_addElement_preset w e x : w_elems w !! e = Some x → el_id x ≠ -1 → children w !! el_id x = None →
  canAddElement e w = (Ok true, w) ∧ addElement e w = (Ok (el_id x), added w e x (el_id x)).
Proof.
  intros Hx Hid Hfree.
  assert (Hcan : canAddElement e w = (Ok true, w)).
  { unfold canAddElement. runs. rewrite (bool_decide_true (el_id x ≠ -1)) by done. by rewrite Hfree. }
  split; [done|]. unfold addElement. run. run. run.
  rewrite (bool_decide_false (el_id x = -1)) by done. run. run. unfold added.
  assert (Hset : el_set_id (el_id x) x = x) by (by destruct x). rewrite Hset.
  by destruct (el_kind x).
Qed.

(** ** Layouts survive what happens to other elements *)

Definition pins_allocated (w : World) (x : Element) : Prop :=
  (∀ k i, el_inputPins x !! k = Some i → is_Some (w_ins w !! i)) ∧
  (∀ k o, el_outputPins x !! k = Some o → is_Some (w_outs w !! o)).

Lemma layout_grows w w' x : pins_allocated w x → w_ins w ⊆ w_ins w' → w_outs w ⊆ w_outs w' → layout w' x = layout w x.
Proof.
  intros [Hi Ho] Hins Houts. unfold layout. f_equal; apply map_eq; intros k; rewrite !lookup_omap.
  - destruct (el_inputPins x !! k) as [i|] eqn:Hk; [|done]. cbn. destruct (Hi _ _ Hk) as [p Hp].
    by rewrite Hp, (lookup_weaken _ _ _ _ Hp Hins).
  - destruct (el_outputPins x !! k) as [o|] eqn:Hk; [|done]. cbn. destruct (Ho _ _ Hk) as [p Hp].
    by rewrite Hp, (lookup_weaken _ _ _ _ Hp Houts).
Qed.

Lemma wf_pins_allocated w e x : graph_wf w → w_elems w !! e = Some x → pins_allocated w x.
Proof.
  intros Hwf Hx. split; intros k p Hk.
  - destruct (wf_inputPins _ Hwf _ _ _ _ Hx Hk) as (pi & -> & _). eauto.
  - destruct (wf_outputPins _ Hwf _ _ _ _ Hx Hk) as (po & -> & _). eauto.
Qed.

(** ** Creating one element *)

(** The store after element [e'] has been created from the saved [x], with
    the final properties [ps']. *)
Record creates (t t' : Store) (e' : eptr) (x' : Element) (cls : string) (id : Z) (ly : Layout)
    (ps' : gmap string Variant) : Prop := {
  cr_wf : graph_wf (st_world t');
  cr_fresh : w_elems (st_world t) !! e' = None;
  cr_elems : w_elems (st_world t') = <[e' := x']> (w_elems (st_world t));
  cr_id : el_id x' = id;
  cr_ins : w_ins (st_world t) ⊆ w_ins (st_world t');
  cr_outs : w_outs (st_world t) ⊆ w_outs (st_world t');
  cr_layout : layout (st_world t') x' = ly;
  cr_children : children (st_world t') = <[id := e']> (children (st_world t));
  cr_connections : connections (st_world t') = connections (st_world t);
  cr_class : st_class t' = <[e' := cls]> (st_class t);
  cr_props : st_props t' = <[e' := ps']> (st_props t);
  cr_factory : st_factory t' = st_factory t;
  cr_files : st_files t' = st_files t
}.

Lemma constructed_extends w w' e x :
  w_elems w !! e = None → w_elems w' = <[e := x]> (w_elems w) →
  w_ins w ⊆ w_ins w' → w_outs w ⊆ w_outs w' → w_conns w' = w_conns w → w_pipe w' = w_pipe w →
  (∀ i p, w_ins w !! i = None → w_ins w' !! i = Some p → ip_connection p = None) →
  (∀ o p, w_outs w !! o = None → w_outs w' !! o = Some p → op_connections p = []) → extends w w'.
Proof.
  intros He Hel Hi Ho Hc Hp Hni Hno. split; [|done..]. intros e0 x0 Hx0. exists x0.
  rewrite Hel, lookup_insert_ne by congruence. split; [done|]. unfold el_extends. done.
Qed.

Lemma run_create t cls tid c x ps0 ps id : graph_wf (st_world t) → 
  registered_as (st_factory t) cls tid c → registry_wf ct_class (st_factory t) →
  constructs c x → ct_props c = ps0 → complete cls ps0 → ct_class c = cls →
  toInt (num id) = id → id ≠ -1 → children (st_world t) !! id = None →
  ∃ e' x' t', parseElement (QDomElement "element" [("id", num id); ("name", cls)] [QDomElement "properties" [] ps]) t = (Ok tt, t') ∧
    creates t t' e' x' cls id x (foldl (parse_into cls) ps0 ps).
Proof.
  intros Hwf [Hname Hctor] Hreg Hcons Hps0 Hcomp Hcls Hnum Hid Hfree.
  destruct (Hcons _ Hwf) as (e & x0 & w1 & Hrun & He & Hel & Hi & Ho & Hc & Hp & Hplaced & Hx0 & Hly & Hni & Hno).
  set (x1 := el_set_id id x0). set (w2 := set_elems (insert e x1) w1).
  assert (Hx1 : w_elems w2 !! e = Some x1) by (cbn; apply lookup_insert_eq).
  assert (Hch : children w2 !! el_id x1 = None) by (cbn; by rewrite Hp).
  destruct (run_addElement_preset w2 e x1 Hx1 Hid Hch) as [Hcan Hadd].
  assert (Hw3 : added w2 e x1 (el_id x1) = added w1 e x0 id).
  { unfold added, w2, x1, set_elems. cbn. rewrite insert_insert_eq. by destruct (el_kind x0), x0. }
  rewrite Hw3 in Hadd. set (w3 := added w1 e x0 id) in *.
  set (t1 := set_meta e cls ps0 (with_world w3 t)).
  exists e, (el_set_pipeline (el_set_id id x0)), (set_props e (foldl (parse_into cls) ps0 ps) t1).
  assert (Hext : extends (st_world t) w1) by (by eapply constructed_extends).
  assert (Hwf1 : graph_wf w1) by (by eapply extends_wf).
  split.
  - unfold parseElement. set (n := QDomElement "element" _ _).
    assert (Hn1 : attribute "id" n = num id) by done. assert (Hn2 : attribute "name" n = cls) by done.
    rewrite Hn1, Hn2, Hnum. pose proof (rw_range _ _ Hreg _ _ Hname) as Htid.
    erewrite run_bind by (apply run_on_factory; by eapply (run_elementId ct_class)).
    rewrite bool_decide_false by lia.
    erewrite run_bind by (apply run_on_factory; apply run_construct_id; [lia|exact Hctor]).
    unfold construct. rewrite Hps0, Hcls.
    erewrite run_bind by (erewrite run_bind by (by apply run_on_world); reflexivity).
    assert (Hset : el_setId e id w1 = (Ok tt, w2)).
    { unfold el_setId, w2, x1. erewrite run_bind by (apply run_get_elem; rewrite Hel; apply lookup_insert_eq).
      rewrite Hx0. run. apply run_upd_elem. rewrite Hel. apply lookup_insert_eq. }
    erewrite run_bind by (apply run_on_world; exact Hset).
    erewrite run_bind by (apply run_on_world; exact Hcan). cbn [negb].
    erewrite run_bind by (apply run_on_world; exact Hadd).
    unfold firstChildElement. cbn [mbind option_bind childNodes filter list_filter head].
    cbn. etransitivity; [apply (run_parse_properties e cls ps ps0)|]; [cbn; apply lookup_insert_eq..|done|].
    done.
  - split; cbn.
    + apply added_wf; [done|rewrite Hel; apply lookup_insert_eq| |by rewrite Hp].
      intros k Hk. rewrite Hp in Hk. destruct (wf_children _ Hwf _ _ Hk) as (y & Hy & _). congruence.
    + done.
    + by rewrite Hel, insert_insert_eq.
    + done.
    + done.
    + done.
    + exact Hly.
    + etransitivity; [exact (children_added w1 e x0 id)|by rewrite Hp].
    + etransitivity; [exact (connections_added w1 e x0 id)|by rewrite Hp].
    + done.
    + by rewrite insert_insert_eq.
    + done.
    + done.
Qed.

(** ** All elements *)

(** Element [e] of the saved store has come back as [e']. *)
Definition rebuilt (s t : Store) (e e' : eptr) : Prop := ∃ x cls ps x' ps0 ps',
  stored s e x cls ps ∧ stored t e' x' cls ps' ∧
  layout (st_world t) x' = layout (st_world s) x ∧
  constructible (st_factory t) cls (layout (st_world s) x) ps0 ∧ restored cls ps ps0 ps'.

(** The elements [seen] so far, and no others, are in the pipeline. *)
Record elements_inv (s t0 t : Store) (seen : list eptr) : Prop := {
  ei_wf : graph_wf (st_world t);
  ei_connections : connections (st_world t) = ∅;
  ei_factory : st_factory t = st_factory t0;
  ei_files : st_files t = st_files t0;
  ei_children : ∀ id, match children (st_world t) !! id with
    | Some e' => ∃ e, e ∈ seen ∧ children (st_world s) !! id = Some e ∧ rebuilt s t e e'
    | None => ∀ e, children (st_world s) !! id = Some e → e ∉ seen
    end
}.

(** What is needed of a saved pipeline so that it can be loaded. *)
Record loadable (s : Store) (f : Factory Ctor) : Prop := {
  lo_wf : graph_wf (st_world s);
  lo_registry : registry_wf ct_class f;
  lo_numbers : reads_numbers;
  lo_elements : ∀ e, e ∈ qmap_values (children (st_world s)) → ∃ x cls ps ps0,
    stored s e x cls ps ∧ storable cls ps ∧ class_ok cls ∧ usable (el_id x) ∧
    constructible f cls (layout (st_world s) x) ps0
}.

Lemma rebuilt_grows s t t' e' x' cls id ly ps' e e1 : graph_wf (st_world t) →
  creates t t' e' x' cls id ly ps' → rebuilt s t e e1 → rebuilt s t' e e1.
Proof.
  intros Hwf Hcr (x & c1 & ps & y & q0 & q & Hs & [Hy Hc Hp] & Hly & Hcon & Hres).
  assert (Hne : e1 ≠ e') by (intros ->; pose proof (cr_fresh _ _ _ _ _ _ _ _ Hcr); congruence).
  exists x, c1, ps, y, q0, q. split_and!; [done| | |by rewrite (cr_factory _ _ _ _ _ _ _ _ Hcr)|done].
  - split.
    + by rewrite (cr_elems _ _ _ _ _ _ _ _ Hcr), lookup_insert_ne.
    + by rewrite (cr_class _ _ _ _ _ _ _ _ Hcr), lookup_insert_ne.
    + by rewrite (cr_props _ _ _ _ _ _ _ _ Hcr), lookup_insert_ne.
  - rewrite <-Hly. apply layout_grows; [by eapply wf_pins_allocated|apply Hcr|apply Hcr].
Qed.

(** One round of the loop. *)
Lemma run_parseElement s t0 t seen e rest : loadable s (st_factory t0) → elements_inv s t0 t seen →
  qmap_values (children (st_world s)) = seen ++ e :: rest →
  ∃ t', parseElement (node_of s e) t = (Ok tt, t') ∧ elements_inv s t0 t' (seen ++ [e]).
Proof.
  intros Hlo [Hwf Hcon Hf Hfiles Hch] Hl.
  pose proof (NoDup_child_values _ (lo_wf _ _ Hlo)) as Hnd. rewrite Hl in Hnd.
  assert (Hin : e ∈ qmap_values (children (st_world s))) by (rewrite Hl; set_solver).
  destruct (lo_elements _ _ Hlo e Hin) as (x & cls & ps & ps0 & Hst & Hok & Hcls & [Hr Hid] & Hcb).
  pose proof Hcb as (tid & c & Hreg & Hc & Hp0 & Hcomp & Hcs).
  apply elem_of_qmap_values in Hin as [k Hk].
  destruct (wf_children _ (lo_wf _ _ Hlo) _ _ Hk) as (x2 & Hx2 & <- & _).
  assert (x2 = x) as -> by (pose proof (so_elem _ _ _ _ _ Hst); congruence).
  assert (Hseen : e ∉ seen) by (apply NoDup_app in Hnd as (_ & Hd & _); intros ?; eapply Hd; [done|left]).
  assert (Hfree : children (st_world t) !! el_id x = None).
  { specialize (Hch (el_id x)). destruct (children (st_world t) !! el_id x) as [e1|]; [|done].
    destruct Hch as (e0 & He0 & Hk0 & _). congruence. }
  rewrite (stored_node _ _ _ _ _ Hst). unfold element_node.
  destruct (run_create t cls tid c (layout (st_world s) x) ps0
    (prop_nodes ps (classProperties cls) ++ scene_properties ps) (el_id x)) as (e' & x' & t' & Hrun & Hcr);
    [done|by rewrite Hf|rewrite Hf; apply Hlo|done..|by apply (lo_numbers _ _ Hlo)|done|done|].
  exists t'. split; [exact Hrun|]. pose proof Hcr as [Hwf' _ Hel Hx' Hi Ho Hly Hch' Hcon' Hcl' Hpr' Hf' Hfi'].
  split; [done|by rewrite Hcon'|by rewrite Hf'|by rewrite Hfi'|].
  intros id. rewrite Hch'. destruct (decide (id = el_id x)) as [->|Hne].
  - rewrite lookup_insert_eq. exists e. split_and!; [set_solver|done|].
    exists x, cls, ps, x', ps0. eexists. split_and!; [done| |done|by rewrite Hf', Hf|by apply parse_restores].
    split; [by rewrite Hel, lookup_insert_eq|by rewrite Hcl', lookup_insert_eq|by rewrite Hpr', lookup_insert_eq].
  - rewrite lookup_insert_ne by done. specialize (Hch id).
    destruct (children (st_world t) !! id) as [e1|].
    + destruct Hch as (e0 & He0 & Hk0 & Hre). exists e0. split_and!; [set_solver|done|].
      exact (rebuilt_grows _ _ _ _ _ _ _ _ _ _ _ Hwf Hcr Hre).
    + intros e0 He0. rewrite not_elem_of_app. split; [by apply Hch|].
      intros ->%list_elem_of_singleton. destruct (wf_children _ (lo_wf _ _ Hlo) _ _ He0) as (x3 & Hx3 & Hid3 & _). congruence.
Qed.

Lemma run_parseElements_from s t0 rest : loadable s (st_factory t0) → ∀ seen t, elements_inv s t0 t seen →
  qmap_values (children (st_world s)) = seen ++ rest →
  ∃ t', parseElements (node_of s <$> rest) t = (Ok tt, t') ∧ elements_inv s t0 t' (seen ++ rest).
Proof.
  intros Hlo. induction rest as [|e rest IH]; intros seen t Hinv Hl.
  - exists t. rewrite app_nil_r. done.
  - destruct (run_parseElement s t0 t seen e rest Hlo Hinv Hl) as (t1 & Hrun & Hinv1).
    destruct (IH (seen ++ [e]) t1 Hinv1) as (t' & Hrun' & Hinv'); [by rewrite <-app_assoc|].
    exists t'. rewrite <-app_assoc in Hinv'. split; [|exact Hinv'].
    unfold parseElements in *. cbn [fmap list_fmap for_each]. by rewrite (run_bind _ _ _ _ _ Hrun).
Qed.

(** Starting from an empty pipeline, all elements come back. *)
Lemma run_parseElements s t : loadable s (st_factory t) → graph_wf (st_world t) →
  children (st_world t) = ∅ → connections (st_world t) = ∅ →
  ∃ t', parseElements (node_of s <$> qmap_values (children (st_world s))) t = (Ok tt, t') ∧
    elements_inv s t t' (qmap_values (children (st_world s))).
Proof.
  intros Hlo Hwf Hch Hcon. apply (run_parseElements_from s t _ Hlo []); [|done].
  split; try done. intros id. rewrite Hch, lookup_empty. intros e _. apply not_elem_of_nil.
Qed.
End elements.

(** ** What a new connection leaves alone *)
Section connecting.
Context `{HashOrder} `{QMetaType}.
Implicit Types w : World.

Lemma in_type_attached c po pi : in_type (ip_set_connection c (typed_pin po pi)) = in_type pi.
Proof.
  unfold in_type, typed_pin. destruct (ip_isDynamicallyTyped pi) eqn:Ed; unfold ip_isDynamicallyTyped in *; cbn; by rewrite Ed.
Qed.

Lemma layout_connected w id c o i po pi x : w_outs w !! o = Some po → w_ins w !! i = Some pi →
  layout (connected w id c o i po pi) x = layout w x.
Proof.
  intros Hpo Hpi. unfold layout. f_equal; apply map_eq; intros k; rewrite !lookup_omap.
  - destruct (el_inputPins x !! k) as [i'|]; [|done]. cbn.
    destruct (decide (i' = i)) as [->|]; [rewrite lookup_insert_eq, Hpi; cbn; by rewrite in_type_attached|].
    by rewrite lookup_insert_ne.
  - destruct (el_outputPins x !! k) as [o'|]; [|done]. cbn.
    destruct (decide (o' = o)) as [->|]; [by rewrite lookup_insert_eq, Hpo|]. by rewrite lookup_insert_ne.
Qed.

Lemma link_connected w id c o i po pi c' l : w_outs w !! o = Some po → w_ins w !! i = Some pi →
  w_conns w !! c = None → link_of w c' = Some l → link_of (connected w id c o i po pi) c' = Some l.
Proof.
  intros Hpo Hpi Hc. unfold link_of. cbn. intros Hl.
  apply bind_Some in Hl as (x & Hx & Hl). rewrite lookup_insert_ne by congruence. rewrite Hx. cbn.
  apply bind_Some in Hl as (o' & Ho & Hl). rewrite Ho. cbn.
  apply bind_Some in Hl as (po' & Hpo' & Hl). apply bind_Some in Hl as (xo & Hxo & Hl).
  apply bind_Some in Hl as (i' & Hi & Hl). apply bind_Some in Hl as (pi' & Hpi' & Hl).
  apply bind_Some in Hl as (xi & Hxi & [= <-]).
  assert (∃ po2, <[o:=op_set_connections (op_connections po ++ [c]) po]> (w_outs w) !! o' = Some po2 ∧
    op_owner po2 = op_owner po' ∧ op_id po2 = op_id po') as (po2 & -> & Hown & Hid).
  { destruct (decide (o' = o)) as [->|]; [rewrite lookup_insert_eq|rewrite lookup_insert_ne by done; eauto].
    simplify_eq. eexists. done. }
  cbn. rewrite Hown, Hid, Hxo. cbn. rewrite Hi. cbn.
  assert (∃ pi2, <[i:=ip_set_connection (Some c) (typed_pin po pi)]> (w_ins w) !! i' = Some pi2 ∧
    ip_owner pi2 = ip_owner pi' ∧ ip_id pi2 = ip_id pi') as (pi2 & -> & Hown2 & Hid2).
  { destruct (decide (i' = i)) as [->|]; [rewrite lookup_insert_eq|rewrite lookup_insert_ne by done; eauto].
    simplify_eq. eexists. split; [done|]. cbn. by rewrite typed_owner, typed_id. }
  cbn. by rewrite Hown2, Hid2, Hxi.
Qed.

Lemma link_connected_new w id c o i po pi xo xi : w_elems w !! op_owner po = Some xo → w_elems w !! ip_owner pi = Some xi →
  link_of (connected w id c o i po pi) c = Some (el_id xo, op_id po, el_id xi, ip_id pi).
Proof.
  intros Hxo Hxi. unfold link_of. cbn. rewrite !lookup_insert_eq. cbn. rewrite !lookup_insert_eq. cbn.
  rewrite Hxo. cbn. rewrite typed_owner, typed_id, Hxi. done.
Qed.

(** ** The sink of a link determines its connection *)

(** The two ends of a connection of a well-formed pipeline. *)
Record ends (w : World) (c : cptr) (o : optr) (i : iptr) (po : IOutputPin) (pi : IInputPin) (xo xi : Element) : Prop := {
  en_out : w_outs w !! o = Some po;
  en_in : w_ins w !! i = Some pi;
  en_source : w_elems w !! op_owner po = Some xo ∧ children w !! el_id xo = Some (op_owner po);
  en_sink : w_elems w !! ip_owner pi = Some xi ∧ children w !! el_id xi = Some (ip_owner pi);
  en_outPin : el_outputPins xo !! op_id po = Some o;
  en_inPin : el_inputPins xi !! ip_id pi = Some i;
  en_kind : el_kind xi = KProcessor;
  en_connection : ip_connection pi = Some c;
  en_distinct : op_owner po ≠ ip_owner pi;
  en_type : op_typeId po = ip_typeId pi;
  en_link : link_of w c = Some (el_id xo, op_id po, el_id xi, ip_id pi)
}.

Lemma wf_ends w k c : graph_wf w → connections w !! k = Some c → ∃ o i po pi xo xi, ends w c o i po pi xo xi.
Proof.
  intros Hwf Hk. destruct (wf_connections _ Hwf _ _ Hk) as (x & o & i & Hat & _).
  pose proof Hat as [_ _ _ (po & pi & Hpo & Hpi & _ & Hc & Hne & Ht & (xo & [Hxo Hco] & Hop) & (xi & [Hxi Hci] & Hkind & Hip))].
  exists o, i, po, pi, xo, xi. split; try done.
  destruct (attached_link _ _ _ _ _ Hat) as (po' & pi' & xo' & xi' & H1 & H2 & H3 & H4 & ->). by simplify_eq.
Qed.

Lemma sink_determines w k1 k2 c1 c2 eo1 o1 eo2 o2 ei i : graph_wf w →
  connections w !! k1 = Some c1 → connections w !! k2 = Some c2 →
  link_of w c1 = Some (eo1, o1, ei, i) → link_of w c2 = Some (eo2, o2, ei, i) → c1 = c2.
Proof.
  intros Hwf H1 H2 Hl1 Hl2.
  destruct (wf_ends w k1 c1 Hwf H1) as (? & ? & ? & pi1 & ? & xi1 & [_ Hi1 _ [Hx1 Hc1] _ Hp1 _ Hcon1 _ _ Hl1']).
  destruct (wf_ends w k2 c2 Hwf H2) as (? & ? & ? & pi2 & ? & xi2 & [_ Hi2 _ [Hx2 Hc2] _ Hp2 _ Hcon2 _ _ Hl2']).
  rewrite Hl1 in Hl1'. rewrite Hl2 in Hl2'. injection Hl1' as _ _ E1 E2. injection Hl2' as _ _ E3 E4.
  rewrite <-E1 in Hc1. rewrite <-E3 in Hc2. rewrite Hc1 in Hc2. injection Hc2 as Hown.
  rewrite <-Hown, Hx1 in Hx2. injection Hx2 as <-. rewrite <-E2 in Hp1. rewrite <-E4, Hp1 in Hp2. by simplify_eq.
Qed.

Lemma NoDup_connection_values w : graph_wf w → NoDup (qmap_values (connections w)).
Proof.
  intros Hwf. unfold qmap_values. apply NoDup_fmap_2_strong; [|eapply NoDup_fmap_1, NoDup_qmap_keys].
  intros [k1 c1] [k2 c2] H1%elem_of_qmap_items H2%elem_of_qmap_items E. cbn in E. subst. f_equal.
  destruct (wf_connections _ Hwf _ _ H1) as (x1 & ? & ? & [Hx1 _ _ _] & <-).
  destruct (wf_connections _ Hwf _ _ H2) as (x2 & ? & ? & [Hx2 _ _ _] & <-). congruence.
Qed.
End connecting.
