(* ===== verification/LoaderTheorems.v ===== *)
(** Loading what was saved: the pipeline comes back, the ways a load can fail,
    and what saving misses. *)
From S2P Require Export LoaderElements.

Section loading.
Context `{HashOrder} `{QMetaType} `{QtCore} `{!Plugins}.

(** ** One connection *)

Lemma link_fields eo o ei i : let n := Some (link_node (eo, o, ei, i)) in
  element_text (firstChildElement "processorId" (firstChildElement "sink" n)) = num ei ∧
  element_text (firstChildElement "pinId" (firstChildElement "sink" n)) = num i ∧
  element_text (firstChildElement "processorId" (firstChildElement "source" n)) = num eo ∧
  element_text (firstChildElement "pinId" (firstChildElement "source" n)) = num o.
Proof.
  assert (Hleaf : ∀ name v m, m = Some (QDomElement name [] [QDomText v]) → element_text m = v)
    by (intros name v m ->; apply text_leaf).
  split_and!; eapply Hleaf; reflexivity.
Qed.

(** Registered types and ids that are ints. *)
Definition connectable (s : Store) : Prop := ∀ k c o i po pi xo xi,
  connections (st_world s) !! k = Some c → ends (st_world s) c o i po pi xo xi →
  isRegistered (op_typeId po) = true ∧ - 2 ^ 31 ≤ op_id po < 2 ^ 31 ∧ - 2 ^ 31 ≤ ip_id pi < 2 ^ 31.

(** The connections [seen] so far have been made again, under the ids
    0, 1, 2, ... *)
Record connections_inv (s t1 t : Store) (seen : list cptr) : Prop := {
  cv_wf : graph_wf (st_world t);
  cv_elems : w_elems (st_world t) = w_elems (st_world t1);
  cv_children : children (st_world t) = children (st_world t1);
  cv_layout : ∀ x, layout (st_world t) x = layout (st_world t1) x;
  cv_meta : t = with_world (st_world t) t1;
  cv_made : ∃ cs, connections (st_world t) = map_seqZ 0 cs ∧
    Forall2 (λ c c', ∃ l, link_of (st_world s) c = Some l ∧ link_of (st_world t) c' = Some l) seen cs
}.

Lemma layout_out w x p ty : ly_outs (layout w x) !! p = Some ty →
  ∃ o po, el_outputPins x !! p = Some o ∧ w_outs w !! o = Some po ∧ op_typeId po = ty.
Proof.
  unfold layout. cbn. rewrite lookup_omap. intros (o & Ho & Ht)%bind_Some.
  apply fmap_Some in Ht as (po & Hpo & ->). eauto.
Qed.
Lemma layout_in w x p ty : ly_ins (layout w x) !! p = Some ty →
  ∃ i pi, el_inputPins x !! p = Some i ∧ w_ins w !! i = Some pi ∧ in_type pi = ty.
Proof.
  unfold layout. cbn. rewrite lookup_omap. intros (i & Hi & Ht)%bind_Some.
  apply fmap_Some in Ht as (pi & Hpi & ->). eauto.
Qed.
Lemma out_layout w x p o po : el_outputPins x !! p = Some o → w_outs w !! o = Some po →
  ly_outs (layout w x) !! p = Some (op_typeId po).
Proof. intros Ho Hpo. unfold layout. cbn. rewrite lookup_omap, Ho. cbn. by rewrite Hpo. Qed.
Lemma in_layout w x p i pi : el_inputPins x !! p = Some i → w_ins w !! i = Some pi →
  ly_ins (layout w x) !! p = Some (in_type pi).
Proof. intros Hi Hpi. unfold layout. cbn. rewrite lookup_omap, Hi. cbn. by rewrite Hpi. Qed.

(** The pins that stand for the ends of a saved connection. *)
Record target (w : World) (eo ei : eptr) (o : optr) (i : iptr) (po : IOutputPin) (pi : IInputPin)
    (xo xi : Element) (ido pido idi pidi : Z) : Prop := {
  tg_source : children w !! ido = Some eo ∧ w_elems w !! eo = Some xo ∧ el_id xo = ido;
  tg_sink : children w !! idi = Some ei ∧ w_elems w !! ei = Some xi ∧ el_id xi = idi ∧ el_kind xi = KProcessor;
  tg_out : el_outputPins xo !! pido = Some o ∧ w_outs w !! o = Some po ∧ op_id po = pido ∧ op_owner po = eo;
  tg_in : el_inputPins xi !! pidi = Some i ∧ w_ins w !! i = Some pi ∧ ip_id pi = pidi ∧ ip_owner pi = ei;
  tg_verdict : verdict po pi = Accept
}.

Lemma run_target t eo ei o i po pi xo xi ido pido idi pidi :
  target (st_world t) eo ei o i po pi xo xi ido pido idi pidi →
  toInt (num ido) = ido → toInt (num pido) = pido → toInt (num idi) = idi → toInt (num pidi) = pidi →
  parseConnection (link_node (ido, pido, idi, pidi)) t =
    (Ok tt, with_world (connected (st_world t) (scan_ids (qmap_items (connections (st_world t))).*1 0)
       (fresh_key (w_conns (st_world t))) o i po pi) t).
Proof.
  intros [[Hco [Hxo Hido]] [Hci [Hxi [Hidi Hkind]]] (Hop & Hpo & Hpido & Howno) (Hip & Hpi & Hpidi & Howni) Hv] H1' H2' H3' H4'.
  unfold parseConnection. destruct (link_fields ido pido idi pidi) as (-> & -> & -> & ->).
  rewrite H1', H2', H3', H4'.
  erewrite run_bind by (apply run_query; unfold getElement; erewrite run_bind by reflexivity; rewrite Hco; reflexivity).
  erewrite run_bind by (apply run_query; unfold getElement; erewrite run_bind by reflexivity; rewrite Hci; reflexivity).
  cbv beta iota. erewrite run_bind by (apply run_query; by apply run_get_elem). rewrite Hkind.
  erewrite run_bind by (apply run_query; unfold getOutputPin; run; rewrite Hop; reflexivity).
  erewrite run_bind by (apply run_query; unfold getInputPin; run; rewrite Hip; reflexivity).
  cbv beta iota.
  assert (Hpins : pins_at (st_world t) o i po pi) by (split; [done|done|rewrite Howno; eauto|rewrite Howni; eauto]).
  destruct (run_can_then_connect _ _ _ _ _ Hpins Hv) as (reason & _ & Hcan & Hcon).
  rewrite (run_bind _ _ _ _ _ (run_on_world _ _ _ _ Hcan)). cbn [negb].
  erewrite run_bind by (apply run_on_world; exact Hcon). done.
Qed.

(** An input pin that is connected already is the sink of a connection made
    before. *)
Lemma connected_pin_made s t seen cs i pi c' xi : graph_wf (st_world t) →
  connections (st_world t) = map_seqZ 0 cs →
  Forall2 (λ c c', ∃ l, link_of (st_world s) c = Some l ∧ link_of (st_world t) c' = Some l) seen cs →
  w_ins (st_world t) !! i = Some pi → w_elems (st_world t) !! ip_owner pi = Some xi → ip_connection pi = Some c' →
  ∃ c0 eo o, c0 ∈ seen ∧ link_of (st_world s) c0 = Some (eo, o, el_id xi, ip_id pi).
Proof.
  intros Hwf Hcs Hmade Hpi Hxi Hc'. destruct (wf_inputs _ Hwf _ _ _ Hpi Hc') as (y & Hy & Hcons & Hyk).
  destruct (wf_connections _ Hwf _ _ Hyk) as (z & oz & iz & Hat & _).
  destruct (attached_link _ _ _ _ _ Hat) as (po2 & pi2 & xo2 & xi2 & _ & Hpi2 & _ & Hxi2 & Hl2).
  pose proof Hat as [Hz _ Hzi _]. assert (iz = i) as -> by congruence.
  assert (pi2 = pi) as -> by congruence. assert (xi2 = xi) as -> by congruence.
  assert (Hin : c' ∈ cs).
  { rewrite Hcs in Hyk. apply lookup_map_seqZ_Some in Hyk as [_ Hy']. by eapply list_elem_of_lookup_2. }
  destruct (proj1 (list_elem_of_lookup _ _) Hin) as [j Hj].
  destruct (Forall2_lookup_r _ _ _ _ _ Hmade Hj) as (c0 & Hc0 & l & Hl0 & Hl').
  rewrite Hl2 in Hl'. injection Hl' as <-. exists c0, (el_id xo2), (op_id po2).
  split; [by eapply list_elem_of_lookup_2|done].
Qed.

(** A saved element and the one that came back. *)
Lemma rebuilt_child s t1 t e x : elements_inv s t1 t1 (qmap_values (children (st_world s))) →
  graph_wf (st_world t) → w_elems (st_world t) = w_elems (st_world t1) →
  children (st_world t) = children (st_world t1) → (∀ x, layout (st_world t) x = layout (st_world t1) x) →
  w_elems (st_world s) !! e = Some x → children (st_world s) !! el_id x = Some e →
  ∃ e' x', children (st_world t) !! el_id x = Some e' ∧ w_elems (st_world t) !! e' = Some x' ∧
    el_id x' = el_id x ∧ layout (st_world t) x' = layout (st_world s) x.
Proof.
  intros [_ _ _ _ Hch] Hwf Hel Hcch Hly Hx Hkx. specialize (Hch (el_id x)). rewrite Hcch.
  destruct (children (st_world t1) !! el_id x) as [e'|] eqn:He'.
  - destruct Hch as (e0 & _ & He0 & (x0 & cls & ps & x' & ps0 & ps' & [Hx0 _ _] & [Hx' _ _] & Hl & _)).
    assert (e0 = e) as -> by congruence. assert (x0 = x) as -> by congruence.
    exists e', x'. rewrite Hel, Hly. split_and!; [done|done| |done].
    rewrite <-Hcch in He'. destruct (wf_children _ Hwf _ _ He') as (y & Hy & Hid & _). rewrite Hel in Hy. congruence.
  - destruct (Hch e Hkx). apply elem_of_qmap_values. eauto.
Qed.

(** A saved connection that has not been made yet finds its pins. *)
Lemma find_target s t1 t seen c k o i po pi xo xi : loadable s (st_factory t1) → connectable s →
  elements_inv s t1 t1 (qmap_values (children (st_world s))) → connections_inv s t1 t seen →
  (∀ c', c' ∈ seen → ∃ k', connections (st_world s) !! k' = Some c') → c ∉ seen →
  connections (st_world s) !! k = Some c → ends (st_world s) c o i po pi xo xi →
  ∃ eo' ei' o' i' po' pi' xo' xi',
    target (st_world t) eo' ei' o' i' po' pi' xo' xi' (el_id xo) (op_id po) (el_id xi) (ip_id pi).
Proof.
  intros Hlo Hcb Hei [Hwf Hel Hcch Hly _ (cs & Hcs & Hmade)] Hold Hc Hk
    [Hpo Hpi [Hxo Hco] [Hxi Hci] Hop Hip Hkind Hcon Hne Hty Hlink].
  destruct (Hcb k c o i po pi xo xi Hk) as (Hreg & _); [by split|].
  destruct (rebuilt_child s t1 t _ _ Hei Hwf Hel Hcch Hly Hxo Hco) as (eo' & xo' & Hco' & Hxo' & Hido & Hlo').
  destruct (rebuilt_child s t1 t _ _ Hei Hwf Hel Hcch Hly Hxi Hci) as (ei' & xi' & Hci' & Hxi' & Hidi & Hli').
  assert (Hkind' : el_kind xi' = KProcessor) by (pose proof (f_equal ly_kind Hli') as E; cbn in E; congruence).
  pose proof (out_layout _ _ _ _ _ Hop Hpo) as Ho. rewrite <-Hlo' in Ho. apply layout_out in Ho as (o' & po' & Hop' & Hpo' & Hto).
  pose proof (in_layout _ _ _ _ _ Hip Hpi) as Hi. rewrite <-Hli' in Hi. apply layout_in in Hi as (i' & pi' & Hip' & Hpi' & Hti).
  destruct (wf_outputPins _ Hwf _ _ _ _ Hxo' Hop') as (po2 & Hpo2 & Hpido & Howno). simplify_eq.
  destruct (wf_inputPins _ Hwf _ _ _ _ Hxi' Hip') as (pi2 & Hpi2 & Hpidi & Howni). simplify_eq.
  exists (op_owner po'), (ip_owner pi'), o', i', po', pi', xo', xi'.
  split; try done.
  assert (Hfree : ip_connection pi' = None).
  { destruct (ip_connection pi') as [c'|] eqn:Hc'; [|done]. exfalso.
    destruct (connected_pin_made s t seen cs i' pi' c' xi' Hwf Hcs Hmade Hpi' Hxi' Hc') as (c0 & e0 & p0 & Hc0 & Hl0).
    rewrite Hidi, Hpidi in Hl0. destruct (Hold c0 Hc0) as [k0 Hk0].
    by pose proof (sink_determines _ _ _ _ _ _ _ _ _ _ _ (lo_wf _ _ Hlo) Hk0 Hk Hl0 Hlink) as ->. }
  unfold verdict. rewrite bool_decide_false.
  2:{ intros E. rewrite E in Hco'. rewrite E in Hxo'. rewrite Hxi' in Hxo'. injection Hxo' as <-.
      apply Hne. rewrite Hidi in Hido. rewrite <-Hido in Hco. congruence. }
  unfold ip_isConnected. rewrite Hfree, bool_decide_false by (by intros []).
  unfold in_type in Hti. destruct (ip_isDynamicallyTyped pi') eqn:Ed'.
  - by rewrite Hto, Hreg.
  - destruct (ip_isDynamicallyTyped pi); [done|]. injection Hti as Hti. rewrite bool_decide_true by congruence. done.
Qed.

(** ** All connections *)

Lemma connections_inv_nil s t : graph_wf (st_world t) → connections (st_world t) = ∅ → connections_inv s t t [].
Proof. intros Hwf Hcon. split; try done; [by rewrite with_world_same|]. exists []. split; [exact Hcon|constructor]. Qed.

(** One round of the loop of [parseConnections]. *)
Lemma run_parseConnection s t1 t seen c rest : loadable s (st_factory t1) → connectable s →
  elements_inv s t1 t1 (qmap_values (children (st_world s))) → connections_inv s t1 t seen →
  qmap_values (connections (st_world s)) = seen ++ c :: rest →
  ∃ l t', link_of (st_world s) c = Some l ∧ parseConnection (link_node l) t = (Ok tt, t') ∧
    connections_inv s t1 t' (seen ++ [c]).
Proof.
  intros Hlo Hcb Hei Hcv Hl. pose proof (NoDup_connection_values _ (lo_wf _ _ Hlo)) as Hnd. rewrite Hl in Hnd.
  assert (Hall : ∀ c', c' ∈ seen ++ c :: rest → ∃ k', connections (st_world s) !! k' = Some c').
  { intros c'. rewrite <-Hl. apply elem_of_qmap_values. }
  destruct (Hall c) as [k Hk]; [set_solver|].
  destruct (wf_ends _ _ _ (lo_wf _ _ Hlo) Hk) as (o & i & po & pi & xo & xi & Hen).
  assert (Hc : c ∉ seen) by (apply NoDup_app in Hnd as (_ & Hd & _); intros ?; eapply Hd; [done|left]).
  destruct (find_target s t1 t seen c k o i po pi xo xi Hlo Hcb Hei Hcv) as
    (eo' & ei' & o' & i' & po' & pi' & xo' & xi' & Htg); [intros; apply Hall; set_solver|done..|].
  pose proof Hcv as [Hwf Hel Hcch Hly Hmeta (cs & Hcs & Hmade)].
  pose proof Htg as [[Hco [Hxo Hido]] [Hci [Hxi [Hidi Hkind]]] (Hop & Hpo & Hpido & Howno) (Hip & Hpi & Hpidi & Howni) Hv].
  destruct (Hcb _ _ _ _ _ _ _ _ Hk Hen) as (_ & Hr1 & Hr2).
  assert (Hids : ∀ e x, w_elems (st_world s) !! e = Some x → children (st_world s) !! el_id x = Some e → toInt (num (el_id x)) = el_id x).
  { intros e x Hx Hkx. destruct (lo_elements _ _ Hlo e) as (x0 & cls & ps & ps0 & Hst & _ & _ & [Hr _] & _);
      [apply elem_of_qmap_values; eauto|]. apply (lo_numbers _ _ Hlo).
    pose proof (so_elem _ _ _ _ _ Hst). by simplify_eq. }
  eexists _, _. split; [exact (en_link _ _ _ _ _ _ _ _ Hen)|]. split.
  { apply (run_target t eo' ei' o' i' po' pi' xo' xi' _ _ _ _ Htg).
    - destruct (en_source _ _ _ _ _ _ _ _ Hen). by eapply Hids.
    - by apply (lo_numbers _ _ Hlo).
    - destruct (en_sink _ _ _ _ _ _ _ _ Hen). by eapply Hids.
    - by apply (lo_numbers _ _ Hlo). }
  assert (Hscan : scan_ids (qmap_items (connections (st_world t))).*1 0 = Z.of_nat (length cs)).
  { rewrite Hcs, qmap_keys_seq, scan_ids_seq by lia. lia. }
  pose proof (fresh_key_fresh (w_conns (st_world t))) as Hfresh. rewrite Hscan. split; cbn [st_world with_world].
  - apply connected_wf; try done.
    + exists xo'. rewrite Howno, Hpido. split; [by split; [|rewrite Hido]|done].
    + exists xi'. rewrite Howni, Hpidi. split; [by split; [|rewrite Hidi]|done].
    + rewrite Hcs. apply lookup_map_seqZ_None. lia.
  - done.
  - exact Hcch.
  - intros x. rewrite layout_connected by done. apply Hly.
  - rewrite Hmeta. done.
  - exists (cs ++ [fresh_key (w_conns (st_world t))]). split.
    + cbn. rewrite Hcs. rewrite map_seqZ_snoc. by rewrite Z.add_0_l.
    + apply Forall2_app.
      * eapply Forall2_impl; [exact Hmade|]. intros c1 c2 (l & Hl1 & Hl2). exists l. split; [done|]. by apply link_connected.
      * constructor; [|constructor]. eexists. split; [exact (en_link _ _ _ _ _ _ _ _ Hen)|].
        rewrite (link_connected_new _ _ _ _ _ _ _ xo' xi') by (by rewrite ?Howno, ?Howni).
        by rewrite Hido, Hpido, Hidi, Hpidi.
Qed.

Lemma run_parseConnections_from s t1 rest : loadable s (st_factory t1) → connectable s →
  elements_inv s t1 t1 (qmap_values (children (st_world s))) → ∀ seen t, connections_inv s t1 t seen →
  qmap_values (connections (st_world s)) = seen ++ rest →
  ∃ t', parseConnections (link_node <$> omap (link_of (st_world s)) rest) t = (Ok tt, t') ∧
    connections_inv s t1 t' (seen ++ rest).
Proof.
  intros Hlo Hcb Hei. induction rest as [|c rest IH]; intros seen t Hcv Hl.
  - exists t. by rewrite app_nil_r.
  - destruct (run_parseConnection s t1 t seen c rest Hlo Hcb Hei Hcv Hl) as (l & t2 & Hlink & Hrun & Hcv2).
    destruct (IH (seen ++ [c]) t2 Hcv2) as (t' & Hrun' & Hcv'); [by rewrite <-app_assoc|].
    exists t'. rewrite <-app_assoc in Hcv'. split; [|exact Hcv'].
    unfold parseConnections in *. cbn [omap list_omap]. rewrite Hlink. cbn [fmap list_fmap for_each].
    by rewrite (run_bind _ _ _ _ _ Hrun).
Qed.

(** ** The pipeline that was saved *)
Record restores (s t : Store) : Prop := {
  rs_wf : graph_wf (st_world t);
  rs_classes : class_map t = class_map s;
  rs_links : links (st_world t) = links (st_world s);
  rs_elements : ∀ id e e', children (st_world s) !! id = Some e → children (st_world t) !! id = Some e' →
    rebuilt s t e e'
}.

Lemma made_links s t cs : connections (st_world t) = map_seqZ 0 cs →
  Forall2 (λ c c', ∃ l, link_of (st_world s) c = Some l ∧ link_of (st_world t) c' = Some l)
    (qmap_values (connections (st_world s))) cs → links (st_world t) = links (st_world s).
Proof.
  intros Hcs Hmade. unfold links. rewrite Hcs, qmap_values_seq.
  clear Hcs. induction Hmade as [|c c' l1 l2 (l & Hl & Hl') _ IH]; [done|]. cbn. rewrite Hl, Hl'. by f_equal.
Qed.

Lemma rebuilt_all s t0 t : graph_wf (st_world s) → elements_inv s t0 t (qmap_values (children (st_world s))) →
  class_map t = class_map s ∧
  ∀ id e e', children (st_world s) !! id = Some e → children (st_world t) !! id = Some e' → rebuilt s t e e'.
Proof.
  intros Hwf [_ _ _ _ Hch]. split.
  - apply map_eq. intros id. unfold class_map. rewrite !lookup_omap. specialize (Hch id).
    destruct (children (st_world t) !! id) as [e'|].
    + destruct Hch as (e & _ & -> & (x & cls & ps & x' & ps0 & ps' & Hs & Ht & _)). cbn.
      by rewrite (so_class _ _ _ _ _ Hs), (so_class _ _ _ _ _ Ht).
    + destruct (children (st_world s) !! id) as [e|] eqn:He; [|done].
      destruct (Hch e eq_refl). apply elem_of_qmap_values. eauto.
  - intros id e e' He He'. specialize (Hch id). rewrite He' in Hch. destruct Hch as (e0 & _ & He0 & Hre). congruence.
Qed.

Lemma run_deserialize_doc s t : loadable s (st_factory t) → connectable s → savable s →
  graph_wf (st_world t) → children (st_world t) = ∅ → connections (st_world t) = ∅ →
  ∃ t', deserialize_doc (document s) t = (Ok tt, t') ∧ restores s t' ∧ st_factory t' = st_factory t.
Proof.
  intros Hlo Hcb Hs Hwf Hch Hcon. unfold deserialize_doc. rewrite !document_tags by auto.
  rewrite (bool_decide_true ("element" = "element")), (bool_decide_false ("connection" = "element")) by done.
  destruct (run_parseElements s t Hlo Hwf Hch Hcon) as (t1 & Hrun1 & Hei). rewrite (run_bind _ _ _ _ _ Hrun1).
  assert (Hei1 : elements_inv s t1 t1 (qmap_values (children (st_world s)))) by (by destruct Hei; split).
  assert (Hf1 : st_factory t1 = st_factory t) by apply Hei.
  destruct (run_parseConnections_from s t1 (qmap_values (connections (st_world s)))) with (seen := @nil cptr) (t := t1)
    as (t' & Hrun' & [Hwf' Hel Hcch Hly Hmeta (cs & Hcs & Hmade)]); try done; [by rewrite Hf1| |].
  { apply connections_inv_nil; apply Hei. }
  exists t'. split; [exact Hrun'|]. destruct (rebuilt_all s t1 t1 (lo_wf _ _ Hlo) Hei1) as [Hcls Hre].
  split; [split; [done| |by apply (made_links s t' cs)|]|].
  - rewrite <-Hcls. unfold class_map. rewrite Hcch. by rewrite Hmeta.
  - intros id e e' He. rewrite Hcch. intros He'.
    destruct (Hre id e e' He He') as (x & cls & ps & x' & ps0 & ps' & Hst & [Hx Hc Hp] & Hl & Hcn & Hres).
    exists x, cls, ps, x', ps0, ps'. rewrite Hmeta. split_and!; [done| | |exact Hcn|done].
    + split; cbn; [by rewrite Hel|done|done].
    + cbn. by rewrite Hly.
  - rewrite Hmeta. cbn. exact Hf1.
Qed.
End loading.
