(* ===== verification/Persistence.v ===== *)
(** Pipeline::save, saveAs and load as a user sees them: what was saved is
    loaded again, a load that fails half way leaves half a pipeline, and some
    edits are never saved. *)
From S2P Require Export LoaderTheorems GraphEq.

Section persistence.
Context `{HashOrder} `{QMetaType} `{QtCore} `{!Plugins}.

Lemma loadable_savable s f : loadable s f → savable s.
Proof.
  intros Hlo e He. destruct (lo_elements _ _ Hlo e He) as (x & cls & ps & ps0 & Hst & Hok & _). eauto.
Qed.

Lemma filename_wf w name : graph_wf w → graph_wf (set_pipe (pl_set_filename name) w).
Proof. intros Hwf. assert (Hs : same_graph (set_pipe (pl_set_filename name) w) w) by done. by rewrite Hs. Qed.

Lemma rebuilt_signal s t e e' sig : rebuilt s t e e' → rebuilt s (with_world (add_signal sig (st_world t)) t) e e'.
Proof.
  intros (x & cls & ps & x' & ps0 & ps' & Hs & [? ? ?] & Hrest). by exists x, cls, ps, x', ps0, ps'.
Qed.

(** ** save *)

(** The store after the document of [s] has been written. *)
Definition written (s : Store) (name : string) : Store :=
  set_file name (doc_toString (document s)) (set_file name EmptyString s).
Definition saved (s : Store) (name : string) : Store :=
  with_world (add_signal (pipelineSaved name) (set_pipe (pl_set_changed false) (st_world s))) (written s name).

Lemma run_save s : graph_wf (st_world s) → savable s → canOpen (pl_filename (w_pipe (st_world s))) = true →
  pl_changed (w_pipe (st_world s)) = true →
  save s = (Ok true, saved s (pl_filename (w_pipe (st_world s)))).
Proof.
  intros Hwf Hs Hopen Hch. unfold save, catch_runtime_error, try_catch.
  erewrite run_bind by (by apply run_query). rewrite Hch. cbn [when].
  set (name := pl_filename (w_pipe (st_world s))) in *.
  assert (Hser : serialize name s = (Ok tt, written s name)).
  { unfold serialize. rewrite Hopen. cbn [negb]. erewrite run_bind by reflexivity.
    assert (Hdoc : serialize_doc (set_file name EmptyString s) = (Ok (document s), set_file name EmptyString s)).
    { apply (run_serialize_doc (set_file name EmptyString s)); [done|].
      intros e He. destruct (Hs e He) as (x & cls & ps & [? ? ?] & Hok). by exists x, cls, ps. }
    by rewrite (run_bind _ _ _ _ _ Hdoc). }
  erewrite run_bind; [reflexivity|]. rewrite (run_bind _ _ _ _ _ Hser).
  by erewrite run_bind by (by apply run_on_world).
Qed.

Lemma run_save_unchanged s : pl_changed (w_pipe (st_world s)) = false → save s = (Ok true, s).
Proof.
  intros Hch. unfold save, catch_runtime_error, try_catch. erewrite run_bind by (by apply run_query).
  by rewrite Hch.
Qed.

(** ** load *)

(** The store when [deserialize] is called. *)
Definition named (name : string) (t : Store) : Store := with_world (set_pipe (pl_set_filename name) (st_world t)) t.

Lemma run_load_start name t r : children (st_world t) = ∅ →
  catch_runtime_error (deserialize name ;; on_world (emit (pipelineLoaded name)) ;; mret true)
      (λ x, on_world (handleMessage QtWarningMsg ("Failed to load pipeline " +:+ exn_text x)) ;; mret false)
    (named name t) = r → load name t = r.
Proof.
  intros Hch <-. unfold load. erewrite run_bind by (apply run_query; unfold isEmpty; erewrite run_bind by reflexivity;
    rewrite Hch, bool_decide_true by done; reflexivity). cbn [negb].
  by erewrite run_bind by (by apply run_on_world).
Qed.

Lemma run_deserialize name t contents r : st_files t !! name = Some contents → canOpen name = true →
  deserialize_doc (doc_setContent contents) t = r → deserialize name t = r.
Proof.
  intros Hf Hopen <-. unfold deserialize. erewrite run_bind by reflexivity. rewrite Hf, Hopen. done.
Qed.

(** What has to hold for a pipeline to be saved and read back: the program
    that loads it has its classes, and the document survives being text. *)
Record storable_as (s : Store) (t : Store) (name : string) : Prop := {
  sa_loadable : loadable s (st_factory t);
  sa_connectable : connectable s;
  sa_changed : pl_changed (w_pipe (st_world s)) = true;
  sa_filename : pl_filename (w_pipe (st_world s)) = name;
  sa_open : canOpen name = true;
  sa_text : doc_setContent (doc_toString (document s)) = document s
}.
(** The pipeline that it is loaded into. *)
Record vacant (t : Store) : Prop := {
  va_wf : graph_wf (st_world t);
  va_children : children (st_world t) = ∅;
  va_connections : connections (st_world t) = ∅
}.

Lemma run_save_storable s t name : storable_as s t name → save s = (Ok true, saved s name).
Proof.
  intros [Hlo _ Hch <- Hopen _]. apply run_save; [apply Hlo|by eapply loadable_savable|done..].
Qed.

Lemma run_load_saved s t name : storable_as s t name → vacant t →
  st_files t !! name = st_files (saved s name) !! name →
  ∃ t', load name t = (Ok true, t') ∧ restores s t' ∧ st_factory t' = st_factory t.
Proof.
  intros [Hlo Hcb Hch Hname Hopen Hdoc] [Hwf Hempty Hcon].
  cbn [saved with_world st_files written set_file]. rewrite lookup_insert_eq. intros Hfile.
  destruct (run_deserialize_doc s (named name t)) as (t' & Hrun & Hres & Hf);
    [exact Hlo|done|by eapply loadable_savable|by apply filename_wf|exact Hempty|exact Hcon|].
  assert (Hdes : deserialize name (named name t) = (Ok tt, t'))
    by (by eapply run_deserialize; [exact Hfile|exact Hopen|rewrite Hdoc]).
  eexists. split; [apply run_load_start; [done|]|].
  { unfold catch_runtime_error, try_catch. rewrite (run_bind _ _ _ _ _ Hdes).
    erewrite run_bind by (by apply run_on_world). reflexivity. }
  destruct Hres as [Hwf' Hcls Hlinks Hre]. split; [|exact Hf]. split; [by apply graph_wf_signal|exact Hcls|exact Hlinks|].
  intros id e e' He He'. by apply rebuilt_signal, (Hre id).
Qed.

(** An element that has a class comes back under its id. *)
Lemma restored_child s t id e cls : restores s t → children (st_world s) !! id = Some e → st_class s !! e = Some cls →
  ∃ e', children (st_world t) !! id = Some e' ∧ rebuilt s t e e'.
Proof.
  intros [_ Hmap _ Hre] He Hcls. pose proof (f_equal (lookup id) Hmap) as Hid. unfold class_map in Hid.
  rewrite !lookup_omap, He in Hid. cbn in Hid. rewrite Hcls in Hid.
  apply bind_Some in Hid as (e' & He' & _). eauto.
Qed.


(** C19: when a saved pipeline has been loaded, a property whose text converts
    back to its value, and whose setter accepts that value, has it again; an
    enumeration, whose items the constructor of the class sets up in the same
    way, has the same item selected again. *)
Theorem property_survives s s' t name id e cls ps n ty v : storable_as s t name → vacant t →
  save s = (Ok true, s') → st_files t !! name = st_files s' !! name →
  children (st_world s) !! id = Some e → st_class s !! e = Some cls → st_props s !! e = Some ps →
  (n, ty) ∈ classProperties cls → ps !! n = Some v →
  ∃ t' e' ps', load name t = (Ok true, t') ∧ children (st_world t') !! id = Some e' ∧
    st_class t' !! e' = Some cls ∧ st_props t' !! e' = Some ps' ∧
    (ty ≠ TUserType → writeProperty cls n (convertData ty (v_toString v)) = v → ps' !! n = Some v) ∧
    (∀ en items, ty = TUserType → v_toEnum v = Some en →
       reflects en items → NoDup (ep_name <$> items) → 0 ≤ en_selectedIndex en < Z.of_nat (length items) →
       (∀ tid c, registered_as (st_factory t) cls tid c →
          ∃ v0 en0, ct_props c !! n = Some v0 ∧ v_toEnum v0 = Some en0 ∧ reflects en0 items) →
       ∃ en', ps' !! n = Some (writeProperty cls n (v_enum en')) ∧ reflects en' items ∧
         en_selectedIndex en' = en_selectedIndex en).
Proof.
  intros Hs Ht Hsave Hfile He Hcls Hps Hin Hv. rewrite (run_save_storable _ _ _ Hs) in Hsave. injection Hsave as <-.
  destruct (run_load_saved s t name Hs Ht Hfile) as (t' & Hrun & Hres & Hf).
  destruct (restored_child _ _ _ _ _ Hres He Hcls) as (e' & He' & Hre).
  destruct Hre as (x & cls1 & ps1 & x' & ps0 & ps' & [Hx Hc Hp] & [Hx' Hc' Hp'] & _ & (tid & c & Hreg & _ & Hps0 & _) & Hst).
  assert (cls1 = cls) as -> by congruence. assert (ps1 = ps) as -> by congruence. rewrite Hf in Hreg.
  destruct (Hst n ty v Hin Hv) as [Hplain Henum]. exists t', e', ps'. split_and!; [done..| |].
  - intros Hu Hback. by rewrite (Hplain Hu), Hback.
  - intros en items Hu Hen Hl Hnd Hr H0'. destruct (H0' _ _ Hreg) as (v0 & en0 & Hv0 & Hen0 & Hl0).
    destruct (lookup_lt_is_Some_2 items (Z.to_nat (en_selectedIndex en))) as [p Hit]; [lia|].
    assert (Hname : (enum_getSelectedItemName en).1 = Ok (ep_name p))
      by (by rewrite (run_getSelectedItemName en items p) by (done || lia)).
    rewrite <-Hps0 in Henum.
    exists (enum_setSelected (ep_name p) en0). rewrite (Henum en v0 en0 (ep_name p)) by done.
    rewrite (setSelected_name en0 items (en_selectedIndex en) p) by (done || lia).
    split_and!; [done|constructor; apply (rf_items _ _ Hl0)|done].
Qed.

(** ** Failures and omissions *)

Lemma for_each_app {S A} (l1 l2 : list A) (body : A → M S unit) s s1 : for_each l1 body s = (Ok tt, s1) →
  for_each (l1 ++ l2) body s = for_each l2 body s1.
Proof.
  revert s. induction l1 as [|a l1 IH]; intros s; cbn; [by intros [= <-]|].
  unfold mbind, M_bind. destruct (body a s) as [[[]| |] s2]; [apply IH|done..].
Qed.

(** A document with an element of an unknown class is rejected - [load]
    returns [false] and reports the class - but the elements before it stay in
    the pipeline, which is no longer empty. *)
Theorem load_unknown_class name t contents ns n rest t1 : children (st_world t) = ∅ →
  st_files t !! name = Some contents → canOpen name = true →
  elementsByTagName "element" (doc_setContent contents) = ns ++ n :: rest →
  parseElements ns (named name t) = (Ok tt, t1) →
  f_nameIdMapping (st_factory t1) !! attribute "name" n = None →
  ∃ t', load name t = (Ok false, t') ∧ children (st_world t') = children (st_world t1) ∧
    w_signals (st_world t') = w_signals (st_world t1) ++
      [pipelineMessage QtWarningMsg ("Failed to load pipeline XML document contains unknown processor type " +:+ attribute "name" n)].
Proof.
  intros Hempty Hfile Hopen Hns Hrun Hunknown.
  assert (Hfail : parseElement n t1 =
    (Throw (StdRuntimeError ("XML document contains unknown processor type " +:+ attribute "name" n)), t1)).
  { unfold parseElement. erewrite run_bind; [|apply run_on_factory; unfold elementId;
      erewrite run_bind by reflexivity; rewrite Hunknown; reflexivity]. done. }
  assert (Hdes : deserialize name (named name t) =
    (Throw (StdRuntimeError ("XML document contains unknown processor type " +:+ attribute "name" n)), t1)).
  { eapply run_deserialize; [exact Hfile|exact Hopen|]. unfold deserialize_doc. rewrite Hns. apply run_bind_throw.
    unfold parseElements in *. rewrite (for_each_app _ _ _ _ _ Hrun). cbn [for_each]. by apply run_bind_throw. }
  eexists _. split; [apply run_load_start; [done|]|].
  { unfold catch_runtime_error, try_catch. rewrite (run_bind_throw _ _ _ _ _ Hdes). cbn [is_runtime_error].
    erewrite run_bind by (by apply run_on_world). reflexivity. }
  split; [done|]. reflexivity.
Qed.

(** Making a connection does not mark the pipeline as changed: saving after
    it reports success and writes nothing, so that the file lacks the new
    connection; saving under a new name then creates no file either. *)
Theorem connection_not_saved s o i po pi name : pins_at (st_world s) o i po pi → verdict po pi = Accept →
  pl_changed (w_pipe (st_world s)) = false →
  ∃ id w, connectPins o i (st_world s) = (Ok id, w) ∧ is_Some (connections w !! id) ∧
    save (with_world w s) = (Ok true, with_world w s) ∧
    (∃ s', saveAs name (with_world w s) = (Ok true, s') ∧ st_files s' = st_files s).
Proof.
  intros Hpins Hv Hch. pose proof (run_connectPins_scan _ _ _ _ _ Hpins Hv) as Hrun.
  eexists _, _. split; [exact Hrun|]. split; [cbn; rewrite lookup_insert_eq; eauto|]. split.
  - by apply run_save_unchanged.
  - unfold saveAs. erewrite run_bind by (by apply run_query). case_bool_decide; cbn [negb when].
    + eexists. split; [erewrite run_bind by reflexivity; by apply run_save_unchanged|done].
    + eexists. split; [erewrite run_bind by (by apply run_on_world); by apply run_save_unchanged|done].
Qed.
End persistence.

(** ** Any document at all *)
Section any_document.
Context `{HashOrder} `{QMetaType} `{QtCore} `{!Plugins}.
Implicit Types w : World.
Abbreviation L := (M Store).

(** Every class of the registry has a constructor that makes one element with
    a value for every property. *)
Definition classes_ok (f : Factory Ctor) : Prop := registry_wf ct_class f ∧
  ∀ tid oc, f_constructors f !! tid = Some oc →
    ∃ c ly, oc = Some c ∧ constructs c ly ∧ complete (ct_class c) (ct_props c).

(** What stays true while a document is parsed, and how parsing ends: in order,
    or with an exception that [load] catches. *)
Record parsing (f : Factory Ctor) (t : Store) : Prop := {
  ps_wf : graph_wf (st_world t);
  ps_factory : st_factory t = f
}.
Definition parses (f : Factory Ctor) (m : L unit) (t : Store) : Prop := ∃ r t',
  m t = (r, t') ∧ parsing f t' ∧ (r = Ok tt ∨ ∃ msg, r = Throw (StdRuntimeError msg)).

Lemma parses_throw f msg t : parsing f t → parses f (throw (StdRuntimeError msg)) t.
Proof. intros Ht. eexists _, t. split_and!; [reflexivity|done|eauto]. Qed.
Lemma parses_ret f t : parsing f t → parses f (mret tt) t.
Proof. intros Ht. eexists _, t. split_and!; [reflexivity|done|eauto]. Qed.
Lemma parses_step {A} f (m : L A) a (k : A → L unit) t t' : m t = (Ok a, t') → parses f (k a) t' → parses f (m ≫= k) t.
Proof. intros Hm Hk. unfold parses. by rewrite (run_bind _ _ _ _ _ Hm). Qed.
Lemma parses_bind f (m k : L unit) t : parses f m t → (∀ t', parsing f t' → parses f k t') → parses f (m ;; k) t.
Proof.
  intros (r & t' & Hm & Ht & [->|[msg ->]]) Hk.
  - eapply parses_step; [exact Hm|]. by apply Hk.
  - eexists _, t'. rewrite (run_bind_throw _ _ _ _ _ Hm). eauto.
Qed.
Lemma parses_for_each {A} f (l : list A) body t : (∀ a t', parsing f t' → parses f (body a) t') → parsing f t → parses f (for_each l body) t.
Proof. intros Hb. revert t. induction l as [|a l IH]; intros t Ht; [by apply parses_ret|]. apply parses_bind; [by apply Hb|exact IH]. Qed.

(** Whether the new element may be added; when it may, adding it succeeds. *)
Lemma run_ask_then_add w e x : w_elems w !! e = Some x → ∃ b, canAddElement e w = (Ok b, w) ∧
  (b = true → ∃ id, children w !! id = None ∧ addElement e w = (Ok id, added w e x id)).
Proof.
  intros Hx. destruct (decide (el_id x = -1)) as [Hid|Hid].
  - exists true. split; [unfold canAddElement; runs; by rewrite Hid|]. intros _.
    destruct (run_addElement w e x Hx Hid) as (id & Hfree & _ & Hrun). eauto.
  - destruct (children w !! el_id x) as [e'|] eqn:Hk.
    + exists false. split; [|done]. unfold canAddElement. runs. rewrite bool_decide_true by done. by rewrite Hk.
    + exists true. destruct (run_addElement_preset w e x Hx Hid Hk) as [Hcan Hadd]. eauto.
Qed.

Lemma parses_element f n t : classes_ok f → parsing f t → parses f (parseElement n) t.
Proof.
  intros [Hreg Hctors] [Hwf Hf]. unfold parseElement.
  destruct (f_nameIdMapping f !! attribute "name" n) as [tid|] eqn:Hname.
  2:{ eapply parses_step; [apply run_on_factory; unfold elementId; erewrite run_bind by reflexivity; rewrite Hf, Hname; reflexivity|].
      by apply parses_throw. }
  pose proof (rw_range _ _ Hreg _ _ Hname) as Hr.
  destruct (lookup_lt_is_Some_2 (f_constructors f) (Z.to_nat tid)) as [oc Hoc]; [lia|].
  destruct (Hctors _ _ Hoc) as (c & ly & -> & Hcons & Hcomp).
  eapply parses_step; [apply run_on_factory; rewrite Hf; by eapply (run_elementId ct_class)|].
  rewrite bool_decide_false by lia.
  eapply parses_step; [apply run_on_factory; rewrite Hf; apply run_construct_id; [lia|exact Hoc]|]. cbv iota.
  destruct (Hcons _ Hwf) as (e & x0 & w1 & Hrun & He & Hel & Hi & Ho & Hc & Hp & Hplaced & Hx0 & _ & Hni & Hno).
  set (x1 := el_set_id (toInt (attribute "id" n)) x0). set (w2 := set_elems (insert e x1) w1).
  set (t1 := set_meta e (ct_class c) (ct_props c) (with_world w1 t)).
  eapply parses_step.
  { unfold construct. erewrite run_bind by (apply run_on_world; exact Hrun). reflexivity. }
  fold t1. assert (Hx1 : w_elems w2 !! e = Some x1) by apply lookup_insert_eq.
  assert (Hset : el_setId e (toInt (attribute "id" n)) w1 = (Ok tt, w2)).
  { unfold el_setId, w2, x1. erewrite run_bind by (apply run_get_elem; rewrite Hel; apply lookup_insert_eq).
    rewrite Hx0. run. apply run_upd_elem. rewrite Hel. apply lookup_insert_eq. }
  eapply parses_step; [apply run_on_world; exact Hset|].
  assert (Hwf2 : graph_wf w2).
  { apply (extends_wf (st_world t)); [done| |].
    - by apply (constructed_extends _ _ e x1); [|unfold w2; cbn; rewrite Hel, insert_insert_eq|..].
    - destruct Hplaced as [Hpi Hpo]. split; intros y xy k p; cbn; (intros [[<- <-]|[Hne Hy]]%lookup_insert_Some Hk;
        [eapply Hpi || eapply Hpo; [rewrite Hel; apply lookup_insert_eq|done]|by eapply Hpi || by eapply Hpo]). }
  destruct (run_ask_then_add w2 e x1 Hx1) as (b & Hcan & Hadd).
  eapply parses_step; [apply run_on_world; exact Hcan|].
  destruct b; cbn [negb]; [|by apply parses_throw].
  destruct (Hadd eq_refl) as (id & Hfree & Hrun2).
  eapply parses_step; [apply run_on_world; exact Hrun2|].
  assert (Hwf3 : graph_wf (added w2 e x1 id)).
  { apply added_wf; [done|done| |done]. intros k Hk. cbn in Hk. rewrite Hp in Hk.
    destruct (wf_children _ Hwf _ _ Hk) as (y & Hy & _). congruence. }
  destruct (firstChildElement "properties" (Some n)) as [props|]; [|by apply parses_ret].
  eexists _, _. split; [eapply (run_parse_properties e (ct_class c) _ (ct_props c)); [cbn; apply lookup_insert_eq..|done]|].
  split; [by split|by left].
Qed.

Lemma parses_connection f n t : parsing f t → parses f (parseConnection n) t.
Proof.
  intros Ht. pose proof Ht as [Hwf Hf]. unfold parseConnection. cbv zeta.
  eapply parses_step; [apply run_query; reflexivity|]. eapply parses_step; [apply run_query; reflexivity|].
  cbn [fst].
  set (w := st_world t) in *.
  destruct (pl_children (w_pipe w) !! _) as [eo|] eqn:Heo; [|by apply parses_throw].
  destruct (pl_children (w_pipe w) !! _) as [ei|] eqn:Hei in |- *; [|by apply parses_throw].
  destruct (wf_children _ Hwf _ _ Heo) as (xo & Hxo & Hido & _).
  destruct (wf_children _ Hwf _ _ Hei) as (xi & Hxi & Hidi & _).
  eapply parses_step; [apply run_query; by apply run_get_elem|].
  destruct (el_kind xi) eqn:Hkind; [by apply parses_throw|].
  eapply parses_step; [apply run_query; unfold getOutputPin; by run|].
  eapply parses_step; [apply run_query; unfold getInputPin; by run|].
  destruct (el_outputPins xo !! _) as [o|] eqn:Ho; [|by apply parses_throw].
  destruct (el_inputPins xi !! _) as [i|] eqn:Hi; [|by apply parses_throw].
  destruct (wf_outputPins _ Hwf _ _ _ _ Hxo Ho) as (po & Hpo & Hpido & Howno).
  destruct (wf_inputPins _ Hwf _ _ _ _ Hxi Hi) as (pi & Hpi & Hpidi & Howni).
  assert (Hpins : pins_at w o i po pi) by (split; [done|done|rewrite Howno; eauto|rewrite Howni; eauto]).
  destruct (decide (verdict po pi = Accept)) as [Hv|Hv].
  - destruct (run_can_then_connect _ _ _ _ _ Hpins Hv) as (reason & Hfree & Hcan & Hcon).
    eapply parses_step; [apply run_on_world; exact Hcan|]. cbn [negb].
    eapply parses_step; [apply run_on_world; exact Hcon|]. apply parses_ret. split; [|done]. cbn.
    apply connected_wf; try done.
    + exists xo. rewrite Howno, Hpido. split; [|done]. split; [done|]. by rewrite Hido.
    + exists xi. rewrite Howni, Hpidi. split_and!; [|done|done]. split; [done|]. by rewrite Hidi.
    + apply fresh_key_fresh.
  - destruct (run_canConnectPins _ _ _ _ _ Hpins) as [reason Hcan]. rewrite bool_decide_false in Hcan by done.
    eapply parses_step; [apply run_query; exact Hcan|]. by apply parses_throw.
Qed.

(** C10: loading a file into an empty pipeline never fails other than by returning
    [false], whatever the file contains - unknown classes, ids that are used
    twice, connections between pins that do not exist, no document at all -
    and leaves a well-formed pipeline; a pipeline that could not be loaded
    tells why. *)
Theorem load_any_document name t : classes_ok (st_factory t) → vacant t →
  ∃ ok t', load name t = (Ok ok, t') ∧ graph_wf (st_world t') ∧ st_factory t' = st_factory t ∧
    ((ok : bool) = false → ∃ msg, last (w_signals (st_world t')) =
       Some (pipelineMessage QtWarningMsg ("Failed to load pipeline " +:+ msg))).
Proof.
  intros Hf [Hwf Hch Hco]. set (f := st_factory t) in *.
  assert (Hp : parses f (deserialize name) (named name t)).
  { assert (Hn : parsing f (named name t)) by (split; [by apply filename_wf|done]).
    unfold deserialize. eapply parses_step; [reflexivity|].
    destruct (st_files (named name t) !! name) as [contents|]; [|by apply parses_throw].
    destruct (canOpen name); cbn [negb]; [|by apply parses_throw].
    unfold deserialize_doc. apply parses_bind; [apply parses_for_each; [|done]; intros; by apply parses_element|].
    intros t' Ht'. apply parses_for_each; [intros; by apply parses_connection|done]. }
  destruct Hp as (r & t1 & Hrun & [Hwf1 Hf1] & [->|[msg ->]]).
  - exists true. eexists. split; [apply run_load_start; [done|]|].
    { unfold catch_runtime_error, try_catch. rewrite (run_bind _ _ _ _ _ Hrun).
      erewrite run_bind by (by apply run_on_world). reflexivity. }
    split_and!; [by apply graph_wf_signal|done|done].
  - exists false. eexists. split; [apply run_load_start; [done|]|].
    { unfold catch_runtime_error, try_catch. rewrite (run_bind_throw _ _ _ _ _ Hrun). cbn [is_runtime_error].
      erewrite run_bind by (by apply run_on_world). reflexivity. }
    split_and!; [by apply graph_wf_signal|done|]. intros _. exists msg. cbn. by rewrite last_snoc.
Qed.
End any_document.
