(* ===== verification/Document.v ===== *)
(** The main window and its document (plvgui/MainWindow.cpp): opening, saving
    and closing pipelines, the actions that are enabled, the title, the recent
    files and the messages.

    A session with the user is a sequence of actions; what the user answers to
    a dialog is an argument.  The window listens to its pipeline: its slots run
    at the end of the call that emits ([pipeline_call]), as those of the scene
    in Editor.  The scene itself is in Editor; here the user's editing is any
    call of the pipeline ([edited]), and the scene's own signal an action. *)
From Stdlib Require Import Ascii.
From S2P Require Export Loader.

(** ** State *)

(** The actions of the menu and the view: what is enabled. *)
Record Actions := mkActions {
  ac_view : bool; ac_save : bool; ac_saveAs : bool; ac_start : bool; ac_pause : bool; ac_stop : bool;
  ac_closePipeline : bool
}.
(** [initGUI] and [closePipeline] disable them; [setPipeline] enables them. *)
Definition no_actions : Actions := mkActions false false false false false false false.
Definition all_actions : Actions := mkActions true true true true false false true.

(** [mw_pipeline]: [m_pipeline] is not null.  [mw_recentFileList] is the list
    in the settings, [mw_recentFileActs] the data of the visible actions;
    [mw_dialogs] what was shown, [mw_offers] how often the user was asked. *)
Record MainWindow := mkMainWindow {
  mw_pipeline : bool;
  mw_documentChanged : bool;
  mw_fileName : string;
  mw_title : string;
  mw_actions : Actions;
  mw_recentFileList : list string;
  mw_recentFileActs : list string;
  mw_status : string;
  mw_dialogs : list (QtMsgType * string);
  mw_offers : nat;
  mw_exits : bool
}.
Definition mw_set_pipeline b (w : MainWindow) : MainWindow :=
  mkMainWindow b (mw_documentChanged w) (mw_fileName w) (mw_title w) (mw_actions w) (mw_recentFileList w)
    (mw_recentFileActs w) (mw_status w) (mw_dialogs w) (mw_offers w) (mw_exits w).
Definition mw_set_changed b (w : MainWindow) : MainWindow :=
  mkMainWindow (mw_pipeline w) b (mw_fileName w) (mw_title w) (mw_actions w) (mw_recentFileList w)
    (mw_recentFileActs w) (mw_status w) (mw_dialogs w) (mw_offers w) (mw_exits w).
Definition mw_set_fileName n (w : MainWindow) : MainWindow :=
  mkMainWindow (mw_pipeline w) (mw_documentChanged w) n (mw_title w) (mw_actions w) (mw_recentFileList w)
    (mw_recentFileActs w) (mw_status w) (mw_dialogs w) (mw_offers w) (mw_exits w).
Definition mw_set_title t (w : MainWindow) : MainWindow :=
  mkMainWindow (mw_pipeline w) (mw_documentChanged w) (mw_fileName w) t (mw_actions w) (mw_recentFileList w)
    (mw_recentFileActs w) (mw_status w) (mw_dialogs w) (mw_offers w) (mw_exits w).
Definition mw_set_actions a (w : MainWindow) : MainWindow :=
  mkMainWindow (mw_pipeline w) (mw_documentChanged w) (mw_fileName w) (mw_title w) a (mw_recentFileList w)
    (mw_recentFileActs w) (mw_status w) (mw_dialogs w) (mw_offers w) (mw_exits w).
Definition mw_set_recentFileList l (w : MainWindow) : MainWindow :=
  mkMainWindow (mw_pipeline w) (mw_documentChanged w) (mw_fileName w) (mw_title w) (mw_actions w) l
    (mw_recentFileActs w) (mw_status w) (mw_dialogs w) (mw_offers w) (mw_exits w).
Definition mw_set_recentFileActs l (w : MainWindow) : MainWindow :=
  mkMainWindow (mw_pipeline w) (mw_documentChanged w) (mw_fileName w) (mw_title w) (mw_actions w)
    (mw_recentFileList w) l (mw_status w) (mw_dialogs w) (mw_offers w) (mw_exits w).
Definition mw_set_status m (w : MainWindow) : MainWindow :=
  mkMainWindow (mw_pipeline w) (mw_documentChanged w) (mw_fileName w) (mw_title w) (mw_actions w)
    (mw_recentFileList w) (mw_recentFileActs w) m (mw_dialogs w) (mw_offers w) (mw_exits w).
Definition mw_shown t m (w : MainWindow) : MainWindow :=
  mkMainWindow (mw_pipeline w) (mw_documentChanged w) (mw_fileName w) (mw_title w) (mw_actions w)
    (mw_recentFileList w) (mw_recentFileActs w) (mw_status w) (mw_dialogs w ++ [(t, m)]) (mw_offers w) (mw_exits w).
Definition mw_asked (w : MainWindow) : MainWindow :=
  mkMainWindow (mw_pipeline w) (mw_documentChanged w) (mw_fileName w) (mw_title w) (mw_actions w)
    (mw_recentFileList w) (mw_recentFileActs w) (mw_status w) (mw_dialogs w) (S (mw_offers w)) (mw_exits w).
Definition mw_set_exits (w : MainWindow) : MainWindow :=
  mkMainWindow (mw_pipeline w) (mw_documentChanged w) (mw_fileName w) (mw_title w) (mw_actions w)
    (mw_recentFileList w) (mw_recentFileActs w) (mw_status w) (mw_dialogs w) (mw_offers w) true.

Definition MaxRecentFiles : nat := 5.
(** [QMessageBox::Save], [QMessageBox::Discard] and [QDialog::Accepted]. *)
Definition button_Save : Z := 2048.
Definition button_Discard : Z := 8388608.
Definition Accepted : Z := 1.
(** What the user answers: the button of the question whether to save, and the
    name that the file dialog returns (empty when it is cancelled). *)
Record User := mkUser { u_button : Z; u_fileName : string }.

(** [QFileInfo::baseName]: the name without the path, up to its first dot. *)
Fixpoint has_slash (s : string) : bool :=
  match s with EmptyString => false | String c s' => bool_decide (c = "/"%char) || has_slash s' end.
Fixpoint without_path (s : string) : string :=
  match s with EmptyString => EmptyString | String _ s' => if has_slash s then without_path s' else s end.
Definition baseName (s : string) : string := before_dot (without_path s).

(** The recent files with [fileName] opened or saved last: one entry each, the
    oldest dropped. *)
Definition add_recent (fileName : string) (files : list string) : list string :=
  take MaxRecentFiles (fileName :: filter (λ f, f ≠ fileName) files).
Definition titled (fileName : string) (changed : bool) : string :=
  (if bool_decide (fileName = EmptyString) then "Untitled" else baseName fileName) +:+ (if changed then "*" else "").

(** The window and the store of the pipeline: its heap, the properties of the
    elements and the files. *)
Record Bench `{QtCore} := mkBench { bn_store : Store; bn_window : MainWindow }.
Arguments mkBench {_} _ _.

(** The constructor: the actions for the recent files are made from the
    settings. *)
Definition new_MainWindow (buildInformation : string) (settings : list string) : MainWindow :=
  mkMainWindow false false EmptyString ("ParleVision " +:+ buildInformation +:+ " - no pipeline") no_actions
    settings (take MaxRecentFiles settings) EmptyString [] 0 false.

Section document.
Context `{HashOrder} `{QMetaType} `{QtCore} `{!Plugins}.
(** What the plug-ins and the thread pool do while the pipeline stops, how often it
    looks, and the value [m_changed] has in a new pipeline, which the
    constructor does not initialise. *)
Context (beh : eptr → Behaviour) (pool : nat → W unit) (fuel : nat) (indeterminate : bool).
Abbreviation L := (M Store).
Abbreviation D := (M Bench).

Definition win {A} (f : MainWindow → A) : D A := gets (λ b, f (bn_window b)).
Definition upd_win (f : MainWindow → MainWindow) : D unit := modify (λ b, mkBench (bn_store b) (f (bn_window b))).
(** A call that nobody listens to. *)
Definition on_store {A} (m : L A) : D A := λ b, let '(r, s) := m (bn_store b) in (r, mkBench s (bn_window b)).

(** ** Title and recent files *)
Definition updateWindowTitle : D unit :=
  name ← win mw_fileName ; changed ← win mw_documentChanged ; upd_win (mw_set_title (titled name changed)).
Definition updateRecentFileActions : D unit :=
  files ← win mw_recentFileList ; upd_win (mw_set_recentFileActs (take MaxRecentFiles files)).
Definition setCurrentFile (fileName : string) : D unit :=
  upd_win (mw_set_fileName fileName) ;;
  when (negb (bool_decide (fileName = EmptyString))) (
    updateWindowTitle ;;
    files ← win mw_recentFileList ;
    upd_win (mw_set_recentFileList (add_recent fileName files)) ;;
    updateRecentFileActions).

(** ** Slots *)
Definition set_enabled (f : Actions → Actions) : D unit := a ← win mw_actions ; upd_win (mw_set_actions (f a)).
Definition pipelineStarted_slot : D unit :=
  set_enabled (λ a, mkActions (ac_view a) (ac_save a) (ac_saveAs a) false (ac_pause a) true (ac_closePipeline a)) ;;
  upd_win (mw_set_status "Running").
Definition pipelineStopped_slot : D unit :=
  set_enabled (λ a, mkActions (ac_view a) (ac_save a) (ac_saveAs a) true (ac_pause a) false (ac_closePipeline a)) ;;
  upd_win (mw_set_status "Stopped.").
Definition documentChanged : D unit :=
  changed ← win mw_documentChanged ;
  when (negb changed) (
    upd_win (mw_set_changed true) ;;
    set_enabled (λ a, mkActions (ac_view a) true (ac_saveAs a) (ac_start a) (ac_pause a) (ac_stop a) (ac_closePipeline a)) ;;
    updateWindowTitle).

(** A fatal message offers to save, saving may bring further messages: the
    handler is an argument here and tied below. *)
Section messages.
Context (on_message : QtMsgType → string → D unit).

Definition window_slot (s : Signal) : D unit :=
  match s with
  | pipelineStarted => pipelineStarted_slot
  | pipelineStopped => pipelineStopped_slot
  | elementAdded _ _ | elementRemoved _ _ | connectionAdded _ _ | connectionRemoved _ _ => documentChanged
  | pipelineMessage t m => on_message t m
  | _ => mret tt
  end.
(** A call of the pipeline that the window shows. *)
Definition pipeline_call_heard {A} (m : L A) : D A := λ b,
  let '(r, s') := m (bn_store b) in
  let told := drop (length (w_signals (st_world (bn_store b)))) (w_signals (st_world s')) in
  match for_each told window_slot (mkBench s' (bn_window b)) with
  | (Ok _, b') => (r, b')
  | (Throw x, b') => (Throw x, b')
  | (Abort x, b') => (Abort x, b')
  end.

(** MainWindow::save; [QString::isNull] holds of the names never set, which
    are empty here. *)
Definition save_document : D unit :=
  open ← win mw_pipeline ; name ← win mw_fileName ;
  when open (
    try_catch (pipeline_call_heard (saveAs name) ;; upd_win (mw_set_changed false) ;; updateWindowTitle)
      (λ x, if is_runtime_error x then on_message QtCriticalMsg ("Could not save pipeline: " +:+ exn_text x) else throw x)).
Definition on_actionSaveAs_triggered (u : User) : D unit :=
  open ← win mw_pipeline ;
  when (open && negb (bool_decide (u_fileName u = EmptyString))) (
    upd_win (mw_set_fileName (u_fileName u)) ;;
    save_document ;;
    setCurrentFile (u_fileName u)).
Definition on_actionSave_triggered (u : User) : D unit :=
  open ← win mw_pipeline ; name ← win mw_fileName ;
  when open (if bool_decide (name = EmptyString) then on_actionSaveAs_triggered u else save_document).
Definition offerToSave (u : User) : D unit :=
  open ← win mw_pipeline ;
  when open (
    upd_win mw_asked ;;
    when (bool_decide (u_button u = Accepted)) (on_actionSave_triggered u)).
End messages.

(** MainWindow::handleMessage *)
Fixpoint handle_message (n : nat) (u : User) (t : QtMsgType) (msg : string) : D unit :=
  match t with
  | QtDebugMsg => mret tt
  | QtWarningMsg => upd_win (mw_shown t msg)
  | QtCriticalMsg => upd_win (mw_shown t ("Error: " +:+ msg))
  | QtFatalMsg =>
      upd_win (mw_shown t ("Fatal Error: " +:+ msg +:+ ". The application will now close")) ;;
      match n with
      | O => abort OutOfFuel
      | S n' => offerToSave (handle_message n' u) u ;; upd_win mw_set_exits
      end
  end.
(** Two levels: no call made while saving sends a fatal message. *)
Definition window_message : User → QtMsgType → string → D unit := handle_message 2.
Definition pipeline_call_shown {A} (u : User) (m : L A) : D A := pipeline_call_heard (window_message u) m.

(** ** Opening and closing *)

(** [new Pipeline]; the objects of the last one are out of reach. *)
Definition new_Pipeline : L unit := on_world (upd_pipe (λ _, pl_set_changed indeterminate empty_pipeline)).
(** Pipeline::~Pipeline *)
Definition delete_Pipeline : L unit := on_world (
  pl ← get_pipe ;
  assert (negb (pl_running pl)) ;;
  when (negb (bool_decide (pl_children pl = ∅))) clear ;;
  pl ← get_pipe ;
  assert (bool_decide (pl_children pl = ∅)) ;;
  assert (bool_decide (pl_processors pl = ∅)) ;;
  assert (bool_decide (pl_producers pl = ∅))).

(** MainWindow::setPipeline; the new scene is Editor.setPipeline. *)
Definition show_pipeline : D unit :=
  open ← win mw_pipeline ;
  assert (negb open) ;;
  upd_win (mw_set_pipeline true) ;;
  upd_win (mw_set_actions all_actions) ;;
  upd_win (mw_set_changed false).

Definition stop_running (u : User) : D unit :=
  running ← on_store (on_world isRunning) ;
  when running (pipeline_call_shown u (on_world (stop beh pool fuel))).
(** The last reference goes with [m_pipeline.set(0)]; the slots of the window
    are still connected while the destructor runs. *)
Definition closePipeline (u : User) : D unit :=
  open ← win mw_pipeline ;
  when open (
    stop_running u ;;
    changed ← win mw_documentChanged ;
    when changed (offerToSave (window_message u) u) ;;
    upd_win (mw_set_actions no_actions) ;;
    upd_win (mw_set_changed false) ;;
    pipeline_call_shown u delete_Pipeline ;;
    upd_win (mw_set_pipeline false) ;;
    upd_win (mw_set_title "ParleVision - no pipeline") ;;
    updateWindowTitle).

Definition loadFile (u : User) (fileName : string) : D unit :=
  open ← win mw_pipeline ;
  when open (closePipeline u) ;;
  on_store new_Pipeline ;;
  on_store (load fileName) ;;
  setCurrentFile fileName ;;
  show_pipeline.

(** ** The actions of the user *)
Definition on_actionLoad_triggered (u : User) (selected : option string) : D unit :=
  match selected with Some fileName => loadFile u fileName | None => mret tt end.
Definition openRecentFile (u : User) (n : nat) : D unit :=
  acts ← win mw_recentFileActs ;
  match acts !! n with Some fileName => loadFile u fileName | None => mret tt end.
Definition on_actionNew_triggered (u : User) : D unit :=
  closePipeline u ;;
  setCurrentFile EmptyString ;;
  on_store new_Pipeline ;; show_pipeline ;;
  upd_win (mw_set_changed false) ;;
  updateWindowTitle.
(** The line [void closePipeline();] in its body declares a function. *)
Definition on_actionExit_triggered (u : User) : D unit :=
  changed ← win mw_documentChanged ;
  when changed (offerToSave (window_message u) u) ;;
  upd_win mw_set_exits.
Definition closeEvent (u : User) : D unit :=
  changed ← win mw_documentChanged ;
  when changed (offerToSave (window_message u) u) ;;
  open ← win mw_pipeline ;
  when open (stop_running u ;; pipeline_call_shown u (on_world clear)).

(** The user edits with the scene: a call of the pipeline, when there is one. *)
Definition edited (u : User) (m : L unit) : D unit :=
  open ← win mw_pipeline ; when open (pipeline_call_shown u m).

Inductive Action :=
  | New | Open (selected : option string) | OpenRecent (n : nat)
  | Save | SaveAs | ClosePipeline | Exit | CloseWindow
  | Edit (m : L unit)      (** deleting, connecting, dropping, starting, stopping *)
  | ContentsChanged        (** PipelineScene::contentsChanged *)
  | Message (t : QtMsgType) (msg : string).
Definition perform (u : User) (a : Action) : D unit :=
  match a with
  | New => on_actionNew_triggered u
  | Open selected => on_actionLoad_triggered u selected
  | OpenRecent n => openRecentFile u n
  | Save => on_actionSave_triggered (window_message u) u
  | SaveAs => on_actionSaveAs_triggered (window_message u) u
  | ClosePipeline => closePipeline u
  | Exit => on_actionExit_triggered u
  | CloseWindow => closeEvent u
  | Edit m => edited u m
  | ContentsChanged => open ← win mw_pipeline ; when open documentChanged
  | Message t msg => window_message u t msg
  end.
End document.
