(* ===== verification/DocumentProof.v ===== *)
(** The window of a session: whatever the user does, the actions that are
    enabled, the title and the recent files fit the pipeline; what closing and
    saving do to the document. *)
From Stdlib Require Import Ascii.
From S2P Require Export Document Persistence.
From S2P Require Import Frame GraphClear StopProof.

(** ** Calls that return *)
Section leads.
Context {S : Type}.

(** A call from [I] that returns leaves [J]. *)
Definition leads {A} (I J : S → Prop) (m : M S A) : Prop := ∀ s a s', I s → m s = (Ok a, s') → J s'.
Abbreviation keeps I := (leads I I).
Implicit Types I J K : S → Prop.

Lemma leads_weaken {A} I I' J J' (m : M S A) : leads I J m → (∀ s, I' s → I s) → (∀ s, J s → J' s) → leads I' J' m.
Proof. intros Hm HI HJ s a s' Hs Hr. eapply HJ, Hm; eauto. Qed.
Lemma keeps_ret {A} I (a : A) : keeps I (mret a).
Proof. intros s a' s' Hs [= <- <-]. done. Qed.
Lemma keeps_gets {A} I (f : S → A) : keeps I (gets f).
Proof. intros s a' s' Hs [= <- <-]. done. Qed.
Lemma leads_bind {A B} I J K (m : M S A) (k : A → M S B) : leads I J m → (∀ a, leads J K (k a)) → leads I K (m ≫= k).
Proof. intros Hm Hk s b s' Hs (a & s1 & H1 & H2)%bind_ok. eapply Hk; [by eapply Hm|done]. Qed.
Lemma leads_gets {A B} I J (f : S → A) (k : A → M S B) : (∀ s, I s → leads (λ s', I s' ∧ f s' = f s) J (k (f s))) → leads I J (gets f ≫= k).
Proof. intros Hk s b s' Hs Hr. eapply (Hk s Hs s); [done|exact Hr]. Qed.
Lemma keeps_when I b (m : M S unit) : (b = true → keeps I m) → keeps I (when b m).
Proof. destruct b; cbn; [by intros H; apply H|]. intros _. apply keeps_ret. Qed.
Lemma keeps_for_each {A} I (l : list A) body : (∀ a, keeps I (body a)) → keeps I (for_each l body).
Proof. intros Hb. induction l as [|a l IH]; cbn; [apply keeps_ret|]. eapply leads_bind; [apply Hb|]. intros _. apply IH. Qed.

(** What a call may throw is not a [std::runtime_error]. *)
Definition calm {A} (m : M S A) : Prop := ∀ s x s', m s = (Throw x, s') → is_runtime_error x = false.
Lemma calm_ret {A} (a : A) : calm (mret a).
Proof. by intros s x s'. Qed.
Lemma calm_gets {A} (f : S → A) : calm (gets f).
Proof. by intros s x s'. Qed.
Lemma calm_modify (f : S → S) : calm (modify f).
Proof. by intros s x s'. Qed.
Lemma calm_abort {A} y : calm (abort y : M S A).
Proof. by intros s x s'. Qed.
Lemma calm_assert b : calm (assert b : M S unit).
Proof. intros s x s'. by destruct b. Qed.
Lemma calm_bind {A B} (m : M S A) (k : A → M S B) : calm m → (∀ a, calm (k a)) → calm (m ≫= k).
Proof.
  intros Hm Hk s x s'. unfold mbind, M_bind. destruct (m s) as [[a|y|y] s1] eqn:E; [apply Hk| |done].
  intros [= <- <-]. by eapply Hm.
Qed.
Lemma calm_when b (m : M S unit) : calm m → calm (when b m).
Proof. destruct b; [done|]. intros _. apply calm_ret. Qed.
Lemma calm_for_each {A} (l : list A) body : (∀ a, calm (body a)) → calm (for_each l body).
Proof. intros Hb. induction l as [|a l IH]; cbn; [apply calm_ret|]. by apply calm_bind. Qed.
(** A handler for runtime errors is never called then. *)
Lemma leads_try {A} I J (m : M S A) h : calm m → leads I J m →
  leads I J (try_catch m (λ x, if is_runtime_error x then h x else throw x)).
Proof.
  intros Hc Hm s a s' Hs. unfold try_catch. destruct (m s) as [[b|x|x] s1] eqn:E; [|by rewrite (Hc _ _ _ E)|done].
  intros [= <- <-]. by eapply Hm.
Qed.
Lemma calm_try {A} (m : M S A) h : (∀ x, calm (h x)) → calm (try_catch m (λ x, if is_runtime_error x then h x else throw x)).
Proof.
  intros Hh s x s'. unfold try_catch. destruct (m s) as [[b|y|y] s1]; [done| |done].
  destruct (is_runtime_error y) eqn:E; [apply Hh|]. by intros [= <- <-].
Qed.
End leads.
Abbreviation keeps I := (leads I I).
Ltac calm :=
  repeat lazymatch goal with
  | |- calm (_ ≫= _) => apply calm_bind; [|intros ?]
  | |- calm (mret _) => apply calm_ret
  | |- calm (gets _) => apply calm_gets
  | |- calm (modify _) => apply calm_modify
  | |- calm (abort _) => apply calm_abort
  | |- calm (assert _) => apply calm_assert
  | |- calm (when _ _) => apply calm_when
  | |- calm (if ?b then _ else _) => destruct b
  | |- calm (match ?x with _ => _ end) => destruct x
  end.

(** ** Saving reads the graph *)
Section saving.
Context `{HashOrder} `{QMetaType} `{QtCore} `{!Plugins}.
Abbreviation L := (M Store).

Definition store_kept (s s' : Store) : Prop := same_graph (st_world s) (st_world s') ∧ st_factory s' = st_factory s.
#[export] Instance store_kept_preorder : PreOrder store_kept.
Proof. split; [by split|]. intros s1 s2 s3 [G1 F1] [G2 F2]. split; [by etrans|congruence]. Qed.

Lemma kept_on_world {A} (m : W A) s : frames same_graph m (st_world s) → frames store_kept (on_world m) s.
Proof. unfold frames, on_world. destruct (m (st_world s)) as [r w]. by split. Qed.
Lemma calm_on_world {A} (m : W A) : calm m → calm (on_world m).
Proof. intros Hm s x s'. unfold on_world. destruct (m (st_world s)) as [r w] eqn:E. intros [= -> <-]. by eapply Hm. Qed.
Lemma kept_deref_meta {A} (field : Store → gmap positive A) e s : frames store_kept (deref_meta field e) s.
Proof. unfold deref_meta, frames, gets, mbind, M_bind. cbn. by destruct (field s !! e). Qed.
Lemma kept_map_nodes {S A} (R : relation S) `{!PreOrder R} (f : A → M S QDomNode) l w :
  (∀ a w', frames R (f a) w') → frames R (map_nodes f l) w.
Proof.
  intros Hf. revert w. induction l as [|a l IH]; intros w; cbn; [frame_rule @frames_ret|].
  frame_rule @frames_bind; [apply Hf|intros n w1 _ _]. frame_rule @frames_bind; [apply IH|intros ns w2 _ _]. frame_rule @frames_ret.
Qed.

Lemma kept_serialize_connection c w : frames same_graph (serialize_connection c) w.
Proof. unfold serialize_connection. repeat gframe_step same_graph ltac:(idtac; fail). Qed.
Lemma kept_static_properties ps l s : frames store_kept (static_properties ps l) s.
Proof.
  revert s. induction l as [|[name t] l IH]; intros s; cbn; [frame_rule @frames_ret|].
  frame_rule @frames_bind; [|intros v s1 _ _; frame_rule @frames_bind; [apply IH|intros ? ? _ _; frame_rule @frames_ret]].
  unfold property_text. repeat case_match; try frame_rule @frames_ret. unfold selected_name, frames. done.
Qed.
Lemma kept_serialize_element e s : frames store_kept (serialize_element e) s.
Proof.
  unfold serialize_element, className, properties. frame_rule @frames_bind; [apply kept_deref_meta|intros cls s1 _ _].
  frame_rule @frames_bind; [apply kept_on_world, (gframes_deref_only same_graph)|intros x s2 _ _].
  frame_rule @frames_bind; [apply kept_deref_meta|intros ps s3 _ _].
  frame_rule @frames_bind; [apply kept_static_properties|intros ? s4 _ _]. frame_rule @frames_ret.
Qed.
Lemma kept_serialize name s : frames store_kept (serialize name) s.
Proof.
  unfold serialize. destruct (negb (canOpen name)); [frame_rule @frames_throw|].
  frame_rule @frames_bind; [by split|intros _ s1 _ _].
  frame_rule @frames_bind; [|intros doc s2 _ _; by split].
  unfold serialize_doc. frame_rule @frames_bind; [by apply kept_on_world|intros pl s3 _ _].
  frame_rule @frames_bind; [apply (kept_map_nodes store_kept); intros; apply kept_serialize_element|intros ? s4 _ _].
  frame_rule @frames_bind; [|intros ? ? _ _; frame_rule @frames_ret].
  apply kept_on_world, (kept_map_nodes same_graph). intros. apply kept_serialize_connection.
Qed.
Lemma kept_saveAs name s : frames store_kept (saveAs name) s.
Proof.
  assert (Hw : ∀ f w, frames same_graph (emit f) w) by done.
  unfold saveAs, save, catch_runtime_error. frame_rule @frames_bind; [by apply kept_on_world|intros pl s1 _ _].
  frame_rule @frames_bind; [frame_rule @frames_when; intros _; by apply kept_on_world|intros _ s2 _ _].
  frame_rule @frames_try.
  - frame_rule @frames_bind; [by apply kept_on_world|intros pl1 s3 _ _].
    frame_rule @frames_bind; [|intros _ s4 _ _; frame_rule @frames_ret].
    frame_rule @frames_when. intros _. frame_rule @frames_bind; [apply kept_serialize|intros _ s4 _ _].
    frame_rule @frames_bind; [by apply kept_on_world|intros _ s5 _ _]. by apply kept_on_world.
  - intros x s3 _. destruct (is_runtime_error x); [|frame_rule @frames_throw].
    frame_rule @frames_bind; [by apply kept_on_world|intros _ s4 _ _]. frame_rule @frames_ret.
Qed.
Lemma calm_saveAs name : calm (saveAs name).
Proof.
  unfold saveAs, save, catch_runtime_error. apply calm_bind; [by apply calm_on_world|intros pl].
  apply calm_bind; [apply calm_when; by apply calm_on_world|intros _]. apply calm_try. intros x.
  apply calm_bind; [by apply calm_on_world|intros _]. apply calm_ret.
Qed.
End saving.

(** ** Starting and stopping keep the graph *)
Section lifecycle.
Context `{HashOrder} `{QMetaType} (beh : eptr → Behaviour).
Implicit Types w : World.

Definition wf_kept w w' : Prop := graph_wf w → graph_wf w'.
#[export] Instance wf_kept_preorder : PreOrder wf_kept.
Proof. split; [by intros w Hw|]. intros w1 w2 w3 A B Hw. exact (B (A Hw)). Qed.
Abbreviation wk := (frames wf_kept).

Lemma wk_same {A} (m : W A) w : frames same_graph m w → wk m w.
Proof. unfold frames, wf_kept. intros Hs Hwf. by rewrite <-Hs. Qed.
Lemma wk_works {A} (m : W A) w : (graph_wf w → frames (works_as (λ _, True)) m w) → wk m w.
Proof. unfold frames, wf_kept. intros Hm Hwf. eapply wf_works; [by apply Hm|done]. Qed.
Lemma wk_run_prog e p w : wk (run_prog e p) w.
Proof. apply wk_works. intros. by apply frames_run_prog. Qed.
Lemma wk_upd_elem e f w : (∀ x, el_skeleton (f x) = el_skeleton x) → wk (upd_elem e f) w.
Proof. intros Hf. apply wk_works. intros _. apply frames_upd_elem. auto. Qed.
Lemma wk_upd_conn c f w : (∀ x, pc_set_queue [] (f x) = pc_set_queue [] x) → wk (upd_conn c f) w.
Proof. intros Hf. apply wk_works. intros _. by apply frames_upd_conn. Qed.
End lifecycle.
Ltac wk_prim :=
  idtac; lazymatch goal with
  | |- frames _ (upd_elem _ _) _ => apply wk_upd_elem; intros ?; reflexivity
  | |- frames _ (el_setState _ _) _ => apply wk_upd_elem; intros ?; reflexivity
  | |- frames _ (upd_conn _ _) _ => apply wk_upd_conn; intros ?; reflexivity
  | |- frames _ (upd_pipe _) _ => by apply wk_same
  | |- frames _ (emit _) _ => by apply wk_same
  | |- frames _ (run_prog _ _) _ => apply wk_run_prog
  | |- frames _ (for_each _ _) _ => frame_rule @frames_for_each; intros ? ? _ _
  | |- frames _ (try_catch _ _) _ => frame_rule @frames_try; [|intros ? ? _]
  | |- frames _ (get_elem _) _ => apply (gframes_deref_only wf_kept)
  end.
Ltac wk := repeat (progress cbn beta iota || gframe_step wf_kept wk_prim).

Section stop_start.
Context `{HashOrder} `{QMetaType} (beh : eptr → Behaviour).
Implicit Types w : World.
Abbreviation wk := (frames wf_kept).

Lemma wk_deinit_element e w : wk (deinit_element beh e) w.
Proof. unfold deinit_element, ple_deinit, el_getState, nothrow. wk. Qed.
Lemma wk_stop_element e w : wk (stop_element beh e) w.
Proof. unfold stop_element, ple_stop, el_getState. wk. Qed.
Lemma wk_stop pool fuel w : (∀ n w', wk (pool n) w') → wk (stop beh pool fuel) w.
Proof.
  intros Hpool.
  assert (Hwait : ∀ k n w', wk (stop_wait pool k n) w').
  { induction k as [|k IH]; intros n w'; cbn; wk; [apply Hpool| |apply IH]. unfold stop_sweep, el_getState. wk. }
  unfold stop, conn_flush, conn_hasDataItems. wk; first [apply Hwait|apply wk_stop_element|apply wk_deinit_element].
Qed.
Lemma wk_pool picks n w : wk (pool picks n) w.
Proof.
  unfold pool. frame_rule @frames_for_each. intros [f body] w' _ _. unfold run_job. wk; try by apply wk_same.
  apply wk_works. intros. by apply frames_el_run.
Qed.
End stop_start.

(** ** The state of the window *)
Record window_ok (w : MainWindow) : Prop := {
  wo_open : mw_pipeline w = true → ∃ stop, mw_actions w = mkActions true true true (negb stop) false stop true;
  wo_closed : mw_pipeline w = false → ∃ save, mw_actions w = mkActions false save false false false false false;
  wo_once : NoDup (mw_recentFileList w);
  wo_few : (length (mw_recentFileList w) ≤ MaxRecentFiles)%nat;
  wo_named : EmptyString ∉ mw_recentFileList w;
  wo_acts : mw_recentFileActs w = mw_recentFileList w
}.
(** The title names the file and has a star when the document has changed; the
    file is the most recent one. *)
Record in_step (w : MainWindow) : Prop := {
  is_title : mw_pipeline w = true → ∃ star, mw_title w = titled (mw_fileName w) star ∧ (mw_documentChanged w = true → star = true);
  is_recent : mw_fileName w ≠ EmptyString → head (mw_recentFileList w) = Some (mw_fileName w)
}.

Lemma add_recent_ok f l : f ≠ EmptyString → NoDup l → EmptyString ∉ l →
  NoDup (add_recent f l) ∧ (length (add_recent f l) ≤ MaxRecentFiles)%nat ∧ (EmptyString ∉ add_recent f l) ∧
  head (add_recent f l) = Some f.
Proof.
  intros Hf Hnd Hne. unfold add_recent.
  assert (Hn : NoDup (f :: filter (λ x, x ≠ f) l)).
  { constructor; [|by apply NoDup_filter]. intros [Hx _]%list_elem_of_filter. done. }
  split_and!; [| | |done].
  - rewrite <-(take_drop MaxRecentFiles (f :: _)) in Hn. by apply NoDup_app in Hn as [? _].
  - rewrite length_take. lia.
  - intros (j & Hin%list_elem_of_lookup_2 & _)%elem_of_take. apply elem_of_cons in Hin as [Hin|[_ Hin]%list_elem_of_filter]; congruence || done.
Qed.

Section window.
Context `{HashOrder} `{QMetaType} `{QtCore} `{!Plugins}.
Abbreviation L := (M Store).
Abbreviation D := (M Bench).

(** ** Calls that only change the window *)
Definition acts (m : D unit) (g : MainWindow → MainWindow) : Prop :=
  ∀ b, m b = (Ok tt, mkBench (bn_store b) (g (bn_window b))).
Definition changed_document (w : MainWindow) : MainWindow :=
  if mw_documentChanged w then w
  else mw_set_title (titled (mw_fileName w) true)
    (mw_set_actions (let a := mw_actions w in mkActions (ac_view a) true (ac_saveAs a) (ac_start a) (ac_pause a) (ac_stop a) (ac_closePipeline a))
      (mw_set_changed true w)).
Lemma acts_documentChanged : acts documentChanged changed_document.
Proof. intros [s w]. unfold documentChanged, changed_document. erewrite run_bind by reflexivity. cbn. by destruct (mw_documentChanged w). Qed.
Definition new_title (w : MainWindow) : MainWindow := mw_set_title (titled (mw_fileName w) (mw_documentChanged w)) w.
Lemma acts_updateWindowTitle : acts updateWindowTitle new_title.
Proof. by intros b. Qed.
Definition with_file (f : string) (w : MainWindow) : MainWindow :=
  let w1 := new_title (mw_set_fileName f w) in
  mw_set_recentFileActs (take MaxRecentFiles (add_recent f (mw_recentFileList w))) (mw_set_recentFileList (add_recent f (mw_recentFileList w)) w1).
Lemma acts_setCurrentFile f : f ≠ EmptyString → acts (setCurrentFile f) (with_file f).
Proof. intros Hf b. unfold setCurrentFile. by rewrite bool_decide_false. Qed.

(** [h]: the title and the recent files are up to date as well. *)
Definition good (h : bool) (w : MainWindow) : Prop := window_ok w ∧ (h = true → in_step w).
Lemma good_changed h w : mw_pipeline w = true → good h w → good h (changed_document w).
Proof.
  intros Hp [Hw Hs]. unfold changed_document. destruct (mw_documentChanged w) eqn:Hc; [done|].
  destruct Hw as [Ho Hcl R1 R2 R3 R4]. split.
  - split; cbn; try done; [|by rewrite Hp]. intros _. destruct (Ho Hp) as [st ->]. by exists st.
  - intros Hh. destruct (Hs Hh) as [_ Hr]. split; cbn; [|exact Hr]. intros _. by exists true.
Qed.
Lemma good_title h w : good h w → good h (new_title w).
Proof.
  intros [[Ho Hcl R1 R2 R3 R4] Hs]. split; [by split|]. intros Hh. destruct (Hs Hh) as [_ Hr].
  split; cbn; [|done]. intros _. by exists (mw_documentChanged w).
Qed.
Lemma good_file h w f : f ≠ EmptyString → good false w → good h (with_file f w).
Proof.
  intros Hf [[Ho Hcl R1 R2 R3 R4] _]. destruct (add_recent_ok f _ Hf R1 R3) as (Hn & Hl & He & Hh). split.
  - split; cbn -[take add_recent]; try done. by rewrite firstn_all2.
  - intros _. split; cbn; [|done]. intros _. by exists (mw_documentChanged w).
Qed.
Definition with_running (st : bool) (status : string) (w : MainWindow) : MainWindow :=
  mw_set_status status (mw_set_actions (let a := mw_actions w in
    mkActions (ac_view a) (ac_save a) (ac_saveAs a) (negb st) (ac_pause a) st (ac_closePipeline a)) w).
Lemma good_start_stop h w st status : mw_pipeline w = true → good h w → good h (with_running st status w).
Proof.
  intros Hp [[Ho Hcl R1 R2 R3 R4] Hs]. split.
  - split; cbn; try done; [|by rewrite Hp]. intros _. destruct (Ho Hp) as [st' ->]. by exists st.
  - intros Hh. by destruct (Hs Hh) as [Ht Hr].
Qed.
(** A change that the invariant does not read. *)
Lemma good_same h w w' : good h w → mw_pipeline w' = mw_pipeline w → mw_actions w' = mw_actions w →
  mw_recentFileList w' = mw_recentFileList w → mw_recentFileActs w' = mw_recentFileActs w →
  mw_fileName w' = mw_fileName w → mw_title w' = mw_title w →
  (mw_documentChanged w' = true → mw_documentChanged w = true) → good h w'.
Proof.
  intros [[Ho Hcl R1 R2 R3 R4] Hs] Ep Ea El Er Ef Et Ec. split.
  - split; rewrite ?Ep, ?Ea, ?El, ?Er; done.
  - intros Hh. destruct (Hs Hh) as [Ht Hr]. split; rewrite ?Ep, ?El, ?Ef, ?Et; [|done].
    intros Hp. destruct (Ht Hp) as (star & Hst & Himp). exists star. auto.
Qed.

(** ** The bench: the window ([o]: with a pipeline) and the store *)
Record bench_ok (f : Factory Ctor) (h o : bool) (b : Bench) : Prop := {
  bo_graph : graph_wf (st_world (bn_store b));
  bo_factory : st_factory (bn_store b) = f;
  bo_pipeline : mw_pipeline (bn_window b) = o;
  bo_vacant : o = false → children (st_world (bn_store b)) = ∅ ∧ connections (st_world (bn_store b)) = ∅;
  bo_good : good h (bn_window b)
}.
(** A call of the pipeline that keeps its graph well formed. *)
Definition sound {A} (m : L A) : Prop := ∀ s, graph_wf (st_world s) →
  graph_wf (st_world (m s).2) ∧ st_factory (m s).2 = st_factory s.

Lemma bench_weaken f h o b : bench_ok f true o b → bench_ok f h o b.
Proof. intros [Hg Hf Hp Hv [Hw Hs]]. split; try done. split; [done|]. intros _. by apply Hs. Qed.
Lemma bench_forget f h o b : bench_ok f h o b → bench_ok f false o b.
Proof. intros [Hg Hf Hp Hv [Hw Hs]]. by split. Qed.

Lemma leads_acts f h h' o o' m g : acts m g →
  (∀ w, mw_pipeline w = o → good h w → mw_pipeline (g w) = o' ∧ good h' (g w)) → (o' = false → o = false) →
  leads (bench_ok f h o) (bench_ok f h' o') m.
Proof.
  intros Hm Hg Ho b u b' [Hgr Hf Hp Hv Hw]. rewrite Hm. intros [= _ <-]. destruct (Hg _ Hp Hw) as [Hp' Hw'].
  split; cbn; [done|done|done|auto|done].
Qed.
Lemma keeps_win f h o g : (∀ w, mw_pipeline w = o → good h w → mw_pipeline (g w) = o ∧ good h (g w)) →
  keeps (bench_ok f h o) (upd_win g).
Proof. intros Hg. by apply (leads_acts f h h o o _ g). Qed.
(** Reading the window tells whether there is a pipeline. *)
Lemma leads_open {A} f h o J (k : bool → D A) : leads (bench_ok f h o) J (k o) → leads (bench_ok f h o) J (win mw_pipeline ≫= k).
Proof. intros Hk b a b' Hb. unfold mbind, M_bind, win, gets. rewrite (bo_pipeline _ _ _ _ Hb). by apply Hk. Qed.
Lemma leads_win {A B} (I J : Bench → Prop) (g : MainWindow → A) (k : A → D B) : (∀ a, leads I J (k a)) → leads I J (win g ≫= k).
Proof. intros Hk b a b' Hb. unfold mbind, M_bind, win, gets. by apply Hk. Qed.

Lemma keeps_documentChanged f h : keeps (bench_ok f h true) documentChanged.
Proof.
  eapply leads_acts; [apply acts_documentChanged| |done]. intros w Hp Hw. split; [|by apply good_changed].
  unfold changed_document. by destruct (mw_documentChanged w).
Qed.
Lemma keeps_shown f h o t m : keeps (bench_ok f h o) (upd_win (mw_shown t m)).
Proof. apply keeps_win. intros w Hp Hw. split; [done|]. by apply (good_same h w). Qed.
Lemma keeps_exits f h o : keeps (bench_ok f h o) (upd_win mw_set_exits).
Proof. apply keeps_win. intros w Hp Hw. split; [done|]. by apply (good_same h w). Qed.

Section messages.
Context (on_message : QtMsgType → string → D unit) (f : Factory Ctor).
Context (Hkeep : ∀ h t m, keeps (bench_ok f h true) (on_message t m)) (Hcalm : ∀ t m, calm (on_message t m)).

Lemma keeps_slot h s : keeps (bench_ok f h true) (window_slot on_message s).
Proof using Hkeep.
  destruct s; cbn; try apply keeps_ret; try apply keeps_documentChanged; [apply Hkeep|..].
  - apply (leads_acts f h h true true _ (with_running true "Running")); [by intros b| |done].
    intros w Hp Hw. split; [done|]. by apply good_start_stop.
  - apply (leads_acts f h h true true _ (with_running false "Stopped.")); [by intros b| |done].
    intros w Hp Hw. split; [done|]. by apply good_start_stop.
Qed.
Lemma keeps_call {A} h (m : L A) : sound m → keeps (bench_ok f h true) (pipeline_call_heard on_message m).
Proof using Hkeep.
  intros Hm b a b' [Hg Hf Hp Hv Hw]. unfold pipeline_call_heard. destruct (Hm _ Hg) as [Hg' Hf'].
  destruct (m (bn_store b)) as [r s']. cbn in *.
  destruct (for_each _ _ _) as [[[]|x|x] b1] eqn:E; intros [= -> <-]; try done.
  revert E. apply keeps_for_each; [intros; apply keeps_slot|]. by split; cbn; [|congruence|..].
Qed.
Lemma calm_slot s : calm (window_slot on_message s).
Proof using Hcalm. destruct s; cbn; try apply calm_ret; [..|apply Hcalm|by intros b|by intros b]; intros b x b'; by rewrite acts_documentChanged. Qed.
Lemma calm_call {A} (m : L A) : calm m → calm (pipeline_call_heard on_message m).
Proof using Hcalm.
  intros Hm b x b'. unfold pipeline_call_heard. destruct (m (bn_store b)) as [r s'] eqn:E.
  destruct (for_each _ _ _) as [[u|y|y] b1] eqn:Es; [| |done].
  - intros [= -> <-]. by eapply Hm.
  - intros [= <- <-]. revert Es. apply calm_for_each, calm_slot.
Qed.
Lemma sound_saveAs name : sound (saveAs name).
Proof. intros s Hs. destruct (kept_saveAs name s) as [Hg Hf]. by rewrite <-Hg. Qed.

(** ** Saving *)
Lemma keeps_save h : keeps (bench_ok f h true) (save_document on_message).
Proof using Hkeep Hcalm.
  unfold save_document. apply leads_open, leads_win. intros name. cbn [when]. apply leads_try.
  - apply calm_bind; [apply calm_call, calm_saveAs|intros _].
    unfold updateWindowTitle, upd_win, win. calm.
  - eapply leads_bind; [apply keeps_call, sound_saveAs|intros _].
    eapply leads_bind; [|intros _; eapply leads_acts; [apply acts_updateWindowTitle|intros w Hp Hw; split; [done|]; by apply good_title|done]].
    apply keeps_win. intros w Hp Hw. split; [done|]. by apply (good_same h w).
Qed.
Lemma leads_setCurrentFile h h' o fn : fn ≠ EmptyString → leads (bench_ok f h o) (bench_ok f h' o) (setCurrentFile fn).
Proof.
  intros Hfn. eapply leads_acts; [by apply acts_setCurrentFile| |done]. intros w Hp [Hw _]. split; [done|].
  apply good_file; [done|]. by split.
Qed.
Lemma keeps_saveAs_action h o u : keeps (bench_ok f h o) (on_actionSaveAs_triggered on_message u).
Proof using Hkeep Hcalm.
  unfold on_actionSaveAs_triggered. apply leads_open. destruct o; cbn [andb]; [|apply keeps_ret].
  apply keeps_when. intros Hfn%negb_true_iff%bool_decide_eq_false.
  apply (leads_bind _ (bench_ok f false true)).
  { apply (leads_acts f h false true true _ (mw_set_fileName (u_fileName u))); [by intros b| |done].
    intros w Hp [[] _]. split; [done|]. by split. }
  intros _. eapply leads_bind; [apply keeps_save|intros _]. by apply leads_setCurrentFile.
Qed.
Lemma keeps_save_action h o u : keeps (bench_ok f h o) (on_actionSave_triggered on_message u).
Proof using Hkeep Hcalm.
  unfold on_actionSave_triggered. apply leads_open, leads_win. intros name. destruct o; cbn [when]; [|apply keeps_ret].
  case_bool_decide; [apply keeps_saveAs_action|apply keeps_save].
Qed.
Lemma keeps_offer h o u : keeps (bench_ok f h o) (offerToSave on_message u).
Proof using Hkeep Hcalm.
  unfold offerToSave. apply leads_open. destruct o; cbn [when]; [|apply keeps_ret].
  eapply leads_bind; [|intros _; apply keeps_when; intros _; apply keeps_save_action].
  apply keeps_win. intros w Hp Hw. split; [done|]. by apply (good_same h w).
Qed.
Lemma calm_save : calm (save_document on_message).
Proof using Hcalm.
  unfold save_document, win. calm. apply calm_try. intros x. apply Hcalm.
Qed.
Lemma calm_offer u : calm (offerToSave on_message u).
Proof using Hcalm.
  unfold offerToSave, on_actionSave_triggered, on_actionSaveAs_triggered, setCurrentFile, updateWindowTitle, updateRecentFileActions, upd_win, win.
  calm; apply calm_save.
Qed.
End messages.

Lemma calm_message n u t m : calm (handle_message n u t m).
Proof.
  revert t m. induction n as [|n IH]; intros t m; destruct t; cbn; unfold upd_win; calm. apply calm_offer. exact IH.
Qed.
Lemma keeps_message n u f h o t m : keeps (bench_ok f h o) (handle_message n u t m).
Proof.
  revert h o t m. induction n as [|n IH]; intros h o t m; destruct t; cbn; try apply keeps_ret; try apply keeps_shown.
  - eapply leads_bind; [apply keeps_shown|]. by intros _ b u' b'.
  - eapply leads_bind; [apply keeps_shown|intros _].
    eapply leads_bind; [apply (keeps_offer (handle_message n u) f); [intros; apply IH|intros; apply calm_message]|intros _].
    apply keeps_exits.
Qed.
Lemma keeps_heard {A} u f h (m : L A) : sound m → keeps (bench_ok f h true) (pipeline_call_shown u m).
Proof. intros Hm. apply keeps_call; [intros; apply keeps_message|done]. Qed.
Lemma keeps_offered u f h o : keeps (bench_ok f h o) (offerToSave (window_message u) u).
Proof. apply keeps_offer; [intros; apply keeps_message|intros; apply calm_message]. Qed.

(** ** The destructor *)
Definition removed (s : Signal) : Prop :=
  match s with elementRemoved _ _ | connectionRemoved _ _ => True | _ => False end.
Lemma run_removal_slots on_message told b : Forall removed told →
  for_each told (window_slot on_message) b =
    (Ok tt, if decide (told = []) then b else mkBench (bn_store b) (changed_document (bn_window b))).
Proof.
  intros Ht. revert b. induction Ht as [|x told Hx Ht IH]; intros b; [done|]. cbn [for_each].
  assert (Hslot : window_slot on_message x b = (Ok tt, mkBench (bn_store b) (changed_document (bn_window b))))
    by (destruct x; try done; apply acts_documentChanged).
  rewrite (run_bind _ _ _ _ _ Hslot), IH. rewrite (decide_False (P := x :: told = [])) by done.
  destruct (decide (told = [])); [done|]. cbn. do 2 f_equal. unfold changed_document at 1.
  unfold changed_document. destruct (mw_documentChanged (bn_window b)) eqn:E; [by rewrite E|done].
Qed.

Lemma childless w : graph_wf w → children w = ∅ → connections w = ∅.
Proof.
  intros Hwf Hch. apply map_empty. intros k. destruct (connections w !! k) as [c|] eqn:Hk; [|done].
  destruct (wf_connections _ Hwf _ _ Hk) as (x & o & i & Hat & _).
  destruct (attached_link _ _ _ _ _ Hat) as (po & pi & xo & xi & _ & _ & _ & _ & _).
  destruct Hat as [_ _ _ (po' & pi' & _ & _ & _ & _ & _ & _ & (xo' & [_ Hc] & _) & _)]. by rewrite Hch, lookup_empty in Hc.
Qed.

Lemma run_delete s : graph_wf (st_world s) → pl_running (w_pipe (st_world s)) = false →
  ∃ w' told, delete_Pipeline s = (Ok tt, with_world w' s) ∧ graph_wf w' ∧ children w' = ∅ ∧ connections w' = ∅ ∧
    w_signals w' = w_signals (st_world s) ++ told ∧ Forall removed told ∧ (told = [] ↔ children (st_world s) = ∅).
Proof.
  intros Hwf Hrun. set (w := st_world s) in *.
  assert (Hend : ∀ w', graph_wf w' → children w' = ∅ →
    (pl ← get_pipe ; assert (bool_decide (pl_children pl = ∅)) ;; assert (bool_decide (pl_processors pl = ∅)) ;;
     assert (bool_decide (pl_producers pl = ∅))) w' = (Ok tt, w')).
  { intros w' Hwf' Hch. run. rewrite Hch. rewrite !bool_decide_true; [done|done|..]; apply map_empty; intros k.
    - destruct (pl_processors (w_pipe w') !! k) as [e|] eqn:E; [|done]. apply (wf_processors _ Hwf') in E as [E _]. by rewrite Hch in E.
    - destruct (pl_producers (w_pipe w') !! k) as [e|] eqn:E; [|done]. apply (wf_producers _ Hwf') in E as [E _]. by rewrite Hch in E. }
  destruct (decide (children w = ∅)) as [Hch|Hch].
  - exists w, []. split_and!; [|done|done|by apply childless|by rewrite app_nil_r|constructor|done].
    unfold delete_Pipeline. apply run_on_world. fold w. run. rewrite Hrun. run. rewrite bool_decide_true by done. run. by apply Hend.
  - destruct (run_clear w Hwf Hrun) as (w' & Hc & Hwf' & Hch' & Hco' & Hs).
    exists w', (cut_signals (qmap_items (connections w)) ++ gone_signals (qmap_items (children w))).
    split_and!; [|done..| |].
    + unfold delete_Pipeline. apply run_on_world. fold w. run. rewrite Hrun. run. rewrite bool_decide_false by done. cbn [negb when].
      erewrite run_bind by exact Hc. by apply Hend.
    + apply Forall_app. split; apply Forall_fmap, Forall_forall; by intros [k x] _.
    + split; [|done]. intros [_ Hg]%app_eq_nil. exfalso. apply Hch, map_empty. intros k.
      destruct (children w !! k) as [e|] eqn:E; [|done]. apply elem_of_qmap_items in E.
      apply fmap_nil_inv in Hg. rewrite Hg in E. by apply elem_of_nil in E.
Qed.
(** A pipeline that runs is not destroyed. *)
Lemma run_delete_running s : pl_running (w_pipe (st_world s)) = true → delete_Pipeline s = (Abort AssertFailed, s).
Proof. intros Hrun. unfold delete_Pipeline. apply run_query. run. rewrite Hrun. reflexivity. Qed.

(** ** Closing *)

(** What [closePipeline] does once the user has been asked. *)
Definition closing (u : User) : D unit :=
  upd_win (mw_set_actions no_actions) ;; upd_win (mw_set_changed false) ;;
  pipeline_call_shown u delete_Pipeline ;;
  upd_win (mw_set_pipeline false) ;; upd_win (mw_set_title "ParleVision - no pipeline") ;; updateWindowTitle.
(** The window after closing a pipeline with elements ([some]) or without: the
    destructor tells the window of every element it removes, which counts as a
    change of the document. *)
Definition closed_window (some : bool) (w : MainWindow) : MainWindow :=
  new_title (mw_set_pipeline false (mw_set_actions (mkActions false some false false false false false) (mw_set_changed some w))).
Lemma run_closing u s w : graph_wf (st_world s) → pl_running (w_pipe (st_world s)) = false →
  ∃ w', closing u (mkBench s w) =
      (Ok tt, mkBench (with_world w' s) (closed_window (bool_decide (children (st_world s) ≠ ∅)) w)) ∧
    graph_wf w' ∧ children w' = ∅ ∧ connections w' = ∅.
Proof.
  intros Hwf Hrun. destruct (run_delete s Hwf Hrun) as (w' & told & Hd & Hwf' & Hch & Hco & Hs & Ht & Hnil).
  exists w'. split_and!; [|done..]. unfold closing. erewrite run_bind by reflexivity. erewrite run_bind by reflexivity.
  unfold pipeline_call_shown, pipeline_call_heard. cbn [bn_store bn_window].
  assert (Hcall : pipeline_call_shown u delete_Pipeline (mkBench s (mw_set_changed false (mw_set_actions no_actions w))) =
    (Ok tt, mkBench (with_world w' s) (if decide (told = []) then mw_set_changed false (mw_set_actions no_actions w)
       else changed_document (mw_set_changed false (mw_set_actions no_actions w))))).
  { unfold pipeline_call_shown, pipeline_call_heard. cbn [bn_store bn_window]. rewrite Hd. cbn [st_world with_world].
    rewrite Hs, drop_app_length, run_removal_slots by done. by destruct (decide (told = [])). }
  erewrite run_bind by exact Hcall. do 2 (erewrite run_bind by reflexivity). rewrite acts_updateWindowTitle. cbn [bn_store bn_window].
  do 2 f_equal. unfold closed_window. destruct (decide (told = [])) as [E|E].
  - rewrite bool_decide_false by (intros Hne; apply Hne; by apply Hnil). done.
  - rewrite bool_decide_true by (intros Hne; apply E; by apply Hnil). done.
Qed.
Lemma good_closed h some w : good h w → good h (closed_window some w).
Proof.
  intros [[Ho Hcl R1 R2 R3 R4] Hs]. split; [split; cbn; try done; by exists some|].
  intros Hh. destruct (Hs Hh) as [_ Hr]. by split.
Qed.

(** ** Sessions *)
Section sessions.
(** The workers take jobs in any order, whatever the plug-ins do in them. *)
Context (beh : eptr → Behaviour) (picks : nat → list (positive * Prog)) (fuel : nat) (indeterminate : bool).
Abbreviation workers := (pool picks).

Lemma sound_world {A} (m : W A) : (∀ w, frames wf_kept m w) → sound (on_world m).
Proof.
  intros Hm s Hs. specialize (Hm (st_world s) Hs). unfold on_world. destruct (m (st_world s)) as [r w']. by split.
Qed.
Lemma keeps_stop_running u f h : keeps (bench_ok f h true) (stop_running beh workers fuel u).
Proof.
  unfold stop_running. eapply leads_bind; [|intros r; apply keeps_when; intros _; apply keeps_heard, sound_world; intros w; apply wk_stop; apply wk_pool].
  intros [s w] a b' Hb [= _ <-]. by destruct s.
Qed.
Lemma leads_closing u f h : leads (bench_ok f h true) (bench_ok f h false) (closing u).
Proof.
  intros [s w] a b' [Hg Hf Hp Hv Hw] Hr. cbn in *. destruct (pl_running (w_pipe (st_world s))) eqn:Hrun.
  - revert Hr. unfold closing. do 2 (erewrite run_bind by reflexivity).
    unfold pipeline_call_shown at 1, pipeline_call_heard at 1, mbind at 1, M_bind at 1. cbn [bn_store].
    rewrite run_delete_running by done. rewrite drop_ge by lia. done.
  - destruct (run_closing u s w Hg Hrun) as (w' & Hc & Hwf' & Hch & Hco). rewrite Hc in Hr. injection Hr as _ <-.
    split; cbn; [done|done|done|done|]. by apply good_closed.
Qed.
Lemma leads_close u f h o : leads (bench_ok f h o) (bench_ok f h false) (closePipeline beh workers fuel u).
Proof.
  unfold closePipeline. apply leads_open. destruct o; cbn [when]; [|apply keeps_ret].
  eapply leads_bind; [apply keeps_stop_running|intros _]. apply leads_win. intros changed.
  eapply leads_bind; [apply keeps_when; intros _; apply keeps_offered|intros _]. apply (leads_closing u).
Qed.

(** A new pipeline in the place of one that is gone. *)
Definition fresh_store (s : Store) : Store :=
  with_world (set_pipe (λ _, pl_set_changed indeterminate empty_pipeline) (st_world s)) s.
Lemma fresh_vacant s : graph_wf (st_world s) → connections (st_world s) = ∅ → vacant (fresh_store s).
Proof.
  intros Hwf Hco. split; [|done|done]. split; cbn; intros *; rewrite ?lookup_empty; try done; try by (split; [done|intros []]).
  - intros Hi Hc. destruct (wf_inputs _ Hwf _ _ _ Hi Hc) as (x & _ & _ & Hk). by rewrite Hco in Hk.
  - intros Ho Hc. destruct (wf_outputs _ Hwf _ _ _ Ho Hc) as (x & _ & _ & Hk). by rewrite Hco in Hk.
  - apply (wf_nodup _ Hwf).
  - apply (wf_inputPins _ Hwf).
  - apply (wf_outputPins _ Hwf).
Qed.

Definition shown_window (w : MainWindow) : MainWindow := mw_set_changed false (mw_set_actions all_actions (mw_set_pipeline true w)).
Lemma run_show_pipeline b : mw_pipeline (bn_window b) = false → show_pipeline b = (Ok tt, mkBench (bn_store b) (shown_window (bn_window b))).
Proof. intros Hp. unfold show_pipeline. erewrite run_bind by reflexivity. by rewrite Hp. Qed.

(** [loadFile] once no pipeline is open. *)
Definition opening (fileName : string) : D unit :=
  on_store (new_Pipeline indeterminate) ;; on_store (load fileName) ;; setCurrentFile fileName ;; show_pipeline.
Definition opened_window (fileName : string) (w : MainWindow) : MainWindow :=
  shown_window (with_file fileName w).
Lemma run_opening f h fn b : classes_ok f → fn ≠ EmptyString → bench_ok f h false b →
  ∃ ok t, load fn (fresh_store (bn_store b)) = (Ok ok, t) ∧
    opening fn b = (Ok tt, mkBench t (opened_window fn (bn_window b))) ∧
    bench_ok f true true (mkBench t (opened_window fn (bn_window b))).
Proof.
  intros Hf Hfn [Hg Hfac Hp Hv Hw]. destruct b as [s w]. cbn in *. destruct (Hv eq_refl) as [_ Hco].
  destruct (load_any_document fn (fresh_store s)) as (ok & t & Hload & Hwf & Hft & _);
    [by rewrite <-Hfac in Hf|by apply fresh_vacant|]. exists ok, t. split_and!; [done| |].
  - unfold opening. erewrite run_bind by (unfold on_store, new_Pipeline; erewrite run_on_world by reflexivity; reflexivity).
    cbn [bn_store bn_window]. fold (fresh_store s).
    erewrite run_bind by (unfold on_store; cbn [bn_store bn_window]; rewrite Hload; reflexivity). cbn [bn_window].
    erewrite run_bind by (by apply acts_setCurrentFile). cbn [bn_store bn_window].
    by apply run_show_pipeline.
  - split; cbn; [done|by rewrite Hft, <-Hfac|done|done|].
    destruct (good_file true w fn Hfn) as [[Ho Hcl R1 R2 R3 R4] Hs]; [by destruct Hw|].
    split; [by split; cbn; try done; exists false|]. intros _. destruct (Hs eq_refl) as [_ Hr].
    split; cbn; [|exact Hr]. intros _. by exists (mw_documentChanged w).
Qed.
Lemma leads_load u f h o fn : classes_ok f → fn ≠ EmptyString →
  leads (bench_ok f h o) (bench_ok f true true) (loadFile beh workers fuel indeterminate u fn).
Proof.
  intros Hf Hfn. unfold loadFile. apply leads_open. apply (leads_bind _ (bench_ok f h false)).
  - destruct o; cbn [when]; [apply leads_close|apply keeps_ret].
  - intros _ b a b' Hb Hr. destruct (run_opening f h fn b Hf Hfn Hb) as (ok & t & _ & Ho & Hb').
    fold (opening fn) in Hr. rewrite Ho in Hr. by injection Hr as _ <-.
Qed.

(** [on_actionNew_triggered] once no pipeline is open. *)
Definition untitled : D unit :=
  setCurrentFile EmptyString ;; on_store (new_Pipeline indeterminate) ;; show_pipeline ;;
  upd_win (mw_set_changed false) ;; updateWindowTitle.
Definition new_window (w : MainWindow) : MainWindow :=
  mw_set_title (titled EmptyString false) (shown_window (mw_set_fileName EmptyString w)).
Lemma run_untitled f h b : bench_ok f h false b →
  untitled b = (Ok tt, mkBench (fresh_store (bn_store b)) (new_window (bn_window b))) ∧
  bench_ok f true true (mkBench (fresh_store (bn_store b)) (new_window (bn_window b))).
Proof.
  intros [Hg Hfac Hp Hv Hw]. destruct b as [s w]. cbn in *. destruct (Hv eq_refl) as [_ Hco]. split.
  - unfold untitled. erewrite run_bind by reflexivity.
    erewrite run_bind by (unfold on_store, new_Pipeline; erewrite run_on_world by reflexivity; reflexivity).
    cbn [bn_store bn_window]. fold (fresh_store s). by erewrite run_bind by (by apply run_show_pipeline).
  - destruct (fresh_vacant s Hg Hco) as [Hwf _ _]. split; cbn; [done|done|done|done|].
    destruct Hw as [[Ho Hcl R1 R2 R3 R4] _]. split; [by split; cbn; try done; exists false|].
    intros _. split; cbn; [|done]. intros _. by exists false.
Qed.

(** An action the theorem speaks about: files have names, the user's edits
    keep the graph well formed. *)
Definition sensible (a : Action) : Prop :=
  match a with Open (Some fn) => fn ≠ EmptyString | Edit m => sound m | _ => True end.
Lemma sound_clear : sound (on_world clear).
Proof.
  apply sound_world. intros w Hwf. destruct (pl_running (w_pipe w)) eqn:Hrun.
  - unfold clear. run. by rewrite Hrun.
  - destruct (run_clear w Hwf Hrun) as (w' & -> & Hwf' & _). done.
Qed.
Lemma leads_perform u f o a : classes_ok f → sensible a →
  leads (bench_ok f true o) (λ b, ∃ o', bench_ok f true o' b) (perform beh workers fuel indeterminate u a).
Proof.
  intros Hf Ha.
  assert (Hsame : ∀ o' (m : D unit), leads (bench_ok f true o) (bench_ok f true o') m → leads (bench_ok f true o) (λ b, ∃ o', bench_ok f true o' b) m)
    by (intros o' m Hm; eapply leads_weaken; [exact Hm|done|intros; by exists o']).
  destruct a as [|[fn|]|n| | | | | |m| |t msg]; cbn [perform].
  - apply (Hsame true). unfold on_actionNew_triggered. eapply leads_bind; [apply leads_close|]. intros _ b x b' Hb Hr.
    destruct (run_untitled f true b Hb) as [Hu Hok]. fold untitled in Hr. rewrite Hu in Hr. by injection Hr as _ <-.
  - apply (Hsame true). by apply leads_load.
  - apply (Hsame o), keeps_ret.
  - unfold openRecentFile. intros b x b' Hb Hr. unfold mbind, M_bind, win, gets in Hr.
    destruct (mw_recentFileActs (bn_window b) !! n) as [fn|] eqn:Hn; [|injection Hr as _ <-; by exists o].
    exists true. revert Hr. apply (leads_load u f true o); [done| |done]. destruct Hb as [_ _ _ _ [[_ _ _ _ R3 R4] _]].
    intros ->. apply R3. rewrite <-R4. by eapply list_elem_of_lookup_2.
  - apply (Hsame o), keeps_save_action; [intros; apply keeps_message|intros; apply calm_message].
  - apply (Hsame o), keeps_saveAs_action; [intros; apply keeps_message|intros; apply calm_message].
  - apply (Hsame false), leads_close.
  - apply (Hsame o). unfold on_actionExit_triggered. apply leads_win. intros c.
    eapply leads_bind; [apply keeps_when; intros _; apply keeps_offered|intros _; apply keeps_exits].
  - apply (Hsame o). unfold closeEvent. apply leads_win. intros c.
    eapply leads_bind; [apply keeps_when; intros _; apply keeps_offered|intros _]. apply leads_open.
    destruct o; cbn [when]; [|apply keeps_ret].
    eapply leads_bind; [apply keeps_stop_running|intros _; apply keeps_heard, sound_clear].
  - apply (Hsame o). unfold edited. apply leads_open. destruct o; cbn [when]; [by apply keeps_heard|apply keeps_ret].
  - apply (Hsame o). apply leads_open. destruct o; cbn [when]; [apply keeps_documentChanged|apply keeps_ret].
  - apply (Hsame o), keeps_message.
Qed.

Inductive session : Bench → Bench → Prop :=
  | session_start b : session b b
  | session_action b0 b1 b2 u a : session b0 b1 → sensible a →
      perform beh workers fuel indeterminate u a b1 = (Ok tt, b2) → session b0 b2.
Lemma session_ok f b0 b : classes_ok f → (∃ o, bench_ok f true o b0) → session b0 b → ∃ o, bench_ok f true o b.
Proof.
  intros Hf H0' Hs. induction Hs as [|b0 b1 b2 u a _ IH Ha Hr]; [done|].
  destruct (IH H0') as [o Hb]. by eapply (leads_perform u f o a Hf Ha).
Qed.

(** ** What never fails *)
Lemma run_not_saved on_message u b : u_button u ≠ Accepted →
  offerToSave on_message u b = (Ok tt, mkBench (bn_store b) (if mw_pipeline (bn_window b) then mw_asked (bn_window b) else bn_window b)).
Proof.
  intros Hu. destruct b as [s w]. unfold offerToSave. erewrite run_bind by reflexivity. cbn [bn_window].
  destruct (mw_pipeline w); [|done]. cbn [when]. erewrite run_bind by reflexivity. by rewrite bool_decide_false.
Qed.
Definition asked_window (w : MainWindow) : MainWindow := if mw_documentChanged w then mw_asked w else w.
Lemma run_close u s w : (mw_documentChanged w = true → u_button u ≠ Accepted) → graph_wf (st_world s) → pl_running (w_pipe (st_world s)) = false →
  mw_pipeline w = true → ∃ w', closePipeline beh workers fuel u (mkBench s w) =
      (Ok tt, mkBench (with_world w' s) (closed_window (bool_decide (children (st_world s) ≠ ∅)) (asked_window w))) ∧
    graph_wf w' ∧ children w' = ∅ ∧ connections w' = ∅.
Proof.
  intros Hu Hwf Hrun Hp. destruct (run_closing u s (asked_window w) Hwf Hrun) as (w' & Hc & Hw').
  exists w'. split; [|done]. unfold closePipeline. erewrite run_bind by reflexivity. cbn [bn_window]. rewrite Hp. cbn [when].
  assert (Hstop : stop_running beh workers fuel u (mkBench s w) = (Ok tt, mkBench s w)).
  { unfold stop_running. erewrite run_bind by (unfold on_store; erewrite run_query by reflexivity; reflexivity).
    cbn [bn_store]. by rewrite Hrun. }
  rewrite (run_bind _ _ _ _ _ Hstop). erewrite run_bind by reflexivity. cbn [bn_window].
  erewrite run_bind; [exact Hc|]. unfold asked_window. destruct (mw_documentChanged w); [|done].
  cbn [when]. rewrite run_not_saved by (by apply Hu). cbn. by rewrite Hp.
Qed.
Lemma run_load u f h o fn b : classes_ok f → bench_ok f h o b → u_button u ≠ Accepted → fn ≠ EmptyString →
  pl_running (w_pipe (st_world (bn_store b))) = false → ∃ t,
  let w := if o then closed_window (bool_decide (children (st_world (bn_store b)) ≠ ∅)) (asked_window (bn_window b)) else bn_window b in
  loadFile beh workers fuel indeterminate u fn b = (Ok tt, mkBench t (opened_window fn w)).
Proof.
  intros Hf Hb Hu Hfn Hrun. destruct b as [s w]. pose proof Hb as [Hg Hfac Hp Hv Hw]. cbn in *.
  unfold loadFile. erewrite run_bind by reflexivity. cbn [bn_window]. rewrite Hp. destruct o; cbn [when].
  - destruct (run_close u s w (λ _, Hu) Hg Hrun Hp) as (w' & Hc & Hwf' & Hch & Hco).
    erewrite run_bind by exact Hc. fold (opening fn).
    edestruct (run_opening f h fn) as (ok & t & _ & Ho & _); [exact Hf|exact Hfn| |exists t; exact Ho].
    split; cbn; [done|done|done|done|]. apply good_closed. unfold asked_window. destruct (mw_documentChanged w); [|done].
    by apply (good_same h w).
  - erewrite run_bind by reflexivity. fold (opening fn).
    edestruct (run_opening f h fn (mkBench s w)) as (ok & t & _ & Ho & _); [exact Hf|exact Hfn|done|]. exists t. exact Ho.
Qed.
(** Whatever the user answers, these actions return when no pipeline runs. *)
Definition simple (a : Action) : Prop :=
  match a with New | Open _ | OpenRecent _ | ClosePipeline | Exit => True | _ => False end.
Lemma run_simple u f o a b : classes_ok f → bench_ok f true o b → u_button u ≠ Accepted → sensible a → simple a →
  pl_running (w_pipe (st_world (bn_store b))) = false → ∃ b', perform beh workers fuel indeterminate u a b = (Ok tt, b').
Proof.
  intros Hf Hb Hu Ha Hs Hrun. pose proof Hb as [Hg Hfac Hp Hv Hw].
  assert (Hclose : ∃ b', closePipeline beh workers fuel u b = (Ok tt, b') ∧ bench_ok f true false b').
  { destruct b as [s w]. cbn in *. destruct o.
    - destruct (run_close u s w (λ _, Hu) Hg Hrun Hp) as (w' & Hc & Hwf' & Hch & Hco). eexists. split; [exact Hc|].
      split; cbn; [done|done|done|done|]. apply good_closed. unfold asked_window. destruct (mw_documentChanged w); [|done].
      by apply (good_same true w).
    - exists (mkBench s w). split; [|done]. unfold closePipeline. erewrite run_bind by reflexivity. cbn. by rewrite Hp. }
  destruct a as [|[fn|]|n| | | | | |m| |t msg]; try done; cbn [perform].
  - destruct Hclose as (b1 & Hc & Hb1). unfold on_actionNew_triggered. erewrite run_bind by exact Hc.
    destruct (run_untitled f true b1 Hb1) as [Hr _]. eauto.
  - destruct (run_load u f true o fn b Hf Hb Hu Ha Hrun) as [t Hr]. cbn [on_actionLoad_triggered]. eauto.
  - by exists b.
  - unfold openRecentFile. erewrite run_bind by reflexivity.
    destruct (mw_recentFileActs (bn_window b) !! n) as [fn|] eqn:Hn; [|by exists b].
    destruct (run_load u f true o fn b Hf Hb Hu) as [t Hr]; [|done|eauto].
    destruct Hw as [[_ _ _ _ R3 R4] _]. intros ->. apply R3. rewrite <-R4. by eapply list_elem_of_lookup_2.
  - destruct Hclose as (b1 & Hc & _). eauto.
  - unfold on_actionExit_triggered. erewrite run_bind by reflexivity. destruct (mw_documentChanged (bn_window b)); cbn [when].
    + erewrite run_bind by (by apply run_not_saved). eexists. reflexivity.
    + erewrite run_bind by reflexivity. eexists. reflexivity.
Qed.

(** C25: whatever the user does in the main window - opening and closing
    pipelines, also from files with anything in them, saving, editing,
    starting and stopping - the actions that are enabled fit whether a
    pipeline is open, exactly one of start and stop can be chosen, the title
    names the file and has a star whenever the document has changed, the
    recent files are at most five, without repetition, the current file
    first, and the pipeline stays well formed; and while no pipeline runs,
    the actions that open or close a document do not fail. *)
Theorem window_in_step buildInformation settings s b : classes_ok (st_factory s) → vacant s →
  NoDup settings → (length settings ≤ MaxRecentFiles)%nat → EmptyString ∉ settings →
  session (mkBench s (new_MainWindow buildInformation settings)) b →
  window_ok (bn_window b) ∧ in_step (bn_window b) ∧ graph_wf (st_world (bn_store b)) ∧
  (pl_running (w_pipe (st_world (bn_store b))) = false → ∀ u a, u_button u ≠ Accepted → sensible a → simple a →
     ∃ b', perform beh workers fuel indeterminate u a b = (Ok tt, b')).
Proof.
  intros Hf [Hwf Hch Hco] Hnd Hlen Hne Hs.
  destruct (session_ok (st_factory s) (mkBench s (new_MainWindow buildInformation settings)) b Hf) as [o Hb]; [|exact Hs|].
  { exists false. split; cbn; try done. split.
    - split; cbn; try done; [by exists false|by rewrite firstn_all2].
    - intros _. by split. }
  pose proof Hb as [Hg Hfac Hp Hv [Hw Hst]]. split_and!; [done|by apply Hst|done|].
  intros Hrun u a Hu Ha Hsi. by eapply run_simple.
Qed.
End sessions.
End window.
