(* ===== verification/DocumentTheorems.v ===== *)
(** What saving and closing do to the document and what the window says about
    it. *)
From Stdlib Require Import Ascii.
From S2P Require Export DocumentProof.
From S2P Require Import StopProof.

Section document.
Context `{HashOrder} `{QMetaType} `{QtCore} `{!Plugins}.
Context (beh : eptr → Behaviour) (picks : nat → list (positive * Prog)) (fuel : nat) (indeterminate : bool).
Abbreviation L := (M Store).
Abbreviation D := (M Bench).
Abbreviation workers := (pool picks).
Abbreviation does u a b := (perform beh workers fuel indeterminate u a b).

(** ** Saving *)

(** The window after [save_document], whatever became of it. *)
Definition saved_window (w : MainWindow) : MainWindow := mw_set_title (titled (mw_fileName w) false) (mw_set_changed false w).

Lemma named_same s : named (pl_filename (w_pipe (st_world s))) s = s.
Proof. destruct s as [[? ? ? ? [] ? ? ?] ? ? ? ?]. reflexivity. Qed.
Lemma run_saveAs name s : saveAs name s = save (named name s).
Proof.
  unfold saveAs. erewrite run_bind by (by apply run_query). case_bool_decide as Hn; cbn [negb when].
  - erewrite run_bind by reflexivity. by rewrite <-Hn, named_same.
  - by erewrite run_bind by (by apply run_on_world).
Qed.

Definition cannot_save (name : string) : string := "Failed to save pipeline Failed to open file " +:+ name.
Lemma run_save_unwritable s : pl_changed (w_pipe (st_world s)) = true → canOpen (pl_filename (w_pipe (st_world s))) = false →
  save s = (Ok false, with_world (add_signal (pipelineMessage QtWarningMsg (cannot_save (pl_filename (w_pipe (st_world s))))) (st_world s)) s).
Proof.
  intros Hch Hopen. unfold save, catch_runtime_error, try_catch. erewrite run_bind by (by apply run_query). rewrite Hch. cbn [when].
  unfold serialize at 1. rewrite Hopen. cbn [negb]. reflexivity.
Qed.

(** What is written, and what is shown: nothing when the pipeline counts as
    unchanged, the document when the file can be written, otherwise a warning. *)
Definition files_after (name : string) (s : Store) : gmap string string :=
  if pl_changed (w_pipe (st_world s)) && canOpen name then <[name := doc_toString (document s)]> (st_files s) else st_files s.
Definition dialogs_after (name : string) (s : Store) : list (QtMsgType * string) :=
  if pl_changed (w_pipe (st_world s)) && negb (canOpen name) then [(QtWarningMsg, cannot_save name)] else [].

Lemma document_named name s : document (named name s) = document s.
Proof. reflexivity. Qed.
Lemma savable_named name s : savable s → savable (named name s).
Proof. intros Hs e He. destruct (Hs e He) as (x & cls & ps & [? ? ?] & Hok). by exists x, cls, ps. Qed.

Lemma run_save_document u s w : graph_wf (st_world s) → (pl_changed (w_pipe (st_world s)) = true → savable s) → mw_pipeline w = true →
  ∃ s', save_document (window_message u) (mkBench s w) =
      (Ok tt, mkBench s' (saved_window (foldl (λ v d, mw_shown d.1 d.2 v) w (dialogs_after (mw_fileName w) s)))) ∧
    st_files s' = files_after (mw_fileName w) s ∧ children (st_world s') = children (st_world s) ∧
    connections (st_world s') = connections (st_world s) ∧ graph_wf (st_world s') ∧
    pl_running (w_pipe (st_world s')) = pl_running (w_pipe (st_world s)).
Proof.
  intros Hwf Hsv Hp. set (name := mw_fileName w). set (w0 := foldl _ _ _).
  assert (Hcall : ∃ ok s', pipeline_call_heard (window_message u) (saveAs name) (mkBench s w) = (Ok ok, mkBench s' w0) ∧
    st_files s' = files_after name s ∧ children (st_world s') = children (st_world s) ∧ connections (st_world s') = connections (st_world s) ∧
    graph_wf (st_world s') ∧ pl_running (w_pipe (st_world s')) = pl_running (w_pipe (st_world s))).
  { assert (Hn : graph_wf (set_pipe (pl_set_filename name) (st_world s))) by (by apply filename_wf).
    unfold pipeline_call_heard. cbn [bn_store bn_window]. rewrite run_saveAs. subst w0. unfold files_after, dialogs_after.
    destruct (pl_changed (w_pipe (st_world s))) eqn:Hch; cbn [andb].
    - destruct (canOpen name) eqn:Hopen; cbn [negb].
      + rewrite run_save; [|done|apply savable_named; by apply Hsv|done|done]. cbn [st_world saved with_world named].
        cbn [w_signals add_signal set_pipe w_pipe]. rewrite drop_app_length. cbn [for_each].
        eexists _, _. split; [reflexivity|]. cbn. rewrite insert_insert_eq. split_and!; try done. apply graph_wf_signal.
        assert (Hs : same_graph (set_pipe (pl_set_changed false) (set_pipe (pl_set_filename name) (st_world s))) (set_pipe (pl_set_filename name) (st_world s))) by done.
        by rewrite Hs.
      + rewrite run_save_unwritable by done. cbn [st_world with_world named w_signals add_signal set_pipe w_pipe].
        rewrite drop_app_length. cbn [for_each]. eexists _, _. split; [reflexivity|]. split_and!; try done. by apply graph_wf_signal.
    - rewrite run_save_unchanged by done. cbn [st_world with_world named w_signals set_pipe]. rewrite drop_all. cbn [for_each].
      eexists _, _. split; [reflexivity|]. done. }
  destruct Hcall as (ok & s' & Hcall & Hrest). exists s'. split; [|exact Hrest].
  unfold save_document. erewrite run_bind by reflexivity. erewrite run_bind by reflexivity. cbn [bn_window]. rewrite Hp. cbn [when].
  unfold try_catch. rewrite (run_bind _ _ _ _ _ Hcall). erewrite run_bind by reflexivity. rewrite acts_updateWindowTitle.
  cbn [bn_store bn_window]. unfold saved_window, new_title. do 3 f_equal.
Qed.

(** Saving under a name.  A pipeline that counts as changed is written when
    the file can be written, otherwise the user gets a warning; one that does
    not count as changed is not written at all, also under a new name.  In
    each case the window says afterwards that the document is saved: no star,
    the new name in the title, the name first in the recent files. *)
Theorem saveAs_window u s w : graph_wf (st_world s) → savable s → mw_pipeline w = true → u_fileName u ≠ EmptyString →
  let name := u_fileName u in
  ∃ s' w', does u SaveAs (mkBench s w) = (Ok tt, mkBench s' w') ∧
    st_files s' = (if pl_changed (w_pipe (st_world s)) && canOpen name
                   then <[name := doc_toString (document s)]> (st_files s) else st_files s) ∧
    mw_dialogs w' = mw_dialogs w ++ (if pl_changed (w_pipe (st_world s)) && negb (canOpen name)
      then [(QtWarningMsg, "Failed to save pipeline Failed to open file " +:+ name)] else []) ∧
    mw_documentChanged w' = false ∧ mw_fileName w' = name ∧ mw_title w' = titled name false ∧
    mw_recentFileList w' = add_recent name (mw_recentFileList w) ∧
    children (st_world s') = children (st_world s) ∧ connections (st_world s') = connections (st_world s).
Proof.
  intros Hwf Hsv Hp Hn name.
  destruct (run_save_document u s (mw_set_fileName name w) Hwf (λ _, Hsv) Hp) as (s' & Hrun & Hf & Hch & Hco & _).
  exists s'. eexists. split.
  { unfold perform, on_actionSaveAs_triggered. erewrite run_bind by reflexivity. cbn [bn_window]. rewrite Hp.
    rewrite bool_decide_false by done. cbn [andb negb when]. erewrite run_bind by reflexivity. cbn [bn_store bn_window].
    erewrite run_bind by exact Hrun. by apply acts_setCurrentFile. }
  cbn [bn_store bn_window]. fold name. unfold dialogs_after. cbn [mw_fileName mw_set_fileName].
  split; [exact Hf|]. destruct (pl_changed (w_pipe (st_world s)) && negb (canOpen name)); cbn -[add_recent take];
    rewrite ?app_nil_r; split_and!; done.
Qed.

(** ** Edits that are lost *)
Definition connect (o : optr) (i : iptr) : L unit := on_world (connectPins o i ;; mret tt).

(** C35: connecting two pins marks the document as changed, but not the
    pipeline.  When the pipeline counts as unchanged, as it does after every
    save, saving after making a connection writes nothing, and takes the star
    away all the same; closing then does not ask whether to save, and the
    connection is lost. *)
Theorem connection_lost u s w o i po pi : graph_wf (st_world s) → pins_at (st_world s) o i po pi → verdict po pi = Accept →
  pl_changed (w_pipe (st_world s)) = false → pl_running (w_pipe (st_world s)) = false →
  mw_pipeline w = true → mw_documentChanged w = false → mw_fileName w ≠ EmptyString → owned_out (st_world s) o po → owned_in (st_world s) i pi →
  ∃ s1 w1 s2 w2 s3 w3 id, does u (Edit (connect o i)) (mkBench s w) = (Ok tt, mkBench s1 w1) ∧
    mw_documentChanged w1 = true ∧ mw_title w1 = titled (mw_fileName w) true ∧ is_Some (connections (st_world s1) !! id) ∧
    does u Save (mkBench s1 w1) = (Ok tt, mkBench s2 w2) ∧ mw_documentChanged w2 = false ∧
    mw_title w2 = titled (mw_fileName w) false ∧ st_files s2 = st_files s ∧
    does u ClosePipeline (mkBench s2 w2) = (Ok tt, mkBench s3 w3) ∧ mw_offers w3 = mw_offers w2 ∧
    st_files s3 = st_files s ∧ connections (st_world s3) = ∅.
Proof.
  intros Hwf Hpins Hv Hch Hrun Hp Hclean Hname Howno Howni.
  set (id := scan_ids (qmap_items (connections (st_world s))).*1 0). set (c := fresh_key (w_conns (st_world s))).
  set (v := connected (st_world s) id c o i po pi).
  assert (Hcon : connectPins o i (st_world s) = (Ok id, v)) by (by apply run_connectPins_scan).
  assert (Hfree : connections (st_world s) !! id = None) by (by destruct (run_can_then_connect _ _ _ _ _ Hpins Hv) as (? & Hfree & _)).
  assert (Hwfv : graph_wf v) by (pose proof Hpins as [Hpo Hpi _ _]; apply connected_wf; try done; apply fresh_key_fresh).
  set (w1 := changed_document w).
  destruct (run_save_document u (with_world v s) w1) as (s2 & Hsave & Hf2 & Hch2 & Hco2 & Hwf2 & Hrun2);
    [exact Hwfv|by cbn; rewrite Hch|unfold w1, changed_document; by rewrite Hclean|].
  assert (Hw1 : w1 = mw_set_title (titled (mw_fileName w) true) (mw_set_actions (mw_actions w1) (mw_set_changed true w)))
    by (unfold w1, changed_document; by rewrite Hclean).
  unfold files_after, dialogs_after in *. cbn in Hf2. rewrite Hch in Hf2. cbn [andb] in *. cbn in Hsave. rewrite Hch in Hsave. cbn in Hsave.
  destruct (run_close beh picks fuel u s2 (saved_window w1)) as (v3 & Hclose & _ & _ & Hco3);
    [done|exact Hwf2|by rewrite Hrun2|by rewrite Hw1|].
  exists (with_world v s), w1, s2, (saved_window w1). eexists _, _, id. split_and!.
  - unfold perform, edited. erewrite run_bind by reflexivity. cbn [bn_window]. rewrite Hp. cbn [when].
    unfold pipeline_call_shown, pipeline_call_heard, connect. cbn [bn_store bn_window].
    erewrite run_on_world by (erewrite run_bind by exact Hcon; reflexivity). cbn [st_world with_world].
    replace (w_signals v) with (w_signals (st_world s) ++ [connectionAdded id c]) by done.
    rewrite drop_app_length. cbn [for_each window_slot]. erewrite run_bind by apply acts_documentChanged. reflexivity.
  - by rewrite Hw1.
  - by rewrite Hw1.
  - cbn. rewrite lookup_insert_eq. eauto.
  - assert (Hp1 : mw_pipeline w1 = true ∧ mw_fileName w1 = mw_fileName w) by (by rewrite Hw1). destruct Hp1 as [Hp1 Hn1].
    unfold perform, on_actionSave_triggered. erewrite run_bind by reflexivity. erewrite run_bind by reflexivity.
    cbn [bn_window]. rewrite Hp1, Hn1. cbn [when]. rewrite bool_decide_false by done. exact Hsave.
  - done.
  - by rewrite Hw1.
  - exact Hf2.
  - exact Hclose.
  - done.
  - exact Hf2.
  - exact Hco3.
Qed.

(** ** Edits that are never offered to be saved *)
(** C34: closing a document, when no pipeline runs: the question whether to save
    is asked when the document has changed, and whichever of its two buttons
    the user chooses nothing is written, every element is removed, and no
    pipeline is left.  When the pipeline had elements the window counts
    what their removal told it as a change of the document: it stays changed,
    with a star and with saving enabled, although there is no document; and
    when the next file is opened its title has the star although it is not
    changed. *)
Theorem closing_discards u f s w fn : bench_ok f true true (mkBench s w) → classes_ok f →
  pl_running (w_pipe (st_world s)) = false → u_button u = button_Save ∨ u_button u = button_Discard → fn ≠ EmptyString →
  let some := bool_decide (children (st_world s) ≠ ∅) in
  (∃ s' w', does u ClosePipeline (mkBench s w) = (Ok tt, mkBench s' w') ∧ st_files s' = st_files s ∧
     mw_offers w' = (mw_offers w + if mw_documentChanged w then 1 else 0)%nat ∧
     mw_pipeline w' = false ∧ children (st_world s') = ∅ ∧ connections (st_world s') = ∅ ∧
     mw_documentChanged w' = some ∧ ac_save (mw_actions w') = some ∧ mw_title w' = titled (mw_fileName w) some) ∧
  (∃ s' w', does u (Open (Some fn)) (mkBench s w) = (Ok tt, mkBench s' w') ∧
     mw_documentChanged w' = false ∧ mw_title w' = titled fn some).
Proof.
  intros Hb Hf Hrun Hu Hfn some. pose proof Hb as [Hwf Hfac Hp _ _]. cbn in *.
  assert (Hne : u_button u ≠ Accepted) by (destruct Hu as [-> | ->]; done).
  split.
  - destruct (run_close beh picks fuel u s w (λ _, Hne) Hwf Hrun Hp) as (v & Hc & _ & Hch & Hco).
    eexists _, _. split; [exact Hc|]. split_and!; try done; cbn; unfold asked_window; destruct (mw_documentChanged w); cbn; try done; lia.
  - destruct (run_load beh picks fuel indeterminate u f true true fn (mkBench s w) Hf Hb Hne Hfn Hrun) as [t Hl].
    eexists _, _. split; [exact Hl|]. split; [done|]. cbn [bn_window bn_store]. fold some.
    unfold opened_window, shown_window, with_file, new_title. cbn. by destruct some.
Qed.
End document.
