(* ===== verification/Examples.v ===== *)
(** Concrete pipelines, built by running the model, at which the theorems of
    the other files are instantiated. *)
From S2P Require Export Construction ScheduleProof GraphClear.

#[local] Existing Instance canonical_order.
#[local] Existing Instance example_types.

Definition empty_world : World := mkWorld ∅ ∅ ∅ ∅ empty_pipeline ∅ ∅ [].

Lemma empty_wf : graph_wf empty_world.
Proof.
  split; cbn; intros *; rewrite ?lookup_empty; try done; try (split; [done|intros []; done]).
Qed.

(** ** Steps of a construction keep the invariant *)
Definition after {A} (m : W A) (w : World) : World := (m w).2.

Lemma after_run {A} (m : W A) w r w' : m w = (r, w') → after m w = w'.
Proof. intros H. unfold after. by rewrite H. Qed.

Lemma after_ok {A} (m : W A) w r : (m w).1 = r → m w = (r, after m w).
Proof. intros <-. unfold after. by destruct (m w). Qed.

Lemma after_element w kind name : graph_wf w → graph_wf (after (new_element kind name) w).
Proof. apply new_element_wf. Qed.

Lemma after_input w e x name r s g cls t : graph_wf w → w_elems w !! e = Some x → name ≠ EmptyString →
  graph_wf (after (createInputPin name e r s g cls t) w).
Proof.
  intros Hwf Hx Hn. unfold after. erewrite run_createInputPin by done. cbn [snd].
  destruct (next_pin_id_least (el_inputPins x)) as (Hfree & _).
  apply with_input_wf; [done|done|apply fresh_key_fresh|done|done|done].
Qed.

Lemma after_output w e x name cls t : graph_wf w → w_elems w !! e = Some x → name ≠ EmptyString →
  graph_wf (after (createOutputPin name e cls t) w).
Proof.
  intros Hwf Hx Hn. unfold after. erewrite run_createOutputPin by done. cbn [snd].
  destruct (next_pin_id_least (el_outputPins x)) as (Hfree & _).
  apply with_output_wf; [done|done|apply fresh_key_fresh|done|done|done].
Qed.

Lemma after_add w e x : graph_wf w → w_elems w !! e = Some x → el_id x = -1 →
  bool_decide (e ∈ qmap_values (children w)) = false → graph_wf (after (addElement e) w).
Proof.
  intros Hwf Hx Hid Hl%bool_decide_eq_false. destruct (run_addElement w e x Hx Hid) as (id & Hfree & _ & Hrun).
  unfold after. rewrite Hrun. apply added_wf; [done..| |done].
  intros k Hk. apply Hl, elem_of_qmap_values. eauto.
Qed.

Definition owned_outb (w : World) (o : optr) (po : IOutputPin) : bool :=
  match w_elems w !! op_owner po with
  | Some x => bool_decide (children w !! el_id x = Some (op_owner po)) &&
              bool_decide (el_outputPins x !! op_id po = Some o)
  | None => false
  end.
Definition owned_inb (w : World) (i : iptr) (pi : IInputPin) : bool :=
  match w_elems w !! ip_owner pi with
  | Some x => bool_decide (children w !! el_id x = Some (ip_owner pi)) &&
              bool_decide (el_kind x = KProcessor) && bool_decide (el_inputPins x !! ip_id pi = Some i)
  | None => false
  end.
Lemma owned_outb_ok w o po : owned_outb w o po = true → owned_out w o po.
Proof.
  unfold owned_outb, owned_out, in_pipeline. destruct (w_elems w !! _) as [x|] eqn:Hx; [|done].
  intros [H1%bool_decide_eq_true H2%bool_decide_eq_true]%andb_prop. exists x. done.
Qed.
Lemma owned_inb_ok w i pi : owned_inb w i pi = true → owned_in w i pi.
Proof.
  unfold owned_inb, owned_in, in_pipeline. destruct (w_elems w !! _) as [x|] eqn:Hx; [|done].
  intros [[H1%bool_decide_eq_true H2%bool_decide_eq_true]%andb_prop H3%bool_decide_eq_true]%andb_prop.
  exists x. done.
Qed.

Lemma after_connect w o i po pi : graph_wf w → w_outs w !! o = Some po → w_ins w !! i = Some pi →
  owned_outb w o po = true → owned_inb w i pi = true → verdict po pi = Accept →
  graph_wf (after (connectPins o i) w).
Proof.
  intros Hwf Hpo Hpi Hoo%owned_outb_ok Hoi%owned_inb_ok Hv.
  destruct (run_connectPins w o i po pi) as (id & Hid & _ & Hrun); [by apply owned_pins_at|done|].
  unfold after. rewrite Hrun. apply connected_wf; [done..|apply fresh_key_fresh|done].
Qed.

(** ** A camera feeding a filter *)

(** Two elements outside the pipeline: producer 1 with output pin 1 and
    processor 2 with input pin 1 and output pin 2. *)
Definition ex_parts : World :=
  after (createOutputPin "result" 2 TypedPin 1)
    (after (createInputPin "image" 2 CONNECTION_REQUIRED CONNECTION_SYNCHRONOUS CONNECTION_GUARANTEES_DATA TypedPin 1)
      (after (createOutputPin "image" 1 TypedPin 1)
        (after (new_element KProcessor "Blur")
          (after (new_element KProducer "Camera") empty_world)))).

Definition ex_added : World := after (addElement 2) (after (addElement 1) ex_parts).
Definition ex : World := after (connectPins 1 1) ex_added.
(** The filter feeding itself through a second filter: a cycle. *)
Definition ex_loop_parts : World :=
  after (createOutputPin "out" 2 TypedPin 1)
    (after (createInputPin "in" 2 CONNECTION_REQUIRED CONNECTION_SYNCHRONOUS CONNECTION_GUARANTEES_DATA TypedPin 1)
      (after (createOutputPin "out" 1 TypedPin 1)
        (after (createInputPin "in" 1 CONNECTION_REQUIRED CONNECTION_SYNCHRONOUS CONNECTION_GUARANTEES_DATA TypedPin 1)
          (after (new_element KProcessor "B") (after (new_element KProcessor "A") empty_world))))).
Definition ex_loop : World :=
  after (connectPins 2 1) (after (connectPins 1 2) (after (addElement 2) (after (addElement 1) ex_loop_parts))).

Ltac build :=
  repeat lazymatch goal with
  | |- graph_wf empty_world => apply empty_wf
  | |- graph_wf (after (connectPins _ _) _) => eapply after_connect; [|vm_compute; reflexivity..]
  | |- graph_wf (after (addElement _) _) => eapply after_add; [|vm_compute; reflexivity..]
  | |- graph_wf (after (createOutputPin _ _ _ _) _) => eapply after_output; [|vm_compute; reflexivity|done]
  | |- graph_wf (after (createInputPin _ _ _ _ _ _ _) _) => eapply after_input; [|vm_compute; reflexivity|done]
  | |- graph_wf (after (new_element _ _) _) => apply after_element
  end.

Lemma ex_parts_wf : graph_wf ex_parts.
Proof. unfold ex_parts. build. Qed.
Lemma ex_added_wf : graph_wf ex_added.
Proof. unfold ex_added, ex_parts. build. Qed.
Lemma ex_wf : graph_wf ex.
Proof. unfold ex, ex_added, ex_parts. build. Qed.
Lemma ex_loop_wf : graph_wf ex_loop.
Proof. unfold ex_loop, ex_loop_parts. build. Qed.

Lemma child_cases w e : child w e ↔ e ∈ qmap_values (children w).
Proof. by rewrite elem_of_qmap_values. Qed.
Lemma ex_children : qmap_values (children ex) = [1; 2]%positive.
Proof. by vm_compute. Qed.
Lemma ex_loop_children : qmap_values (children ex_loop) = [1; 2]%positive.
Proof. by vm_compute. Qed.

(** Being stopped is decidable on a concrete heap. *)
Definition stoppedb (w : World) : bool :=
  negb (pl_running (w_pipe w)) && bool_decide (runQueue w = ∅) && bool_decide (w_jobs w = ∅) &&
  forallb (λ e, bool_decide (state_of w e = Some PLE_UNDEFINED)) (qmap_values (children w)) &&
  negb (pl_heartbeatActive (w_pipe w)) && bool_decide (pl_testCount (w_pipe w) = 0) &&
  bool_decide (readyQueue w = ∅).

Lemma stoppedb_ok w : graph_wf w → stoppedb w = true → stopped_inv w.
Proof.
  intros Hwf Hb. unfold stoppedb in Hb. rewrite !andb_true_iff, !bool_decide_eq_true, !negb_true_iff in Hb.
  destruct Hb as [[[[[[Hr Hrq] Hj] Hst] Hh] Ht] Hrd].
  split; try done.
  - intros e He%child_cases. rewrite forallb_forall in Hst. specialize (Hst e).
    apply list_elem_of_In, Hst in He. by apply bool_decide_eq_true in He.
  - intros k l. by rewrite Hrd, lookup_empty.
Qed.
Lemma ex_stopped : stopped_inv ex.
Proof. apply stoppedb_ok; [apply ex_wf|by vm_compute]. Qed.
Lemma ex_added_stopped : stopped_inv ex_added.
Proof. apply stoppedb_ok; [apply ex_added_wf|by vm_compute]. Qed.
Lemma ex_loop_stopped : stopped_inv ex_loop.
Proof. apply stoppedb_ok; [apply ex_loop_wf|by vm_compute]. Qed.

Lemma nonempty_by_size {A} (m : gmap Z A) : bool_decide (m = ∅) = false → m ≠ ∅.
Proof. apply bool_decide_eq_false. Qed.
Lemma ex_nonempty : children ex ≠ ∅.
Proof. apply nonempty_by_size. by vm_compute. Qed.
Lemma ex_loop_nonempty : children ex_loop ≠ ∅.
Proof. apply nonempty_by_size. by vm_compute. Qed.

(** Whether the graph has a cycle is what the ordering computes. *)
Lemma acyclic_by_run w b ord : graph_wf w → children w ≠ ∅ →
  (generateGraphOrdering w).1 = Ok (b, ord) → acyclic w ↔ b = true.
Proof.
  intros Hwf Hne Hrun. destruct (run_generateGraphOrdering w Hwf Hne) as (b' & ord' & Hr & Hb & _).
  rewrite Hr in Hrun. cbn in Hrun. injection Hrun as <- <-. by rewrite Hb.
Qed.
Lemma ex_acyclic : acyclic ex.
Proof. eapply acyclic_by_run; [apply ex_wf|apply ex_nonempty|vm_compute; reflexivity|done]. Qed.
Lemma ex_loop_cyclic : ¬ acyclic ex_loop.
Proof. erewrite acyclic_by_run; [|apply ex_loop_wf|apply ex_loop_nonempty|vm_compute; reflexivity]. done. Qed.

Lemma satisfied_by_run w e : graph_wf w → is_Some (w_elems w !! e) →
  (requiredPinsConnected e w).1 = Ok true → satisfied w e.
Proof.
  intros Hwf He Hrun. destruct (run_requiredPinsConnected w e Hwf He) as (b & Hr & Hb).
  rewrite Hr in Hrun. injection Hrun as ->. by apply Hb.
Qed.
Lemma unsatisfied_by_run w e : graph_wf w → is_Some (w_elems w !! e) →
  (requiredPinsConnected e w).1 = Ok false → ¬ satisfied w e.
Proof.
  intros Hwf He Hrun. destruct (run_requiredPinsConnected w e Hwf He) as (b & Hr & Hb).
  rewrite Hr in Hrun. injection Hrun as ->. intros Hs. by apply Hb in Hs.
Qed.

(** The plugins of the examples, unless stated otherwise. *)
Definition plain : eptr → Behaviour := λ _, default_behaviour.

Lemma ex_startable e : child ex e → satisfied ex e ∧ inits plain e ∧ starts plain e.
Proof.
  intros He%child_cases. rewrite ex_children in He. split; [|split; split; done].
  apply elem_of_cons in He as [->|[->|[]%not_elem_of_nil]%elem_of_cons];
    (apply satisfied_by_run; [apply ex_wf|eexists|]; by vm_compute).
Qed.
Lemma ex_loop_startable e : child ex_loop e → satisfied ex_loop e ∧ inits plain e.
Proof.
  intros He%child_cases. rewrite ex_loop_children in He. split; [|split; done].
  apply elem_of_cons in He as [->|[->|[]%not_elem_of_nil]%elem_of_cons];
    (apply satisfied_by_run; [apply ex_loop_wf|eexists|]; by vm_compute).
Qed.

(** ** Running it *)
Definition idle_pool : nat → list (positive * Prog) := λ _, [].

Definition ex_started : World := after (start plain) ex.
Definition beat (w : World) : World := after (schedule plain (λ _, true) 0 (pool idle_pool) 1) w.
(** The producer has been dispatched ... *)
Definition ex_beat : World := beat ex_started.
(** ... its job has put an image ... *)
Definition ex_worked : World := after (run_job 1 (PPut 1 (mkQVariant 1 7) (PReturn true))) ex_beat.
(** ... or failed. *)
Definition ex_failed : World := after (run_job 1 (PReturn false)) ex_beat.

Lemma ex_started_run : start plain ex = (Ok tt, ex_started) ∧ ready_to_schedule ex_started ∧ same_graph ex ex_started.
Proof.
  destruct (run_start plain ex ex_stopped ex_nonempty ex_acyclic ex_startable)
    as (w' & Hrun & Hinv & Hg & _ & Ht & _).
  assert (ex_started = w') as -> by (by eapply after_run). split_and!; [exact Hrun|by split|exact Hg].
Qed.

(** No job has failed, as a check on a concrete heap. *)
Definition no_failureb (w : World) : bool :=
  forallb (λ '(id, it), negb (bool_decide (w_futures w !! ri_result it = Some false))) (map_to_list (runQueue w)).
Lemma no_failureb_ok w : no_failureb w = true →
  ∀ id it, runQueue w !! id = Some it → w_futures w !! ri_result it ≠ Some false.
Proof.
  unfold no_failureb. rewrite forallb_forall. intros Hall id it Hit%elem_of_map_to_list.
  specialize (Hall (id, it)). apply list_elem_of_In in Hit. specialize (Hall Hit). cbn in Hall.
  by apply negb_true_iff, bool_decide_eq_false in Hall.
Qed.

Lemma ex_beat_run : schedule plain (λ _, true) 0 (pool idle_pool) 1 ex_started = (Ok tt, ex_beat) ∧
  ready_to_schedule ex_beat.
Proof.
  destruct (run_schedule_ok plain ex_started (λ _, true) 0 (pool idle_pool) 1) as (w' & Hrun & Hw & _).
  - apply ex_started_run.
  - apply no_failureb_ok. by vm_compute.
  - assert (ex_beat = w') as -> by (by eapply after_run). split; [exact Hrun|exact Hw].
Qed.
Lemma ex_worked_run : run_job 1 (PPut 1 (mkQVariant 1 7) (PReturn true)) ex_beat = (Ok tt, ex_worked).
Proof. unfold ex_worked. apply (after_ok (run_job _ _)). vm_compute. reflexivity. Qed.
Lemma ex_failed_run : run_job 1 (PReturn false) ex_beat = (Ok tt, ex_failed).
Proof. unfold ex_failed. apply (after_ok (run_job _ _)). vm_compute. reflexivity. Qed.
Lemma ex_failed_ready : ready_to_schedule ex_failed.
Proof.
  destruct ex_beat_run as [_ Hw]. apply (tick_inv plain ex_beat ex_failed Hw).
  eapply tick_job. apply ex_failed_run.
Qed.
Lemma ex_ticks : rtc (tick plain) ex_started ex_worked.
Proof.
  eapply rtc_l; [eapply tick_schedule; [|apply ex_beat_run]; apply no_failureb_ok; by vm_compute|].
  apply rtc_once. eapply tick_job. apply ex_worked_run.
Qed.
