(* ===== verification/LoaderExamples.v ===== *)
(** The assumptions of the loader can be met: element constructors written
    with the [create...Pin] functions make elements of a fixed layout, and a
    concrete encoding of documents, numbers and properties satisfies what is
    asked of Qt.  A saved and reloaded pipeline instantiates the theorems. *)
From Stdlib Require Import Ascii.
From S2P Require Export Persistence.
From S2P Require Import StopProof DocumentTheorems.
From S2P Require Export Examples.

(** ** Constructors made of the creation functions *)
Section constructors.
Context `{HashOrder} `{QMetaType}.
Implicit Types w : World.

(** [e] has been created and given pins since [w]. *)
Record built (w w' : World) (e : eptr) (x : Element) (ly : Layout) : Prop := {
  bu_wf : graph_wf w';
  bu_fresh : w_elems w !! e = None;
  bu_elems : w_elems w' = <[e := x]> (w_elems w);
  bu_ins : w_ins w ⊆ w_ins w';
  bu_outs : w_outs w ⊆ w_outs w';
  bu_conns : w_conns w' = w_conns w;
  bu_pipe : w_pipe w' = w_pipe w;
  bu_id : el_id x = -1;
  bu_layout : layout w' x = ly;
  bu_new_ins : ∀ i p, w_ins w !! i = None → w_ins w' !! i = Some p → ip_connection p = None;
  bu_new_outs : ∀ o p, w_outs w !! o = None → w_outs w' !! o = Some p → op_connections p = []
}.

Lemma built_new w kind name : graph_wf w →
  ∃ w', new_element kind name w = (Ok (fresh_key (w_elems w)), w') ∧
    built w w' (fresh_key (w_elems w)) (fresh_element kind name) (mkLayout kind ∅ ∅).
Proof.
  intros Hwf. eexists. split; [unfold new_element; runs; reflexivity|].
  split; cbn; try done; [by apply new_element_wf|by apply fresh_key_fresh|congruence..].
Qed.

Lemma layout_with_input w x x' i p id w' : pins_allocated w x → w_ins w !! i = None →
  x' = el_set_inputPins (<[id := i]> (el_inputPins x)) x → w_ins w' = <[i := p]> (w_ins w) → w_outs w' = w_outs w →
  layout w' x' = mkLayout (el_kind x) (<[id := in_type p]> (ly_ins (layout w x))) (ly_outs (layout w x)).
Proof.
  intros [Hi _] Hn -> Hins Houts. unfold layout. cbn. rewrite Hins, Houts. f_equal. apply map_eq. intros k.
  rewrite lookup_omap. destruct (decide (k = id)) as [->|Hne].
  - rewrite !lookup_insert_eq. cbn. by rewrite lookup_insert_eq.
  - rewrite !lookup_insert_ne by done. rewrite lookup_omap. destruct (el_inputPins x !! k) as [j|] eqn:Hk; [|done].
    cbn. destruct (Hi _ _ Hk). rewrite lookup_insert_ne by congruence. done.
Qed.

Lemma layout_with_output w x x' o p id w' : pins_allocated w x → w_outs w !! o = None →
  x' = el_set_outputPins (<[id := o]> (el_outputPins x)) x → w_outs w' = <[o := p]> (w_outs w) → w_ins w' = w_ins w →
  layout w' x' = mkLayout (el_kind x) (ly_ins (layout w x)) (<[id := op_typeId p]> (ly_outs (layout w x))).
Proof.
  intros [_ Ho] Hn -> Houts Hins. unfold layout. cbn. rewrite Hins, Houts. f_equal. apply map_eq. intros k.
  rewrite lookup_omap. destruct (decide (k = id)) as [->|Hne].
  - rewrite !lookup_insert_eq. cbn. by rewrite lookup_insert_eq.
  - rewrite !lookup_insert_ne by done. rewrite lookup_omap. destruct (el_outputPins x !! k) as [j|] eqn:Hk; [|done].
    cbn. destruct (Ho _ _ Hk). rewrite lookup_insert_ne by congruence. done.
Qed.

Lemma built_input w0 w e x ly name r s g cls t : built w0 w e x ly → name ≠ EmptyString →
  ∃ i x' w', createInputPin name e r s g cls t w = (Ok i, w') ∧
    built w0 w' e x' (mkLayout (el_kind x)
      (<[getNextInputPinId (el_inputPins x) := in_type (fresh_input name e r s g cls t)]> (ly_ins ly)) (ly_outs ly)) ∧
    x' = el_set_inputPins (<[getNextInputPinId (el_inputPins x) := i]> (el_inputPins x)) x.
Proof.
  intros [Hwf Hfr Hel Hi Ho Hc Hp Hid <- Hni Hno] Hname.
  assert (Hx : w_elems w !! e = Some x) by (rewrite Hel; apply lookup_insert_eq).
  pose proof (fresh_key_fresh (w_ins w)) as Hif. eexists _, _, _. split; [by apply run_createInputPin|]. split; [|done].
  split; cbn.
  - apply with_input_wf; try done. apply next_pin_id_least.
  - done.
  - by rewrite Hel, insert_insert_eq.
  - etrans; [exact Hi|]. by apply insert_subseteq.
  - done.
  - done.
  - done.
  - done.
  - eapply (layout_with_input w x _ (fresh_key (w_ins w))
      (ip_set_id (getNextInputPinId (el_inputPins x)) (fresh_input name e r s g cls t)));
      [by eapply wf_pins_allocated|exact Hif|reflexivity..].
  - intros j p Hj [[<- <-]|[_ Hp']]%lookup_insert_Some; [done|by eapply Hni].
  - exact Hno.
Qed.

Lemma built_output w0 w e x ly name cls t : built w0 w e x ly → name ≠ EmptyString →
  ∃ o x' w', createOutputPin name e cls t w = (Ok o, w') ∧
    built w0 w' e x' (mkLayout (el_kind x) (ly_ins ly)
      (<[getNextOutputPinId (el_outputPins x) := t]> (ly_outs ly))) ∧
    x' = el_set_outputPins (<[getNextOutputPinId (el_outputPins x) := o]> (el_outputPins x)) x.
Proof.
  intros [Hwf Hfr Hel Hi Ho Hc Hp Hid <- Hni Hno] Hname.
  assert (Hx : w_elems w !! e = Some x) by (rewrite Hel; apply lookup_insert_eq).
  pose proof (fresh_key_fresh (w_outs w)) as Hof. eexists _, _, _. split; [by apply run_createOutputPin|]. split; [|done].
  split; cbn.
  - apply with_output_wf; try done. apply next_pin_id_least.
  - done.
  - by rewrite Hel, insert_insert_eq.
  - done.
  - etrans; [exact Ho|]. by apply insert_subseteq.
  - done.
  - done.
  - done.
  - eapply (layout_with_output w x _ (fresh_key (w_outs w))
      (op_set_id (getNextOutputPinId (el_outputPins x)) (fresh_output name e cls t)));
      [by eapply wf_pins_allocated|exact Hof|reflexivity..].
  - exact Hni.
  - intros j p Hj [[<- <-]|[_ Hp']]%lookup_insert_Some; [done|by eapply Hno].
Qed.

Lemma built_constructs `{QtCore} (c : Ctor) ly :
  (∀ w, graph_wf w → ∃ e x w', ct_construct c w = (Ok e, w') ∧ built w w' e x ly) → constructs c ly.
Proof.
  intros Hb w Hwf. destruct (Hb w Hwf) as (e & x & w' & Hrun & [Hwf' ? ? ? ? ? ? ? ? ? ?]).
  exists e, x, w'. split_and!; try done. split; [exact (wf_inputPins _ Hwf')|exact (wf_outputPins _ Hwf')].
Qed.
End constructors.

(** ** Documents, numbers and positives as text *)

Fixpoint pos_text (p : positive) : string :=
  match p with
  | xH => EmptyString
  | xO q => String "0"%char (pos_text q)
  | xI q => String "1"%char (pos_text q)
  end.
Fixpoint text_pos (s : string) : positive :=
  match s with
  | EmptyString => xH
  | String a s' => if bool_decide (a = "1"%char) then xI (text_pos s') else xO (text_pos s')
  end.
Lemma text_pos_text p : text_pos (pos_text p) = p.
Proof. induction p as [p IH|p IH|]; cbn [pos_text text_pos]; [by rewrite bool_decide_true, IH|by rewrite bool_decide_false, IH|done]. Qed.

(** Documents as trees of labels. *)
Abbreviation Label := ((string * list (string * string)) + string)%type.

Fixpoint dom_tree (n : QDomNode) : gen_tree Label :=
  match n with
  | QDomText s => GenLeaf (inr s)
  | QDomElement tag attrs cs =>
      GenNode 0 (GenLeaf (inl (tag, attrs)) ::
        (fix go (cs : list QDomNode) := match cs with [] => [] | c :: cs' => dom_tree c :: go cs' end) cs)
  end.
Fixpoint tree_dom (t : gen_tree Label) : QDomNode :=
  match t with
  | GenLeaf (inr s) => QDomText s
  | GenNode _ (GenLeaf (inl (tag, attrs)) :: ts) =>
      QDomElement tag attrs
        ((fix go (ts : list (gen_tree Label)) := match ts with [] => [] | t :: ts' => tree_dom t :: go ts' end) ts)
  | _ => QDomText EmptyString
  end.

Lemma tree_dom_tree : ∀ n, tree_dom (dom_tree n) = n.
Proof.
  fix IH 1. intros [tag attrs cs|s]; [|done]. cbn. f_equal.
  induction cs as [|c cs IHcs]; [done|]. cbn. f_equal; [apply IH|exact IHcs].
Qed.

Inductive ExVariant := EnumV (e : Enum) | TextV (s : string).

Definition ex_qt : QtCore := {|
  Variant := ExVariant;
  v_toString v := match v with TextV s => s | EnumV _ => EmptyString end;
  v_bool b := TextV (if b then "true" else "false");
  v_char a := TextV (match a with Some c => String c EmptyString | None => EmptyString end);
  v_string s := TextV s;
  v_convert _ s := TextV s;
  v_enum e := EnumV e;
  v_toEnum v := match v with EnumV e => Some e | TextV _ => None end;
  compareInsensitive s t := bool_decide (s = t);
  num z := pos_text (encode z);
  toInt s := default 0 (decode (text_pos s));
  qchar n := String (ascii_of_nat (Z.to_nat n)) EmptyString;
  doc_toString d := pos_text (encode (dom_tree d));
  doc_setContent s := default (QDomText EmptyString) (tree_dom <$> decode (text_pos s));
  canOpen _ := true
|}.
#[local] Existing Instance ex_qt.
#[local] Existing Instance canonical_order.
#[local] Existing Instance example_types.

Lemma ex_numbers : reads_numbers.
Proof. intros z _. cbn. by rewrite text_pos_text, decode_encode. Qed.

Lemma ex_documents d : doc_setContent (doc_toString d) = d.
Proof. cbn. rewrite text_pos_text, decode_encode. cbn. apply tree_dom_tree. Qed.

(** ** Two plug-in classes *)
Definition ex_plugins : Plugins := {|
  classProperties cls := if bool_decide (cls = "Camera") then [("size", TInt)]
    else if bool_decide (cls = "Blur") then [("border", TUserType)] else [];
  propertyType cls n := if bool_decide (cls = "Camera" ∧ n = "size") then TInt
    else if bool_decide (cls = "Blur" ∧ n = "border") then TUserType else TInvalid;
  writeProperty _ _ v := v
|}.
#[local] Existing Instance ex_plugins.

Definition camera : Ctor := mkCtor "Camera"
  (e ← new_element KProducer "Camera" ; createOutputPin "image" e TypedPin 1 ;; mret e)
  {["size" := TextV "320"]}.
Definition blur : Ctor := mkCtor "Blur"
  (e ← new_element KProcessor "Blur" ;
   createInputPin "image" e CONNECTION_REQUIRED CONNECTION_SYNCHRONOUS CONNECTION_GUARANTEES_DATA TypedPin 1 ;;
   createOutputPin "result" e TypedPin 1 ;; mret e)
  {["border" := EnumV ex_enum]}.

Lemma camera_constructs : constructs camera (mkLayout KProducer ∅ {[0 := 1]}).
Proof.
  apply built_constructs. intros w Hwf. destruct (built_new w KProducer "Camera" Hwf) as (w1 & H1 & Hb1).
  destruct (built_output w w1 _ _ _ "image" TypedPin 1 Hb1) as (o & x2 & w2 & H2 & Hb2 & _); [done|].
  eexists _, x2, w2. split; [|exact Hb2].
  unfold ct_construct, camera. by rewrite (run_bind _ _ _ _ _ H1), (run_bind _ _ _ _ _ H2).
Qed.

Lemma blur_constructs : constructs blur (mkLayout KProcessor {[0 := Some 1]} {[0 := 1]}).
Proof.
  apply built_constructs. intros w Hwf. destruct (built_new w KProcessor "Blur" Hwf) as (w1 & H1 & Hb1).
  destruct (built_input w w1 _ _ _ "image" CONNECTION_REQUIRED CONNECTION_SYNCHRONOUS CONNECTION_GUARANTEES_DATA
    TypedPin 1 Hb1) as (i & x2 & w2 & H2 & Hb2 & Hx2); [done|].
  destruct (built_output w w2 _ _ _ "result" TypedPin 1 Hb2) as (o & x3 & w3 & H3 & Hb3 & _); [done|].
  eexists _, x3, w3. split; [|subst x2; exact Hb3].
  unfold ct_construct, blur. by rewrite (run_bind _ _ _ _ _ H1), (run_bind _ _ _ _ _ H2), (run_bind _ _ _ _ _ H3).
Qed.

Definition ex_factory : Factory Ctor := with_ctor ct_class (with_ctor ct_class (mkFactory [] ∅) camera) blur.

Lemma ex_registry : registry_wf ct_class ex_factory.
Proof. apply with_ctor_wf; [apply with_ctor_wf; [apply empty_registry|]|]; reflexivity. Qed.

Lemma camera_constructible : constructible ex_factory "Camera" (mkLayout KProducer ∅ {[0 := 1]}) {["size" := TextV "320"]}.
Proof.
  exists 0, camera. split_and!; [by split|done|done| |apply camera_constructs].
  intros n Hn. exfalso. revert Hn. cbn. case_bool_decide; [done|]. by case_bool_decide as Hb; [destruct Hb|].
Qed.
Lemma blur_constructible : constructible ex_factory "Blur" (mkLayout KProcessor {[0 := Some 1]} {[0 := 1]}) {["border" := EnumV ex_enum]}.
Proof.
  exists 1, blur. split_and!; [by split|done|done| |apply blur_constructs].
  intros n. cbn. case_bool_decide; [done|]. case_bool_decide as Hb; [|done]. destruct Hb as [_ ->]. by eexists.
Qed.

(** ** A saved pipeline *)
Definition ex_saved : Store := mkStore
  (set_pipe (pl_set_filename "a.plv") ex)
  (<[1%positive := "Camera"]> {[2%positive := "Blur"]})
  (<[1%positive := {["size" := TextV "640"]}]> {[2%positive := {["border" := EnumV (enum_setSelected "reflect" ex_enum)]}]})
  ex_factory ∅.

(** An empty pipeline in a program that has the file. *)
Definition ex_target : Store := mkStore empty_world ∅ ∅ ex_factory {["a.plv" := doc_toString (document ex_saved)]}.

Lemma ex_class_ok cls : cls = "Camera" ∨ cls = "Blur" → class_ok cls.
Proof.
  intros [-> | ->]; (split; [apply NoDup_singleton| |split; by intros ?%list_elem_of_singleton]);
    intros n t [= -> ->]%list_elem_of_singleton; done.
Qed.

Lemma children_filename w name : children (set_pipe (pl_set_filename name) w) = children w.
Proof. done. Qed.
Lemma ex_saved_children : qmap_values (children (st_world ex_saved)) = [1; 2]%positive.
Proof. unfold ex_saved. cbn [st_world]. rewrite children_filename. apply ex_children. Qed.

Definition ex_camera : Element := el_set_outputPins {[0 := 1%positive]} (el_set_id 0 (el_set_pipeline (fresh_element KProducer "Camera"))).
Definition ex_blur : Element := el_set_inputPins {[0 := 1%positive]}
  (el_set_outputPins {[0 := 2%positive]} (el_set_id 1 (el_set_pipeline (fresh_element KProcessor "Blur")))).

Lemma ex_camera_stored : stored ex_saved 1 ex_camera "Camera" {["size" := TextV "640"]}.
Proof. split; [by vm_compute|done..]. Qed.
Lemma ex_blur_stored :
  stored ex_saved 2 ex_blur "Blur" {["border" := EnumV (enum_setSelected "reflect" ex_enum)]}.
Proof. split; [by vm_compute|done..]. Qed.

Lemma ex_camera_layout : layout (st_world ex_saved) ex_camera = mkLayout KProducer ∅ {[0 := 1]}.
Proof. by vm_compute. Qed.
Lemma ex_blur_layout : layout (st_world ex_saved) ex_blur = mkLayout KProcessor {[0 := Some 1]} {[0 := 1]}.
Proof. by vm_compute. Qed.

Lemma ex_loadable : loadable ex_saved (st_factory ex_target).
Proof.
  split; [apply filename_wf, ex_wf|apply ex_registry|apply ex_numbers|].
  intros e He. rewrite ex_saved_children in He.
  apply elem_of_cons in He as [->|He]; [|apply list_elem_of_singleton in He as ->].
  - eexists _, "Camera", _, _. split; [apply ex_camera_stored|]. rewrite ex_camera_layout.
    split_and!; [| |by split|apply camera_constructible].
    + repeat constructor; [by eexists|done..].
    + apply ex_class_ok. by left.
  - eexists _, "Blur", _, _. split; [apply ex_blur_stored|]. rewrite ex_blur_layout.
    split_and!; [| |by split|apply blur_constructible].
    + repeat constructor; [by eexists|done..].
    + apply ex_class_ok. by right.
Qed.

Lemma ex_connectable : connectable ex_saved.
Proof.
  intros k c o i po pi xo xi _ [Hpo Hpi _ _ _ _ _ _ _ _ _].
  assert (Ho : map_Forall (λ _ p, isRegistered (op_typeId p) = true ∧ - 2 ^ 31 ≤ op_id p < 2 ^ 31) (w_outs (st_world ex_saved)))
    by (refine (bool_decide_eq_true_1 _ _); by vm_compute).
  assert (Hi : map_Forall (λ _ p, - 2 ^ 31 ≤ ip_id p < 2 ^ 31) (w_ins (st_world ex_saved)))
    by (refine (bool_decide_eq_true_1 _ _); by vm_compute).
  destruct (Ho _ _ Hpo). split; [assumption|]. split; [assumption|exact (Hi _ _ Hpi)].
Qed.

Lemma ex_saved_changed : pl_changed (w_pipe (st_world ex_saved)) = true.
Proof. by vm_compute. Qed.

Lemma ex_saves : save ex_saved = (Ok true, saved ex_saved "a.plv").
Proof. apply (run_save ex_saved); [apply ex_loadable|by eapply loadable_savable, ex_loadable|done|apply ex_saved_changed]. Qed.

Lemma ex_target_file : st_files ex_target !! "a.plv" = st_files (saved ex_saved "a.plv") !! "a.plv".
Proof. cbn [saved with_world st_files written set_file]. by rewrite lookup_insert_eq. Qed.

(** ** The theorems at these pipelines *)
Lemma ex_storable : storable_as ex_saved ex_target "a.plv".
Proof.
  split; [apply ex_loadable|apply ex_connectable|apply ex_saved_changed|reflexivity|reflexivity|apply ex_documents].
Qed.
Lemma ex_vacant : vacant ex_target.
Proof. split; [apply empty_wf|reflexivity|reflexivity]. Qed.


Lemma ex_blur_ctor tid c : f_nameIdMapping ex_factory !! "Blur" = Some tid →
  f_constructors ex_factory !! Z.to_nat tid = Some (Some c) → c = blur.
Proof. intros [= <-] Hc. by apply (inj Some), (inj Some) in Hc. Qed.
Lemma ex_reflect_selected :
  0 ≤ en_selectedIndex (enum_setSelected "reflect" ex_enum) < Z.of_nat (length ex_items).
Proof. by vm_compute. Qed.

Lemma property_survives_witness : ∃ t' e' ps' en', load "a.plv" ex_target = (Ok true, t') ∧
  children (st_world t') !! 1 = Some e' ∧ st_props t' !! e' = Some ps' ∧
  ps' !! "border" = Some (EnumV en') ∧ reflects en' ex_items ∧ en_selectedIndex en' = 1.
Proof.
  destruct (property_survives ex_saved (saved ex_saved "a.plv") ex_target "a.plv" 1 2 "Blur"
    {["border" := EnumV (enum_setSelected "reflect" ex_enum)]} "border" TUserType
    (EnumV (enum_setSelected "reflect" ex_enum)) ex_storable ex_vacant ex_saves ex_target_file)
    as (t' & e' & ps' & Hrun & He' & _ & Hps' & _ & Henum).
  - vm_compute. reflexivity.
  - reflexivity.
  - reflexivity.
  - left.
  - reflexivity.
  - destruct (Henum (enum_setSelected "reflect" ex_enum) ex_items) as (en' & Hen & Hl & Hi).
    + reflexivity.
    + reflexivity.
    + constructor. vm_compute. reflexivity.
    + apply (bool_decide_unpack _). vm_compute. exact I.
    + apply ex_reflect_selected.
    + intros tid c [Hid Hc]. apply ex_blur_ctor in Hc; [|exact Hid]. subst c.
      exists (EnumV ex_enum), ex_enum. split; [reflexivity|]. split; [reflexivity|apply ex_enum_reflects].
    + exists t', e', ps', en'. split; [exact Hrun|]. split; [exact He'|]. split; [exact Hps'|]. split; [exact Hen|].
      split; [exact Hl|]. rewrite Hi. reflexivity.
Defined.

(** A document that asks for a camera and for a class no plug-in provides. *)
Definition ex_ghost_node : QDomNode := QDomElement "element" [("id", num 1); ("name", "Ghost")] [].
Definition ex_camera_node : QDomNode :=
  QDomElement "element" [("id", num 0); ("name", "Camera")] [QDomElement "properties" [] []].
Definition ex_ghost : QDomNode :=
  QDomElement "pipeline" [] [QDomElement "elements" [] [ex_camera_node; ex_ghost_node]; QDomElement "connections" [] []].
Definition ex_ghost_target (contents : string) : Store := mkStore empty_world ∅ ∅ ex_factory {["g.plv" := contents]}.

(** The camera is made before the unknown class is met. *)
Lemma ex_ghost_parsed contents :
  let r := parseElements [ex_camera_node] (named "g.plv" (ex_ghost_target contents)) in
  r.1 = Ok tt ∧ f_nameIdMapping (st_factory r.2) !! "Ghost" = None ∧ children (st_world r.2) = {[0 := 1%positive]}.
Proof. vm_compute. split_and!; reflexivity. Qed.

Lemma load_unknown_class_witness : ∃ t', load "g.plv" (ex_ghost_target (doc_toString ex_ghost)) = (Ok false, t') ∧
  children (st_world t') = {[0 := 1%positive]}.
Proof.
  destruct (ex_ghost_parsed (doc_toString ex_ghost)) as (Hrun & Hghost & Hch).
  destruct (load_unknown_class "g.plv" (ex_ghost_target (doc_toString ex_ghost)) (doc_toString ex_ghost)
    [ex_camera_node] ex_ghost_node [] (parseElements [ex_camera_node] (named "g.plv" (ex_ghost_target (doc_toString ex_ghost)))).2)
    as (t' & Hload & Hch' & _).
  - reflexivity.
  - apply lookup_insert_eq.
  - reflexivity.
  - rewrite ex_documents. reflexivity.
  - rewrite <-Hrun. apply surjective_pairing.
  - exact Hghost.
  - exists t'. split; [exact Hload|]. rewrite Hch'. exact Hch.
Defined.

(** The example before its pins are connected, as it is after a save. *)
Definition ex_unconnected : Store := mkStore
  (set_pipe (pl_set_changed false) ex_added) (st_class ex_saved) (st_props ex_saved) ex_factory ∅.

Lemma ex_unconnected_pins : pins_at (st_world ex_unconnected) 1 1
  (mkOut 0 "image" 1 TypedPin 1 [] false)
  (mkIn 0 "image" 2 CONNECTION_REQUIRED CONNECTION_SYNCHRONOUS CONNECTION_GUARANTEES_DATA TypedPin 1 None false).
Proof. split; [by vm_compute|by vm_compute|eexists; by vm_compute|eexists; by vm_compute]. Qed.

Lemma connection_not_saved_witness : ∃ id w, connectPins 1 1 (st_world ex_unconnected) = (Ok id, w) ∧
  ∃ s', saveAs "b.plv" (with_world w ex_unconnected) = (Ok true, s') ∧ st_files s' = ∅.
Proof.
  destruct (connection_not_saved ex_unconnected 1 1 _ _ "b.plv" ex_unconnected_pins) as (id & w & Hrun & _ & _ & Hs);
    [reflexivity|reflexivity|].
  exists id, w. split; [exact Hrun|exact Hs].
Defined.

(** ** Any file *)
Lemma ex_classes : classes_ok ex_factory.
Proof.
  split; [apply ex_registry|]. intros tid oc Hoc.
  destruct camera_constructible as (_ & _ & _ & _ & _ & Hc & _). destruct blur_constructible as (_ & _ & _ & _ & _ & Hb & _).
  destruct tid as [|[|tid]]; [| |done]; injection Hoc as <-; eexists _, _; (split; [reflexivity|split; [|assumption]]);
    [apply camera_constructs|apply blur_constructs].
Qed.
Lemma load_any_document_witness : ∃ ok t', load "g.plv" (ex_ghost_target "no document") = (Ok ok, t') ∧ graph_wf (st_world t').
Proof.
  destruct (load_any_document "g.plv" (ex_ghost_target "no document") ex_classes) as (ok & t' & Hrun & Hwf & _);
    [split; [apply empty_wf|reflexivity|reflexivity]|]. by exists ok, t'.
Defined.

(** ** The window *)
Definition ex_user : User := mkUser button_Discard "c.plv".
Definition ex_window : MainWindow := new_MainWindow "1.0" ["b.plv"].
Definition ex_bench : Bench := mkBench ex_target ex_window.
Definition quiet_workers : nat → list (positive * Prog) := λ _, [].

Lemma ex_bench_ok : bench_ok ex_factory true false ex_bench.
Proof.
  split; cbn; try done; [apply empty_wf|]. split; [|intros _; by split].
  split; cbn; try done; [by exists false|by apply NoDup_singleton|unfold MaxRecentFiles; cbn; lia|by intros ?%list_elem_of_singleton].
Qed.
Lemma window_in_step_witness : ∃ b, session plain quiet_workers 1 true ex_bench b ∧
  mw_title (bn_window b) = "a" ∧ mw_recentFileList (bn_window b) = ["a.plv"; "b.plv"] ∧ window_ok (bn_window b).
Proof.
  destruct (run_load plain quiet_workers 1 true ex_user ex_factory true false "a.plv" ex_bench ex_classes ex_bench_ok)
    as [t Hrun]; [done|done|reflexivity|].
  assert (Hs : session plain quiet_workers 1 true ex_bench (mkBench t (opened_window "a.plv" ex_window)))
    by (eapply (session_action _ _ _ _ _ ex_bench _ ex_user (Open (Some "a.plv"))); [constructor|done|exact Hrun]).
  eexists. split; [exact Hs|]. split; [vm_compute; reflexivity|]. split; [vm_compute; reflexivity|].
  apply (window_in_step plain quiet_workers 1 true "1.0" ["b.plv"] ex_target _ ex_classes ex_vacant);
    [apply NoDup_singleton|unfold MaxRecentFiles; cbn; lia|by intros ?%list_elem_of_singleton|exact Hs].
Defined.

(** The saved pipeline in a window. *)
Definition ex_open : MainWindow := mw_set_title "a" (mw_set_fileName "a.plv" (shown_window (with_file "a.plv" ex_window))).
Lemma ex_open_ok : bench_ok ex_factory true true (mkBench ex_saved ex_open).
Proof.
  split; [apply ex_loadable|reflexivity|reflexivity|by intros|].
  destruct (good_file true ex_window "a.plv") as [[Ho Hcl R1 R2 R3 R4] Hs]; [done| |].
  { destruct ex_bench_ok as [_ _ _ _ [Hw _]]. by split. }
  split; [by split; [exists false|..]|]. intros _. split; [by exists false|]. intros _. apply (is_recent _ (Hs eq_refl)). done.
Qed.
Lemma saveAs_window_witness : ∃ s' w', perform plain (pool quiet_workers) 1 true ex_user SaveAs (mkBench ex_saved ex_open) = (Ok tt, mkBench s' w') ∧
  st_files s' = {["c.plv" := doc_toString (document ex_saved)]} ∧ mw_title w' = "c".
Proof.
  destruct (saveAs_window plain quiet_workers 1 true ex_user ex_saved ex_open) as (s' & w' & Hrun & Hf & _ & _ & _ & Ht & _);
    [apply ex_loadable|by eapply loadable_savable, ex_loadable|done|done|].
  exists s', w'. split; [exact Hrun|]. split; [|exact Ht]. rewrite Hf, ex_saved_changed. reflexivity.
Defined.
Lemma closing_discards_witness : ∃ s' w', perform plain (pool quiet_workers) 1 true ex_user ClosePipeline (mkBench ex_saved ex_open) = (Ok tt, mkBench s' w') ∧
  st_files s' = ∅ ∧ mw_title w' = "a*".
Proof.
  destruct (closing_discards plain quiet_workers 1 true ex_user ex_factory ex_saved ex_open "b.plv" ex_open_ok ex_classes)
    as [(s' & w' & Hrun & Hf & _ & _ & _ & _ & _ & _ & Ht) _]; [by vm_compute|by right|done|].
  exists s', w'. split; [exact Hrun|]. split; [exact Hf|]. rewrite Ht. vm_compute. reflexivity.
Defined.
Lemma ex_unconnected_wf : graph_wf (st_world ex_unconnected).
Proof.
  assert (Hs : ∀ w, same_graph (set_pipe (pl_set_changed false) w) w) by done.
  unfold ex_unconnected. cbn [st_world]. rewrite Hs. apply ex_added_wf.
Qed.
Lemma connection_lost_witness : ∃ b1 b2 b3,
  perform plain (pool quiet_workers) 1 true ex_user (Edit (connect 1 1)) (mkBench ex_unconnected ex_open) = (Ok tt, b1) ∧
  perform plain (pool quiet_workers) 1 true ex_user Save b1 = (Ok tt, b2) ∧
  perform plain (pool quiet_workers) 1 true ex_user ClosePipeline b2 = (Ok tt, b3) ∧
  mw_offers (bn_window b3) = mw_offers (bn_window b2) ∧ st_files (bn_store b3) = ∅.
Proof.
  destruct (connection_lost plain quiet_workers 1 true ex_user ex_unconnected ex_open 1 1 _ _ ex_unconnected_wf ex_unconnected_pins)
    as (s1 & w1 & s2 & w2 & s3 & w3 & id & H1 & _ & _ & _ & H2 & _ & _ & Hf2 & H3 & Ho & Hf & _);
    [reflexivity|by vm_compute|by vm_compute|done|done|done|apply owned_outb_ok; vm_compute; reflexivity|apply owned_inb_ok; vm_compute; reflexivity|].
  exists (mkBench s1 w1), (mkBench s2 w2), (mkBench s3 w3).
  split; [exact H1|split; [exact H2|split; [exact H3|split; [exact Ho|exact Hf]]]].
Defined.
