(* ===== verification/Witnesses.v ===== *)
(** The theorems about the pipeline and the editor, applied to the concrete
    pipelines of Examples.v: their hypotheses hold there. *)
From Stdlib Require Import Floats.SpecFloat.
From S2P Require Import EditorTheorems.
From S2P Require Export Notifications Typing Examples.

#[local] Existing Instance canonical_order.
#[local] Existing Instance example_types.





Lemma generateGraphOrdering_witness :
  ∃ b ord, generateGraphOrdering ex = (Ok (b, ord), ex) ∧ (b = true ↔ acyclic ex).
Proof.
  destruct (generateGraphOrdering_correct ex ex_wf ex_nonempty) as (b & ord & Hrun & Hb & _).
  exists b, ord. split; [exact Hrun|exact Hb].
Defined.

Lemma removeElement_witness :
  ∃ w', removeElement 0 ex = (Ok tt, w') ∧ graph_wf w' ∧ children w' = delete 0 (children ex).
Proof.
  destruct (removeElement_correct ex 0 1%positive ex_wf) as (w' & Hrun & Hwf & Hch & _).
  - vm_compute. reflexivity.
  - exists w'. split; [exact Hrun|]. split; [exact Hwf|exact Hch].
Defined.

(** The pins of the example before they are connected. *)
Definition ex_out : IOutputPin := mkOut 0 "image" 1 TypedPin 1 [] false.
Definition ex_in : IInputPin :=
  mkIn 0 "image" 2 CONNECTION_REQUIRED CONNECTION_SYNCHRONOUS CONNECTION_GUARANTEES_DATA TypedPin 1 None false.
Lemma ex_pins : pins_at ex_added 1 1 ex_out ex_in.
Proof. split; [by vm_compute|by vm_compute|eexists; by vm_compute|eexists; by vm_compute]. Qed.



Lemma canConnectPins_witness :
  ∃ b reason w1, canConnectPins 1 1 ex_added = (Ok (b, reason), w1) ∧
    (b = true ↔ ∃ id w', connectPins 1 1 ex_added = (Ok id, w')).
Proof.
  destruct (canConnectPins_predicts ex_added 1 1 ex_out ex_in ex_pins) as (b & reason & w1 & Hrun & Hb & _).
  exists b, reason, w1. split; [exact Hrun|exact Hb].
Defined.

Lemma clear_witness : ∃ w', clear ex = (Ok tt, w') ∧ children w' = ∅ ∧ connections w' = ∅.
Proof.
  destruct (clear_correct ex ex_wf) as (w' & Hrun & _ & Hch & Hcn & _).
  - vm_compute. reflexivity.
  - exists w'. split; [exact Hrun|]. split; [exact Hch|exact Hcn].
Defined.

Lemma addElement_correct_witness : ∃ id w', addElement 1 ex_parts = (Ok id, w') ∧ graph_wf w'.
Proof.
  destruct (addElement_correct ex_parts 1 (el_set_outputPins {[0 := 1%positive]} (fresh_element KProducer "Camera")))
    as (id & w' & Hrun & Hwf & _).
  - apply ex_parts_wf.
  - vm_compute. reflexivity.
  - reflexivity.
  - intros k. vm_compute. discriminate.
  - exists id, w'. split; [exact Hrun|exact Hwf].
Defined.

(** A second producer whose id was set to one that is taken. *)
Definition ex_taken : World := set_elems (insert 7%positive (el_set_id 0 (fresh_element KProducer "Other"))) ex.
Lemma addElement_taken_witness :
  ∃ w', addElement 7 ex_taken = (Ok 0, w') ∧ children w' !! 0 = Some 7%positive.
Proof.
  destruct (addElement_taken_id_replaces ex_taken 7 (el_set_id 0 (fresh_element KProducer "Other")) 1%positive)
    as (w' & Hrun & Hch & _).
  - vm_compute. reflexivity.
  - discriminate.
  - vm_compute. reflexivity.
  - exists w'. split; [exact Hrun|exact Hch].
Defined.

Lemma createInputPin_witness :
  ∃ i w', createInputPin "mask" 2 CONNECTION_OPTIONAL CONNECTION_ASYNCHRONOUS CONNECTION_DATA_MAY_BE_NULL
    TypedPin 1 ex = (Ok i, w') ∧ graph_wf w'.
Proof.
  destruct (w_elems ex !! 2%positive) as [x|] eqn:Hx; [|vm_compute in Hx; discriminate].
  destruct (createInputPin_correct ex 2 x "mask" CONNECTION_OPTIONAL CONNECTION_ASYNCHRONOUS
    CONNECTION_DATA_MAY_BE_NULL TypedPin 1) as (i & id & w' & Hrun & Hwf & _).
  - apply ex_wf.
  - exact Hx.
  - discriminate.
  - exists i, w'. split; [exact Hrun|exact Hwf].
Defined.

(** ** Failures *)


(** A filter whose [init()] reports an error, and one whose [init()] throws. *)
Definition reporting : eptr → Behaviour := λ e,
  if bool_decide (e = 2%positive)
  then mkBehaviour (PSetError PlvPipelineInitError "no model file" (PReturn false)) (PReturn true)
         (PReturn true) (PReturn true) true
  else default_behaviour.
Definition throwing : eptr → Behaviour := λ e,
  if bool_decide (e = 2%positive)
  then mkBehaviour (PThrow (PlvException "no model file")) (PReturn true) (PReturn true) (PReturn true) true
  else default_behaviour.

Lemma start_init_error_witness :
  ∃ w' msg, start reporting ex = (Ok tt, w') ∧ stopped_inv w' ∧
    w_signals w' = w_signals ex ++ [pipelineMessage QtWarningMsg msg].
Proof.
  destruct (start_init_error reporting) with (w := ex) (l1 := [1%positive]) (e := 2%positive) (l2 := @nil eptr)
    as (w' & msg & Hrun & Hst & _ & Hs).
  - intros e. unfold reporting. by case_bool_decide.
  - intros e. unfold reporting. by case_bool_decide.
  - apply ex_stopped.
  - apply ex_children.
  - intros e' ->%list_elem_of_singleton. split; reflexivity.
  - reflexivity.
  - reflexivity.
  - intros x. discriminate.
  - exists w', msg. split; [exact Hrun|]. split; [exact Hst|exact Hs].
Defined.

Lemma start_init_exception_witness : ∃ w', start throwing ex = (Abort AssertFailed, w').
Proof.
  apply (start_init_exception_aborts throwing ex [1%positive] 2%positive [] (PlvException "no model file")).
  - apply ex_stopped.
  - apply ex_children.
  - intros e' ->%list_elem_of_singleton. split; reflexivity.
  - reflexivity.
Defined.

Lemma start_required_missing_witness :
  ∃ w' msg, start plain ex_added = (Ok tt, w') ∧ stopped_inv w' ∧
    w_signals w' = w_signals ex_added ++ [pipelineMessage QtWarningMsg msg].
Proof.
  destruct (start_required_missing plain (λ _, eq_refl) (λ _, eq_refl) ex_added 2%positive)
    as (w' & msg & Hrun & Hst & _ & Hs).
  - apply ex_added_stopped.
  - intros e _. split; reflexivity.
  - exists 1. vm_compute. reflexivity.
  - apply unsatisfied_by_run; [apply ex_added_wf|eexists; vm_compute; reflexivity|vm_compute; reflexivity].
  - exists w', msg. split; [exact Hrun|]. split; [exact Hst|exact Hs].
Defined.

Lemma start_cycle_witness :
  ∃ w', start plain ex_loop = (Ok tt, w') ∧ ∃ w'', start plain w' = (Abort AssertFailed, w'').
Proof.
  destruct (start_cycle_leaves_initialized plain ex_loop ex_loop_stopped ex_loop_nonempty ex_loop_cyclic
    ex_loop_startable) as (w' & Hrun & _ & _ & _ & Hagain).
  exists w'. split; [exact Hrun|exact Hagain].
Defined.

Definition ex_session : list Edit := [EditAdd 1; EditAdd 2; EditConnect 1 1; EditConnect 1 1; EditRemove 0; EditDisconnect 0].
Lemma listeners_in_step_witness : ∃ told, w_signals (session ex_session ex_parts) = w_signals ex_parts ++ told ∧
  replay told (tables ex_parts) = tables (session ex_session ex_parts) ∧
  length told = 5%nat.
Proof.
  assert (Hwf : graph_wf ex_parts) by exact ex_parts_wf.
  destruct (proj1 (listeners_in_step ex_parts ex_session Hwf)) as (told & Hs & _ & Ht).
  exists told. split; [exact Hs|]. split; [exact Ht|].
  apply (f_equal length) in Hs. rewrite length_app in Hs. vm_compute in Hs. vm_compute. congruence.
Defined.

(** Conversions between equal types only. *)
Definition plain_conversions : QtConversions := {|
  canConvert v t := bool_decide (userType v = t);
  value v t := if bool_decide (userType v = t) then v else mkQVariant t 0
|}.
#[local] Existing Instance plain_conversions.
#[local] Instance plain_conversion_laws : QtConversionLaws.
Proof. split; intros v; cbn; by rewrite bool_decide_true. Qed.

Lemma ex_started_typed : typed ex_started.
Proof.
  apply typed_empty. apply (map_Forall_lookup (λ _ x, pc_queue x = [])).
  apply (bool_decide_eq_true_1 _). vm_compute. reflexivity.
Qed.

Lemma ex_typed_ticks : rtc (typed_tick plain) ex_started ex_worked.
Proof.
  eapply rtc_l; [eapply typed_tick_schedule; [|apply ex_beat_run]; apply no_failureb_ok; by vm_compute|].
  apply rtc_once. eapply typed_tick_job; [|apply ex_worked_run].
  split; [|done]. intros t Ht. vm_compute in Ht. by injection Ht.
Qed.



Definition no_classes : Factory string := mkFactory [] ∅.
Definition make_nothing (c : string) : W eptr := throw UnknownException.
Definition ex_desk : Desk := (setPipeline (mkDesk ex new_scene)).2.

Lemma ex_desk_ok : desk_ok ex_desk.
Proof. destruct (wpr_elim _ _ _ (run_setPipeline ex ex_wf)) as ([] & d & Hrun & Hd & _). unfold ex_desk. by rewrite Hrun. Qed.

Lemma editor_shows_pipeline_witness :
  shows (gesture make_nothing no_classes (DeleteSelected [LineItem 1]) ex_desk).2 ∧
  connections (dk_world (gesture make_nothing no_classes (DeleteSelected [LineItem 1]) ex_desk).2) = ∅.
Proof.
  destruct (editor_shows_pipeline id make_nothing no_classes ex (empty_registry id) ex_wf) as (d0 & Hrun & _ & Hall).
  assert (d0 = ex_desk) as -> by (unfold ex_desk; by rewrite Hrun).
  destruct (gesture make_nothing no_classes (DeleteSelected [LineItem 1]) ex_desk) as [r d] eqn:Hg.
  destruct (Hall d) as (_ & Hshows & _).
  - eapply gestures_cons; [|exact Hg|apply gestures_nil]. split; [by vm_compute|]. split_and!; [|by apply not_elem_of_nil|done|done].
    apply (bool_decide_eq_true_1 _). by vm_compute.
  - split; [exact Hshows|]. apply (f_equal snd) in Hg. cbn [snd] in Hg. cbn [snd]. rewrite <-Hg.
    apply (bool_decide_eq_true_1 _). vm_compute. reflexivity.
Defined.

Lemma delete_element_then_line_witness :
  (deleteSelected [WidgetItem 1; LineItem 1] ex_desk).1 = Abort NullPointer.
Proof.
  pose proof ex_desk_ok as Hd. destruct ex_desk as [w s] eqn:E.
  assert (Hw : w = dk_world ex_desk) by (by rewrite E). assert (Hs : s = dk_scene ex_desk) by (by rewrite E).
  apply (delete_element_then_line w s 1 1 Hd).
  - rewrite Hw. by vm_compute.
  - rewrite Hs. by vm_compute.
  - rewrite Hs. apply (bool_decide_eq_true_1 _). by vm_compute.
  - rewrite Hs. apply (bool_decide_eq_true_1 _). by vm_compute.
  - rewrite <-E. exists 1%positive, 1%positive. split; [by vm_compute|]. split; [by vm_compute|].
    eexists. split; [by vm_compute|]. left. exists 1%positive. eexists. split; [reflexivity|]. split; by vm_compute.
Defined.

(** With the line first, both go. *)
Example line_then_element : (deleteSelected [LineItem 1; WidgetItem 1] ex_desk).1 = Ok tt.
Proof. by vm_compute. Qed.

(** Deleting while a line is dragged: the element is gone, the line still
    starts at its pin, and the pipeline ends up with a connection from an
    element it does not have. *)
Definition ex_dangling : Desk :=
  (for_each [DeleteSelected [LineItem 1]; ClickPin (mkPinWidget 1 (OutPin 1)) (qzero, qzero); DeleteSelected [WidgetItem 1];
     ReleaseMouse [mkPinWidget 2 (InPin 1)]] (gesture make_nothing no_classes) ex_desk).2.
Example connection_from_removed_element :
  children (dk_world ex_dangling) = {[1 := 2%positive]} ∧
  ∃ c x, connections (dk_world ex_dangling) !! 0 = Some c ∧ w_conns (dk_world ex_dangling) !! c = Some x ∧
    pc_producer x = Some 1%positive ∧ op_owner <$> w_outs (dk_world ex_dangling) !! 1%positive = Some 1%positive.
Proof. split; [by vm_compute|]. exists 2%positive. eexists. by vm_compute. Qed.

(** A widget above the top edge is moved along x, to the left edge. *)
Definition five : qreal := S754_finite false (5 * 2 ^ 50) (-50).
Definition minus_three : qreal := S754_finite true (3 * 2 ^ 51) (-51).
Example fit_above : scenePos (fit (mkElementWidget 1 ∅ ∅ [] (five, minus_three) (qzero, qzero))) = (qzero, minus_three).
Proof. by vm_compute. Qed.
