(* ===== verification/MatStream.v ===== *)
(** The wire format of the TCP server and client (Proto.h): messages of 32 bit
    words and variants, each preceded by its size; matrices as bytes, with the
    stream operators of CvMatData (CvMatData.cpp); and the elements that hand
    out parts of an image (plvopencv/Crop.cpp, CropSubImage.cpp). *)
From S2P Require Export Model Util.

(** ** QDataStream

    A QByteArray is a list of bytes.  A stream writes a [quint32] and a
    QVariant as bytes and reads them off the front of what is available. *)
Abbreviation bytes := (list Byte.byte).

Class DataStream := {
  write32 : Z → bytes;                             (** [<< (quint32)] *)
  read32 : bytes → Z * bytes;                      (** [>> quint32] *)
  writeVariant : QVariant → bytes;                 (** [<< QVariant] *)
  readVariant : bytes → option QVariant * bytes    (** [>> QVariant]; None: not valid *)
}.

(** What the documentation of QDataStream promises: a word takes four bytes, a
    word and a value are read back as they were written, and reading takes
    bytes off the front.  [streamable] are the values of registered types with
    stream operators. *)
Class DataStreamLaws `{DataStream} := {
  streamable : QVariant → Prop;
  write32_length z : length (write32 z) = 4%nat;
  read32_write32 z rest : read32 (write32 z ++ rest) = (u32 z, rest);
  read32_length l : length (read32 l).2 = (length l - 4)%nat;
  readVariant_write v rest : streamable v → readVariant (writeVariant v ++ rest) = (Some v, rest);
  readVariant_length l : (length (readVariant l).2 ≤ length l)%nat
}.

(** [in >> m_blockSize], which is an [int]. *)
Definition read_int `{DataStream} (l : bytes) : Z * bytes :=
  let '(n, l') := read32 l in (i32 n, l').

(** [skipRawData( len )]: nothing when [len] is negative. *)
Definition skipRawData (len : Z) (l : bytes) : bytes := drop (Z.to_nat len) l.

(** [bytesAvailable()], [size()] *)
Definition size_of (l : bytes) : Z := Z.of_nat (length l).

(** ** Sockets

    What has arrived and not been read, what has been written, and the number
    of calls of [write] that took. *)
Record Socket := mkSocket { so_connected : bool; so_in : bytes; so_out : bytes; so_writes : nat }.

Inductive SocketEnd := ServerEnd | ClientEnd.

(** QTcpSocket::write: [accepts end k n] is what the [k]th call on a socket
    returns when it is given [n] bytes: the number of bytes it took, or -1. *)
Class SocketLib := {
  accepts : SocketEnd → nat → Z → Z;
  accepts_range e k n : 0 ≤ n → -1 ≤ accepts e k n ≤ n
}.

(** ** Proto.h *)
Definition PROTO_FRAME : Z := 0.
Definition PROTO_INIT : Z := 1.
Definition PROTO_ACK : Z := 3.

(** ** Messages *)
Section messages.
#[local] Set Default Proof Using "Type*".
Context `{!DataStream} `{!DataStreamLaws}.

(** The arguments of a frame as they are written one after the other. *)
Definition write_args (l : list QVariant) : bytes := l ≫= writeVariant.

(** A message is its payload after the size of the payload. *)
Definition message (payload : bytes) : bytes := write32 (size_of payload) ++ payload.

Definition ack_payload (serial : Z) : bytes := write32 PROTO_ACK ++ write32 serial.
Definition frame_payload (serial : Z) (args : list QVariant) : bytes :=
  write32 PROTO_FRAME ++ write32 serial ++ write32 (Z.of_nat (length args)) ++ write_args args.

Lemma size_app l1 l2 : size_of (l1 ++ l2) = size_of l1 + size_of l2.
Proof. unfold size_of. rewrite length_app. lia. Qed.
Lemma size_write32 z : size_of (write32 z) = 4.
Proof. unfold size_of. by rewrite write32_length. Qed.
Lemma size_nonneg l : 0 ≤ size_of l.
Proof. unfold size_of. lia. Qed.
Lemma size_message p : size_of (message p) = 4 + size_of p.
Proof. unfold message. by rewrite size_app, size_write32. Qed.
Lemma size_ack serial : size_of (ack_payload serial) = 8.
Proof. unfold ack_payload. by rewrite size_app, !size_write32. Qed.

Lemma read_int_write32 z rest : 0 ≤ z < 2 ^ 31 → read_int (write32 z ++ rest) = (z, rest).
Proof.
  intros Hz. unfold read_int. rewrite read32_write32. rewrite u32_id by lia. by rewrite i32_id by lia.
Qed.

Lemma skip_size l rest : skipRawData (size_of l) (l ++ rest) = rest.
Proof. unfold skipRawData, size_of. by rewrite Nat2Z.id, drop_app_length. Qed.
End messages.

(** ** cv::Mat

    The header of a matrix: [mt_buffer] are the bytes from [datastart] to
    [dataend], [mt_offset] is [data - datastart]. *)
Record Mat := mkMat { mt_type : Z; mt_rows : Z; mt_cols : Z; mt_buffer : bytes; mt_offset : Z }.

Class CvMatLib := {
  elemSize : Z → Z;                             (** bytes per element of a type *)
  mat_create : Z → Z → Z → outcome Mat;         (** [cv::Mat( rows, cols, type )] *)
  mat_roi : Mat → Rect → outcome Mat;           (** [mat( roi )] *)
  writeBytes : bytes → bytes;                   (** QDataStream::writeBytes *)
  readBytes : bytes → bytes * bytes             (** QDataStream::readBytes *)
}.

(** As documented: a new matrix fills its buffer; a region of a matrix is a
    header for the same buffer, and must lie within the matrix; bytes are read
    back as they were written. *)
Definition within (m : Mat) (r : Rect) : Prop :=
  0 ≤ r_x r ∧ 0 ≤ r_y r ∧ 0 < r_width r ∧ 0 < r_height r ∧
  r_x r + r_width r ≤ mt_cols m ∧ r_y r + r_height r ≤ mt_rows m.
Class CvMatLibLaws `{CvMatLib} := {
  elemSize_pos t : 0 < elemSize t;
  mat_create_ok rows cols t : 0 < rows → 0 < cols → ∃ buf,
    mat_create rows cols t = Ok (mkMat t rows cols buf 0) ∧ size_of buf = rows * cols * elemSize t;
  mat_roi_ok m r : within m r → mt_offset m = 0 → size_of (mt_buffer m) = mt_rows m * mt_cols m * elemSize (mt_type m) →
    mat_roi m r = Ok (mkMat (mt_type m) (r_height r) (r_width r) (mt_buffer m) ((r_y r * mt_cols m + r_x r) * elemSize (mt_type m)));
  readBytes_writeBytes b rest : 0 < size_of b < 2 ^ 32 → readBytes (writeBytes b ++ rest) = (b, rest)
}.

Section stream.
Context `{DataStream} `{CvMatLib}.

(** CvMatData::create( width, height, type ) *)
Definition mat_data_create (width height type : Z) : outcome Mat :=
  if bool_decide (0 < width) && bool_decide (0 < height) then mat_create height width type else Abort AssertFailed.

(** operator<<: as many bytes as from [datastart] to [dataend], from [data] on. *)
Definition write_mat (m : Mat) : outcome bytes :=
  let length := i32 (size_of (mt_buffer m)) in
  if bool_decide (length ≤ 0) then Abort AssertFailed
  else if bool_decide (size_of (mt_buffer m) < mt_offset m + length) then Abort UndefinedBehaviour
  else Ok (write32 (mt_type m) ++ write32 (mt_rows m) ++ write32 (mt_cols m) ++ write32 length ++
    writeBytes (take (Z.to_nat length) (drop (Z.to_nat (mt_offset m)) (mt_buffer m)))).

(** operator>> *)
Definition read_mat (l : bytes) : outcome (Mat * bytes) :=
  let '(type, l1) := read_int l in
  let '(rows, l2) := read_int l1 in
  let '(cols, l3) := read_int l2 in
  let '(len, l4) := read_int l3 in
  let '(data, l5) := readBytes l4 in
  match mat_create rows cols type with
  | Ok mat =>
      if bool_decide (size_of (mt_buffer mat) = size_of data)
      then Ok (mkMat (mt_type mat) (mt_rows mat) (mt_cols mat) data (mt_offset mat), l5)
      else Abort AssertFailed
  | Throw e => Throw e
  | Abort f => Abort f
  end.

(** ** CropImage, CropSubImage *)
Record CropImage := mkCrop { m_x1 : Z; m_x2 : Z; m_y1 : Z; m_y2 : Z }.
Definition new_CropImage : CropImage := mkCrop 0 0 0 0.
Definition setX1 (x : Z) (c : CropImage) : CropImage := mkCrop (if bool_decide (x < 0) then 0 else x) (m_x2 c) (m_y1 c) (m_y2 c).
Definition setX2 (x : Z) (c : CropImage) : CropImage := mkCrop (m_x1 c) (if bool_decide (x < 0) then 0 else x) (m_y1 c) (m_y2 c).
Definition setY1 (y : Z) (c : CropImage) : CropImage := mkCrop (m_x1 c) (m_x2 c) (if bool_decide (y < 0) then 0 else y) (m_y2 c).
Definition setY2 (y : Z) (c : CropImage) : CropImage := mkCrop (m_x1 c) (m_x2 c) (m_y1 c) (if bool_decide (y < 0) then 0 else y).

(** What is put on the output, if anything. *)
Definition crop_process (c : CropImage) (img : Mat) : outcome (option Mat) :=
  if bool_decide (mt_cols img ≤ i32 (m_x1 c + m_x2 c)) || bool_decide (mt_rows img ≤ i32 (m_y1 c + m_y2 c)) then Ok None
  else
    match mat_roi img (mkRect (m_x1 c) (m_y1 c) (i32 (mt_cols img - i32 (m_x1 c + m_x2 c))) (i32 (mt_rows img - i32 (m_y1 c + m_y2 c)))) with
    | Ok m => Ok (Some m)
    | Throw e => Throw e
    | Abort f => Abort f
    end.

Fixpoint crop_regions (img : Mat) (rects : list Rect) : outcome (list Mat) :=
  match rects with
  | [] => Ok []
  | r :: rects' =>
      match mat_roi img r with
      | Ok m => match crop_regions img rects' with Ok l => Ok (m :: l) | Throw e => Throw e | Abort f => Abort f end
      | Throw e => Throw e
      | Abort f => Abort f
      end
  end.
End stream.

(** ** Properties *)

(** A matrix that has its buffer for itself and fits into a message. *)
Record mat_ok `{CvMatLib} (m : Mat) : Prop := {
  mo_rows : 0 < mt_rows m < 2 ^ 31;
  mo_cols : 0 < mt_cols m < 2 ^ 31;
  mo_type : 0 ≤ mt_type m < 2 ^ 31;
  mo_offset : mt_offset m = 0;
  mo_size : size_of (mt_buffer m) = mt_rows m * mt_cols m * elemSize (mt_type m);
  mo_int : 0 < size_of (mt_buffer m) < 2 ^ 31
}.

Section proofs.
#[local] Set Default Proof Using "Type*".
Context `{DataStream} `{!DataStreamLaws} `{CvMatLib} `{!CvMatLibLaws}.

Definition written (t rows cols : Z) (b : bytes) : bytes :=
  write32 t ++ write32 rows ++ write32 cols ++ write32 (size_of b) ++ writeBytes b.

Lemma take_size (b : bytes) : take (Z.to_nat (size_of b)) b = b.
Proof. unfold size_of. by rewrite Nat2Z.id, firstn_all. Qed.

Lemma write_mat_whole m : mt_offset m = 0 → 0 < size_of (mt_buffer m) < 2 ^ 31 →
  write_mat m = Ok (written (mt_type m) (mt_rows m) (mt_cols m) (mt_buffer m)).
Proof.
  intros Ho Hs. unfold write_mat. rewrite Ho, i32_id by lia. rewrite (bool_decide_false (_ ≤ 0)) by lia.
  rewrite bool_decide_false by lia. by rewrite drop_0, take_size.
Qed.

Lemma read_written t rows cols b rest : 0 ≤ t < 2 ^ 31 → 0 < rows < 2 ^ 31 → 0 < cols < 2 ^ 31 → 0 < size_of b < 2 ^ 31 →
  read_mat (written t rows cols b ++ rest) =
    if bool_decide (rows * cols * elemSize t = size_of b) then Ok (mkMat t rows cols b 0, rest) else Abort AssertFailed.
Proof.
  intros Ht Hr Hc Hb. unfold read_mat, written. rewrite <-!app_assoc. rewrite !read_int_write32 by lia.
  rewrite readBytes_writeBytes by lia. destruct (mat_create_ok rows cols t) as (buf & Hm & Hsz); [lia..|].
  rewrite Hm. cbn. by rewrite Hsz.
Qed.

(** C32: a matrix that has its buffer for itself is read back as it was written,
    whatever follows it in the stream. *)
Theorem mat_stream_roundtrip m : mat_ok m →
  ∃ b, write_mat m = Ok b ∧ ∀ rest, read_mat (b ++ rest) = Ok (m, rest).
Proof.
  intros [Hr Hc Ht Ho Hs Hi]. eexists. split; [by apply write_mat_whole|]. intros rest.
  rewrite read_written by done. rewrite bool_decide_true by done. destruct m. cbn in *. by subst.
Qed.

Lemma crop_view c m : mat_ok m → 0 ≤ m_x1 c → 0 ≤ m_x2 c → 0 ≤ m_y1 c → 0 ≤ m_y2 c →
  m_x1 c + m_x2 c < mt_cols m → m_y1 c + m_y2 c < mt_rows m →
  crop_process c m = Ok (Some (mkMat (mt_type m) (mt_rows m - (m_y1 c + m_y2 c)) (mt_cols m - (m_x1 c + m_x2 c)) (mt_buffer m)
    ((m_y1 c * mt_cols m + m_x1 c) * elemSize (mt_type m)))).
Proof.
  intros [Hr Hc Ht Ho Hs Hi] Hx1 Hx2 Hy1 Hy2 Hx Hy. unfold crop_process. rewrite !i32_id by (rewrite ?i32_id by lia; lia).
  rewrite !bool_decide_false by lia. cbn [orb]. by rewrite mat_roi_ok by (done || (unfold within; cbn; lia)).
Qed.

(** A cropped image cannot be sent: it still has the buffer of the whole
    image, so that writing it reads past the end of the buffer or, when only the
    right or the lower margin was cut off, the receiver fails its assertion. *)
Theorem cropped_image_not_sent c m : mat_ok m → 0 ≤ m_x1 c → 0 ≤ m_x2 c → 0 ≤ m_y1 c → 0 ≤ m_y2 c →
  m_x1 c + m_x2 c < mt_cols m → m_y1 c + m_y2 c < mt_rows m → 0 < m_x1 c + m_x2 c + m_y1 c + m_y2 c →
  ∃ m', crop_process c m = Ok (Some m') ∧
    (0 < m_x1 c + m_y1 c → write_mat m' = Abort UndefinedBehaviour) ∧
    (m_x1 c + m_y1 c = 0 → ∃ b, write_mat m' = Ok b ∧ ∀ rest, read_mat (b ++ rest) = Abort AssertFailed).
Proof.
  intros Hm Ha1 Ha2 Hb1 Hb2 Hx Hy Hcut. eexists. split; [by apply crop_view|]. destruct Hm as [Hr Hc Ht Ho Hs Hi].
  pose proof (elemSize_pos (mt_type m)) as Hel. split.
  - intros Hpos. unfold write_mat. cbn. rewrite i32_id by lia. rewrite (bool_decide_false (_ ≤ 0)) by lia.
    rewrite bool_decide_true; [done|]. assert (0 < (m_y1 c * mt_cols m + m_x1 c) * elemSize (mt_type m)); [|lia].
    apply Z.mul_pos_pos; [|done]. destruct (decide (m_y1 c = 0)); nia.
  - intros Hzero. assert (m_x1 c = 0) as Hx1 by lia. assert (m_y1 c = 0) as Hy1 by lia. eexists.
    split; [apply write_mat_whole; [cbn; rewrite Hx1, Hy1; lia|done]|]. intros rest. cbn [mt_type mt_rows mt_cols mt_buffer].
    rewrite read_written by lia. rewrite bool_decide_false; [done|]. rewrite Hs. intros Heq.
    apply Z.mul_reg_r in Heq; [|lia]. nia.
Qed.
End proofs.
