(* ===== verification/Framing.v ===== *)
(** Cutting a byte stream into messages: the loop that the server
    (ServerConnection::readyRead) and the client (TCPClientProducer::readData)
    share, and that it finds exactly the messages that have arrived completely,
    however the stream was cut into pieces on its way. *)
From S2P Require Export MatStream.

(** ** What the loop needs of its object

    The bytes that can be read from the socket (None: [m_tcpSocket] is null),
    [m_blockSize], and setting both. *)
Class Receiver (S : Type) := {
  rx_socket : S → option bytes;
  rx_blockSize : S → Z;
  rx_set : bytes → Z → S → S
}.
Class ReceiverLaws (S : Type) `{Receiver S} := {
  rx_socket_set l n s l0 : rx_socket s = Some l0 → rx_socket (rx_set l n s) = Some l;
  rx_blockSize_set l n s l0 : rx_socket s = Some l0 → rx_blockSize (rx_set l n s) = n;
  rx_set_set l n l' n' s : rx_set l n (rx_set l' n' s) = rx_set l n s;
  rx_set_id l s : rx_socket s = Some l → rx_set l (rx_blockSize s) s = s
}.

Section loop.
Context {S : Type} `{!Receiver S} `{!DataStream}.

Definition rx_get : M S bytes := λ s,
  match rx_socket s with Some l => (Ok l, s) | None => (Abort NullPointer, s) end.
(** Reading from the front of the socket. *)
Definition rx_read {A} (f : bytes → A * bytes) : M S A :=
  l ← rx_get ;
  let '(a, l') := f l in
  modify (λ s, rx_set l' (rx_blockSize s) s) ;; mret a.
Definition rx_available : M S Z := l ← rx_get ; mret (size_of l).
Definition rx_setBlockSize (n : Z) : M S unit :=
  l ← rx_get ; modify (λ s, rx_set l n s).

Context (handle : Z → M S unit).

(** One message: its opcode, what [handle] does with it, and the size of the
    next one; whether that has arrived. *)
Definition read_message : M S bool :=
  opcode ← rx_read read32 ;
  handle opcode ;;
  avail ← rx_available ;
  data ← (if bool_decide (4 ≤ avail) then
            n ← rx_read read_int ; rx_setBlockSize n ;; mret true
          else rx_setBlockSize 0 ;; mret false) ;
  avail' ← rx_available ;
  blockSize ← gets rx_blockSize ;
  mret (if bool_decide (avail' < blockSize) then false else data).

Fixpoint read_loop (fuel : nat) : M S unit :=
  match fuel with
  | O => abort OutOfFuel
  | Datatypes.S fuel' => data ← read_message ; if (data : bool) then read_loop fuel' else mret tt
  end.

(** The loop once the size of the first message is known.  All messages but
    the first are preceded by four bytes of the socket, which bounds the
    number of rounds. *)
Definition read_blocks : M S unit :=
  avail ← rx_available ; read_loop (Datatypes.S (Z.to_nat avail)).

(** What precedes the loop: whether a whole message is there. *)
Definition read_size : M S bool :=
  blockSize ← gets rx_blockSize ;
  avail ← rx_available ;
  if bool_decide (blockSize = 0) && bool_decide (avail < 4) then mret false
  else
    when (bool_decide (blockSize = 0)) (n ← rx_read read_int ; rx_setBlockSize n) ;;
    blockSize' ← gets rx_blockSize ;
    avail' ← rx_available ;
    mret (negb (bool_decide (avail' < blockSize'))).

Definition receive : M S unit :=
  whole ← read_size ; if (whole : bool) then read_blocks else mret tt.

(** More bytes arrive. *)
Definition rx_append (chunk : bytes) (s : S) : S :=
  match rx_socket s with Some l => rx_set (l ++ chunk) (rx_blockSize s) s | None => s end.
End loop.

(** ** The messages in a stream *)
Section framing.
#[local] Set Default Proof Using "Type*".
Context {S : Type} `{!Receiver S} `{!ReceiverLaws S} `{!DataStream} `{!DataStreamLaws}.
Implicit Types (s : S) (p l : bytes) (ps : list bytes).

(** A payload holds at least its opcode, and its size fits an [int]. *)
Definition payload_ok p : Prop := 4 ≤ size_of p < 2 ^ 31.

(** The stream as it was before the size of the current message was read. *)
Definition unread s l : bytes := (if bool_decide (rx_blockSize s = 0) then [] else write32 (rx_blockSize s)) ++ l.

(** The beginning of a message that has not arrived completely. *)
Definition incomplete (rem : bytes) : Prop := ∃ p rest, payload_ok p ∧ message p = rem ++ rest ∧ rest ≠ [].

(** The object when [rem] is what is left: short of a size it stays in the
    socket. *)
Definition park (rem : bytes) s : S :=
  if bool_decide (size_of rem < 4) then rx_set rem 0 s
  else rx_set (read_int rem).2 (read_int rem).1 s.

(** Messages of type [X]: on an object that satisfies [inv], [handle] takes
    exactly the payload of a message off the socket and has effect [eff] on the
    rest of the object. *)
Record handles {X} (handle : Z → M S unit) (payload : X → bytes) (eff : X → S → S) (ok : X → Prop) (inv : S → Prop) : Prop := {
  ha_payload x : ok x → payload_ok (payload x);
  ha_run x s rest : ok x → inv s → ∃ op tail, payload x = write32 op ++ tail ∧ u32 op = op ∧
    handle op (rx_set (tail ++ rest) (size_of (payload x)) s) = (Ok tt, rx_set rest (size_of (payload x)) (eff x s));
  ha_live s : inv s → ∃ l, rx_socket s = Some l;
  ha_inv x s : ok x → inv s → inv (eff x s);
  ha_inv_set l n s : inv s → inv (rx_set l n s);
  ha_frame x s l n : eff x (rx_set l n s) = rx_set l n (eff x s)
}.

Lemma message_split p rem rest : message p = rem ++ rest → 4 ≤ size_of rem →
  ∃ l, rem = write32 (size_of p) ++ l ∧ p = l ++ rest.
Proof.
  unfold message, size_of. intros Heq Hlen. apply app_eq_inv in Heq as [(k & Hk & Hp)|(k & Hk & Hr)].
  - assert (k = []) as ->.
    { apply nil_length_inv. pose proof (f_equal length Hk) as Hl. rewrite length_app, write32_length in Hl. lia. }
    exists []. rewrite app_nil_r in *. cbn in *. by rewrite <-Hk.
  - by exists k.
Qed.


Lemma run_rx_get s l : rx_socket s = Some l → rx_get s = (Ok l, s).
Proof. intros Hl. unfold rx_get. by rewrite Hl. Qed.
Lemma run_rx_available s l : rx_socket s = Some l → rx_available s = (Ok (size_of l), s).
Proof. intros Hl. unfold rx_available. by erewrite run_bind by (by apply run_rx_get). Qed.
Lemma run_rx_read {A} (f : bytes → A * bytes) s l a l' : rx_socket s = Some l → f l = (a, l') →
  rx_read f s = (Ok a, rx_set l' (rx_blockSize s) s).
Proof.
  intros Hl Hf. unfold rx_read. erewrite run_bind by (by apply run_rx_get). rewrite Hf. done.
Qed.
Lemma run_rx_setBlockSize s l n : rx_socket s = Some l → rx_setBlockSize n s = (Ok tt, rx_set l n s).
Proof. intros Hl. unfold rx_setBlockSize. by erewrite run_bind by (by apply run_rx_get). Qed.

(** After a message: the next size is read if it is there. *)
Definition next_size (l : bytes) s : S * bool :=
  if bool_decide (4 ≤ size_of l) then
    (rx_set (read_int l).2 (read_int l).1 s, negb (bool_decide (size_of (read_int l).2 < (read_int l).1)))
  else (rx_set l 0 s, false).

Lemma read_message_step handle op tail rest n s s' l0 l1 : rx_socket s = Some l0 → rx_socket s' = Some l1 → u32 op = op →
  handle op (rx_set tail n s) = (Ok tt, rx_set rest n s') →
  read_message handle (rx_set (write32 op ++ tail) n s) = (Ok (next_size rest s').2, (next_size rest s').1).
Proof.
  intros Hs Hl1 Hop Hrun.
  assert (Hset : ∀ l n s l0, rx_socket s = Some l0 → rx_socket (rx_set l n s) = Some l) by (intros; by eapply rx_socket_set).
  unfold read_message.
  erewrite run_bind by (eapply run_rx_read; [by eapply Hset|apply read32_write32]).
  rewrite Hop. rewrite rx_set_set. erewrite (rx_blockSize_set _ _ _ _ Hs). rewrite (run_bind _ _ _ _ _ Hrun).
  erewrite run_bind by (eapply run_rx_available; by eapply Hset).
  unfold next_size. case_bool_decide as Hlen.
  - destruct (read_int rest) as [k l] eqn:Hread. cbn [fst snd].
    erewrite run_bind.
    2:{ erewrite run_bind by (eapply run_rx_read; [by eapply Hset|exact Hread]).
        rewrite rx_set_set. erewrite run_bind by (eapply run_rx_setBlockSize; by eapply Hset).
        rewrite rx_set_set. reflexivity. }
    erewrite run_bind by (eapply run_rx_available; by eapply Hset).
    erewrite run_bind by reflexivity. rewrite (rx_blockSize_set _ _ _ _ Hl1). by case_bool_decide.
  - erewrite run_bind.
    2:{ erewrite run_bind by (eapply run_rx_setBlockSize; by eapply Hset). rewrite rx_set_set. reflexivity. }
    erewrite run_bind by (eapply run_rx_available; by eapply Hset).
    erewrite run_bind by reflexivity. by case_bool_decide.
Qed.

Lemma run_read_message {X} handle payload eff ok inv (x : X) s rest : handles handle payload eff ok inv → ok x → inv s →
  read_message handle (rx_set (payload x ++ rest) (size_of (payload x)) s) =
    (Ok (next_size rest (eff x s)).2, (next_size rest (eff x s)).1).
Proof.
  intros Hh Hok Hi. destruct (ha_run _ _ _ _ _ Hh x s rest Hok Hi) as (op & tail & Hp & Hop & Hrun).
  destruct (ha_live _ _ _ _ _ Hh s Hi) as [l0 Hs].
  destruct (ha_live _ _ _ _ _ Hh _ (ha_inv _ _ _ _ _ Hh x s Hok Hi)) as [l1 Hl1].
  rewrite Hp at 1. rewrite <-app_assoc. by eapply read_message_step.
Qed.

Lemma park_next rem s : (rem = [] ∨ incomplete rem) → next_size rem s = (park rem s, false).
Proof.
  unfold next_size, park. intros [->|(p & rest & Hp & Heq & Hne)]; [done|].
  destruct (decide (4 ≤ size_of rem)) as [H4|H4]; [|by rewrite bool_decide_false, bool_decide_true by lia].
  rewrite (bool_decide_true (4 ≤ _)), (bool_decide_false (size_of rem < 4)) by lia.
  destruct (message_split _ _ _ Heq H4) as (l & -> & ->). unfold payload_ok in Hp.
  rewrite read_int_write32 by lia. cbn [fst snd]. f_equal.
  rewrite bool_decide_true; [done|]. rewrite size_app. unfold size_of in *. destruct rest; [done|]. cbn. lia.
Qed.

Lemma next_message p l s : payload_ok p →
  next_size (message p ++ l) s = (rx_set (p ++ l) (size_of p) s, true).
Proof.
  intros Hp. unfold next_size, payload_ok in *. unfold message. rewrite <-app_assoc.
  rewrite bool_decide_true by (rewrite size_app, size_write32; pose proof (size_nonneg (p ++ l)); lia).
  rewrite read_int_write32 by lia. cbn [fst snd]. rewrite bool_decide_false; [done|].
  rewrite size_app. pose proof (size_nonneg l). lia.
Qed.

(** Everything that has arrived completely. *)
Definition stream (ps : list bytes) (rem : bytes) : bytes := (ps ≫= message) ++ rem.
Definition effects {X} (eff : X → S → S) (xs : list X) s : S := foldl (λ s x, eff x s) s xs.

Lemma effects_set {X} handle payload eff ok inv (xs : list X) l n s : handles handle payload eff ok inv →
  effects eff xs (rx_set l n s) = rx_set l n (effects eff xs s).
Proof.
  intros Hh. revert s. induction xs as [|x xs IH]; intros s; [done|].
  unfold effects in *. cbn. by rewrite (ha_frame _ _ _ _ _ Hh), IH.
Qed.
Lemma effects_inv {X} handle payload eff ok inv (xs : list X) s : handles handle payload eff ok inv → Forall ok xs →
  inv s → inv (effects eff xs s).
Proof.
  intros Hh Hxs. revert s. induction Hxs as [|x xs Hx Hxs IH]; intros s Hs; [done|].
  unfold effects in *. cbn. by apply IH, (ha_inv _ _ _ _ _ Hh).
Qed.
Lemma park_set rem l n s : park rem (rx_set l n s) = park rem s.
Proof. unfold park. by rewrite !rx_set_set. Qed.

Lemma run_read_loop {X} handle payload eff ok inv (xs : list X) rem : handles handle payload eff ok inv → Forall ok xs →
  (rem = [] ∨ incomplete rem) →
  ∀ x s fuel, ok x → inv s → (length xs < fuel)%nat →
  read_loop handle fuel (rx_set (payload x ++ stream (payload <$> xs) rem) (size_of (payload x)) s) =
    (Ok tt, park rem (effects eff (x :: xs) s)).
Proof.
  intros Hh Hxs Hrem.
  induction Hxs as [|y xs Hy Hxs IH]; intros x s fuel Hx Hs Hfuel; (destruct fuel as [|fuel]; [cbn in *; lia|]); cbn [read_loop];
    rewrite (run_bind _ _ _ _ _ (run_read_message handle payload eff ok inv x s _ Hh Hx Hs)).
  - unfold stream. cbn [fmap list_fmap mbind list_bind app]. by rewrite park_next.
  - unfold stream. rewrite fmap_cons, bind_cons, <-app_assoc.
    change (((payload <$> xs) ≫= message) ++ rem) with (stream (payload <$> xs) rem).
    rewrite next_message by (by eapply ha_payload). cbn [fst snd].
    cbn in Hfuel. rewrite (IH y (eff x s) fuel Hy (ha_inv _ _ _ _ _ Hh x s Hx Hs)) by lia. done.
Qed.

Lemma run_read_size_known s l : rx_socket s = Some l → rx_blockSize s ≠ 0 →
  read_size s = (Ok (negb (bool_decide (size_of l < rx_blockSize s))), s).
Proof.
  intros Hl Hb. unfold read_size. erewrite run_bind by reflexivity.
  erewrite run_bind by (by apply run_rx_available). rewrite bool_decide_false by done. cbn [andb when].
  erewrite run_bind by reflexivity. erewrite run_bind by reflexivity.
  by erewrite run_bind by (by apply run_rx_available).
Qed.
Lemma run_read_size_short s l : rx_socket s = Some l → rx_blockSize s = 0 → size_of l < 4 →
  read_size s = (Ok false, s).
Proof.
  intros Hl Hb H4. unfold read_size. erewrite run_bind by reflexivity.
  erewrite run_bind by (by apply run_rx_available). by rewrite !bool_decide_true by lia.
Qed.
Lemma run_read_size_new s l n l' : rx_socket s = Some l → rx_blockSize s = 0 → 4 ≤ size_of l →
  read_int l = (n, l') →
  read_size s = (Ok (negb (bool_decide (size_of l' < n))), rx_set l' n s).
Proof.
  intros Hl Hb H4 Hread. unfold read_size. erewrite run_bind by reflexivity.
  erewrite run_bind by (by apply run_rx_available). rewrite Hb.
  rewrite (bool_decide_true (0 = 0)), bool_decide_false by lia. cbn [andb when].
  assert (Hset : ∀ l n s l0, rx_socket s = Some l0 → rx_socket (rx_set l n s) = Some l) by (intros; by eapply rx_socket_set).
  erewrite run_bind.
  2:{ erewrite run_bind by (eapply run_rx_read; [exact Hl|exact Hread]).
      eapply run_rx_setBlockSize. by eapply Hset. }
  rewrite rx_set_set. erewrite run_bind by reflexivity. erewrite (rx_blockSize_set _ _ _ _ Hl).
  by erewrite run_bind by (eapply run_rx_available; by eapply Hset).
Qed.

Lemma length_messages ps : (length ps ≤ length (ps ≫= message))%nat.
Proof.
  induction ps as [|q ps IH]; [done|]. rewrite bind_cons, length_app. unfold message at 1.
  rewrite length_app, write32_length. cbn. lia.
Qed.

Lemma stream_cons p ps rem : stream (p :: ps) rem = write32 (size_of p) ++ (p ++ stream ps rem).
Proof. unfold stream. rewrite bind_cons. unfold message at 1. by rewrite <-!app_assoc. Qed.

Lemma write32_inj m n : 0 ≤ m < 2 ^ 31 → 0 ≤ n < 2 ^ 31 → write32 m = write32 n → m = n.
Proof.
  intros Hm Hn Hw. pose proof (read_int_write32 m [] Hm) as H1. pose proof (read_int_write32 n [] Hn) as H2.
  rewrite Hw in H1. congruence.
Qed.

(** The loop, from the first message on. *)
Lemma run_read_blocks {X} handle payload eff ok inv (x : X) xs rem s : handles handle payload eff ok inv → ok x → Forall ok xs →
  (rem = [] ∨ incomplete rem) → inv s →
  read_blocks handle (rx_set (payload x ++ stream (payload <$> xs) rem) (size_of (payload x)) s) =
    (Ok tt, park rem (effects eff (x :: xs) s)).
Proof.
  intros Hh Hx Hxs Hrem Hi. destruct (ha_live _ _ _ _ _ Hh s Hi) as [l0 Hl]. unfold read_blocks.
  erewrite run_bind by (eapply run_rx_available; by eapply rx_socket_set).
  apply (run_read_loop _ _ _ ok inv _ _ Hh Hxs Hrem x s _ Hx Hi).
  unfold stream, size_of. rewrite Nat2Z.id, !length_app. pose proof (length_messages (payload <$> xs)).
  rewrite length_fmap in *. lia.
Qed.

(** The loop acts on the complete messages, in order, and keeps the rest,
    wherever the stream was cut before. *)
Lemma run_receive {X} handle payload eff ok inv (xs : list X) rem s l : handles handle payload eff ok inv → Forall ok xs →
  (rem = [] ∨ incomplete rem) → inv s → rx_socket s = Some l → 0 ≤ rx_blockSize s < 2 ^ 31 →
  unread s l = stream (payload <$> xs) rem →
  receive handle s = (Ok tt, park rem (effects eff xs s)).
Proof.
  intros Hh Hxs Hrem Hi Hl Hb Hun. unfold receive, unread in *.
  destruct Hxs as [|x xs Hx Hxs];
    [|pose proof (ha_payload _ _ _ _ _ Hh x Hx) as Hpp; unfold payload_ok in Hpp; rewrite fmap_cons in Hun;
      set (p := payload x) in *; set (ps := payload <$> xs) in *];
    (destruct (decide (rx_blockSize s = 0)) as [Hz|Hz];
      [rewrite bool_decide_true in Hun by done|rewrite bool_decide_false in Hun by done]); cbn [app] in Hun.
  - subst l. change (stream (payload <$> []) rem) with rem in *. destruct (decide (size_of rem < 4)) as [H4|H4].
    + rewrite (run_bind _ _ _ _ _ (run_read_size_short s rem Hl Hz H4)). unfold park.
      rewrite bool_decide_true by done. rewrite <-Hz. by rewrite rx_set_id.
    + destruct (read_int rem) as [n l'] eqn:Hread.
      rewrite (run_bind _ _ _ _ _ (run_read_size_new s rem n l' Hl Hz ltac:(lia) Hread)).
      pose proof (park_next rem s Hrem) as Hpn. unfold next_size in Hpn.
      rewrite bool_decide_true, Hread in Hpn by lia. cbn in Hpn. injection Hpn as Hpk ->. by rewrite Hpk.
  - change (stream (payload <$> []) rem) with rem in *. destruct Hrem as [->|(p & rest & Hp & Heq & Hne)].
    { apply (f_equal length) in Hun. rewrite length_app, write32_length in Hun. cbn in Hun. lia. }
    assert (H4 : 4 ≤ size_of rem) by (rewrite <-Hun, size_app, size_write32; pose proof (size_nonneg l); lia).
    destruct (message_split _ _ _ Heq H4) as (l' & Hrem & Hpl). unfold payload_ok in Hp.
    rewrite Hrem in Hun. apply app_inj_1 in Hun as [Hw <-]; [|by rewrite !write32_length].
    apply write32_inj in Hw as Hsz; [|lia..].
    rewrite (run_bind _ _ _ _ _ (run_read_size_known s l Hl Hz)). rewrite bool_decide_true.
    + cbn [negb effects foldl]. unfold park. rewrite bool_decide_false by lia.
      rewrite Hrem, read_int_write32 by lia. cbn [fst snd]. rewrite <-Hsz. by rewrite rx_set_id.
    + rewrite Hsz, Hpl, size_app. unfold size_of. destruct rest; [done|]. cbn. lia.
  - rewrite stream_cons in Hun. subst l. set (rest := p ++ stream ps rem) in *.
    assert (Hsz : size_of p ≤ size_of rest) by (unfold rest; rewrite size_app; pose proof (size_nonneg (stream ps rem)); lia).
    assert (Hread : read_int (write32 (size_of p) ++ rest) = (size_of p, rest)) by (apply read_int_write32; lia).
    erewrite run_bind; [|eapply (run_read_size_new s _ _ _ Hl Hz); [|exact Hread];
      rewrite size_app, size_write32; pose proof (size_nonneg rest); lia].
    rewrite bool_decide_false by lia. cbn [negb]. by eapply run_read_blocks.
  - rewrite stream_cons in Hun. apply app_inj_1 in Hun as [Hw ->]; [|by rewrite !write32_length].
    apply write32_inj in Hw as Hsz; [|lia..].
    rewrite (run_bind _ _ _ _ _ (run_read_size_known s _ Hl Hz)).
    rewrite bool_decide_false by (rewrite Hsz, size_app; pose proof (size_nonneg (stream ps rem)); lia).
    cbn [negb]. rewrite <-(rx_set_id _ _ Hl) at 1. rewrite Hsz. by eapply run_read_blocks.
Qed.

(** ** Pieces of a stream *)

Lemma park_unread rem s l0 : (rem = [] ∨ incomplete rem) → rx_socket s = Some l0 →
  ∃ l, rx_socket (park rem s) = Some l ∧ unread (park rem s) l = rem ∧ 0 ≤ rx_blockSize (park rem s) < 2 ^ 31.
Proof.
  intros Hrem Hs. unfold park, unread. destruct (decide (size_of rem < 4)) as [H4|H4].
  - rewrite (bool_decide_true (_ < _)) by done. exists rem. rewrite (rx_blockSize_set _ _ _ _ Hs).
    split_and!; [by eapply rx_socket_set|done|lia..].
  - rewrite (bool_decide_false (_ < _)) by done. destruct Hrem as [->|(p & rest & Hp & Heq & _)]; [done|].
    destruct (message_split _ _ _ Heq ltac:(lia)) as (l & -> & _). unfold payload_ok in Hp.
    rewrite read_int_write32 by lia. cbn [fst snd]. exists l. rewrite (rx_blockSize_set _ _ _ _ Hs).
    split_and!; [by eapply rx_socket_set| |lia..]. by rewrite bool_decide_false by lia.
Qed.

(** A chunk arrives at an object that has kept [rem]. *)
Lemma run_arrival {X} handle payload eff ok inv (xs : list X) rem rem' chunk s : handles handle payload eff ok inv → Forall ok xs →
  (rem = [] ∨ incomplete rem) → (rem' = [] ∨ incomplete rem') → inv s →
  rem ++ chunk = stream (payload <$> xs) rem' →
  receive handle (rx_append chunk (park rem s)) = (Ok tt, park rem' (effects eff xs s)).
Proof.
  intros Hh Hxs Hrem Hrem' Hi Heq. destruct (ha_live _ _ _ _ _ Hh s Hi) as [l0 Hs]. destruct (park_unread rem s l0 Hrem Hs) as (l & Hl & Hun & Hb).
  unfold rx_append. rewrite Hl.
  assert (Hpk : ∃ a b, park rem s = rx_set a b s) by (unfold park; case_bool_decide; eauto).
  rewrite (run_receive handle payload eff ok inv xs rem' _ (l ++ chunk) Hh Hxs Hrem').
  - destruct Hpk as (a & b & ->). by rewrite !(effects_set _ _ _ _ _ _ _ _ _ Hh), !park_set.
  - destruct Hpk as (a & b & ->). by do 2 apply (ha_inv_set _ _ _ _ _ Hh).
  - by eapply rx_socket_set.
  - by rewrite (rx_blockSize_set _ _ _ _ Hl).
  - unfold unread in *. rewrite (rx_blockSize_set _ _ _ _ Hl). by rewrite app_assoc, Hun.
Qed.

Lemma incomplete_app l rest : incomplete (l ++ rest) → incomplete l.
Proof.
  intros (p & r & Hp & Heq & Hr). exists p, (rest ++ r). rewrite <-app_assoc in Heq. split_and!; [done..|].
  intros [-> ->]%app_eq_nil. done.
Qed.

(** What has arrived of a stream: some of its messages and the beginning of
    the next. *)
Lemma split_stream l rest ps t : Forall payload_ok ps → l ++ rest = stream ps t → (t = [] ∨ incomplete t) →
  ∃ ps1 ps2 rem, ps = ps1 ++ ps2 ∧ l = stream ps1 rem ∧ (rem = [] ∨ incomplete rem).
Proof.
  intros Hps. revert l. induction Hps as [|p ps Hp Hps IH]; intros l Heq Ht.
  - exists [], [], l. split_and!; [done..|]. change (stream [] t) with t in Heq. destruct Ht as [->|Ht].
    + left. by apply app_eq_nil in Heq as [-> _].
    + right. rewrite <-Heq in Ht. by eapply incomplete_app.
  - unfold stream in Heq. rewrite bind_cons, <-app_assoc in Heq. change ((ps ≫= message) ++ t) with (stream ps t) in Heq.
    apply app_eq_inv in Heq as [(k & Hk & Hk2)|(k & Hk & Hk2)].
    + destruct (IH k (eq_sym Hk2) Ht) as (ps1 & ps2 & rem & -> & -> & Hrem).
      exists (p :: ps1), ps2, rem. split_and!; [done| |done]. rewrite Hk. unfold stream. by rewrite bind_cons, <-app_assoc.
    + destruct (decide (k = [])) as [->|Hne].
      * rewrite app_nil_r in Hk. subst l. exists [p], ps, []. split_and!; [done| |by left].
        unfold stream. cbn. by rewrite !app_nil_r.
      * exists [], (p :: ps), l. split_and!; [done..|]. right. by exists p, k.
Qed.
End framing.
