(* ===== verification/ServerConnection.v ===== *)
(** One client of the TCP server (ServerConnection.h/.cpp): frames wait in a
    queue, are written to the socket while fewer than a maximum are in flight,
    and leave the list of frames in flight when the client acknowledges them. *)
From S2P Require Export Framing.

Record Frame := mkFrame { f_serial : Z; f_bytes : bytes; f_sent : Z }.

Inductive ConnSignal :=
  | waitingOnClient (waiting : bool)
  | scheduleSend
  | conn_finished
  | conn_onError (type : string).

(** [sc_socket] is None when [m_tcpSocket] is null. *)
Record ServerConnection := mkServerConnection {
  sc_socket : option Socket;
  sc_waiting : bool;
  sc_lossless : bool;
  sc_maxFramesInQueue : Z;
  sc_maxFramesInFlight : Z;
  sc_blockSize : Z;
  sc_frameNumbersInFlight : list Z;
  sc_frameQueue : list Frame;
  sc_signals : list ConnSignal
}.

Definition sc_set_socket (s : option Socket) (c : ServerConnection) : ServerConnection :=
  mkServerConnection s (sc_waiting c) (sc_lossless c) (sc_maxFramesInQueue c) (sc_maxFramesInFlight c)
    (sc_blockSize c) (sc_frameNumbersInFlight c) (sc_frameQueue c) (sc_signals c).
Definition sc_set_waiting (b : bool) (c : ServerConnection) : ServerConnection :=
  mkServerConnection (sc_socket c) b (sc_lossless c) (sc_maxFramesInQueue c) (sc_maxFramesInFlight c)
    (sc_blockSize c) (sc_frameNumbersInFlight c) (sc_frameQueue c) (sc_signals c).
Definition sc_set_lossless (b : bool) (c : ServerConnection) : ServerConnection :=
  mkServerConnection (sc_socket c) (sc_waiting c) b (sc_maxFramesInQueue c) (sc_maxFramesInFlight c)
    (sc_blockSize c) (sc_frameNumbersInFlight c) (sc_frameQueue c) (sc_signals c).
Definition sc_set_limits (maxq maxf : Z) (c : ServerConnection) : ServerConnection :=
  mkServerConnection (sc_socket c) (sc_waiting c) (sc_lossless c) maxq maxf
    (sc_blockSize c) (sc_frameNumbersInFlight c) (sc_frameQueue c) (sc_signals c).
Definition sc_set_blockSize (n : Z) (c : ServerConnection) : ServerConnection :=
  mkServerConnection (sc_socket c) (sc_waiting c) (sc_lossless c) (sc_maxFramesInQueue c) (sc_maxFramesInFlight c)
    n (sc_frameNumbersInFlight c) (sc_frameQueue c) (sc_signals c).
Definition sc_set_inFlight (l : list Z) (c : ServerConnection) : ServerConnection :=
  mkServerConnection (sc_socket c) (sc_waiting c) (sc_lossless c) (sc_maxFramesInQueue c) (sc_maxFramesInFlight c)
    (sc_blockSize c) l (sc_frameQueue c) (sc_signals c).
Definition sc_set_queue (q : list Frame) (c : ServerConnection) : ServerConnection :=
  mkServerConnection (sc_socket c) (sc_waiting c) (sc_lossless c) (sc_maxFramesInQueue c) (sc_maxFramesInFlight c)
    (sc_blockSize c) (sc_frameNumbersInFlight c) q (sc_signals c).
Definition sc_emit (s : ConnSignal) (c : ServerConnection) : ServerConnection :=
  mkServerConnection (sc_socket c) (sc_waiting c) (sc_lossless c) (sc_maxFramesInQueue c) (sc_maxFramesInFlight c)
    (sc_blockSize c) (sc_frameNumbersInFlight c) (sc_frameQueue c) (sc_signals c ++ [s]).

(** The connection as the object of the receiving loop. *)
#[export] Instance ServerConnection_receiver : Receiver ServerConnection := {|
  rx_socket c := so_in <$> sc_socket c;
  rx_blockSize := sc_blockSize;
  rx_set l n c := sc_set_blockSize n
    (sc_set_socket ((λ s, mkSocket (so_connected s) l (so_out s) (so_writes s)) <$> sc_socket c) c)
|}.
#[export] Instance ServerConnection_receiver_laws : ReceiverLaws ServerConnection.
Proof.
  split; unfold rx_socket, rx_blockSize, rx_set; cbn; [|done| |];
    (intros; destruct c as [[[]|] ? ? ? ? ? ? ? ?] || destruct s as [[[]|] ? ? ? ? ? ? ? ?]); cbn in *; naive_solver.
Qed.

Section connection.
Context `{DataStream} `{SocketLib}.

Abbreviation C := (M ServerConnection).

Definition the_socket : C Socket :=
  s ← gets sc_socket ;
  match s with Some x => mret x | None => abort NullPointer end.
Definition put_socket (s : Socket) : C unit := modify (sc_set_socket (Some s)).

(** [m_tcpSocket->write( ptr, len )] *)
Definition sock_write (l : bytes) : C Z :=
  s ← the_socket ;
  let r := accepts ServerEnd (so_writes s) (size_of l) in
  put_socket (mkSocket (so_connected s) (so_in s) (so_out s ++ take (Z.to_nat r) l) (S (so_writes s))) ;;
  mret r.

(** The constructor. *)
Definition new_ServerConnection (lossless : bool) (maxFrameQueue maxFramesInFlight : Z) : ServerConnection :=
  mkServerConnection None false lossless maxFrameQueue maxFramesInFlight 0 [] [] [].

(** One round of the loop of [sendData], on a queue that is not empty:
    whether the socket refused. *)
Definition send_first (f : Frame) (rest : list Frame) : C bool :=
  if bool_decide (f_sent f = 0) then
    bytesSent ← sock_write (f_bytes f) ;
    if bool_decide (bytesSent < size_of (f_bytes f)) then
      if bool_decide (bytesSent ≠ -1) then
        modify (sc_set_queue (mkFrame (f_serial f) (f_bytes f) bytesSent :: rest)) ;; mret false
      else mret true
    else
      modify (λ c, sc_set_inFlight (sc_frameNumbersInFlight c ++ [f_serial f]) c) ;;
      modify (sc_set_queue rest) ;; mret false
  else
    let ptr := drop (Z.to_nat (f_sent f)) (f_bytes f) in
    let len := size_of (f_bytes f) - f_sent f in
    bytesSent ← sock_write ptr ;
    if bool_decide (bytesSent < len) then
      if bool_decide (bytesSent ≠ -1) then
        modify (sc_set_queue (mkFrame (f_serial f) (f_bytes f) (f_sent f + bytesSent) :: rest)) ;; mret false
      else mret true
    else
      modify (λ c, sc_set_inFlight (sc_frameNumbersInFlight c ++ [f_serial f]) c) ;;
      modify (sc_set_queue rest) ;; mret false.

Fixpoint send_loop (fuel : nat) (overflow : bool) : C unit :=
  c ← gets id ;
  match sc_frameQueue c with
  | [] => mret tt
  | f :: rest =>
      if bool_decide (sc_maxFramesInFlight c ≤ Z.of_nat (length (sc_frameNumbersInFlight c))) || overflow
      then mret tt
      else
        match fuel with
        | O => abort OutOfFuel
        | S fuel' =>
            overflow' ← send_first f rest ;
            when overflow' (modify (sc_set_waiting true) ;; modify (sc_emit (waitingOnClient true))) ;;
            send_loop fuel' overflow'
        end
  end.

(** Every round writes a byte, takes a frame off the queue or is the last. *)
Definition send_fuel (q : list Frame) : nat :=
  S (sum_list_with (λ f, S (length (f_bytes f))) q).

Definition sendData : C unit :=
  c ← gets id ;
  match sc_socket c with
  | None => mret tt
  | Some s =>
      if negb (so_connected s) then mret tt
      else if sc_waiting c then mret tt
      else send_loop (send_fuel (sc_frameQueue c)) false
  end.

Definition queueFrame (frameNumber : Z) (frameData : bytes) : C unit :=
  c ← gets id ;
  match sc_socket c with
  | None => mret tt
  | Some _ =>
      modify (sc_set_queue (sc_frameQueue c ++ [mkFrame frameNumber frameData 0])) ;;
      c1 ← gets id ;
      when (bool_decide (Z.of_nat (length (sc_frameNumbersInFlight c1)) < sc_maxFramesInFlight c1)) sendData ;;
      c2 ← gets id ;
      when (bool_decide (sc_maxFramesInQueue c2 < Z.of_nat (length (sc_frameQueue c2))))
        (if sc_lossless c2 then
           when (negb (sc_waiting c2))
             (modify (sc_set_waiting true) ;; modify (sc_emit (waitingOnClient true)))
         else
           match sc_frameQueue c2 with
           | [] => abort AssertFailed
           | _ :: rest => modify (sc_set_queue rest)
           end) ;;
      modify (sc_emit scheduleSend)
  end.

Definition conn_ackFrame (serial : Z) : C unit :=
  c ← gets id ;
  match sc_frameNumbersInFlight c with
  | [] => mret tt
  | expectedSerial :: rest =>
      when (bool_decide (expectedSerial = serial)) (modify (sc_set_inFlight rest)) ;;
      c' ← gets id ;
      when (sc_lossless c' && sc_waiting c')
        (modify (sc_set_waiting false) ;; modify (sc_emit (waitingOnClient false)))
  end.

(** What [readyRead] does with a message; any other opcode is skipped. *)
Definition handle_message (opcode : Z) : C unit :=
  if bool_decide (opcode = PROTO_ACK) then
    serial ← rx_read read32 ;
    conn_ackFrame serial
  else
    c ← gets id ;
    rx_read (λ l, (tt, skipRawData (i32 (sc_blockSize c - 4)) l)).

Definition readyRead : C unit := receive handle_message.

(** ** The life of the connection *)

(** [ok]: whether [setSocketDescriptor] succeeds. *)
Definition conn_start (ok : bool) : C unit :=
  c ← gets id ;
  assert (bool_decide (sc_socket c = None)) ;;
  put_socket (mkSocket ok [] [] 0) ;;
  when (negb ok)
    (modify (sc_emit (conn_onError "PlvPipelineRuntimeError")) ;; modify (sc_emit conn_finished)).

(** [disconnectFromHost]: the socket leaves the connected state. *)
Definition conn_stop : C unit :=
  s ← the_socket ; put_socket (mkSocket false (so_in s) (so_out s) (so_writes s)).

Definition conn_disconnected : C unit :=
  the_socket ;; modify (sc_set_socket None) ;; modify (sc_emit conn_finished).

Definition setMaxFrameQueue (max : Z) : C unit :=
  modify (λ c, sc_set_limits max (sc_maxFramesInFlight c) c).
Definition setMaxFramesInFlight (max : Z) : C unit :=
  modify (λ c, sc_set_limits (sc_maxFramesInQueue c) max c).
Definition setLossless (b : bool) : C unit := modify (sc_set_lossless b).
End connection.
