(* ===== verification/TCPClientProducer.v ===== *)
(** The client of the TCP server (TCPClientProducer.h/.cpp): a producer that
    reads frames from a socket, acknowledges each of them, queues them, and
    puts the values of one frame on its output pins when it is run. *)
From S2P Require Export Framing Elements.

(** [cl_error]: what [setError] was called with, most recent last, and whether
    [onError] was emitted. *)
Record TCPClient := mkTCPClient {
  cl_socket : Socket;
  cl_blockSize : Z;
  cl_configured : bool;
  cl_autoReconnect : bool;
  cl_frameList : list (list QVariant);
  cl_errors : list (PlvErrorType * string * bool)
}.

Definition cl_set_socket (s : Socket) (c : TCPClient) : TCPClient :=
  mkTCPClient s (cl_blockSize c) (cl_configured c) (cl_autoReconnect c) (cl_frameList c) (cl_errors c).
Definition cl_set_blockSize (n : Z) (c : TCPClient) : TCPClient :=
  mkTCPClient (cl_socket c) n (cl_configured c) (cl_autoReconnect c) (cl_frameList c) (cl_errors c).
Definition cl_set_frameList (l : list (list QVariant)) (c : TCPClient) : TCPClient :=
  mkTCPClient (cl_socket c) (cl_blockSize c) (cl_configured c) (cl_autoReconnect c) l (cl_errors c).
Definition cl_add_error (e : PlvErrorType * string * bool) (c : TCPClient) : TCPClient :=
  mkTCPClient (cl_socket c) (cl_blockSize c) (cl_configured c) (cl_autoReconnect c) (cl_frameList c) (cl_errors c ++ [e]).
Definition cl_set_autoReconnect (b : bool) (c : TCPClient) : TCPClient :=
  mkTCPClient (cl_socket c) (cl_blockSize c) (cl_configured c) b (cl_frameList c) (cl_errors c).

(** The client as the object of the receiving loop. *)
#[export] Instance TCPClient_receiver : Receiver TCPClient := {|
  rx_socket c := Some (so_in (cl_socket c));
  rx_blockSize := cl_blockSize;
  rx_set l n c := cl_set_blockSize n (cl_set_socket
    (mkSocket (so_connected (cl_socket c)) l (so_out (cl_socket c)) (so_writes (cl_socket c))) c)
|}.
#[export] Instance TCPClient_receiver_laws : ReceiverLaws TCPClient.
Proof.
  split; unfold rx_socket, rx_blockSize, rx_set; cbn; [done..|].
  intros l [[] ? ? ? ? ?]; cbn in *; naive_solver.
Qed.

Section client.
Context `{DataStream} `{SocketLib}.

Abbreviation K := (M TCPClient).

(** A new client is configured. *)
Definition new_TCPClient : TCPClient := mkTCPClient (mkSocket false [] [] 0) 0 true false [] [].

Definition client_write (l : bytes) : K Z :=
  c ← gets id ;
  let s := cl_socket c in
  let r := accepts ClientEnd (so_writes s) (size_of l) in
  modify (cl_set_socket (mkSocket (so_connected s) (so_in s) (so_out s ++ take (Z.to_nat r) l) (Datatypes.S (so_writes s)))) ;;
  mret r.

(** ackFrame: a failed or short write is only logged. *)
Definition ack_message (serial : Z) : bytes := write32 (2 * 4) ++ write32 PROTO_ACK ++ write32 serial.
Definition client_ackFrame (serial : Z) : K unit := client_write (ack_message serial) ;; mret tt.

(** The loop over the arguments: None at the first invalid one. *)
Fixpoint parse_args (n : nat) (frame : list QVariant) : K (option (list QVariant)) :=
  match n with
  | O => mret (Some frame)
  | S n' =>
      v ← rx_read readVariant ;
      match v with
      | None => mret None
      | Some x => parse_args n' (frame ++ [x])
      end
  end.

Definition parseFrame : K bool :=
  serial ← rx_read read32 ;
  numargs ← rx_read read32 ;
  if bool_decide (numargs < 1) then
    blockSize ← gets cl_blockSize ;
    rx_read (λ l, (tt, skipRawData (i32 (blockSize - 2 * 4)) l)) ;;
    mret false
  else
    args ← parse_args (Z.to_nat numargs) [] ;
    match args with
    | None => mret false
    | Some frame =>
        client_ackFrame serial ;;
        modify (λ c, cl_set_frameList (cl_frameList c ++ [frame]) c) ;;
        mret true
    end.

(** The switch on the opcode. *)
Definition client_handle (opcode : Z) : K unit :=
  if bool_decide (opcode = PROTO_INIT) then mret tt
  else if bool_decide (opcode = PROTO_FRAME) then
    configured ← gets cl_configured ;
    when configured (parseFrame ;; mret tt)
  else
    blockSize ← gets cl_blockSize ;
    rx_read (λ l, (tt, skipRawData (i32 (blockSize - 4)) l)).

Definition readData : K unit :=
  whole ← read_size ;
  if negb whole then mret tt
  else
    configured ← gets cl_configured ;
    if negb configured then mret tt else read_blocks client_handle.

(** ** Connecting and disconnecting *)

(** The type and text of an error of the socket. *)
Inductive SocketError :=
  | RemoteHostClosedError | HostNotFoundError | ConnectionRefusedError | OtherSocketError (text : string).

Definition socket_error_text (err : SocketError) : string :=
  match err with
  | RemoteHostClosedError => "The remote host closed the connection."
  | HostNotFoundError => "The host was not found. Please check the host name and port settings."
  | ConnectionRefusedError => "The connection was refused by the peer. Make sure the Parlevision server is running, and check that the host name and port settings are correct."
  | OtherSocketError text => "The following error occurred: " +:+ text +:+ "."
  end.

Definition displayError (err : SocketError) (signal : bool) : K unit :=
  c ← gets id ;
  if cl_autoReconnect c then mret tt
  else modify (cl_add_error (PlvPipelineRuntimeError, socket_error_text err, signal)).

Definition INT_MAX : Z := 2 ^ 31 - 1.

(** Skipping [n] bytes, at most [INT_MAX] at a time. *)
Fixpoint skip_bytes (fuel : nat) (n : Z) : K unit :=
  match fuel with
  | O => abort OutOfFuel
  | S fuel' =>
      if bool_decide (INT_MAX < n) then
        rx_read (λ l, (tt, skipRawData INT_MAX l)) ;; skip_bytes fuel' (n - INT_MAX)
      else rx_read (λ l, (tt, skipRawData n l))
  end.
Definition skip_fuel (n : Z) : nat := S (Z.to_nat (n / INT_MAX)).

Definition client_connected (b : bool) : K unit :=
  modify (λ c, cl_set_socket (mkSocket b (so_in (cl_socket c)) (so_out (cl_socket c)) (so_writes (cl_socket c))) c).

(** [connects]: the error when [waitForConnected] fails. *)
Definition client_start (connects : option SocketError) : K bool :=
  n ← rx_available ;
  when (bool_decide (0 < n))
    (skip_bytes (skip_fuel n) n ;;
     n' ← rx_available ;
     assert (bool_decide (n' = 0)) ;;
     modify (cl_set_blockSize 0)) ;;
  match connects with
  | None => client_connected true ;; mret true
  | Some err =>
      c ← gets id ;
      if cl_autoReconnect c then mret true else displayError err false ;; mret false
  end.

(** [disconnects]: the error when [waitForDisconnected] fails. *)
Definition client_stop (disconnects : option SocketError) : K bool :=
  match disconnects with
  | None => client_connected false ;; mret true
  | Some err =>
      displayError err false ;;
      client_connected false ;;
      modify (cl_set_blockSize 0) ;; mret false
  end.

(** The slot [disconnected]. *)
Definition client_disconnected : K unit :=
  n ← rx_available ;
  when (bool_decide (0 < n))
    (skip_bytes (skip_fuel n) n ;; modify (cl_set_blockSize 0)).

(** [reconnects]: whether [waitForConnected] succeeds. *)
Definition client_readyToProduce (reconnects : bool) : K bool :=
  c ← gets id ;
  if negb (so_connected (cl_socket c)) && negb reconnects then mret false
  else
    when (negb (so_connected (cl_socket c))) (client_connected true) ;;
    c' ← gets id ;
    mret (negb (bool_decide (cl_frameList c' = []))).

Definition setAutoReconnect (b : bool) : K unit := modify (cl_set_autoReconnect b).
End client.

(** ** produce *)
Section produce.
Context `{HashOrder} `{QMetaType}.

(** The first pin that is not taken and has the type of [v]. *)
Fixpoint match_pin (v : QVariant) (pins : list optr) (taken : list string) : W (option string) :=
  match pins with
  | [] => mret None
  | o :: pins' =>
      p ← get_out o ;
      if bool_decide (op_name p ∉ taken) && bool_decide (op_typeId p = userType v) then
        e ← get_elem (op_owner p) ;
        out_putVariant o (el_serial e) v ;;
        mret (Some (op_name p))
      else match_pin v pins' taken
  end.

Fixpoint match_values (e : eptr) (frame : list QVariant) (taken : list string) : W unit :=
  match frame with
  | [] => mret tt
  | v :: frame' =>
      x ← get_elem e ;
      name ← match_pin v (hash_values (el_outputPins x)) taken ;
      match_values e frame' (match name with Some n => taken ++ [n] | None => taken end)
  end.

(** [m_frameList.takeFirst()] of an empty list is an error of the caller. *)
Definition client_produce (e : eptr) (frames : list (list QVariant)) : W (list (list QVariant)) :=
  match frames with
  | [] => abort AssertFailed
  | frame :: rest => match_values e frame [] ;; mret rest
  end.
End produce.
