(* ===== verification/TCPServer.v ===== *)
(** The TCP server element (Server.h/.cpp, TCPServerProcessor.h/.cpp): what
    arrives on the input pins in one run of the pipeline becomes one frame,
    which every connection gets. *)
From stdpp Require Import pretty.
From S2P Require Export ServerConnection Construction.

(** ** Server *)
Record Server := mkServer {
  sv_lossless : bool;
  sv_maxFramesInQueue : Z;
  sv_maxFramesInFlight : Z;
  sv_connections : list ServerConnection
}.

(** The element: its own properties, its server, and [m_waiting], which keeps
    it from being run. *)
Record TCPServer := mkTCPServer {
  ts_port : Z;
  ts_waiting : bool;
  ts_convert : bool;
  ts_server : Server;
  ts_signals : list string
}.

Definition ts_set_server (s : Server) (t : TCPServer) : TCPServer :=
  mkTCPServer (ts_port t) (ts_waiting t) (ts_convert t) s (ts_signals t).
Definition ts_set_waiting (b : bool) (t : TCPServer) : TCPServer :=
  mkTCPServer (ts_port t) b (ts_convert t) (ts_server t) (ts_signals t).

Section server.
Context `{DataStream} `{SocketLib}.

Definition new_Server : Server := mkServer false 1 1 [].
Definition new_TCPServer : TCPServer := mkTCPServer 1337 false false new_Server [].

(** A new connection takes over the settings of the server; [ok]: whether it
    could be started. *)
Definition incomingConnection (ok : bool) (s : Server) : Server :=
  mkServer (sv_lossless s) (sv_maxFramesInQueue s) (sv_maxFramesInFlight s)
    (sv_connections s ++
      [(conn_start ok (new_ServerConnection (sv_lossless s) (sv_maxFramesInQueue s) (sv_maxFramesInFlight s))).2]).

Definition server_setMaxFramesInQueue (max : Z) : M Server unit :=
  assert (bool_decide (1 ≤ max)) ;;
  modify (λ s, mkServer (sv_lossless s) max (sv_maxFramesInFlight s) (sv_connections s)).
Definition server_setMaxFramesInFlight (max : Z) : M Server unit :=
  assert (bool_decide (1 ≤ max)) ;;
  modify (λ s, mkServer (sv_lossless s) (sv_maxFramesInQueue s) max (sv_connections s)).
Definition server_setLossless (b : bool) : M Server unit :=
  modify (λ s, mkServer b (sv_maxFramesInQueue s) (sv_maxFramesInFlight s) (sv_connections s)).

(** A call on every connection, one after the other: each connection is an
    object of its own. *)
Fixpoint on_connections (m : M ServerConnection unit) (l : list ServerConnection) : outcome unit * list ServerConnection :=
  match l with
  | [] => (Ok tt, [])
  | c :: l' =>
      match m c with
      | (Ok _, c') => let '(r, l'') := on_connections m l' in (r, c' :: l'')
      | (Throw e, c') => (Throw e, c' :: l')
      | (Abort f, c') => (Abort f, c' :: l')
      end
  end.
Definition broadcast (m : M ServerConnection unit) : M Server unit := λ s,
  let '(r, l) := on_connections m (sv_connections s) in
  (r, mkServer (sv_lossless s) (sv_maxFramesInQueue s) (sv_maxFramesInFlight s) l).

Definition sendFrame (frameNumber : Z) (data : bytes) : M Server unit := broadcast (queueFrame frameNumber data).
Definition disconnectAll : M Server unit := broadcast conn_stop.

(** ** TCPServerProcessor *)
Abbreviation T := (M TCPServer).

Definition on_server {A} (m : M Server A) : T A := λ t,
  let '(r, s) := m (ts_server t) in (r, ts_set_server s t).
Definition ts_emit (name : string) : T unit :=
  modify (λ t, mkTCPServer (ts_port t) (ts_waiting t) (ts_convert t) (ts_server t) (ts_signals t ++ [name])).

Definition isReadyForProcessing (t : TCPServer) : bool := negb (ts_waiting t).

Definition stalled : T unit := modify (ts_set_waiting true).
Definition unstalled : T unit := modify (ts_set_waiting false).
Definition serverThreadStalled (isStalled : bool) : T unit := if isStalled then stalled else unstalled.

Definition setPort (port : Z) (doEmit : bool) : T unit :=
  modify (λ t, mkTCPServer port (ts_waiting t) (ts_convert t) (ts_server t) (ts_signals t)) ;;
  when doEmit (ts_emit "portChanged").
Definition setConvertCvMatDataToQImage (b doEmit : bool) : T unit :=
  modify (λ t, mkTCPServer (ts_port t) (ts_waiting t) b (ts_server t) (ts_signals t)) ;;
  when doEmit (ts_emit "convertCvMatDataToQImageChanged").

(** The limits of the server.  The connections listen to a signal of another
    name, [maxFrameQueueChanged], and keep the length of queue they have. *)
Definition setMaxFramesInQueue (max : Z) : T unit :=
  when (bool_decide (0 < max))
    (on_server (server_setMaxFramesInQueue max) ;; ts_emit "maxFramesInQueueChanged").
Definition setMaxFramesInFlight_all (max : Z) : T unit :=
  when (bool_decide (0 < max))
    (on_server (server_setMaxFramesInFlight max) ;; ts_emit "maxFramesInFlightChanged" ;;
     on_server (broadcast (setMaxFramesInFlight max))).
Definition setLossless_all (b : bool) : T unit :=
  on_server (server_setLossless b) ;; ts_emit "losslessChanged" ;; on_server (broadcast (setLossless b)).

(** The frame as it is written: the size comes first but is known last. *)
Definition make_block (frameNumber : Z) (frameData : list QVariant) : bytes :=
  let block := write32 0 ++ write32 PROTO_FRAME ++ write32 (u32 frameNumber) ++
                 write32 (Z.of_nat (length frameData)) ++ (frameData ≫= writeVariant) in
  write32 (size_of block - 4) ++ drop 4 block.
End server.

Section process.
Context `{DataStream} `{SocketLib} `{HashOrder} `{QMetaType}.

(** [m_cvMatDataTypeId], and ImageConverter::cvMatToQImageNoThrow on the value
    of a variant, as a variant again. *)
Context (cvMatDataTypeId : Z) (toQImage : QVariant → QVariant).

(** [QMetaType::typeName] *)
Context (typeName : Z → string).

Fixpoint collect_arguments (convert : bool) (pins : list iptr) : W (list QVariant) :=
  match pins with
  | [] => mret []
  | i :: pins' =>
      p ← get_in i ;
      arg ← (if ip_isConnected p then
               v ← in_getVariant i ;
               mret [if bool_decide (ip_typeId p = cvMatDataTypeId) && convert then toQImage v else v]
             else mret []) ;
      rest ← collect_arguments convert pins' ;
      mret (arg ++ rest)
  end.

(** process(): the frame for the server. *)
Definition make_frame (e : eptr) (convert : bool) : W (Z * bytes) :=
  x ← get_elem e ;
  args ← collect_arguments convert (hash_values (el_inputPins x)) ;
  x' ← get_elem e ;
  mret (u32 (el_serial x'), make_block (u32 (el_serial x')) args).

Definition process (e : eptr) : M (World * TCPServer) unit := λ '(w, t),
  match make_frame e (ts_convert t) w with
  | (Ok (n, block), w') => let '(r, t') := on_server (sendFrame n block) t in (r, (w', t'))
  | (Throw x, w') => (Throw x, (w', t))
  | (Abort f, w') => (Abort f, (w', t))
  end.

(** ** The pins

    Every connection leaves a fresh pin for the next one.  [createDynamicInputPin]
    with the defaults of its last arguments. *)
Definition createDynamicInputPin (name : string) (e : eptr) (required : Required) : W iptr :=
  createInputPin name e required CONNECTION_SYNCHRONOUS CONNECTION_GUARANTEES_DATA DynamicPin 0.

Definition ip_set_name (name : string) (p : IInputPin) : IInputPin :=
  mkIn (ip_id p) name (ip_owner p) (ip_required p) (ip_synchronous p) (ip_guarantee p) (ip_class p) (ip_typeId p)
    (ip_connection p) (ip_called p).

Definition server_onInputConnectionSet (e : eptr) (i : iptr) : W unit :=
  p ← get_in i ;
  upd_in i (ip_set_name (pretty (ip_id p) +:+ ": " +:+ typeName (ip_typeId p))) ;;
  createDynamicInputPin "generic pin" e CONNECTION_OPTIONAL ;; mret tt.
Definition server_onInputConnectionRemoved (e : eptr) (i : iptr) : W unit :=
  p ← get_in i ; removeInputPin e (ip_id p).
End process.
