(* ===== verification/TcpClientProof.v ===== *)
(** What the client does with a stream of frames. *)
From S2P Require Export TCPClientProducer TCPServer.

(** A frame: its serial and its arguments. *)
Abbreviation TcpFrame := (Z * list QVariant)%type.

Section client_proof.
#[local] Set Default Proof Using "Type*".
Context `{!DataStream} `{!DataStreamLaws} `{!SocketLib}.

Record frame_ok (fr : TcpFrame) : Prop := {
  fo_serial : 0 ≤ fr.1 < 2 ^ 32;
  fo_args : fr.2 ≠ [];
  fo_streamable : Forall streamable fr.2;
  fo_count : Z.of_nat (length fr.2) < 2 ^ 32;
  fo_size : size_of (frame_payload fr.1 fr.2) < 2 ^ 31
}.

Definition payload_of (fr : TcpFrame) : bytes := frame_payload fr.1 fr.2.

Lemma payload_of_ok fr : frame_ok fr → payload_ok (payload_of fr).
Proof.
  intros [_ _ _ _ Hsz]. split; [|done]. unfold payload_of, frame_payload. rewrite !size_app, !size_write32.
  pose proof (size_nonneg (write_args fr.2)). lia.
Qed.

(** The server writes a frame as a message of this payload. *)
Lemma make_block_message n args : 0 ≤ n < 2 ^ 32 → make_block n args = message (frame_payload n args).
Proof.
  intros Hn. unfold make_block, message. rewrite u32_id by done.
  change (args ≫= writeVariant) with (write_args args).
  change (write32 PROTO_FRAME ++ write32 n ++ write32 (Z.of_nat (length args)) ++ write_args args) with (frame_payload n args).
  rewrite size_app, size_write32. f_equal; [f_equal; lia|].
  rewrite <-(write32_length 0), drop_app_length. done.
Qed.

Lemma ack_message_message n : ack_message n = message (ack_payload n).
Proof. unfold ack_message, message. rewrite size_ack. done. Qed.

(** ** The effect of a frame *)
Definition client_effect (fr : TcpFrame) (c : TCPClient) : TCPClient :=
  let c1 := (client_ackFrame fr.1 c).2 in cl_set_frameList (cl_frameList c1 ++ [fr.2]) c1.

Lemma run_client_ackFrame n c : client_ackFrame n c = (Ok tt, (client_ackFrame n c).2).
Proof. reflexivity. Qed.

Lemma run_parse_args args rest frame c : Forall streamable args → so_in (cl_socket c) = write_args args ++ rest →
  parse_args (length args) frame c = (Ok (Some (frame ++ args)), rx_set rest (cl_blockSize c) c).
Proof.
  intros Hs. revert frame c. induction Hs as [|v args Hv Hs IH]; intros frame c Hin.
  - cbn. rewrite app_nil_r. cbn in Hin. subst rest. unfold mret, M_ret. f_equal.
    symmetry. by destruct c as [[] ? ? ? ? ?].
  - unfold write_args in Hin. rewrite bind_cons, <-app_assoc in Hin. cbn [length parse_args].
    erewrite run_bind.
    2:{ eapply run_rx_read; [|by apply readVariant_write]. cbn. f_equal. exact Hin. }
    cbv beta iota. change (rx_blockSize c) with (cl_blockSize c).
    rewrite IH by done. by rewrite <-app_assoc.
Qed.

Lemma run_parseFrame n args rest c : frame_ok (n, args) →
  so_in (cl_socket c) = write32 n ++ write32 (Z.of_nat (length args)) ++ write_args args ++ rest →
  parseFrame c = (Ok true, rx_set rest (cl_blockSize c) (client_effect (n, args) c)).
Proof.
  intros [Hn Hne Hs Hcount _] Hin. cbn in Hn, Hne, Hs, Hcount. unfold parseFrame.
  erewrite run_bind by (eapply run_rx_read; [reflexivity|rewrite Hin; apply read32_write32]).
  erewrite run_bind by (eapply run_rx_read; [reflexivity|apply read32_write32]).
  rewrite (u32_id (Z.of_nat (length args))) by lia.
  rewrite bool_decide_false by (destruct args; [done|cbn; lia]). rewrite Nat2Z.id.
  erewrite run_bind by (eapply run_parse_args; [exact Hs|reflexivity]). cbv beta iota. cbn [app].
  erewrite run_bind by apply run_client_ackFrame. rewrite (u32_id n) by done. reflexivity.
Qed.

Lemma client_handles : handles client_handle payload_of client_effect frame_ok (λ c, cl_configured c = true).
Proof.
  split.
  - apply payload_of_ok.
  - intros [n args] c rest Hok Hconf. exists PROTO_FRAME. eexists. split; [reflexivity|]. split; [done|].
    unfold client_handle.
    rewrite (bool_decide_false (PROTO_FRAME = PROTO_INIT)), (bool_decide_true (PROTO_FRAME = PROTO_FRAME)) by done.
    erewrite run_bind by reflexivity. cbn [rx_set TCPClient_receiver cl_set_blockSize cl_set_socket cl_configured].
    rewrite Hconf. cbn [when].
    erewrite run_bind by (apply (run_parseFrame n args rest); [exact Hok|cbn; by rewrite <-!app_assoc]). reflexivity.
  - intros c _. by eexists.
  - intros [n args] c _ Hc. exact Hc.
  - intros l n c Hc. exact Hc.
  - intros [n args] c l k. reflexivity.
Qed.

Lemma run_readData c : cl_configured c = true → readData c = receive client_handle c.
Proof.
  intros Hc. unfold readData, receive.
  assert (Hsize : ∃ b c', read_size c = (Ok b, c') ∧ cl_configured c' = true).
  { unfold read_size. erewrite run_bind by reflexivity. erewrite run_bind by reflexivity.
    destruct (_ && _); [by eexists _, _|]. destruct (bool_decide (rx_blockSize c = 0)); cbn [when].
    - destruct (read_int (so_in (cl_socket c))) as [n l] eqn:Hr.
      erewrite run_bind by (erewrite run_bind by (eapply run_rx_read; [reflexivity|exact Hr]); reflexivity).
      eexists _, _. split; [reflexivity|done].
    - erewrite run_bind by reflexivity. by eexists _, _. }
  destruct Hsize as (b & c' & Hrun & Hc'). rewrite !(run_bind _ _ _ _ _ Hrun). destruct b; [|done].
  cbn [negb]. erewrite run_bind by reflexivity. by rewrite Hc'.
Qed.

(** The effect of several frames on what can be seen of the client. *)
Lemma client_effects frs c : (∀ k n, accepts ClientEnd k n = n) →
  cl_frameList (effects client_effect frs c) = cl_frameList c ++ frs.*2 ∧
  so_out (cl_socket (effects client_effect frs c)) = so_out (cl_socket c) ++ (frs ≫= λ fr, ack_message fr.1) ∧
  cl_configured (effects client_effect frs c) = cl_configured c.
Proof.
  intros Hacc. revert c. induction frs as [|fr frs IH]; intros c.
  - cbn. by rewrite !app_nil_r.
  - unfold effects in *. cbn [foldl]. destruct (IH (client_effect fr c)) as (-> & -> & ->). split_and!.
    + cbn. by rewrite <-app_assoc.
    + rewrite bind_cons, app_assoc. f_equal.
      change (so_out (cl_socket (client_effect fr c))) with (so_out (cl_socket c) ++
        take (Z.to_nat (accepts ClientEnd (so_writes (cl_socket c)) (size_of (ack_message fr.1)))) (ack_message fr.1)).
      rewrite Hacc. unfold size_of. by rewrite Nat2Z.id, firstn_all.
    + done.
Qed.
End client_proof.
