(* ===== verification/TcpServerProof.v ===== *)
(** What one connection of the server does with its queue of frames and with
    the acknowledgements of its client. *)
From S2P Require Export ServerConnection.

Section server_proof.
#[local] Set Default Proof Using "Type*".
Context `{!DataStream} `{!DataStreamLaws} `{!SocketLib}.
Implicit Types (c : ServerConnection) (f : Frame) (q : list Frame).

(** ** Acknowledgements *)
Definition ack_effect (n : Z) c : ServerConnection :=
  match sc_frameNumbersInFlight c with
  | [] => c
  | x :: rest =>
      let c1 := if bool_decide (x = n) then sc_set_inFlight rest c else c in
      if sc_lossless c1 && sc_waiting c1 then sc_emit (waitingOnClient false) (sc_set_waiting false c1) else c1
  end.

Lemma run_conn_ackFrame n c : conn_ackFrame n c = (Ok tt, ack_effect n c).
Proof.
  unfold conn_ackFrame, ack_effect. erewrite run_bind by reflexivity. unfold id.
  destruct (sc_frameNumbersInFlight c) as [|x l]; [done|].
  case_bool_decide; (erewrite run_bind by reflexivity); (erewrite run_bind by reflexivity); unfold id;
    by destruct (_ && _).
Qed.

Definition has_socket c : Prop := is_Some (sc_socket c).

Lemma ack_handles : handles handle_message ack_payload ack_effect (λ n, 0 ≤ n < 2 ^ 32) has_socket.
Proof.
  split.
  - intros n Hn. unfold payload_ok. rewrite size_ack. lia.
  - intros n c rest Hn [s Hs]. exists PROTO_ACK, (write32 n). split; [done|]. split; [done|].
    unfold handle_message. rewrite (bool_decide_true (PROTO_ACK = PROTO_ACK)) by done.
    erewrite run_bind.
    2:{ eapply run_rx_read; [|apply read32_write32]. eapply rx_socket_set. cbn. by rewrite Hs. }
    rewrite u32_id by done. rewrite run_conn_ackFrame, rx_set_set. f_equal.
    erewrite rx_blockSize_set by (cbn; by rewrite Hs).
    destruct c as [? w ll mq mf bs [|x l] q sig]; [done|]. unfold ack_effect. cbn.
    case_bool_decide; cbn; by destruct (ll && w).
  - intros c [s Hs]. cbn. rewrite Hs. by eexists.
  - intros n c _ Hs. unfold has_socket, ack_effect in *. destruct c as [? w ll mq mf bs [|x l] q sig]; [done|].
    cbn. case_bool_decide; cbn; by destruct (ll && w).
  - intros l n c [s Hs]. unfold has_socket in *. cbn. rewrite Hs. by eexists.
  - intros n c l k. destruct c as [? w ll mq mf bs [|x l'] q sig]; [done|]. unfold ack_effect. cbn.
    case_bool_decide; cbn; by destruct (ll && w).
Qed.

(** What acknowledgements leave alone. *)
Record same_queue c c' : Prop := {
  sq_socket : sc_socket c' = sc_socket c;
  sq_queue : sc_frameQueue c' = sc_frameQueue c;
  sq_lossless : sc_lossless c' = sc_lossless c;
  sq_maxq : sc_maxFramesInQueue c' = sc_maxFramesInQueue c;
  sq_maxf : sc_maxFramesInFlight c' = sc_maxFramesInFlight c;
  sq_waiting : sc_waiting c' = true → sc_waiting c = true;
  sq_stuck : sc_waiting c = true → sc_lossless c = false → sc_waiting c' = true
}.

Lemma ack_effects acks rest c : sc_frameNumbersInFlight c = acks ++ rest →
  sc_frameNumbersInFlight (effects ack_effect acks c) = rest ∧ same_queue c (effects ack_effect acks c).
Proof.
  revert c. induction acks as [|n acks IH]; intros c Hc; [by split|].
  unfold effects in *. cbn [foldl]. destruct c as [s w ll mq mf bs l q sig]. cbn in Hc. subst l.
  destruct (IH (ack_effect n (mkServerConnection s w ll mq mf bs (n :: acks ++ rest) q sig))) as (H1' & [? ? ? ? ? ? ?]).
  { unfold ack_effect. cbn. rewrite bool_decide_true by done. cbn. by destruct (ll && w). }
  split; [done|].
  revert H1' sq_socket0 sq_queue0 sq_lossless0 sq_maxq0 sq_maxf0 sq_waiting0 sq_stuck0.
  unfold ack_effect at 2 4 6 8 10 12 14 15. cbn. rewrite bool_decide_true by done. cbn.
  destruct ll, w; cbn; intros; split; cbn; naive_solver.
Qed.

(** An acknowledgement ends the waiting of a lossless connection. *)
Lemma ack_wakes acks rest c : sc_lossless c = true → sc_frameNumbersInFlight c = acks ++ rest → acks ≠ [] →
  sc_waiting (effects ack_effect acks c) = false.
Proof.
  intros Hll Hfl Hne. destruct acks as [|n acks]; [done|].
  assert (H1' : sc_frameNumbersInFlight (ack_effect n c) = acks ++ rest ∧ sc_waiting (ack_effect n c) = false).
  { destruct c as [s w ll mq mf bs l q sig]. cbn in Hll, Hfl. subst l ll. unfold ack_effect. cbn.
    rewrite bool_decide_true by done. by destruct w. }
  destruct H1' as [Hfl1 Hw1]. unfold effects. cbn [foldl]. fold (effects ack_effect acks (ack_effect n c)).
  destruct (ack_effects _ _ _ Hfl1) as [_ [? ? ? ? ? Hw ?]].
  destruct (sc_waiting (effects ack_effect acks (ack_effect n c))); [|done]. rewrite <-Hw1. symmetry. by apply Hw.
Qed.

(** ** Sending *)
Definition frame_view f : Z * bytes := (f_serial f, f_bytes f).
Definition unsent f : bytes := drop (Z.to_nat (f_sent f)) (f_bytes f).
(** The part of the first frame that has been written. *)
Definition partial q : bytes := match q with f :: _ => take (Z.to_nat (f_sent f)) (f_bytes f) | [] => [] end.
Definition frame_wf f : Prop := f_sent f = 0 ∨ 0 < f_sent f < size_of (f_bytes f).
Definition started q : Prop := match q with f :: _ => f_sent f ≠ 0 | [] => False end.
Definition queue_wf q : Prop :=
  match q with [] => True | f :: rest => frame_wf f ∧ Forall (λ g, f_sent g = 0) rest end.
Definition out_of c : bytes := match sc_socket c with Some s => so_out s | None => [] end.
Definition in_of c : bytes := match sc_socket c with Some s => so_in s | None => [] end.
Definition linked c : Prop := match sc_socket c with Some s => so_connected s = true | None => False end.

(** Sending frames takes [done] off the queue and onto the wire. *)
Record sends c c' (done : list (Z * bytes)) : Prop := {
  sd_queue : frame_view <$> sc_frameQueue c = done ++ (frame_view <$> sc_frameQueue c');
  sd_flight : sc_frameNumbersInFlight c' = sc_frameNumbersInFlight c ++ done.*1;
  sd_out base : out_of c = base ++ partial (sc_frameQueue c) →
    out_of c' = base ++ (done ≫= snd) ++ partial (sc_frameQueue c');
  sd_grows : out_of c `prefix_of` out_of c';
  sd_wf : queue_wf (sc_frameQueue c');
  sd_in : in_of c' = in_of c;
  sd_linked : linked c';
  sd_blockSize : sc_blockSize c' = sc_blockSize c;
  sd_lossless : sc_lossless c' = sc_lossless c;
  sd_maxq : sc_maxFramesInQueue c' = sc_maxFramesInQueue c;
  sd_maxf : sc_maxFramesInFlight c' = sc_maxFramesInFlight c
}.

Lemma sends_refl c : queue_wf (sc_frameQueue c) → linked c → sends c c [].
Proof. intros Hq Hl. split; try done. cbn. by rewrite app_nil_r. Qed.

Lemma out_of_write c s con i l n : sc_socket c = Some s →
  out_of c `prefix_of` out_of (sc_set_socket (Some (mkSocket con i (so_out s ++ l) n)) c).
Proof. unfold out_of. intros ->. cbn. by apply prefix_app_r. Qed.

Lemma sends_trans c1 c2 c3 d1 d2 : sends c1 c2 d1 → sends c2 c3 d2 → sends c1 c3 (d1 ++ d2).
Proof.
  intros [] []. split; try congruence; try done.
  - rewrite sd_queue0, sd_queue1. by rewrite app_assoc.
  - rewrite sd_flight1, sd_flight0. by rewrite fmap_app, app_assoc.
  - intros base Hb. rewrite bind_app, <-!app_assoc. rewrite (sd_out1 (base ++ (d1 ≫= snd))); [by rewrite <-app_assoc|].
    rewrite <-app_assoc. by apply sd_out0.
  - by etrans.
Qed.

Lemma unsent_size f : frame_wf f → size_of (unsent f) = size_of (f_bytes f) - f_sent f.
Proof. unfold frame_wf, unsent, size_of. rewrite length_drop. lia. Qed.

(** A frame after [r] more of its bytes have been written. *)
Definition advance (r : Z) f : Frame := mkFrame (f_serial f) (f_bytes f) (f_sent f + r).

Lemma run_send_first c s f rest : sc_socket c = Some s → frame_wf f →
  let r := accepts ServerEnd (so_writes s) (size_of (unsent f)) in
  let c1 := sc_set_socket (Some (mkSocket (so_connected s) (so_in s) (so_out s ++ take (Z.to_nat r) (unsent f)) (S (so_writes s)))) c in
  send_first f rest c =
    if bool_decide (r < size_of (unsent f)) then
      if bool_decide (r ≠ -1) then (Ok false, sc_set_queue (advance r f :: rest) c1) else (Ok true, c1)
    else (Ok false, sc_set_queue rest (sc_set_inFlight (sc_frameNumbersInFlight c ++ [f_serial f]) c1)).
Proof.
  intros Hs Hwf r c1.
  assert (Hw : sock_write (unsent f) c = (Ok r, c1)).
  { unfold sock_write. erewrite run_bind by (unfold the_socket; erewrite run_bind by reflexivity; rewrite Hs; reflexivity). done. }
  unfold send_first. pose proof (unsent_size f Hwf) as Hsz. unfold advance. case_bool_decide as Hz.
  - assert (Hu : unsent f = f_bytes f) by (unfold unsent; by rewrite Hz).
    rewrite <-Hu, (run_bind _ _ _ _ _ Hw). rewrite Hz, Z.add_0_l. repeat case_bool_decide; done.
  - fold (unsent f). rewrite (run_bind _ _ _ _ _ Hw). rewrite <-Hsz. repeat case_bool_decide; done.
Qed.

(** The rounds that are left. *)
Definition work q : nat := sum_list_with (λ f, S (length (unsent f))) q.

Definition progress : Prop := ∀ k n, 0 < n → accepts ServerEnd k n ≠ 0.

(** The socket of the server may return -1. *)
Definition refuses : Prop := ∃ k n, accepts ServerEnd k n = -1.

(** One round. *)
Lemma send_first_sends c s f rest : progress → sc_socket c = Some s → so_connected s = true →
  sc_frameQueue c = f :: rest → queue_wf (f :: rest) →
  ∃ ov c' d, send_first f rest c = (Ok ov, c') ∧ sends c c' d ∧ sc_waiting c' = sc_waiting c ∧
    (ov = false → (work (sc_frameQueue c') < work (f :: rest))%nat) ∧
    (length d ≤ 1)%nat ∧ (started (sc_frameQueue c') → d = []) ∧ (ov = true → refuses).
Proof.
  intros Hprog Hs Hconn Hq [Hf Hrest]. rewrite (run_send_first c s f rest Hs Hf). cbv zeta.
  set (r := accepts _ _ _). pose proof (accepts_range ServerEnd (so_writes s) (size_of (unsent f)) (size_nonneg _)) as Hr.
  fold r in Hr. pose proof (unsent_size f Hf) as Hsz.
  assert (Hlen : (length (unsent f) = length (f_bytes f) - Z.to_nat (f_sent f))%nat) by (unfold unsent; apply length_drop).
  assert (Htd : take (Z.to_nat (f_sent f)) (f_bytes f) ++ unsent f = f_bytes f) by apply take_drop.
  case_bool_decide as Hlt; [case_bool_decide as Hne|].
  - assert (0 < r) by (assert (r ≠ 0) by (apply Hprog; lia); lia).
    assert (Hadv : frame_wf (advance r f)) by (right; destruct Hf; cbn; lia).
    eexists false, _, []. split_and!; [reflexivity| |done| |cbn; lia|done|done].
    + split; try done; try exact (out_of_write c s (so_connected s) (so_in s) _ (S (so_writes s)) Hs); cbn; rewrite ?app_nil_r; try done.
      * by rewrite Hq.
      * intros base. unfold out_of. cbn. rewrite Hs, Hq. cbn. intros ->. rewrite <-app_assoc. f_equal.
        replace (Z.to_nat (f_sent f + r)) with (Z.to_nat (f_sent f) + Z.to_nat r)%nat by (destruct Hf; lia).
        apply take_take_drop.
      * unfold in_of. cbn. by rewrite Hs.
    + intros _. cbn. unfold unsent at 1. cbn. rewrite length_drop. destruct Hf; unfold size_of in *; lia.
  - assert (Hr1 : r = -1) by lia. eexists true, _, []. split_and!; [reflexivity| |done|done|cbn; lia|done|intros _; by eexists _, _].
    split; try done; try exact (out_of_write c s (so_connected s) (so_in s) _ (S (so_writes s)) Hs); cbn; rewrite ?app_nil_r; try done.
    + intros base. unfold out_of. cbn. rewrite Hs, Hr1. cbn. by rewrite ?app_nil_r.
    + rewrite Hq. by split.
    + unfold in_of. cbn. by rewrite Hs.
  - assert (Htake : take (Z.to_nat r) (unsent f) = unsent f) by (apply take_ge; unfold size_of in *; lia). rewrite Htake.
    eexists false, _, [frame_view f]. split_and!; [reflexivity| |done| |cbn; lia| |done].
    + split; try done; try exact (out_of_write c s (so_connected s) (so_in s) _ (S (so_writes s)) Hs); cbn; rewrite ?app_nil_r; try done.
      * by rewrite Hq.
      * intros base. unfold out_of. cbn. rewrite Hs, Hq. cbn. intros ->. rewrite <-app_assoc, Htd.
        f_equal. destruct rest as [|g rest]; cbn; [by rewrite app_nil_r|]. inversion Hrest as [|? ? Hg _]. rewrite Hg. cbn. by rewrite app_nil_r.
      * destruct rest as [|g rest]; [done|]. inversion Hrest as [|? ? Hg Hr']. split; [by left|done].
      * unfold in_of. cbn. by rewrite Hs.
    + intros _. cbn. unfold work. lia.
    + cbn. destruct rest as [|g rest]; [done|]. inversion Hrest as [|? ? Hg _]. cbn. done.
Qed.

Lemma linked_socket c : linked c → ∃ s, sc_socket c = Some s ∧ so_connected s = true.
Proof. unfold linked. destruct (sc_socket c) as [s|]; [by exists s|done]. Qed.

(** What sending does besides. *)
Record sent c c' (done : list (Z * bytes)) : Prop := {
  st_sends : sends c c' done;
  st_bound : Z.of_nat (length (sc_frameNumbersInFlight c)) ≤ sc_maxFramesInFlight c →
    Z.of_nat (length (sc_frameNumbersInFlight c')) ≤ sc_maxFramesInFlight c';
  st_waiting : sc_waiting c = true → sc_waiting c' = true;
  st_refused : sc_waiting c' = true → sc_waiting c = true ∨ refuses
}.

Lemma sent_refl c : queue_wf (sc_frameQueue c) → linked c → sent c c [].
Proof. intros Hq Hl. split; [by apply sends_refl|tauto..]. Qed.
Lemma sent_trans c1 c2 c3 d1 d2 : sent c1 c2 d1 → sent c2 c3 d2 → sent c1 c3 (d1 ++ d2).
Proof. intros [] []. split; [by eapply sends_trans|tauto..]. Qed.

(** Waiting for the client. *)
Lemma sent_wait c : queue_wf (sc_frameQueue c) → linked c → refuses →
  sent c (sc_emit (waitingOnClient true) (sc_set_waiting true c)) [].
Proof. intros Hq Hl Hr. split; [|by auto..]. split; try done. cbn. by rewrite app_nil_r. Qed.

Definition in_flight c : Z := Z.of_nat (length (sc_frameNumbersInFlight c)).

(** Sending stops when nothing is left, too much is in flight or the client is
    waited for; a frame is left half written only when [P] or the socket has
    refused. *)
Definition settled (P : Prop) c : Prop :=
  (sc_frameQueue c = [] ∨ sc_maxFramesInFlight c ≤ in_flight c ∨ sc_waiting c = true) ∧
  (started (sc_frameQueue c) → in_flight c < sc_maxFramesInFlight c ∧ sc_waiting c = true ∧ (P ∨ refuses)).
Lemma settled_weaken (P P' : Prop) c : (P → P') → settled P c → settled P' c.
Proof. unfold settled. tauto. Qed.

Lemma run_send_loop : progress → ∀ fuel ov c, linked c → queue_wf (sc_frameQueue c) →
  (ov = true → sc_waiting c = true ∧ refuses) → (ov = true ∨ (work (sc_frameQueue c) ≤ fuel)%nat) →
  (started (sc_frameQueue c) → in_flight c < sc_maxFramesInFlight c) →
  ∃ c' d, send_loop fuel ov c = (Ok tt, c') ∧ sent c c' d ∧ settled False c'.
Proof.
  intros Hprog fuel. induction fuel as [|fuel IH]; intros ov c Hl Hq Hov Hw Hst.
  all: destruct (linked_socket c Hl) as (s & Hs & Hconn); cbn [send_loop]; erewrite run_bind by reflexivity; unfold id.
  all: destruct (sc_frameQueue c) as [|f rest] eqn:Hqe;
    [eexists _, []; split; [reflexivity|]; split; [apply sent_refl; by rewrite ?Hqe|split; [by left|by rewrite Hqe]]|].
  all: fold (in_flight c); case_bool_decide as Hfl;
    [eexists _, []; split; [reflexivity|]; split; [apply sent_refl; by rewrite ?Hqe|split; [by right; left|]];
      rewrite Hqe; intros Hf; specialize (Hst Hf); lia|].
  all: destruct ov; cbn [orb];
    [eexists _, []; split; [reflexivity|]; split; [apply sent_refl; by rewrite ?Hqe|split; [naive_solver|intros _; split; [lia|naive_solver]]]|].
  - exfalso. destruct Hw as [|Hw]; [done|]. unfold work in Hw. cbn in Hw. lia.
  - destruct (send_first_sends c s f rest Hprog Hs Hconn Hqe Hq) as (ov & c1 & d1 & Hrun & Hsd & Hwait & Hless & Hlen & Hsta & Href).
    rewrite (run_bind _ _ _ _ _ Hrun).
    assert (Hbd : length d1 = 0%nat ∨ length d1 = 1%nat) by lia.
    assert (Hflight : in_flight c1 = in_flight c + Z.of_nat (length d1)).
    { unfold in_flight. rewrite (sd_flight _ _ _ Hsd), length_app, length_fmap. lia. }
    assert (Hst1 : sent c c1 d1).
    { split; [done| |by rewrite Hwait|by rewrite Hwait; left].
      fold (in_flight c) (in_flight c1). rewrite (sd_maxf _ _ _ Hsd). lia. }
    set (c2 := if ov then sc_emit (waitingOnClient true) (sc_set_waiting true c1) else c1).
    assert (Hwhen : when ov (modify (sc_set_waiting true) ;; modify (sc_emit (waitingOnClient true))) c1 = (Ok tt, c2)) by (by destruct ov).
    rewrite (run_bind _ _ _ _ _ Hwhen).
    assert (Hst2 : sent c1 c2 []).
    { destruct ov; [apply sent_wait; [apply Hsd|apply Hsd|auto]|apply sent_refl; apply Hsd]. }
    destruct (IH ov c2) as (c3 & d2 & Hrun2 & Hst3 & Hset).
    + apply (sd_linked _ _ _ (st_sends _ _ _ Hst2)).
    + apply (sd_wf _ _ _ (st_sends _ _ _ Hst2)).
    + intros ->. auto.
    + destruct ov; [by left|right]. destruct Hw as [|Hw]; [done|]. specialize (Hless eq_refl). unfold c2. lia.
    + intros Hs2. assert (started (sc_frameQueue c1)) by (by destruct ov).
      assert (in_flight c1 < sc_maxFramesInFlight c1) by (rewrite (sd_maxf _ _ _ Hsd), Hflight, Hsta by done; cbn; lia). by destruct ov.
    + exists c3, (d1 ++ [] ++ d2). split_and!; [done| |done]. eapply sent_trans; [done|]. by eapply sent_trans.
Qed.

Lemma work_fuel q : (work q ≤ send_fuel q)%nat.
Proof.
  unfold work, send_fuel. induction q as [|f q IH]; cbn in *; [lia|].
  unfold unsent at 1. rewrite length_drop. lia.
Qed.

Lemma run_sendData c : progress → linked c → queue_wf (sc_frameQueue c) →
  (started (sc_frameQueue c) → in_flight c < sc_maxFramesInFlight c) →
  ∃ c' d, sendData c = (Ok tt, c') ∧ sent c c' d ∧ settled (started (sc_frameQueue c)) c'.
Proof.
  intros Hprog Hl Hq Hst. destruct (linked_socket c Hl) as (s & Hs & Hconn).
  unfold sendData. erewrite run_bind by reflexivity. unfold id. rewrite Hs, Hconn. cbn [negb].
  destruct (sc_waiting c) eqn:Hw.
  - exists c, []. split; [done|]. split; [by apply sent_refl|]. split; auto.
  - destruct (run_send_loop Hprog (send_fuel (sc_frameQueue c)) false c Hl Hq) as (c' & d & Hrun & Hsent & Hset); try done.
    { right. by apply work_fuel. }
    exists c', d. split_and!; [done..|]. eapply settled_weaken; [|done]; tauto.
Qed.

(** ** Queueing a frame *)
Definition enqueue (x : Z * bytes) c : ServerConnection :=
  sc_set_queue (sc_frameQueue c ++ [mkFrame x.1 x.2 0]) c.

(** A queue that has become too long. *)
Definition trim c : ServerConnection :=
  if bool_decide (sc_maxFramesInQueue c < Z.of_nat (length (sc_frameQueue c))) then
    if sc_lossless c then
      if sc_waiting c then c else sc_emit (waitingOnClient true) (sc_set_waiting true c)
    else sc_set_queue (tail (sc_frameQueue c)) c
  else c.

Lemma queue_wf_snoc q x : queue_wf q → queue_wf (q ++ [mkFrame x.1 x.2 0]).
Proof.
  destruct q as [|f q]; cbn; [by repeat constructor|]. intros [Hf Hq]. split; [done|].
  apply Forall_app. split; [done|]. by repeat constructor.
Qed.
Lemma partial_snoc q x : partial (q ++ [mkFrame x.1 x.2 0]) = partial q.
Proof. by destruct q. Qed.
Lemma started_snoc q x : started (q ++ [mkFrame x.1 x.2 0]) → started q.
Proof. by destruct q. Qed.

Lemma run_queueFrame x c : progress → linked c → queue_wf (sc_frameQueue c) → 0 ≤ sc_maxFramesInQueue c →
  (started (sc_frameQueue c) → in_flight c < sc_maxFramesInFlight c) →
  ∃ c2 d, queueFrame x.1 x.2 c = (Ok tt, sc_emit scheduleSend (trim c2)) ∧ sent (enqueue x c) c2 d ∧ settled (started (sc_frameQueue c)) c2.
Proof.
  intros Hprog Hl Hq Hmax Hst. destruct (linked_socket c Hl) as (s & Hs & _).
  assert (H1' : ∃ c2 d, when (bool_decide (in_flight (enqueue x c) < sc_maxFramesInFlight (enqueue x c))) sendData (enqueue x c) = (Ok tt, c2) ∧
    sent (enqueue x c) c2 d ∧ settled (started (sc_frameQueue c)) c2).
  { case_bool_decide.
    - destruct (run_sendData (enqueue x c) Hprog Hl) as (c2 & d & Hrun & Hsent & Hset); [by apply queue_wf_snoc|by intros _|].
      exists c2, d. split_and!; [done..|]. eapply settled_weaken; [|done]. apply started_snoc.
    - exists (enqueue x c), []. split_and!; [done|apply sent_refl; [by apply queue_wf_snoc|done]|].
      split; [right; left; lia|]. intros ?%started_snoc. by specialize (Hst ltac:(done)). }
  destruct H1' as (c2 & d & Hrun & Hsent & Hst2). exists c2, d. split_and!; [|done..].
  unfold queueFrame. erewrite run_bind by reflexivity. unfold id. rewrite Hs.
  erewrite run_bind by reflexivity. erewrite run_bind by reflexivity.
  erewrite run_bind by apply Hrun. erewrite run_bind by reflexivity.
  assert (Hmax2 : sc_maxFramesInQueue c2 = sc_maxFramesInQueue c) by apply (sd_maxq _ _ _ (st_sends _ _ _ Hsent)).
  assert (Htrim : when (bool_decide (sc_maxFramesInQueue c2 < Z.of_nat (length (sc_frameQueue c2))))
    (if sc_lossless c2 then
       when (negb (sc_waiting c2)) (modify (sc_set_waiting true) ;; modify (sc_emit (waitingOnClient true)))
     else match sc_frameQueue c2 with [] => abort AssertFailed | _ :: rest => modify (sc_set_queue rest) end) c2 = (Ok tt, trim c2)).
  { unfold trim. destruct (decide (sc_maxFramesInQueue c2 < Z.of_nat (length (sc_frameQueue c2)))) as [Hlen|Hlen];
    [rewrite !(bool_decide_true (_ < _)) by done|by rewrite !(bool_decide_false (_ < _)) by done].
    cbn [when]. destruct (sc_lossless c2); [by destruct (sc_waiting c2)|].
    destruct (sc_frameQueue c2); [cbn in Hlen; lia|done]. }
  erewrite run_bind by exact Htrim. reflexivity.
Qed.
End server_proof.
