(* ===== verification/TcpLink.v ===== *)
(** A connection of the TCP server and a client, and the bytes on their way
    between them: frames are queued, sent, received, acknowledged and produced
    in any order, every byte of either direction arrives in its turn, and frames
    reach the client in the order in which they were queued. *)
From S2P Require Export TcpClientProof TcpServerProof.

(** [lk_down] and [lk_up] count the bytes that have arrived at the client and
    at the server; [lk_produced] are the frames that have been taken from the
    client's list. *)
Record Link := mkLink {
  lk_server : ServerConnection;
  lk_client : TCPClient;
  lk_down : nat;
  lk_up : nat;
  lk_produced : list (list QVariant)
}.

Definition lk_set_server (c : ServerConnection) (lk : Link) : Link :=
  mkLink c (lk_client lk) (lk_down lk) (lk_up lk) (lk_produced lk).
Definition lk_set_client (c : TCPClient) (lk : Link) : Link :=
  mkLink (lk_server lk) c (lk_down lk) (lk_up lk) (lk_produced lk).

Inductive amount := Bytes (k : nat) | Everything.
Definition take_amount (a : amount) (l : bytes) : bytes :=
  match a with Bytes k => take k l | Everything => l end.

Inductive LinkEvent :=
  | EvFrame (fr : TcpFrame)     (** the server queues a frame *)
  | EvSend                      (** [sendData] is run *)
  | EvDown (a : amount)         (** bytes arrive at the client *)
  | EvUp (a : amount)           (** bytes arrive at the server *)
  | EvProduce.                  (** the client takes a frame to produce it *)

Section link.
Context `{!DataStream} `{!SocketLib}.

Definition on_lk_server {A} (m : M ServerConnection A) : M Link A := λ lk,
  let '(r, c) := m (lk_server lk) in (r, lk_set_server c lk).
Definition on_lk_client {A} (m : M TCPClient A) : M Link A := λ lk,
  let '(r, c) := m (lk_client lk) in (r, lk_set_client c lk).

Definition down_chunk (a : amount) (lk : Link) : bytes := take_amount a (drop (lk_down lk) (out_of (lk_server lk))).
Definition up_chunk (a : amount) (lk : Link) : bytes := take_amount a (drop (lk_up lk) (so_out (cl_socket (lk_client lk)))).

Definition link_step (ev : LinkEvent) : M Link unit :=
  match ev with
  | EvFrame fr => on_lk_server (queueFrame fr.1 (make_block fr.1 fr.2))
  | EvSend => on_lk_server sendData
  | EvDown a =>
      chunk ← gets (down_chunk a) ;
      modify (λ lk, mkLink (lk_server lk) (rx_append chunk (lk_client lk)) (lk_down lk + length chunk) (lk_up lk) (lk_produced lk)) ;;
      on_lk_client readData
  | EvUp a =>
      chunk ← gets (up_chunk a) ;
      modify (λ lk, mkLink (rx_append chunk (lk_server lk)) (lk_client lk) (lk_down lk) (lk_up lk + length chunk) (lk_produced lk)) ;;
      on_lk_server readyRead
  | EvProduce => λ lk,
      match cl_frameList (lk_client lk) with
      | [] => (Ok tt, lk)
      | frame :: rest =>
          (Ok tt, mkLink (lk_server lk) (cl_set_frameList rest (lk_client lk)) (lk_down lk) (lk_up lk) (lk_produced lk ++ [frame]))
      end
  end.

Fixpoint link_run (evs : list LinkEvent) : M Link unit :=
  match evs with [] => mret tt | ev :: evs' => link_step ev ;; link_run evs' end.

(** A server with these settings and a client, just connected. *)
Definition new_link (lossless : bool) (maxq maxf : Z) : Link :=
  mkLink (conn_start true (new_ServerConnection lossless maxq maxf)).2 (client_start None new_TCPClient).2 0 0 [].

(** The frames that were queued. *)
Definition frames_of (evs : list LinkEvent) : list TcpFrame :=
  evs ≫= λ ev, match ev with EvFrame fr => [fr] | _ => [] end.

Lemma link_run_app evs1 evs2 lk lk1 : link_run evs1 lk = (Ok tt, lk1) → link_run (evs1 ++ evs2) lk = link_run evs2 lk1.
Proof.
  revert lk. induction evs1 as [|ev evs1 IH]; cbn; intros lk; [by intros [= ->]|].
  unfold mbind, M_bind. destruct (link_step ev lk) as [[[]| |] lk2]; [apply IH|done..].
Qed.
End link.

(** ** What has arrived of one direction *)
Section arrival.
#[local] Set Default Proof Using "Type*".
Context `{!DataStream} `{!DataStreamLaws}.

Lemma incomplete_no_message p l : payload_ok p → ¬ incomplete (message p ++ l).
Proof.
  intros Hp (q & rest & Hq & Heq & Hne). unfold payload_ok in *.
  assert (H4 : 4 ≤ size_of (message p ++ l)) by (rewrite size_app, size_message; pose proof (size_nonneg l); lia).
  destruct (message_split _ _ _ Heq H4) as (k & Hk & Hq'). unfold message in Hk. rewrite <-app_assoc in Hk.
  apply app_inj_1 in Hk as [Hw <-]; [|by rewrite !write32_length].
  apply write32_inj in Hw; [|lia..]. rewrite Hq', !size_app in Hw.
  pose proof (size_nonneg l). unfold size_of in *. destruct rest; [done|]. cbn in Hw. lia.
Qed.

Lemma stream_app (ps1 ps2 : list bytes) t : stream (ps1 ++ ps2) t = stream ps1 (stream ps2 t).
Proof. unfold stream. by rewrite bind_app, <-app_assoc. Qed.

(** [down] bytes have arrived of a stream of the messages [recv] and [rest],
    the last of them [rem]; now the next ones arrive. *)
Lemma more_arrives {X} (payload : X → bytes) (recv rest : list X) rem tail out down a :
  Forall (payload_ok ∘ payload) rest → (tail = [] ∨ incomplete tail) →
  out = stream (payload <$> recv ++ rest) tail → (down ≤ length out)%nat →
  take down out = stream (payload <$> recv) rem →
  let chunk := take_amount a (drop down out) in
  ∃ new rest' rem', rest = new ++ rest' ∧ rem ++ chunk = stream (payload <$> new) rem' ∧ (rem' = [] ∨ incomplete rem') ∧
    take (down + length chunk) out = stream (payload <$> recv ++ new) rem' ∧ (down + length chunk ≤ length out)%nat ∧
    (a = Everything → tail = [] → rest' = [] ∧ (down + length chunk)%nat = length out).
Proof.
  intros Hrest Htail Hout Hdown Htake chunk.
  assert (Hch : ∃ k, chunk = take k (drop down out)).
  { unfold chunk. destruct a as [k|]; [by exists k|]. exists (length (drop down out)). by rewrite firstn_all. }
  destruct Hch as [k Hk].
  assert (Hleft : rem ++ drop down out = stream (payload <$> rest) tail).
  { apply (app_inv_head (stream (payload <$> recv) [])). rewrite app_assoc.
    transitivity (take down out ++ drop down out).
    - rewrite Htake. unfold stream. by rewrite app_nil_r.
    - rewrite take_drop, Hout, fmap_app, stream_app. unfold stream. by rewrite app_nil_r. }
  destruct (split_stream (rem ++ chunk) (drop k (drop down out)) (payload <$> rest) tail) as (ps1 & ps2 & rem' & Hps & Hrc & Hrem');
    [by apply Forall_fmap|by rewrite <-app_assoc, Hk, take_drop|done|].
  apply fmap_app_inv in Hps as (new & rest' & -> & -> & Hps).
  assert (Htk : take (down + length chunk) out = take down out ++ chunk).
  { rewrite <-take_take_drop. f_equal. rewrite Hk, length_take. symmetry.
    destruct (Nat.min_dec k (length (drop down out))) as [->| Hm]; [done|]. rewrite Hm, firstn_all. apply take_ge. lia. }
  exists new, rest', rem'. split_and!; [by rewrite Hps|done..| | |].
  - rewrite Htk, Htake, fmap_app, stream_app, <-Hrc. unfold stream. by rewrite app_assoc.
  - rewrite Hk, length_take, length_drop. lia.
  - intros -> ->. unfold chunk. cbn [take_amount]. rewrite length_drop. split; [|lia].
    destruct rest' as [|x rest']; [done|exfalso]. rewrite Hps in *.
    unfold chunk in Hrc. cbn [take_amount] in Hrc. rewrite Hleft, fmap_app, stream_app in Hrc.
    assert (Heq : rem' = message (payload x) ++ stream (payload <$> rest') []).
    { unfold stream in Hrc. apply app_inv_head in Hrc. rewrite <-Hrc, fmap_cons, bind_cons. unfold stream. by rewrite !app_nil_r. }
    apply Forall_app in Hrest as [_ Hr]. inversion Hr as [|? ? Hx _]. cbn in Hx.
    destruct Hrem' as [Hrem'|Hrem'].
    + rewrite Heq in Hrem'. apply (f_equal length) in Hrem'. unfold message in Hrem'. rewrite !length_app, write32_length in Hrem'. cbn in Hrem'. lia.
    + rewrite Heq in Hrem'. by eapply incomplete_no_message.
Qed.
End arrival.

(** ** The side of the server

    [W] are the frames that have been written to the socket, [Q] those that
    wait, [fl] the serials in flight. *)
Section server_side.
#[local] Set Default Proof Using "Type*".
Context `{!DataStream} `{!DataStreamLaws} `{!SocketLib}.
Implicit Types (c : ServerConnection) (W Q : list TcpFrame).

Definition block_of (fr : TcpFrame) : Z * bytes := (fr.1, make_block fr.1 fr.2).

Lemma block_of_message fr : frame_ok fr → (block_of fr).2 = message (payload_of fr).
Proof. intros Hok. apply make_block_message, Hok. Qed.

Lemma blocks_stream D t : Forall frame_ok D → ((block_of <$> D) ≫= snd) ++ t = stream (payload_of <$> D) t.
Proof.
  intros HD. unfold stream. f_equal. induction HD as [|fr D Hfr HD IH]; [done|].
  rewrite !fmap_cons, !bind_cons, IH. by rewrite block_of_message.
Qed.

Record srv_inv (lossless : bool) (maxq maxf len : Z) (W Q : list TcpFrame) (fl : list Z) c : Prop := {
  si_frames : Forall frame_ok Q;
  si_linked : linked c;
  si_wf : queue_wf (sc_frameQueue c);
  si_queue : frame_view <$> sc_frameQueue c = block_of <$> Q;
  si_out : out_of c = stream (payload_of <$> W) (partial (sc_frameQueue c));
  si_flight : sc_frameNumbersInFlight c = fl;
  si_bound : Z.of_nat (length fl) ≤ maxf;
  si_lossless : sc_lossless c = lossless;
  si_maxq : sc_maxFramesInQueue c = maxq;
  si_maxf : sc_maxFramesInFlight c = maxf;
  si_started : started (sc_frameQueue c) → Z.of_nat (length fl) < maxf;
  si_unstarted : ¬ refuses → ¬ started (sc_frameQueue c);
  si_lossy : lossless = false → sc_waiting c = false ∧ Z.of_nat (length Q) ≤ len;
  si_busy : ¬ refuses → sc_waiting c = true → fl ≠ []
}.

Lemma queue_block c Q f q : frame_view <$> sc_frameQueue c = block_of <$> Q → sc_frameQueue c = f :: q →
  ∃ fr Q', Q = fr :: Q' ∧ f_bytes f = (block_of fr).2.
Proof.
  intros Heq Hc. rewrite Hc in Heq. destruct Q as [|fr Q]; [done|]. injection Heq as _ Hb _. by exists fr, Q.
Qed.

Lemma partial_incomplete c Q : Forall frame_ok Q → queue_wf (sc_frameQueue c) →
  frame_view <$> sc_frameQueue c = block_of <$> Q → partial (sc_frameQueue c) = [] ∨ incomplete (partial (sc_frameQueue c)).
Proof.
  intros HQ Hwf Heq. destruct (sc_frameQueue c) as [|f q] eqn:Hc; [by left|]. rewrite <-Hc in Heq.
  destruct (queue_block c Q f q Heq Hc) as (fr & Q' & -> & Hb). inversion HQ as [|? ? Hfr _]. rewrite block_of_message in Hb by done.
  destruct Hwf as [[Hz|Hs] _]; cbn [partial]; [left; by rewrite Hz|right].
  exists (payload_of fr), (unsent f). split_and!; [by apply payload_of_ok| |].
  - rewrite <-Hb. symmetry. apply take_drop.
  - intros Hu. pose proof (unsent_size f (or_intror Hs)) as Hsz. rewrite Hu in Hsz. change (size_of []) with 0 in Hsz. lia.
Qed.

(** Sending. *)
Lemma srv_sent lossless maxq maxf len W Q fl c c' d : lossless = true ∨ ¬ refuses →
  srv_inv lossless maxq maxf len W Q fl c → sent c c' d → settled (started (sc_frameQueue c)) c' →
  ∃ D Q', Q = D ++ Q' ∧ srv_inv lossless maxq maxf len (W ++ D) Q' (fl ++ D.*1) c'.
Proof.
  intros Hmode [] [[] Hbnd Hwt Href] [_ Hst]. rewrite si_queue0 in sd_queue.
  apply fmap_app_inv in sd_queue as (D & Q' & -> & Hq & ->). exists D, Q'. split; [done|].
  apply Forall_app in si_frames0 as [HD HQ'].
  assert (Hd1 : (block_of <$> D).*1 = D.*1) by (rewrite <-list_fmap_compose; by apply list_fmap_ext).
  rewrite Hd1 in *.
  assert (Hfl : sc_frameNumbersInFlight c' = fl ++ D.*1) by congruence.
  split; try done; try congruence.
  - rewrite (sd_out (stream (payload_of <$> W) [])) by (rewrite si_out0; unfold stream; by rewrite app_nil_r).
    rewrite blocks_stream by done. rewrite fmap_app, stream_app. unfold stream at 1. rewrite app_nil_r. by unfold stream.
  - rewrite <-Hfl. rewrite sd_maxf, si_maxf0, si_flight0 in Hbnd. by apply Hbnd.
  - intros Hs. destruct (Hst Hs) as [Hfs _]. unfold in_flight in Hfs. rewrite Hfl in Hfs. lia.
  - intros Hnr Hs. destruct (Hst Hs) as (_ & _ & [?|?]); [by apply si_unstarted0|done].
  - intros Hlossy. destruct (si_lossy0 Hlossy) as (Hw & Hlen).
    assert (Hw' : sc_waiting c' = false).
    { destruct (sc_waiting c') eqn:Hw'; [|done]. destruct (Href eq_refl) as [?|?]; [congruence|].
      destruct Hmode; [congruence|done]. }
    split; [done|]. rewrite length_app in Hlen. lia.
  - intros Hnr Hw'. destruct (Href Hw') as [Hw|?]; [|done]. intros [Hn _]%app_eq_nil. by apply (si_busy0 Hnr Hw).
Qed.

(** Queueing. *)
Lemma srv_enqueue lossless maxq maxf W Q fl fr c : srv_inv lossless maxq maxf maxq W Q fl c → frame_ok fr →
  srv_inv lossless maxq maxf (maxq + 1) W (Q ++ [fr]) fl (enqueue (block_of fr) c).
Proof.
  intros [] Hfr. split; try done; cbn.
  - apply Forall_app. split; [done|]. by apply Forall_singleton.
  - by apply (queue_wf_snoc _ (block_of fr)).
  - rewrite !fmap_app. by f_equal.
  - change (out_of c = stream (payload_of <$> W) (partial (sc_frameQueue c ++ [mkFrame (block_of fr).1 (block_of fr).2 0]))).
    by rewrite partial_snoc.
  - intros Hs%(started_snoc _ (block_of fr)). by apply si_started0.
  - intros Hnr Hs%(started_snoc _ (block_of fr)). by apply si_unstarted0.
  - intros Hlossy. destruct (si_lossy0 Hlossy) as (Hw & Hlen). rewrite length_app. cbn. split; [done|lia].
Qed.

Lemma queue_length c Q : frame_view <$> sc_frameQueue c = block_of <$> Q → length (sc_frameQueue c) = length Q.
Proof. intros Heq. apply (f_equal length) in Heq. by rewrite !length_fmap in Heq. Qed.

Lemma srv_trim lossless maxq maxf W Q fl c P : 1 ≤ maxf → lossless = true ∨ ¬ refuses →
  srv_inv lossless maxq maxf (maxq + 1) W Q fl c → settled P c → 0 ≤ maxq →
  ∃ Q', Q' `sublist_of` Q ∧ (lossless = true → Q' = Q) ∧
    srv_inv lossless maxq maxf maxq W Q' fl (sc_emit scheduleSend (trim c)).
Proof.
  intros Hmaxf Hmode Hinv [Hset _] Hmaxq. pose proof Hinv as []. pose proof (queue_length _ _ si_queue0) as Hlen.
  unfold trim. rewrite si_maxq0, Hlen, si_lossless0. case_bool_decide as Hq; [destruct lossless|].
  - exists Q. split_and!; [done..|]. destruct (sc_waiting c) eqn:Hw; [by split; try done; try congruence; intros ? _; apply si_busy0|].
    split; try done; try congruence. intros _ _ ->. destruct Hset as [Hn|[Hf|Hf]]; [|unfold in_flight in Hf|congruence].
    + rewrite Hn in Hlen. cbn in Hlen. lia.
    + rewrite si_flight0, si_maxf0 in Hf. cbn in Hf. lia.
  - destruct (si_lossy0 eq_refl) as (Hw & HlQ). assert (Hns : ¬ started (sc_frameQueue c)) by (destruct Hmode; [done|by apply si_unstarted0]).
    destruct (sc_frameQueue c) as [|f q] eqn:Hc; [cbn in Hlen; lia|].
    destruct (queue_block c Q f q ltac:(by rewrite Hc) Hc) as (fr & Q' & -> & _). exists Q'.
    inversion si_frames0; subst. injection si_queue0 as _ _ Hqq. destruct si_wf0 as [Hf Hrest].
    assert (Hpart : partial (f :: q) = [] ∧ partial q = []).
    { split; cbn.
      - destruct (decide (f_sent f = 0)) as [->|Hne]; [done|]. by destruct Hns.
      - destruct q as [|g q]; [done|]. inversion Hrest as [|? ? Hg _]. cbn. by rewrite Hg. }
    split_and!; [by constructor|done|]. split; try done; cbn.
    + destruct q as [|g q]; [done|]. inversion Hrest. split; [by left|done].
    + destruct Hpart as [Hp1 Hp2]. rewrite Hp2. change (out_of c = stream (payload_of <$> W) []). by rewrite si_out0, Hp1.
    + destruct q as [|g q]; [done|]. inversion Hrest as [|? ? Hg _]. by cbn.
    + intros _. destruct q as [|g q]; [by intros []|]. inversion Hrest as [|? ? Hg _]. intros Hs. by apply Hs.
    + intros _. cbn in HlQ. split; [done|lia].
  - exists Q. split_and!; [done..|]. split; try done. intros Hl. destruct (si_lossy0 Hl) as (? & ?). split; [done|lia].
Qed.

(** What is read from the socket does not matter to the rest. *)
Lemma srv_set lossless maxq maxf len W Q fl l n c : srv_inv lossless maxq maxf len W Q fl c →
  srv_inv lossless maxq maxf len W Q fl (rx_set l n c).
Proof.
  intros [?? ? ? Hout]. split; try done.
  - unfold linked in *. cbn. by destruct (sc_socket c).
  - etrans; [|exact Hout]. unfold out_of. cbn. by destruct (sc_socket c).
Qed.

(** Acknowledgements. *)
Lemma srv_acks lossless maxq maxf len W Q acks rest c : srv_inv lossless maxq maxf len W Q (acks ++ rest) c →
  srv_inv lossless maxq maxf len W Q rest (effects ack_effect acks c).
Proof.
  intros []. destruct (ack_effects _ _ _ si_flight0) as [Hfl [Hs Hq Hll Hmq Hmf Hw Hstuck]].
  split; try congruence; unfold linked, out_of; rewrite ?Hs, ?Hq; try done.
  - rewrite length_app in si_bound0. lia.
  - intros Hst. specialize (si_started0 Hst). rewrite length_app in si_started0. lia.
  - intros Hlossy. destruct (si_lossy0 Hlossy) as (Hwc & ?). split; [|done].
    destruct (sc_waiting (effects ack_effect acks c)); [|done]. by rewrite Hw in Hwc.
  - intros Hnr Hwt. destruct acks as [|n acks]; [apply si_busy0; [done|]; by apply Hw|].
    exfalso. assert (lossless = true) as ->.
    { destruct lossless; [done|]. destruct (si_lossy0 eq_refl) as (Hwc & _). by rewrite Hw in Hwc. }
    by rewrite (ack_wakes (n :: acks) rest c) in Hwt.
Qed.
End server_side.

(** ** Both sides *)
Section both_sides.
#[local] Set Default Proof Using "Type*".
Context `{!DataStream} `{!DataStreamLaws} `{!SocketLib}.

Definition settled_rem (rem : bytes) : Prop := rem = [] ∨ incomplete rem.

(** [s] holds exactly [rem]. *)
Definition parked {S} `{Receiver S} (rem : bytes) (s : S) : Prop := park rem s = s.

Lemma park_form {S} `{!Receiver S} rem (s : S) : ∃ a b, park rem s = rx_set a b s.
Proof. unfold park. case_bool_decide; eauto. Qed.

Lemma parked_park {S} `{!Receiver S} `{!ReceiverLaws S} rem (s : S) : parked rem (park rem s).
Proof.
  unfold parked. destruct (park_form rem s) as (a & b & Hp). rewrite Hp at 1. apply park_set.
Qed.

Lemma parked_kept rem c c' : linked c → linked c' → in_of c' = in_of c → sc_blockSize c' = sc_blockSize c →
  parked rem c → parked rem c'.
Proof.
  unfold linked, in_of, parked. intros Hl Hl' Hin Hb Hp.
  assert (Hset : ∀ a b, rx_set a b c = c → rx_set a b c' = c').
  { destruct c as [[[] |] ? ? ? ? ? ? ? ?], c' as [[[]|] ? ? ? ? ? ? ? ?]; cbn in *; try done.
    intros a b Heq. unfold rx_set in *. cbn in *. injection Heq as Hi Hbs. by rewrite Hin, Hb, Hi, Hbs. }
  unfold park in *. case_bool_decide; by apply Hset.
Qed.

Lemma acks_stream (new : list TcpFrame) : (new ≫= λ fr, ack_message fr.1) = (ack_payload <$> new.*1) ≫= message.
Proof. induction new as [|fr new IH]; [done|]. rewrite !fmap_cons, !bind_cons, IH. by rewrite ack_message_message. Qed.

(** [R]: the frames that have been received. *)
Record cl_inv (R : list TcpFrame) (produced : list (list QVariant)) (rem : bytes) (k : TCPClient) : Prop := {
  ci_configured : cl_configured k = true;
  ci_parked : parked rem k;
  ci_rem : settled_rem rem;
  ci_frames : produced ++ cl_frameList k = R.*2;
  ci_out : so_out (cl_socket k) = stream (ack_payload <$> R.*1) []
}.

Lemma run_client_arrival R produced rem rem' k new chunk : (∀ i n, accepts ClientEnd i n = n) →
  cl_inv R produced rem k → Forall frame_ok new → settled_rem rem' →
  rem ++ chunk = stream (payload_of <$> new) rem' →
  ∃ k', readData (rx_append chunk k) = (Ok tt, k') ∧ cl_inv (R ++ new) produced rem' k'.
Proof.
  intros Hacc [Hconf Hpark Hrem Hfr Hout] Hnew Hrem' Heq. exists (park rem' (effects client_effect new k)). split.
  - rewrite run_readData by (unfold rx_append; by cbn). rewrite <-Hpark at 1.
    by apply (run_arrival client_handle payload_of client_effect frame_ok _ new rem rem' chunk k client_handles).
  - destruct (client_effects new k Hacc) as (Hf & Ho & Hc).
    destruct (park_form rem' (effects client_effect new k)) as (a & b & Hab).
    split; [by rewrite Hab, <-Hconf, <-Hc|by apply parked_park|done|rewrite Hab|rewrite Hab].
    + change (produced ++ cl_frameList (effects client_effect new k) = (R ++ new).*2).
      by rewrite Hf, app_assoc, Hfr, fmap_app.
    + change (so_out (cl_socket (effects client_effect new k)) = stream (ack_payload <$> (R ++ new).*1) []).
      rewrite Ho, Hout, !fmap_app, stream_app. unfold stream. rewrite !app_nil_r. f_equal.
      apply acks_stream.
Qed.

Lemma run_server_arrival lossless maxq maxf len W Q acks rest rem rem' c chunk :
  srv_inv lossless maxq maxf len W Q (acks ++ rest) c → parked rem c → settled_rem rem →
  Forall (λ n, 0 ≤ n < 2 ^ 32) acks → settled_rem rem' → rem ++ chunk = stream (ack_payload <$> acks) rem' →
  ∃ c', readyRead (rx_append chunk c) = (Ok tt, c') ∧ srv_inv lossless maxq maxf len W Q rest c' ∧
    parked rem' c' ∧ out_of c' = out_of c ∧ (acks ≠ [] → lossless = true → sc_waiting c' = false) ∧
    sc_frameQueue c' = sc_frameQueue c ∧ (sc_waiting c' = true → sc_waiting c = true).
Proof.
  intros Hinv Hpark Hrem Hacks Hrem' Heq. exists (park rem' (effects ack_effect acks c)).
  assert (Hsock : has_socket c).
  { pose proof (si_linked _ _ _ _ _ _ _ _ Hinv) as Hl. unfold linked, has_socket in *. by destruct (sc_socket c). }
  destruct (park_form rem' (effects ack_effect acks c)) as (a & b & Hab).
  pose proof (si_flight _ _ _ _ _ _ _ _ Hinv) as Hfl. destruct (ack_effects _ _ _ Hfl) as [_ [Hs Hq _ _ _ Hw _]].
  split_and!.
  - rewrite <-Hpark at 1.
    by apply (run_arrival handle_message ack_payload ack_effect _ _ acks rem rem' chunk c ack_handles).
  - rewrite Hab. apply srv_set. by apply srv_acks.
  - apply parked_park.
  - rewrite Hab. unfold out_of. cbn. rewrite Hs. by destruct (sc_socket c).
  - intros Hne Hll. rewrite Hab. cbn. eapply ack_wakes; [|done..]. rewrite <-Hll. apply Hinv.
  - by rewrite Hab.
  - by rewrite Hab.
Qed.
End both_sides.
