(* ===== verification/TcpLinkSteps.v ===== *)
(** The invariant of a connection and its client, and that every event keeps
    it. *)
From S2P Require Export TcpLink.

Lemma sublist_Forall {X} (P : X → Prop) l1 l2 : l1 `sublist_of` l2 → Forall P l2 → Forall P l1.
Proof. induction 1; intros HP; [done|inversion HP; by constructor; auto|inversion HP; auto]. Qed.

Section steps.
#[local] Set Default Proof Using "Type*".
Context `{!DataStream} `{!DataStreamLaws} `{!SocketLib}.
Context (lossless : bool) (maxq maxf : Z).

(** Nothing is lost between the client's socket and the server; the server's
    socket takes at least one byte of a write that it does not refuse. *)
Record reliable : Prop := {
  re_progress : progress;
  re_client k n : accepts ClientEnd k n = n;
  re_mode : lossless = true ∨ ¬ refuses;
  re_maxq : 0 ≤ maxq;
  re_maxf : 1 ≤ maxf
}.
Context (Hrel : reliable).

(** The frames of a connection: acknowledged, received, on their way to the
    client, in the queue. *)
Record link_inv (frs A U O Q : list TcpFrame) (rd ru : bytes) (lk : Link) : Prop := {
  li_sub : A ++ U ++ O ++ Q `sublist_of` frs;
  li_all : lossless = true → A ++ U ++ O ++ Q = frs;
  li_frames : Forall frame_ok frs;
  li_srv : srv_inv lossless maxq maxf maxq (A ++ U ++ O) Q (U ++ O).*1 (lk_server lk);
  li_srv_parked : parked ru (lk_server lk);
  li_ru : settled_rem ru;
  li_cl : cl_inv (A ++ U) (lk_produced lk) rd (lk_client lk);
  li_down : (lk_down lk ≤ length (out_of (lk_server lk)))%nat;
  li_down_take : take (lk_down lk) (out_of (lk_server lk)) = stream (payload_of <$> A ++ U) rd;
  li_up : (lk_up lk ≤ length (so_out (cl_socket (lk_client lk))))%nat;
  li_up_take : take (lk_up lk) (so_out (cl_socket (lk_client lk))) = stream (ack_payload <$> A.*1) ru
}.

Definition link_ok (frs : list TcpFrame) (lk : Link) : Prop := ∃ A U O Q rd ru, link_inv frs A U O Q rd ru lk.

Lemma run_on_server {X} (m : M ServerConnection X) lk r c : m (lk_server lk) = (r, c) →
  on_lk_server m lk = (r, lk_set_server c lk).
Proof. unfold on_lk_server. by intros ->. Qed.
Lemma run_on_client {X} (m : M TCPClient X) lk r c : m (lk_client lk) = (r, c) →
  on_lk_client m lk = (r, lk_set_client c lk).
Proof. unfold on_lk_client. by intros ->. Qed.

Lemma prefix_take_eq (l1 l2 : bytes) n : l1 `prefix_of` l2 → (n ≤ length l1)%nat →
  take n l2 = take n l1 ∧ (n ≤ length l2)%nat.
Proof. intros [k ->] Hn. rewrite take_app_le, length_app by done. split; [done|lia]. Qed.

(** The server has written [D] and keeps [Q']. *)
Lemma server_step frs frs' A U O Q Q' D rd ru lk c' : link_inv frs A U O Q rd ru lk →
  A ++ U ++ (O ++ D) ++ Q' `sublist_of` frs' → (lossless = true → A ++ U ++ (O ++ D) ++ Q' = frs') → Forall frame_ok frs' →
  srv_inv lossless maxq maxf maxq ((A ++ U ++ O) ++ D) Q' ((U ++ O).*1 ++ D.*1) c' →
  in_of c' = in_of (lk_server lk) → sc_blockSize c' = sc_blockSize (lk_server lk) →
  out_of (lk_server lk) `prefix_of` out_of c' →
  link_inv frs' A U (O ++ D) Q' rd ru (lk_set_server c' lk).
Proof.
  intros [] Hsub Hall Hfrs Hsrv Hin Hbs Hout. destruct (prefix_take_eq _ _ _ Hout li_down0) as [Htake Hdown].
  split; try done; cbn.
  - by rewrite <-!app_assoc, <-fmap_app, <-app_assoc in Hsrv.
  - by eapply parked_kept; [apply li_srv0|apply Hsrv|..].
  - by rewrite Htake.
Qed.

Lemma step_send frs A U O Q rd ru lk : link_inv frs A U O Q rd ru lk →
  ∃ lk' D Q', link_step EvSend lk = (Ok tt, lk') ∧ link_inv frs A U (O ++ D) Q' rd ru lk' ∧ Q = D ++ Q' ∧
    settled (started (sc_frameQueue (lk_server lk))) (lk_server lk').
Proof.
  intros Hinv. destruct Hrel as [Hprog _ Hmode _ _]. pose proof (li_srv _ _ _ _ _ _ _ _ Hinv) as Hsrv. pose proof Hsrv as [].
  destruct (run_sendData (lk_server lk)) as (c' & d & Hrun & Hsent & Hset); try done.
  { intros Hs%si_started. unfold in_flight. rewrite si_flight, si_maxf. lia. }
  destruct (srv_sent _ _ _ _ _ _ _ _ _ _ Hmode Hsrv Hsent Hset) as (D & Q' & -> & Hsrv').
  exists (lk_set_server c' lk), D, Q'. split_and!; [by apply run_on_server| |done..].
  pose proof (st_sends _ _ _ Hsent) as []. eapply server_step; try done.
  - rewrite <-app_assoc. apply Hinv.
  - rewrite <-app_assoc. apply Hinv.
  - apply Hinv.
Qed.

Lemma step_frame frs A U O Q rd ru lk fr : link_inv frs A U O Q rd ru lk → frame_ok fr →
  ∃ lk' D Q', link_step (EvFrame fr) lk = (Ok tt, lk') ∧ link_inv (frs ++ [fr]) A U (O ++ D) Q' rd ru lk'.
Proof.
  intros Hinv Hfr. destruct Hrel as [Hprog _ Hmode Hmaxq Hmaxf]. pose proof (li_srv _ _ _ _ _ _ _ _ Hinv) as Hsrv.
  pose proof Hsrv as [].
  destruct (run_queueFrame (block_of fr) (lk_server lk)) as (c2 & d & Hrun & Hsent & Hset); try done.
  { by rewrite si_maxq. }
  { intros Hs%si_started. unfold in_flight. rewrite si_flight, si_maxf. lia. }
  pose proof (srv_enqueue _ _ _ _ _ _ fr _ Hsrv Hfr) as Henq.
  assert (Hset' : settled (started (sc_frameQueue (enqueue (block_of fr) (lk_server lk)))) c2).
  { eapply settled_weaken; [|done]. unfold enqueue. cbn. by destruct (sc_frameQueue (lk_server lk)). }
  destruct (srv_sent _ _ _ _ _ _ _ _ _ _ Hmode Henq Hsent Hset') as (D & Q1 & HQ & Hsrv1).
  destruct (srv_trim _ _ _ _ _ _ _ _ Hmaxf Hmode Hsrv1 Hset' Hmaxq) as (Q' & Hsub & Hall & Hsrv').
  eexists _, D, Q'. split; [by apply run_on_server|].
  pose proof (st_sends _ _ _ Hsent) as [].
  assert (Htrim : sc_socket (trim c2) = sc_socket c2 ∧ sc_blockSize (trim c2) = sc_blockSize c2).
  { unfold trim. case_bool_decide; [|done]. destruct (sc_lossless c2); [by destruct (sc_waiting c2)|done]. }
  destruct Htrim as [Htr1 Htr2].
  eapply server_step; [done| | | |exact Hsrv'| | |].
  - etrans; [|apply sublist_app; [apply Hinv|reflexivity]]. rewrite <-!app_assoc. rewrite HQ.
    do 4 (apply sublist_app; [done|]). done.
  - intros Hl. rewrite (Hall Hl), <-(li_all _ _ _ _ _ _ _ _ Hinv Hl), <-!app_assoc. by rewrite HQ.
  - apply Forall_app. split; [apply Hinv|by apply Forall_singleton].
  - etrans; [|exact sd_in]. unfold in_of. cbn. by rewrite Htr1.
  - cbn. by rewrite Htr2.
  - etrans; [exact sd_grows|]. unfold out_of. cbn. by rewrite Htr1.
Qed.

Lemma step_down frs A U O Q rd ru lk a : link_inv frs A U O Q rd ru lk →
  ∃ lk' N O' rd', link_step (EvDown a) lk = (Ok tt, lk') ∧ link_inv frs A (U ++ N) O' Q rd' ru lk' ∧ O = N ++ O' ∧
    lk_server lk' = lk_server lk ∧
    (a = Everything → ¬ started (sc_frameQueue (lk_server lk)) → O' = []).
Proof.
  intros Hinv. destruct Hrel as [_ Hcl _ _ _]. pose proof Hinv as [].
  assert (HfO : Forall frame_ok (A ++ U ++ O ++ Q)) by (by eapply sublist_Forall).
  rewrite !Forall_app in HfO. destruct HfO as (HfA & HfU & HfO & HfQ).
  pose proof li_srv0 as [].
  destruct (more_arrives payload_of (A ++ U) O rd (partial (sc_frameQueue (lk_server lk))) (out_of (lk_server lk)) (lk_down lk) a)
    as (N & O' & rd' & -> & Hch & Hrd' & Htake & Hlen & Hev); try done.
  { eapply Forall_impl; [exact HfO|]. apply payload_of_ok. }
  { by eapply partial_incomplete. }
  { by rewrite si_out, app_assoc. }
  fold (down_chunk a lk) in *. apply Forall_app in HfO as [HfN HfO'].
  destruct (run_client_arrival _ _ _ rd' _ N (down_chunk a lk) Hcl li_cl0 HfN Hrd' Hch) as (k' & Hrun & Hk').
  eexists _, N, O', rd'. split_and!.
  - cbn [link_step]. erewrite run_bind by reflexivity. erewrite run_bind by reflexivity. by apply run_on_client.
  - split; cbn; try done; rewrite <-?app_assoc in *; try done.
    + rewrite (ci_out _ _ _ _ li_cl0) in li_up0. rewrite (ci_out _ _ _ _ Hk').
      unfold stream in *. rewrite !app_nil_r, !fmap_app, !bind_app in *. rewrite !length_app in *. lia.
    + rewrite (ci_out _ _ _ _ li_cl0) in li_up0, li_up_take0. rewrite (ci_out _ _ _ _ Hk').
      rewrite app_assoc, fmap_app, fmap_app, stream_app.
      rewrite <-li_up_take0. eapply (prefix_take_eq (stream (ack_payload <$> (A ++ U).*1) [])); [|done].
      unfold stream. rewrite !app_nil_r. by apply prefix_app_r.
  - done.
  - done.
  - intros Ha Hns. apply Hev; [done|]. destruct (sc_frameQueue (lk_server lk)) as [|f q]; [done|]. cbn in *.
    destruct (decide (f_sent f = 0)) as [->|]; done.
Qed.

Lemma step_up frs A U O Q rd ru lk a : link_inv frs A U O Q rd ru lk →
  ∃ lk' N U' ru', link_step (EvUp a) lk = (Ok tt, lk') ∧ link_inv frs (A ++ N) U' O Q rd ru' lk' ∧ U = N ++ U' ∧
    lk_client lk' = lk_client lk ∧ lk_produced lk' = lk_produced lk ∧ out_of (lk_server lk') = out_of (lk_server lk) ∧
    sc_frameQueue (lk_server lk') = sc_frameQueue (lk_server lk) ∧ lk_down lk' = lk_down lk ∧
    (a = Everything → U' = []).
Proof.
  intros Hinv. pose proof Hinv as [].
  assert (HfO : Forall frame_ok (A ++ U ++ O ++ Q)) by (by eapply sublist_Forall).
  rewrite !Forall_app in HfO. destruct HfO as (HfA & HfU & _).
  assert (Hserial : Forall (λ n, 0 ≤ n < 2 ^ 32) U.*1) by (apply Forall_fmap; eapply Forall_impl; [exact HfU|]; by intros ? []).
  destruct (more_arrives ack_payload A.*1 U.*1 ru [] (so_out (cl_socket (lk_client lk))) (lk_up lk) a)
    as (acks & rest & ru' & HU & Hch & Hru' & Htake & Hlen & Hev); try done.
  { eapply Forall_impl; [exact Hserial|]. intros n Hn. unfold payload_ok. cbn. rewrite size_ack. lia. }
  { by left. }
  { by rewrite (ci_out _ _ _ _ li_cl0), fmap_app. }
  fold (up_chunk a lk) in *. apply fmap_app_inv in HU as (N & U' & -> & -> & ->).
  assert (Hsrv : srv_inv lossless maxq maxf maxq (A ++ (N ++ U') ++ O) Q (N.*1 ++ (U' ++ O).*1) (lk_server lk)).
  { rewrite <-fmap_app, (app_assoc N U' O). done. }
  apply Forall_fmap, Forall_app in Hserial as [HN _]. apply Forall_fmap in HN.
  destruct (run_server_arrival _ _ _ _ _ _ _ _ _ ru' _ (up_chunk a lk) Hsrv li_srv_parked0 li_ru0 HN Hru' Hch)
    as (c' & Hrun & Hsrv' & Hpk & Hout & _ & Hq & _).
  eexists _, N, U', ru'. split_and!.
  - cbn [link_step]. erewrite run_bind by reflexivity. erewrite run_bind by reflexivity. by apply run_on_server.
  - split; cbn; rewrite ?Hout, ?fmap_app, <-?app_assoc in *; try done.
  - done.
  - done.
  - done.
  - done.
  - done.
  - done.
  - intros Ha. destruct (Hev Ha eq_refl) as [Hn _]. by apply fmap_nil_inv in Hn.
Qed.

Lemma step_produce frs A U O Q rd ru lk : link_inv frs A U O Q rd ru lk →
  ∃ lk', link_step EvProduce lk = (Ok tt, lk') ∧ link_inv frs A U O Q rd ru lk'.
Proof.
  intros []. cbn [link_step]. destruct li_cl0 as [Hconf Hpark Hrem Hfr Hout]. destruct (cl_frameList (lk_client lk)) as [|fr rest] eqn:Hl.
  - exists lk. split; [done|]. split; try done. by rewrite <-Hl in Hfr.
  - eexists. split; [reflexivity|]. split; try done. split; try done; cbn.
    + unfold parked in *. destruct (lk_client lk). unfold park in *. cbn in *. by case_bool_decide; injection Hpark as <- <-.
    + by rewrite <-app_assoc.
Qed.

(** Every event. *)
Definition event_ok (ev : LinkEvent) : Prop := match ev with EvFrame fr => frame_ok fr | _ => True end.

Lemma step_ok frs lk ev : link_ok frs lk → event_ok ev →
  ∃ lk', link_step ev lk = (Ok tt, lk') ∧ link_ok (frs ++ frames_of [ev]) lk'.
Proof.
  intros (A & U & O & Q & rd & ru & Hinv) Hev. destruct ev; cbn [frames_of mbind list_bind app] in *; rewrite ?app_nil_r.
  - destruct (step_frame _ _ _ _ _ _ _ _ fr Hinv Hev) as (lk' & D & Q' & ? & ?). exists lk'. split; [done|]. by do 6 eexists.
  - destruct (step_send _ _ _ _ _ _ _ _ Hinv) as (lk' & D & Q' & ? & ? & _). exists lk'. split; [done|]. by do 6 eexists.
  - destruct (step_down _ _ _ _ _ _ _ _ a Hinv) as (lk' & N & O' & rd' & ? & ? & _). exists lk'. split; [done|]. by do 6 eexists.
  - destruct (step_up _ _ _ _ _ _ _ _ a Hinv) as (lk' & N & U' & ru' & ? & ? & _). exists lk'. split; [done|]. by do 6 eexists.
  - destruct (step_produce _ _ _ _ _ _ _ _ Hinv) as (lk' & ? & ?). exists lk'. split; [done|]. by do 6 eexists.
Qed.

Lemma run_ok evs : Forall event_ok evs → ∀ frs lk, link_ok frs lk →
  ∃ lk', link_run evs lk = (Ok tt, lk') ∧ link_ok (frs ++ frames_of evs) lk'.
Proof.
  induction 1 as [|ev evs Hev Hevs IH]; intros frs lk Hok.
  - exists lk. cbn. by rewrite app_nil_r.
  - destruct (step_ok _ _ _ Hok Hev) as (lk1 & Hrun & Hok1). destruct (IH _ _ Hok1) as (lk' & Hrun' & Hok').
    exists lk'. cbn [link_run]. rewrite (run_bind _ _ _ _ _ Hrun). split; [done|].
    unfold frames_of in *. rewrite bind_cons. cbn in Hok'. by rewrite <-app_assoc, app_nil_r in Hok'.
Qed.

Lemma new_link_ok : link_ok [] (new_link lossless maxq maxf).
Proof.
  destruct Hrel. exists [], [], [], [], [], []. split; try done; try (by left).
  - split; try done; cbn; try lia. by intros _ [].
  - split; try done. by left.
Qed.
End steps.
