(* ===== verification/TcpTheorems.v ===== *)
(** Frames reach the client in order, each once, and all of them if the
    connection is left to work. *)
From S2P Require Export TcpLinkSteps.

(** As often as there are frames in the queue, everything arrives and the
    server sends. *)
Definition round : list LinkEvent := [EvDown Everything; EvUp Everything; EvSend].
Fixpoint rounds (n : nat) : list LinkEvent :=
  match n with O => [] | S n' => round ++ rounds n' end.
Definition drain (n : nat) : list LinkEvent := rounds n ++ [EvDown Everything; EvUp Everything].

Section theorems.
#[local] Set Default Proof Using "Type*".
Context `{!DataStream} `{!DataStreamLaws} `{!SocketLib}.

Section drains.
Context (lossless : bool) (maxq maxf : Z) (Hrel : reliable lossless maxq maxf) (Hnr : ¬ refuses).
Abbreviation inv := (link_inv lossless maxq maxf).

Lemma arrive_all frs A U O Q rd ru lk : inv frs A U O Q rd ru lk →
  ∃ lk' rd' ru', link_run [EvDown Everything; EvUp Everything] lk = (Ok tt, lk') ∧
    inv frs (A ++ U ++ O) [] [] Q rd' ru' lk'.
Proof.
  intros Hinv.
  destruct (step_down _ _ _ Hrel _ _ _ _ _ _ _ _ Everything Hinv) as (lk1 & N & O' & rd' & Hrun1 & Hinv1 & HO & Hs & Hev).
  assert (O' = []) as -> by (apply Hev; [done|]; eapply si_unstarted; [apply Hinv|done]). rewrite app_nil_r in HO. subst N.
  destruct (step_up _ _ _ Hrel _ _ _ _ _ _ _ _ Everything Hinv1) as (lk2 & N & U' & ru' & Hrun2 & Hinv2 & HU & _ & _ & _ & _ & _ & Hev2).
  rewrite (Hev2 eq_refl) in *. rewrite app_nil_r in HU. subst N. exists lk2, rd', ru'. split; [|done].
  cbn [link_run]. rewrite (run_bind _ _ _ _ _ Hrun1). by rewrite (run_bind _ _ _ _ _ Hrun2).
Qed.

Lemma one_round frs A U O Q rd ru lk : inv frs A U O Q rd ru lk →
  ∃ lk' D Q' rd' ru', link_run round lk = (Ok tt, lk') ∧ inv frs (A ++ U ++ O) [] D Q' rd' ru' lk' ∧
    Q = D ++ Q' ∧ (Q ≠ [] → D ≠ []).
Proof.
  intros Hinv. destruct (arrive_all _ _ _ _ _ _ _ _ Hinv) as (lk1 & rd' & ru' & Hrun1 & Hinv1).
  destruct (step_send _ _ _ Hrel _ _ _ _ _ _ _ _ Hinv1) as (lk2 & D & Q' & Hrun2 & Hinv2 & -> & Hset & _).
  exists lk2, D, Q', rd', ru'. split_and!; [|done..|].
  - change round with ([EvDown Everything; EvUp Everything] ++ [EvSend]). rewrite (link_run_app _ _ _ _ Hrun1).
    cbn [link_run]. by rewrite (run_bind _ _ _ _ _ Hrun2).
  - intros HQ ->. pose proof (li_srv _ _ _ _ _ _ _ _ _ _ _ Hinv2) as []. destruct Hset as [Hq|[Hf|Hw]].
    + rewrite Hq in si_queue. destruct Q'; [done|]. discriminate si_queue.
    + unfold in_flight in Hf. rewrite si_flight, si_maxf in Hf. cbn in Hf. destruct Hrel. lia.
    + by apply (si_busy Hnr Hw).
Qed.

Lemma all_rounds n frs A U O Q rd ru lk : inv frs A U O Q rd ru lk → (length Q ≤ n)%nat →
  ∃ lk' A' U' O' rd' ru', link_run (rounds n) lk = (Ok tt, lk') ∧ inv frs A' U' O' [] rd' ru' lk' ∧
    A' ++ U' ++ O' = A ++ U ++ O ++ Q.
Proof.
  revert A U O Q rd ru lk. induction n as [|n IH]; intros A U O Q rd ru lk Hinv Hn.
  - destruct Q; [|cbn in Hn; lia]. exists lk, A, U, O, rd, ru. by rewrite app_nil_r.
  - destruct (one_round _ _ _ _ _ _ _ _ Hinv) as (lk1 & D & Q' & rd1 & ru1 & Hrun1 & Hinv1 & -> & HD).
    destruct (IH _ _ _ _ _ _ _ Hinv1) as (lk' & A' & U' & O' & rd' & ru' & Hrun & Hinv' & Heq).
    { destruct D as [|fr D]; [|rewrite length_app in Hn; cbn in Hn; lia].
      destruct Q'; [cbn; lia|]. by destruct HD. }
    exists lk', A', U', O', rd', ru'. split_and!; [|done|].
    + cbn [rounds]. by rewrite (link_run_app _ _ _ _ Hrun1).
    + rewrite Heq. by rewrite <-!app_assoc.
Qed.
End drains.


(** C8: when the socket of the server never refuses a write, a connection in
    any state it can get into empties its queue: after as many rounds as there
    are frames in the queue, nothing is queued or in flight any more, and the
    client of a lossless connection has got every frame that was ever queued. *)
Theorem tcp_drains lossless maxq maxf evs lk n : reliable lossless maxq maxf → ¬ refuses → Forall event_ok evs →
  link_run evs (new_link lossless maxq maxf) = (Ok tt, lk) → (length (sc_frameQueue (lk_server lk)) ≤ n)%nat →
  ∃ lk', link_run (drain n) lk = (Ok tt, lk') ∧
    sc_frameQueue (lk_server lk') = [] ∧ sc_frameNumbersInFlight (lk_server lk') = [] ∧
    sc_waiting (lk_server lk') = false ∧
    (lossless = true → lk_produced lk' ++ cl_frameList (lk_client lk') = (frames_of evs).*2).
Proof.
  intros Hrel Hnr Hevs Hrun Hn.
  destruct (run_ok _ _ _ Hrel evs Hevs [] _ (new_link_ok _ _ _ Hrel)) as (lk0 & Hrun0 & A & U & O & Q & rd & ru & Hinv).
  rewrite Hrun in Hrun0. injection Hrun0 as <-.
  assert (HQ : (length Q ≤ n)%nat) by (by rewrite <-(queue_length _ _ (si_queue _ _ _ _ _ _ _ _ (li_srv _ _ _ _ _ _ _ _ _ _ _ Hinv)))).
  destruct (all_rounds _ _ _ Hrel Hnr n _ _ _ _ _ _ _ _ Hinv HQ) as (lk1 & A1 & U1 & O1 & rd1 & ru1 & Hrun1 & Hinv1 & Heq).
  destruct (arrive_all _ _ _ Hrel Hnr _ _ _ _ _ _ _ _ Hinv1) as (lk2 & rd2 & ru2 & Hrun2 & Hinv2).
  pose proof (li_srv _ _ _ _ _ _ _ _ _ _ _ Hinv2) as []. exists lk2. split_and!.
  - unfold drain. by rewrite (link_run_app _ _ _ _ Hrun1).
  - by destruct (sc_frameQueue (lk_server lk2)).
  - done.
  - destruct (sc_waiting (lk_server lk2)) eqn:Hw; [|done]. by destruct (si_busy Hnr eq_refl).
  - intros Hl. rewrite (ci_frames _ _ _ _ (li_cl _ _ _ _ _ _ _ _ _ _ _ Hinv2)). f_equal.
    pose proof (li_all _ _ _ _ _ _ _ _ _ _ _ Hinv2 Hl) as Hall. by rewrite !app_nil_r in *.
Qed.
End theorems.
