(* ===== verification/TcpErrors.v ===== *)
(** What the server and the client do with what they do not expect: bytes that
    are no messages, a socket that refuses, a frame without arguments. *)
From S2P Require Export TcpTheorems.

(** ** Any bytes *)

(** A property of the object that does not depend on what has arrived. *)
Class Settable {S} `{Receiver S} (inv : S → Prop) := settable l n s : inv s → inv (rx_set l n s).

Section total.
#[local] Set Default Proof Using "Type*".
Context {S : Type} `{!Receiver S} `{!ReceiverLaws S} `{!DataStream} `{!DataStreamLaws}.

(** [m] returns, and the socket then has at most the bytes it had. *)
Definition returns {A} (inv : S → Prop) (m : M S A) : Prop :=
  ∀ s l, inv s → rx_socket s = Some l →
  ∃ a s' l', m s = (Ok a, s') ∧ inv s' ∧ rx_socket s' = Some l' ∧ (length l' ≤ length l)%nat.

Context (inv : S → Prop) `{!Settable inv}.

Lemma returns_ret {A} (a : A) : returns inv (mret a).
Proof using Type. intros s l Hs Hl. by exists a, s, l. Qed.
Lemma returns_bind {A B} (m : M S A) (k : A → M S B) : returns inv m → (∀ a, returns inv (k a)) → returns inv (m ≫= k).
Proof using Type.
  intros Hm Hk s l Hs Hl. destruct (Hm s l Hs Hl) as (a & s1 & l1 & Hrun1 & Hs1 & Hl1 & Hle1).
  destruct (Hk a s1 l1 Hs1 Hl1) as (b & s2 & l2 & Hrun2 & Hs2 & Hl2 & Hle2).
  exists b, s2, l2. rewrite (run_bind _ _ _ _ _ Hrun1). split_and!; [done..|lia].
Qed.
Lemma returns_read {A} (f : bytes → A * bytes) : (∀ l, (length (f l).2 ≤ length l)%nat) → returns inv (rx_read f).
Proof.
  intros Hf s l Hs Hl. destruct (f l) as [a l'] eqn:Hfl. exists a, (rx_set l' (rx_blockSize s) s), l'. split_and!.
  - by apply (run_rx_read f s l).
  - by apply settable.
  - by eapply rx_socket_set.
  - specialize (Hf l). by rewrite Hfl in Hf.
Qed.
Lemma returns_available : returns inv rx_available.
Proof. intros s l Hs Hl. exists (size_of l), s, l. by split; [apply run_rx_available|]. Qed.
Lemma returns_setBlockSize n : returns inv (rx_setBlockSize n).
Proof.
  intros s l Hs Hl. exists tt, (rx_set l n s), l. split_and!; [by apply run_rx_setBlockSize|by apply settable|by eapply rx_socket_set|done].
Qed.
Lemma returns_gets {A} (f : S → A) : returns inv (gets f).
Proof using Type. intros s l Hs Hl. by exists (f s), s, l. Qed.
Lemma returns_when b (m : M S unit) : returns inv m → returns inv (when b m).
Proof using Type. intros Hm. destruct b; [done|apply returns_ret]. Qed.

Lemma read32_shorter l : (length (read32 l).2 ≤ length l)%nat.
Proof. rewrite read32_length. lia. Qed.
Lemma read_int_length l : length (read_int l).2 = (length l - 4)%nat.
Proof. unfold read_int. pose proof (read32_length l) as Hl. by destruct (read32 l). Qed.
Lemma skip_shorter n l : (length (skipRawData n l) ≤ length l)%nat.
Proof. unfold skipRawData. rewrite length_drop. lia. Qed.

Lemma returns_read_size : returns inv read_size.
Proof.
  unfold read_size. apply returns_bind; [apply returns_gets|intros n]. apply returns_bind; [apply returns_available|intros k].
  destruct (_ && _); [apply returns_ret|]. apply returns_bind.
  - apply returns_when, returns_bind; [|intros; apply returns_setBlockSize].
    apply returns_read. intros l. rewrite read_int_length. lia.
  - intros _. apply returns_bind; [apply returns_gets|intros ?]. apply returns_bind; [apply returns_available|intros ?]. apply returns_ret.
Qed.

Context (handle : Z → M S unit) (Hhandle : ∀ op, returns inv (handle op)).

(** Every round but the last takes the four bytes of a size. *)
Lemma returns_message s l : inv s → rx_socket s = Some l →
  ∃ data s' l', read_message handle s = (Ok data, s') ∧ inv s' ∧ rx_socket s' = Some l' ∧ (length l' ≤ length l)%nat ∧
    (data = true → (length l' < length l)%nat).
Proof.
  intros Hs Hl. unfold read_message.
  destruct (returns_bind (rx_read read32) handle (returns_read _ read32_shorter) Hhandle s l Hs Hl) as (u & s1 & l1 & Hrun & Hs1 & Hl1 & Hle1).
  unfold mbind, M_bind in Hrun. unfold mbind at 1, M_bind at 1.
  destruct (rx_read read32 s) as [[op| |] s0]; [|done..]. rewrite (run_bind _ _ _ _ _ Hrun).
  erewrite run_bind by (by apply run_rx_available). case_bool_decide as H4.
  - destruct (read_int l1) as [n l2] eqn:Hread. pose proof (read_int_length l1) as Hlen. rewrite Hread in Hlen. cbn in Hlen.
    erewrite run_bind.
    2:{ erewrite run_bind by (by eapply run_rx_read). erewrite run_bind by (eapply run_rx_setBlockSize; by eapply rx_socket_set).
        rewrite rx_set_set. reflexivity. }
    assert (Hl2 : rx_socket (rx_set l2 n s1) = Some l2) by (by eapply rx_socket_set).
    erewrite run_bind by (by apply run_rx_available). erewrite run_bind by reflexivity.
    eexists _, _, l2. split_and!; [reflexivity|by apply settable|done|lia|]. intros _. unfold size_of in H4. lia.
  - assert (Hl2 : rx_socket (rx_set l1 0 s1) = Some l1) by (by eapply rx_socket_set).
    erewrite run_bind.
    2:{ erewrite run_bind by (by eapply run_rx_setBlockSize). reflexivity. }
    erewrite run_bind by (by apply run_rx_available). erewrite run_bind by reflexivity.
    eexists _, _, l1. split_and!; [reflexivity|by apply settable|done|lia|]. by case_bool_decide.
Qed.

Lemma returns_loop fuel s l : inv s → rx_socket s = Some l → (length l < fuel)%nat →
  ∃ s', read_loop handle fuel s = (Ok tt, s') ∧ inv s' ∧ ∃ l', rx_socket s' = Some l' ∧ (length l' ≤ length l)%nat.
Proof.
  revert s l. induction fuel as [|fuel IH]; intros s l Hs Hl Hf; [lia|].
  destruct (returns_message s l Hs Hl) as (data & s1 & l1 & Hrun & Hs1 & Hl1 & Hle & Hlt). cbn [read_loop].
  rewrite (run_bind _ _ _ _ _ Hrun). destruct data; [|by exists s1; eauto].
  specialize (Hlt eq_refl). destruct (IH s1 l1 Hs1 Hl1 ltac:(lia)) as (s' & Hrun' & Hs' & l' & Hl' & Hle').
  exists s'. split_and!; [done..|]. exists l'. split; [done|lia].
Qed.

Lemma returns_blocks : returns inv (read_blocks handle).
Proof.
  intros s l Hs Hl. unfold read_blocks. erewrite run_bind by (by apply run_rx_available). unfold size_of. rewrite Nat2Z.id.
  destruct (returns_loop (Datatypes.S (length l)) s l Hs Hl ltac:(lia)) as (s' & Hrun & Hs' & l' & Hl' & Hle).
  by exists tt, s', l'.
Qed.

Lemma returns_receive : returns inv (receive handle).
Proof. apply returns_bind; [apply returns_read_size|]. intros []; [apply returns_blocks|apply returns_ret]. Qed.
End total.

Section errors.
#[local] Set Default Proof Using "Type*".
Context `{!DataStream} `{!DataStreamLaws} `{!SocketLib}.

(** Steps that leave the socket alone. *)
Lemma returns_modify {S} `{!Receiver S} (inv : S → Prop) (g : S → S) :
  (∀ s, inv s → inv (g s)) → (∀ s, rx_socket (g s) = rx_socket s) → returns inv (modify g).
Proof. intros Hg Hr s l Hs Hl. exists tt, (g s), l. rewrite Hr. by split_and!; auto. Qed.

#[export] Instance has_socket_settable : Settable has_socket.
Proof. intros l n c [s Hs]. unfold has_socket. cbn. rewrite Hs. by eexists. Qed.

Lemma handle_message_returns (inv : ServerConnection → Prop) `{!Settable inv} op :
  (∀ n c, inv c → inv (ack_effect n c)) → returns inv (handle_message op).
Proof.
  intros Hack. unfold handle_message. case_bool_decide.
  - apply returns_bind; [apply (returns_read inv); apply read32_shorter|]. intros n c l Hc Hl.
    exists tt, (ack_effect n c), l. split_and!; [apply run_conn_ackFrame|by apply Hack| |done].
    rewrite <-Hl. destruct c as [? w ll mq mf bs [|x k] q sig]; [done|]. unfold ack_effect. cbn.
    case_bool_decide; cbn; by destruct (ll && w).
  - apply returns_bind; [apply returns_gets|]. intros c. apply (returns_read inv). intros l. apply skip_shorter.
Qed.

Definition any_client (c : TCPClient) : Prop := True.
#[export] Instance any_client_settable : Settable any_client.
Proof. done. Qed.

Lemma returns_client_write b : returns any_client (client_write b).
Proof. intros c l _ Hl. exists (accepts ClientEnd (so_writes (cl_socket c)) (size_of b)), (client_write b c).2, l. by split_and!. Qed.

Lemma returns_parse_args n frame : returns any_client (parse_args n frame).
Proof.
  revert frame. induction n as [|n IH]; intros frame; cbn [parse_args]; [apply returns_ret|].
  apply returns_bind; [apply (returns_read any_client); apply readVariant_length|]. intros [v|]; [apply IH|apply returns_ret].
Qed.

Lemma returns_parseFrame : returns any_client parseFrame.
Proof.
  unfold parseFrame. do 2 (apply returns_bind; [apply (returns_read any_client); apply read32_shorter|intros ?]).
  case_bool_decide.
  - apply returns_bind; [apply returns_gets|intros bs].
    apply returns_bind; [apply (returns_read any_client); intros l; apply skip_shorter|intros ?]. apply returns_ret.
  - apply returns_bind; [apply returns_parse_args|]. intros [frame|]; [|apply returns_ret].
    apply returns_bind; [apply returns_bind; [apply returns_client_write|intros ?; apply returns_ret]|intros ?].
    apply returns_bind; [by apply returns_modify|intros ?]. apply returns_ret.
Qed.

Lemma returns_client_handle op : returns any_client (client_handle op).
Proof.
  unfold client_handle. case_bool_decide; [apply returns_ret|]. case_bool_decide.
  - apply returns_bind; [apply returns_gets|intros conf]. apply returns_when, returns_bind; [apply returns_parseFrame|intros ?].
    apply returns_ret.
  - apply returns_bind; [apply returns_gets|intros bs]. apply (returns_read any_client); intros l; apply skip_shorter.
Qed.

(** C18: whatever bytes have arrived, complete messages or not, the server and
    the client come back from reading them, without an error and without
    reading past the end: a peer cannot hang or crash them. *)
Theorem readers_return c k : has_socket c →
  (∃ c', readyRead c = (Ok tt, c') ∧ has_socket c') ∧ (∃ k', readData k = (Ok tt, k')).
Proof.
  intros Hc. split.
  - destruct Hc as [s Hs]. destruct (returns_receive has_socket handle_message) with (s := c) (l := so_in s)
      as ([] & c' & l' & Hrun & Hc' & _); [|by eexists|cbn; by rewrite Hs|by exists c'].
    intros op. apply handle_message_returns; [apply _|]. intros n c0 [s0 Hs0]. unfold has_socket, ack_effect.
    destruct c0 as [? w ll mq mf bs [|x l] q sig]; [by eexists|]. cbn. case_bool_decide; cbn; destruct (ll && w); by eexists.
  - assert (Hret : returns any_client readData).
    { unfold readData. apply returns_bind; [apply (returns_read_size any_client)|]. intros [].
      - apply returns_bind; [apply returns_gets|]. intros []; [|apply returns_ret].
        apply (returns_blocks any_client), returns_client_handle.
      - apply returns_ret. }
    destruct (Hret k _ I eq_refl) as ([] & k' & ? & Hrun & _). by exists k'.
Qed.

(** ** A refused write *)
Inductive ConnEvent :=
  | CFrame (n : Z) (block : bytes)     (** [queueFrame] *)
  | CSend                              (** [sendData] *)
  | CBytes (chunk : bytes).            (** bytes arrive, [readyRead] *)

Definition conn_step (ev : ConnEvent) : M ServerConnection unit :=
  match ev with
  | CFrame n block => queueFrame n block
  | CSend => sendData
  | CBytes chunk => modify (rx_append chunk) ;; readyRead
  end.
Fixpoint conn_run (evs : list ConnEvent) : M ServerConnection unit :=
  match evs with [] => mret tt | ev :: evs' => conn_step ev ;; conn_run evs' end.

(** Waiting for a client that cannot end it. *)
Record stuck (out : bytes) (maxq : Z) (c : ServerConnection) : Prop := {
  sk_linked : linked c;
  sk_waiting : sc_waiting c = true;
  sk_hopeless : sc_lossless c = false ∨ sc_frameNumbersInFlight c = [];
  sk_maxq : sc_maxFramesInQueue c = maxq;
  sk_out : out_of c = out
}.

#[export] Instance stuck_settable out maxq : Settable (stuck out maxq).
Proof.
  intros l n c [Hl ? ? ? Ho]. split; try done.
  - unfold linked in *. cbn. by destruct (sc_socket c).
  - etrans; [|exact Ho]. unfold out_of. cbn. by destruct (sc_socket c).
Qed.
Lemma stuck_ack out maxq n c : stuck out maxq c → stuck out maxq (ack_effect n c).
Proof.
  destruct c as [s w ll mq mf bs [|x l] q sig]; [done|]. intros []. cbn in *. subst.
  destruct sk_hopeless0 as [->|]; [|done]. unfold ack_effect. cbn. case_bool_decide; split; try done; by left.
Qed.
Lemma stuck_sendData out maxq c : stuck out maxq c → sendData c = (Ok tt, c).
Proof.
  intros []. destruct (linked_socket c sk_linked0) as (s & Hs & Hconn). unfold sendData.
  erewrite run_bind by reflexivity. unfold id. rewrite Hs, Hconn. cbn. by rewrite sk_waiting0.
Qed.

Lemma stuck_step out maxq ev c : 0 ≤ maxq → stuck out maxq c → ∃ c', conn_step ev c = (Ok tt, c') ∧ stuck out maxq c'.
Proof.
  intros Hmaxq Hc. pose proof Hc as [Hl]. destruct (linked_socket c Hl) as (s & Hs & Hconn).
  destruct ev as [n block| |chunk]; cbn [conn_step].
  - unfold queueFrame. erewrite run_bind by reflexivity. unfold id. rewrite Hs.
    erewrite run_bind by reflexivity. erewrite run_bind by reflexivity.
    set (c1 := sc_set_queue _ c). assert (Hc1 : stuck out maxq c1) by (by destruct Hc).
    erewrite run_bind.
    2:{ instantiate (1 := c1). instantiate (1 := tt). case_bool_decide; [|done]. by eapply stuck_sendData. }
    erewrite run_bind by reflexivity. rewrite (sk_waiting _ _ _ Hc1). cbn [negb].
    destruct (sc_frameQueue c1) as [|f q] eqn:Hq.
    { exfalso. cbn in Hq. by destruct (sc_frameQueue c). }
    exists (sc_emit scheduleSend (if bool_decide (sc_maxFramesInQueue c1 < Z.of_nat (length (f :: q))) then
      if sc_lossless c1 then c1 else sc_set_queue q c1 else c1)).
    case_bool_decide; destruct (sc_lossless c1) eqn:Hll; (split; [reflexivity|]); by destruct Hc1.
  - exists c. split; [by eapply stuck_sendData|done].
  - erewrite run_bind by reflexivity. assert (Hc1 : stuck out maxq (rx_append chunk c)).
    { unfold rx_append. destruct (rx_socket c); [by apply settable|done]. }
    destruct (linked_socket _ (sk_linked _ _ _ Hc1)) as (s1 & Hs1 & _).
    destruct (returns_receive (stuck out maxq) handle_message
      (λ op, handle_message_returns _ op (stuck_ack out maxq)) (rx_append chunk c) (so_in s1) Hc1)
      as ([] & c' & ? & Hrun & Hc' & _); [cbn; by rewrite Hs1|]. by exists c'.
Qed.

(** How a connection gets into this state. *)
Lemma refusal_stuck c s n block : sc_socket c = Some s → so_connected s = true →
  sc_frameQueue c = [] → sc_lossless c = false ∨ sc_frameNumbersInFlight c = [] → sc_waiting c = false →
  in_flight c < sc_maxFramesInFlight c → 1 ≤ sc_maxFramesInQueue c →
  accepts ServerEnd (so_writes s) (size_of block) = -1 → block ≠ [] →
  ∃ c1, conn_step (CFrame n block) c = (Ok tt, c1) ∧ stuck (out_of c) (sc_maxFramesInQueue c) c1.
Proof.
  intros Hs Hconn Hq Hll Hw Hfl Hmq Hacc Hne. cbn [conn_step].
  set (f := mkFrame n block 0).
  set (c0 := sc_set_queue [f] c).
  set (c1 := sc_set_socket (Some (mkSocket (so_connected s) (so_in s) (so_out s) (S (so_writes s)))) c0).
  set (c2 := sc_emit (waitingOnClient true) (sc_set_waiting true c1)).
  assert (Hfirst : send_first f [] c0 = (Ok true, c1)).
  { rewrite (run_send_first c0 s f [] Hs ltac:(by left)). change (unsent f) with block. rewrite Hacc.
    rewrite bool_decide_true by (pose proof (size_nonneg block); lia). rewrite bool_decide_false by auto.
    cbn. by rewrite app_nil_r. }
  assert (Hloop : ∀ k, send_loop (S k) false c0 = (Ok tt, c2)).
  { intros k. cbn [send_loop]. erewrite run_bind by reflexivity. unfold id. cbn [sc_frameQueue c0 sc_set_queue].
    rewrite bool_decide_false by (unfold in_flight in Hfl; cbn; lia). cbn [orb].
    rewrite (run_bind _ _ _ _ _ Hfirst). erewrite run_bind by reflexivity. destruct k; cbn [send_loop].
    all: erewrite run_bind by reflexivity; unfold id; cbn; by rewrite orb_true_r. }
  exists (sc_emit scheduleSend c2). split; [|split; try done].
  - unfold queueFrame. erewrite run_bind by reflexivity. unfold id. rewrite Hs, Hq.
    erewrite run_bind by reflexivity. erewrite run_bind by reflexivity. fold f c0.
    rewrite bool_decide_true by (by cbn). cbn [when].
    erewrite run_bind.
    2:{ unfold sendData. erewrite run_bind by reflexivity. unfold id. cbn [sc_socket sc_waiting c0 sc_set_queue].
        rewrite Hs, Hconn, Hw. cbn [negb]. apply Hloop. }
    erewrite run_bind by reflexivity. erewrite run_bind; [reflexivity|].
    change (sc_maxFramesInQueue c2) with (sc_maxFramesInQueue c). change (sc_frameQueue c2) with [f].
    by rewrite bool_decide_false by (cbn; lia).
  - unfold out_of. cbn. by rewrite Hs.
Qed.

(** When the socket refuses the write of a frame, and the connection is
    lossy or has nothing in flight, nothing is ever sent on that connection
    again, whatever frames are queued and whatever bytes arrive from the client:
    [m_waiting] is only reset by an acknowledgement of a frame in flight, and
    only for lossless connections. *)
Theorem refusal_is_final c s n block evs : sc_socket c = Some s → so_connected s = true →
  sc_frameQueue c = [] → sc_lossless c = false ∨ sc_frameNumbersInFlight c = [] → in_flight c < sc_maxFramesInFlight c → 1 ≤ sc_maxFramesInQueue c →
  block ≠ [] → accepts ServerEnd (so_writes s) (size_of block) = -1 →
  ∃ c', conn_run (CFrame n block :: evs) c = (Ok tt, c') ∧ sc_waiting c' = true ∧ out_of c' = out_of c.
Proof.
  intros Hs Hconn Hq Hll Hfl Hmq Hne Hacc.
  assert (Hrun : ∀ evs c1, stuck (out_of c) (sc_maxFramesInQueue c) c1 →
    ∃ c', conn_run evs c1 = (Ok tt, c') ∧ sc_waiting c' = true ∧ out_of c' = out_of c).
  { clear evs. intros evs. induction evs as [|ev evs IH]; intros c1 Hc1; [exists c1; by destruct Hc1|].
    destruct (stuck_step (out_of c) (sc_maxFramesInQueue c) ev c1 ltac:(lia) Hc1) as (c2 & Hrun & Hc2). cbn [conn_run].
    rewrite (run_bind _ _ _ _ _ Hrun). by apply IH. }
  destruct (sc_waiting c) eqn:Hw.
  { apply Hrun. split; try done. unfold linked. by rewrite Hs. }
  assert (Hstep : ∃ c1, conn_step (CFrame n block) c = (Ok tt, c1) ∧ stuck (out_of c) (sc_maxFramesInQueue c) c1).
  { by eapply refusal_stuck. }
  destruct Hstep as (c1 & Hst & Hc1). destruct (Hrun evs c1 Hc1) as (c' & Hr & Hc'). exists c'.
  cbn [conn_run]. by rewrite (run_bind _ _ _ _ _ Hst).
Qed.

(** ** A frame without arguments *)

(** A frame without arguments breaks the framing: the client skips four
    bytes too many, which are the size of the next message, and takes the
    opcode of that message for the size of the one after; the frame is neither
    queued nor acknowledged, so the server counts it as in flight for good. *)
Theorem empty_frame_desynchronises n p c : 0 ≤ n < 2 ^ 32 → cl_configured c = true →
  make_block n [] = message (frame_payload n []) ∧
  read_message client_handle (rx_set (frame_payload n [] ++ message p) (size_of (frame_payload n [])) c) =
    (Ok (next_size p c).2, (next_size p c).1) ∧
  cl_frameList (next_size p c).1 = cl_frameList c ∧ so_out (cl_socket (next_size p c).1) = so_out (cl_socket c).
Proof.
  intros Hn Hc. split; [by apply make_block_message|].
  assert (Hsz : size_of (frame_payload n []) = 12) by (unfold frame_payload; rewrite !size_app, !size_write32; done).
  rewrite Hsz. split; [|by unfold next_size; case_bool_decide].
  unfold frame_payload, write_args. cbn [mbind list_bind length]. change (Z.of_nat 0) with 0. rewrite <-!app_assoc. cbn [app].
  assert (Hskip : skipRawData 4 (message p) = p).
  { rewrite <-(size_write32 (size_of p)). apply skip_size. }
  assert (Hhandle : client_handle PROTO_FRAME (rx_set (write32 n ++ write32 0 ++ message p) 12 c) = (Ok tt, rx_set p 12 c)).
  { unfold client_handle. rewrite (bool_decide_false (PROTO_FRAME = PROTO_INIT)), (bool_decide_true (PROTO_FRAME = PROTO_FRAME)) by done.
    erewrite run_bind by reflexivity. cbn [rx_set TCPClient_receiver cl_set_blockSize cl_set_socket cl_configured]. rewrite Hc. cbn [when].
    erewrite run_bind; [reflexivity|]. unfold parseFrame.
    erewrite run_bind by (eapply run_rx_read; [reflexivity|apply read32_write32]).
    erewrite run_bind by (eapply run_rx_read; [reflexivity|apply read32_write32]).
    rewrite bool_decide_true by (by rewrite u32_id). erewrite run_bind by reflexivity.
    erewrite run_bind; [reflexivity|]. etrans; [eapply run_rx_read; reflexivity|].
    transitivity (Ok tt, rx_set (skipRawData 4 (message p)) 12 c); [reflexivity|]. by rewrite Hskip. }
  by eapply (read_message_step client_handle PROTO_FRAME _ p 12 c c).
Qed.
End errors.
