(* ===== verification/TcpExamples.v ===== *)
(** A stream and sockets to run the server and the client with, matrices of
    bytes, and the theorems about them at work. *)
From S2P Require Export TcpErrors MatStream.

(** ** A stream: words and variants in big-endian order *)
Definition ex_byte (z : Z) : Byte.byte := default Byte.x00 (Byte.of_N (Z.to_N (z mod 256))).
Definition ex_int (b : Byte.byte) : Z := Z.of_N (Byte.to_N b).

Lemma ex_int_byte z : ex_int (ex_byte z) = z mod 256.
Proof.
  unfold ex_int, ex_byte. pose proof (Z.mod_pos_bound z 256 ltac:(lia)) as Hz.
  destruct (Byte.of_N (Z.to_N (z mod 256))) as [b|] eqn:Hb; cbn [default].
  - apply Byte.to_of_N in Hb. unfold default, id. rewrite Hb. lia.
  - apply Byte.of_N_None_iff in Hb. lia.
Qed.

Definition ex_write32 (z : Z) : bytes := [ex_byte (z / 2 ^ 24); ex_byte (z / 2 ^ 16); ex_byte (z / 2 ^ 8); ex_byte z].
Definition ex_read32 (l : bytes) : Z * bytes :=
  match l with
  | a :: b :: c :: d :: l' => (ex_int a * 2 ^ 24 + ex_int b * 2 ^ 16 + ex_int c * 2 ^ 8 + ex_int d, l')
  | _ => (0, [])
  end.

#[local] Instance ex_stream : DataStream := {|
  write32 := ex_write32;
  read32 := ex_read32;
  writeVariant v := ex_write32 (userType v) ++ ex_write32 (contents v);
  readVariant l :=
    if bool_decide (length l < 8)%nat then (None, [])
    else let '(t, l1) := ex_read32 l in let '(x, l2) := ex_read32 l1 in (Some (mkQVariant t x), l2)
|}.

Lemma ex_read_write z rest : ex_read32 (ex_write32 z ++ rest) = (u32 z, rest).
Proof.
  cbn [ex_read32 ex_write32 app]. rewrite !ex_int_byte. f_equal. unfold u32.
  Z.to_euclidean_division_equations. lia.
Qed.
Lemma ex_read_length l : length (ex_read32 l).2 = (length l - 4)%nat.
Proof. by destruct l as [|a [|b [|c [|d l]]]]; cbn; lia. Qed.

#[local] Instance ex_stream_laws : DataStreamLaws.
Proof.
  refine (Build_DataStreamLaws _ (λ v, 0 ≤ userType v < 2 ^ 32 ∧ 0 ≤ contents v < 2 ^ 32) _ _ _ _ _).
  - done.
  - apply ex_read_write.
  - apply ex_read_length.
  - intros [t x] rest [Ht Hx]. cbn [readVariant writeVariant ex_stream userType contents] in *.
    rewrite bool_decide_false by (rewrite !length_app; cbn; lia).
    rewrite <-app_assoc, !ex_read_write. by rewrite !u32_id.
  - intros l. cbn [readVariant ex_stream]. case_bool_decide; [cbn; lia|].
    destruct (ex_read32 l) as [t l1] eqn:H1. destruct (ex_read32 l1) as [x l2] eqn:H2.
    pose proof (ex_read_length l) as L1. pose proof (ex_read_length l1) as L2. rewrite H1 in L1. rewrite H2 in L2. cbn in *. lia.
Defined.

(** ** Sockets *)

(** The server's socket takes ten bytes at a time, and refuses the calls in
    [refused]. *)
Definition ex_accepts (refused : list nat) (e : SocketEnd) (k : nat) (n : Z) : Z :=
  match e with
  | ServerEnd => if bool_decide (k ∈ refused) then -1 else Z.max 0 (Z.min n 10)
  | ClientEnd => n
  end.
Definition ex_socket (refused : list nat) : SocketLib.
Proof.
  refine {| accepts := ex_accepts refused |}.
  intros [] k n Hn; cbn; [case_bool_decide|]; lia.
Defined.

Lemma ex_progress refused : @progress (ex_socket refused).
Proof. intros k n Hn. cbn. case_bool_decide; lia. Qed.

(** ** A lossless connection with partial and refused writes *)
Definition ex_value (x : Z) : QVariant := mkQVariant 3 x.
Definition ex_frames : list TcpFrame := [(1, [ex_value 10; ex_value 11]); (2, [ex_value 20]); (3, [ex_value 30])].
Definition ex_events : list LinkEvent :=
  [EvFrame (1, [ex_value 10; ex_value 11]); EvDown (Bytes 3); EvFrame (2, [ex_value 20]); EvDown (Bytes 30);
   EvUp Everything; EvSend; EvFrame (3, [ex_value 30]); EvDown Everything; EvProduce; EvUp (Bytes 5)].

Lemma ex_events_ok : Forall event_ok ex_events.
Proof.
  repeat constructor; cbn; try lia; try done.
  all: vm_compute; done.
Qed.

Example ex_link_runs :
  let lk := (@link_run ex_stream (ex_socket [5%nat]) ex_events (new_link true 4 2)).2 in
  lk_produced lk ++ cl_frameList (lk_client lk) = [[ex_value 10; ex_value 11]; [ex_value 20]; [ex_value 30]] ∧
  sc_frameNumbersInFlight (lk_server lk) = [2; 3].
Proof. vm_compute. split; reflexivity. Qed.

Lemma ex_reliable refused maxq maxf : 0 ≤ maxq → 1 ≤ maxf → @reliable (ex_socket refused) true maxq maxf.
Proof. intros Hq Hf. split; try done; [apply ex_progress|by left]. Qed.


Lemma ex_no_refusal : ¬ @refuses (ex_socket []).
Proof.
  intros (k & n & Hk). cbn in Hk. rewrite bool_decide_false in Hk by (by intros ?%elem_of_nil). lia.
Qed.

Lemma tcp_drains_witness :
  ∃ lk', @link_run ex_stream (ex_socket []) (ex_events ++ drain 3) (new_link true 4 1) = (Ok tt, lk') ∧
    sc_frameQueue (lk_server lk') = [] ∧ lk_produced lk' ++ cl_frameList (lk_client lk') = ex_frames.*2.
Proof.
  set (lk := (@link_run ex_stream (ex_socket []) ex_events (new_link true 4 1)).2).
  assert (Hrun : @link_run ex_stream (ex_socket []) ex_events (new_link true 4 1) = (Ok tt, lk)) by (vm_compute; reflexivity).
  assert (Hlen : (length (sc_frameQueue (lk_server lk)) ≤ 3)%nat) by (vm_compute; lia).
  destruct (@tcp_drains ex_stream ex_stream_laws (ex_socket []) true 4 1 ex_events lk 3
    (ex_reliable [] 4 1 ltac:(lia) ltac:(lia)) ex_no_refusal ex_events_ok Hrun Hlen)
    as (lk' & Hrun' & Hq & _ & _ & Hall).
  exists lk'. split; [|split; [exact Hq|exact (Hall eq_refl)]].
  rewrite (@link_run_app ex_stream (ex_socket []) _ _ _ _ Hrun). exact Hrun'.
Defined.

(** A server that has just accepted a client. *)
Definition ex_connection (lossless : bool) : ServerConnection := (conn_start true (new_ServerConnection lossless 4 2)).2.

Lemma readers_return_witness :
  ∃ c', @readyRead ex_stream (rx_append [Byte.x01; Byte.xff; Byte.x00; Byte.x00; Byte.x07] (ex_connection true)) = (Ok tt, c').
Proof.
  destruct (@readers_return ex_stream ex_stream_laws (ex_socket [])
    (rx_append [Byte.x01; Byte.xff; Byte.x00; Byte.x00; Byte.x07] (ex_connection true)) new_TCPClient (ltac:(by eexists)))
    as [(c' & Hrun & _) _].
  exists c'. exact Hrun.
Defined.

Lemma refusal_is_final_witness :
  ∃ c', @conn_run ex_stream (ex_socket [0%nat])
      [CFrame 1 (make_block 1 [ex_value 10]); CSend; CBytes (ack_message 1); CFrame 2 (make_block 2 [ex_value 20])]
      (ex_connection false) = (Ok tt, c') ∧ sc_waiting c' = true ∧ out_of c' = [].
Proof.
  destruct (@refusal_is_final ex_stream ex_stream_laws (ex_socket [0%nat]) (ex_connection false) (mkSocket true [] [] 0) 1
    (make_block 1 [ex_value 10]) [CSend; CBytes (ack_message 1); CFrame 2 (make_block 2 [ex_value 20])])
    as (c' & Hrun & Hw & Hout); [done|done|done|by left|done|done|by vm_compute|by vm_compute|].
  exists c'. split; [exact Hrun|]. split; [exact Hw|exact Hout].
Defined.

Lemma empty_frame_witness :
  @read_message TCPClient _ ex_stream (@client_handle ex_stream (ex_socket []))
    (rx_set (frame_payload 1 [] ++ message (frame_payload 2 [ex_value 20])) 12 new_TCPClient) =
  (Ok true, rx_set (ex_write32 2 ++ ex_write32 1 ++ ex_write32 3 ++ ex_write32 20) 0 new_TCPClient).
Proof.
  destruct (@empty_frame_desynchronises ex_stream ex_stream_laws (ex_socket []) 1 (frame_payload 2 [ex_value 20]) new_TCPClient
    ltac:(lia) eq_refl) as (_ & Hrun & _).
  etransitivity; [exact Hrun|]. vm_compute. reflexivity.
Defined.

#[local] Existing Instance ex_stream.
#[local] Existing Instance ex_stream_laws.

(** One byte per element; a region is checked as OpenCV does. *)
Definition ex_readBytes (l : bytes) : bytes * bytes :=
  let '(n, l') := read32 l in (take (Z.to_nat n) l', drop (Z.to_nat n) l').
Definition ex_within (m : Mat) (r : Rect) : bool :=
  bool_decide (0 ≤ r_x r) && bool_decide (0 ≤ r_y r) && bool_decide (0 < r_width r) && bool_decide (0 < r_height r) &&
  bool_decide (r_x r + r_width r ≤ mt_cols m) && bool_decide (r_y r + r_height r ≤ mt_rows m).
#[local] Instance ex_matlib : CvMatLib := {|
  elemSize _ := 1;
  mat_create rows cols t :=
    if bool_decide (0 < rows) && bool_decide (0 < cols) then Ok (mkMat t rows cols (repeat Byte.x00 (Z.to_nat (rows * cols))) 0)
    else Throw (CvException "size");
  mat_roi m r :=
    if ex_within m r then Ok (mkMat (mt_type m) (r_height r) (r_width r) (mt_buffer m) ((r_y r * mt_cols m + r_x r) * 1))
    else Throw (CvException "roi");
  writeBytes b := write32 (size_of b) ++ b;
  readBytes := ex_readBytes
|}.
#[local] Instance ex_matlib_laws : CvMatLibLaws.
Proof.
  split; cbn [elemSize mat_create mat_roi writeBytes readBytes ex_matlib].
  - done.
  - intros rows cols t Hr Hc. rewrite !bool_decide_true by done. eexists. split; [done|]. unfold size_of. rewrite repeat_length. lia.
  - intros m r (H1 & H2 & H3 & H4 & H5 & H6) _ _. unfold ex_within. by rewrite !bool_decide_true by done.
  - intros b rest Hb. unfold ex_readBytes. rewrite <-app_assoc, read32_write32. rewrite u32_id by lia.
    unfold size_of. by rewrite Nat2Z.id, take_app_length, drop_app_length.
Defined.

Definition ex_image : Mat := mkMat 0 2 3 [Byte.x01; Byte.x02; Byte.x03; Byte.x04; Byte.x05; Byte.x06] 0.
Lemma mat_stream_roundtrip_witness : ∃ b, write_mat ex_image = Ok b ∧ ∀ rest, read_mat (b ++ rest) = Ok (ex_image, rest).
Proof. apply (mat_stream_roundtrip ex_image). split; vm_compute; repeat split; discriminate. Defined.

Lemma cropped_image_not_sent_witness :
  ∃ m', crop_process (setX1 1 new_CropImage) ex_image = Ok (Some m') ∧ write_mat m' = Abort UndefinedBehaviour.
Proof.
  destruct (cropped_image_not_sent (setX1 1 new_CropImage) ex_image) as (m' & Hcrop & Hub & _);
    [split; vm_compute; repeat split; discriminate|by vm_compute..|].
  exists m'. split; [exact Hcrop|]. apply Hub. by vm_compute.
Defined.
