(* ===== verification/Matrix.v ===== *)
(** Matrices (plvblobtracker/matrix.h, matrix.cpp): the cells of a matrix as a
    list of rows, and the operations of the class [Matrix]. *)
From S2P Require Export Model.

(** ** Cells

    [mget] and [mset] are [m_matrix[r][c]] read and written. *)
Abbreviation grid T := (list (list T)).

(** The order of two nested loops over the rows and the columns. *)
Definition indices (R C : nat) : list (nat * nat) := seq 0 R ≫= λ r, pair r <$> seq 0 C.

Lemma elem_of_indices R C r c : (r, c) ∈ indices R C ↔ (r < R)%nat ∧ (c < C)%nat.
Proof.
  unfold indices. rewrite list_elem_of_bind. setoid_rewrite list_elem_of_fmap. split.
  - intros (r' & (c' & Heq & Hc%elem_of_seq) & Hr%elem_of_seq). simplify_eq. lia.
  - intros [Hr Hc]. exists r. split; [|apply elem_of_seq; lia]. exists c. split; [done|]. apply elem_of_seq. lia.
Qed.
Lemma NoDup_indices R C : NoDup (indices R C).
Proof.
  unfold indices. apply NoDup_bind; [| |apply NoDup_seq].
  - intros r1 r2 y _ _ (c1 & -> & _)%list_elem_of_fmap (c2 & Heq & _)%list_elem_of_fmap. by simplify_eq.
  - intros r _. apply NoDup_fmap_2; [by intros ? ? [= ->]|apply NoDup_seq].
Qed.

Lemma lookup_total_seq_fmap {A} `{!Inhabited A} (f : nat → A) n i : (i < n)%nat → (f <$> seq 0 n) !!! i = f i.
Proof. intros Hi. by rewrite list_lookup_total_alt, list_lookup_fmap, lookup_seq_lt. Qed.

Section grid.
Context {T : Type} `{!Inhabited T}.
Implicit Types (g : grid T) (f : nat → nat → T).

Definition mget g (r c : nat) : T := (g !!! r) !!! c.
Definition mset g (r c : nat) (v : T) : grid T := <[r := <[c := v]> (g !!! r)]> g.
Definition tabulate (R C : nat) f : grid T := (λ r, f r <$> seq 0 C) <$> seq 0 R.

(** [for each of these cells: if( p ) cell = f]. *)
Definition update_cells (p : nat → nat → bool) (f : nat → nat → T → T) (l : list (nat * nat)) g : grid T :=
  foldl (λ g x, if p x.1 x.2 then mset g x.1 x.2 (f x.1 x.2 (mget g x.1 x.2)) else g) g l.

Definition shape g (R C : nat) : Prop := length g = R ∧ ∀ r, (r < R)%nat → length (g !!! r) = C.

Lemma shape_mset g R C r c v : shape g R C → shape (mset g r c v) R C.
Proof.
  intros [HR HC]. unfold mset. split; [by rewrite length_insert|]. intros r' Hr'. rewrite list_lookup_total_alt.
  destruct (decide (r = r')) as [->|Hne].
  - rewrite list_lookup_insert_eq by lia. cbn. rewrite length_insert. by apply HC.
  - rewrite list_lookup_insert_ne by done. rewrite <-list_lookup_total_alt. by apply HC.
Qed.
Lemma mget_mset g R C r c r' c' v : shape g R C → (r < R)%nat → (c < C)%nat →
  mget (mset g r c v) r' c' = if decide (r' = r ∧ c' = c) then v else mget g r' c'.
Proof.
  intros [HR HC] Hr Hc. unfold mget, mset. destruct (decide (r' = r)) as [->|Hne].
  - rewrite list_lookup_total_insert_eq by lia. destruct (decide (c' = c)) as [->|Hnc].
    + rewrite decide_True by done. apply list_lookup_total_insert_eq. by rewrite HC.
    + rewrite decide_False by tauto. by rewrite list_lookup_total_insert_ne.
  - rewrite decide_False by tauto. by rewrite list_lookup_total_insert_ne.
Qed.

Lemma shape_tabulate R C f : shape (tabulate R C f) R C.
Proof.
  unfold tabulate. split; [by rewrite length_fmap, length_seq|]. intros r Hr.
  by rewrite lookup_total_seq_fmap, length_fmap, length_seq.
Qed.
Lemma mget_tabulate R C f r c : (r < R)%nat → (c < C)%nat → mget (tabulate R C f) r c = f r c.
Proof.
  intros Hr Hc. unfold mget, tabulate. by rewrite !lookup_total_seq_fmap.
Qed.

Lemma shape_update p (f : nat → nat → T → T) l g R C : shape g R C → shape (update_cells p f l g) R C.
Proof.
  revert g. induction l as [|[r c] l IH]; intros g Hg; [done|]. cbn. apply IH. case_match; [by apply shape_mset|done].
Qed.
Lemma mget_update p (f : nat → nat → T → T) l g R C r c : shape g R C → NoDup l → (∀ x, x ∈ l → (x.1 < R)%nat ∧ (x.2 < C)%nat) →
  mget (update_cells p f l g) r c =
    if decide ((r, c) ∈ l) then if p r c then f r c (mget g r c) else mget g r c else mget g r c.
Proof.
  intros Hg Hnd Hl. revert g Hg. induction Hnd as [|[r1 c1] l Hx Hnd IH]; intros g Hg; [done|].
  destruct (Hl (r1, c1) ltac:(by left)) as [Hr1 Hc1]. cbn in Hr1, Hc1.
  change (update_cells p f ((r1, c1) :: l) g) with
    (update_cells p f l (if p r1 c1 then mset g r1 c1 (f r1 c1 (mget g r1 c1)) else g)).
  rewrite IH; [|by intros; apply Hl; right|destruct (p r1 c1); [by apply shape_mset|done]].
  destruct (decide ((r, c) = (r1, c1))) as [Heq|Hne].
  - injection Heq as -> ->. rewrite decide_False by done. rewrite decide_True by (by left).
    destruct (p r1 c1); [|done]. rewrite (mget_mset _ _ _ _ _ _ _ _ Hg) by done. by rewrite decide_True.
  - assert (Hget : mget (if p r1 c1 then mset g r1 c1 (f r1 c1 (mget g r1 c1)) else g) r c = mget g r c).
    { destruct (p r1 c1); [|done]. rewrite (mget_mset _ _ _ _ _ _ _ _ Hg) by done. rewrite decide_False; [done|].
      intros [-> ->]. done. }
    rewrite Hget. destruct (decide ((r, c) ∈ l)) as [Hin|Hnin].
    + rewrite decide_True by (by right). done.
    + rewrite decide_False; [done|]. by intros [?|?]%elem_of_cons.
Qed.

(** All cells. *)
Lemma mget_update_all p (f : nat → nat → T → T) g R C r c : shape g R C → (r < R)%nat → (c < C)%nat →
  mget (update_cells p f (indices R C) g) r c = if p r c then f r c (mget g r c) else mget g r c.
Proof.
  intros Hg Hr Hc. rewrite (mget_update _ _ _ _ R C); [|done|apply NoDup_indices|by intros [? ?] ?%elem_of_indices].
  rewrite decide_True; [done|]. by apply elem_of_indices.
Qed.
End grid.

(** ** The class

    [m_matrix] is None when it is NULL.  Sizes are [int]s that are never
    negative. *)
Record Matrix T := mkMatrix { m_rows : nat; m_columns : nat; m_matrix : option (grid T) }.
Arguments mkMatrix {T} m_rows m_columns m_matrix.
Arguments m_rows {T} m.
Arguments m_columns {T} m.
Arguments m_matrix {T} m.

Section class.
Context {T : Type} `{!Inhabited T} (zero one : T) (add mul : T → T → T).
Abbreviation X := (M (Matrix T)).

Definition new_Matrix : Matrix T := mkMatrix 0 0 None.

(** Both branches of resize. *)
Definition resize (rows columns : nat) (m : Matrix T) : Matrix T :=
  match m_matrix m with
  | None => mkMatrix rows columns (Some (tabulate rows columns (λ _ _, zero)))
  | Some g =>
      mkMatrix rows columns (Some (tabulate rows columns (λ x y,
        if bool_decide (x < Nat.min rows (m_rows m))%nat && bool_decide (y < Nat.min columns (m_columns m))%nat
        then mget g x y else zero)))
  end.

Definition new_Matrix_size (rows columns : nat) : Matrix T := resize rows columns new_Matrix.

(** The assignments of the cells of another matrix, one by one. *)
Definition copy_cells (g : grid T) (m : Matrix T) : Matrix T :=
  mkMatrix (m_rows m) (m_columns m)
    (update_cells (λ _ _, true) (λ i j _, mget g i j) (indices (m_rows m) (m_columns m)) <$> m_matrix m).

Definition copy_Matrix (other : Matrix T) : Matrix T :=
  match m_matrix other with
  | Some g => copy_cells g (resize (m_rows other) (m_columns other) new_Matrix)
  | None => new_Matrix
  end.

(** operator=: the rows of the matrix that is overwritten by an empty one are
    freed with its number of columns as the bound. *)
Definition assign_Matrix (other : Matrix T) : X unit :=
  match m_matrix other with
  | Some g => modify (λ m, copy_cells g (resize (m_rows other) (m_columns other) m))
  | None =>
      m ← gets id ;
      if bool_decide (m_rows m < m_columns m)%nat then abort UndefinedBehaviour
      else modify (λ _, new_Matrix)
  end.

Definition the_grid : X (grid T) :=
  m ← gets id ; match m_matrix m with Some g => mret g | None => abort AssertFailed end.
Definition put_grid (g : grid T) : X unit := modify (λ m, mkMatrix (m_rows m) (m_columns m) (Some g)).

Definition mat_clear : X unit :=
  g ← the_grid ; m ← gets id ;
  put_grid (update_cells (λ _ _, true) (λ _ _ _, zero) (indices (m_rows m) (m_columns m)) g).

Definition mat_identity : X unit :=
  the_grid ;; mat_clear ;;
  g ← the_grid ; m ← gets id ;
  put_grid (foldl (λ g i, mset g i i one) g (seq 0 (Nat.min (m_rows m) (m_columns m)))).

Definition mat_trace : X T :=
  g ← the_grid ; m ← gets id ;
  mret (foldl (λ value i, add value (mget g i i)) zero (seq 0 (Nat.min (m_rows m) (m_columns m)))).

Definition swap (g : grid T) (i j : nat) : grid T :=
  let tmp := mget g i j in mset (mset g i j (mget g j i)) j i tmp.

Definition mat_transpose : X unit :=
  m ← gets id ;
  assert (bool_decide (0 < m_rows m)%nat) ;;
  assert (bool_decide (0 < m_columns m)%nat) ;;
  let new_rows := m_columns m in
  let new_columns := m_rows m in
  when (bool_decide (m_rows m ≠ m_columns m))
    (modify (resize (Nat.max (m_rows m) (m_columns m)) (Nat.max (m_rows m) (m_columns m)))) ;;
  g ← the_grid ; m' ← gets id ;
  put_grid (foldl (λ g x, swap g x.1 x.2) g
    (filter (λ x, x.1 < x.2)%nat (indices (m_rows m') (m_columns m')))) ;;
  when (bool_decide (new_columns ≠ new_rows)) (modify (resize new_rows new_columns)).

Definition mat_product (other m : Matrix T) : outcome (Matrix T) :=
  match m_matrix m, m_matrix other with
  | Some g, Some h =>
      if bool_decide (m_columns m = m_rows other) then
        let out := new_Matrix_size (m_rows m) (m_columns other) in
        Ok (mkMatrix (m_rows out) (m_columns out)
          (update_cells (λ _ _, true)
             (λ i j v, foldl (λ v x, add v (mul (mget g i x) (mget h x j))) v (seq 0 (m_columns m)))
             (indices (m_rows out) (m_columns out)) <$> m_matrix out))
      else Abort AssertFailed
  | _, _ => Abort AssertFailed
  end.

(** operator(): a reference to a cell. *)
Definition mat_at (x y : nat) (m : Matrix T) : outcome T :=
  if bool_decide (x < m_rows m)%nat && bool_decide (y < m_columns m)%nat then
    match m_matrix m with Some g => Ok (mget g x y) | None => Abort AssertFailed end
  else Abort AssertFailed.

Definition minsize (m : Matrix T) : nat := if bool_decide (m_rows m < m_columns m)%nat then m_rows m else m_columns m.
End class.
