(* ===== verification/Munkres.v ===== *)
(** The assignment solver of the blob tracker (plvblobtracker/munkres.h,
    munkres.cpp), step by step.

    The matrices are modelled by their cells, over the integers: the solver only
    adds, subtracts and compares entries, and a [double] does so exactly on
    integers below 2^53. *)
From S2P Require Export Matrix.

(** An entry of the matrix to solve. *)
Inductive Double := Fin (z : Z) | INFINITY.
#[export] Instance Double_inhabited : Inhabited Double := populate (Fin 0).

Definition NORMAL : Z := 0.
Definition STAR : Z := 1.
Definition PRIME : Z := 2.

Record Munkres := mkMunkres {
  mask_matrix : grid Z;
  matrix : grid Z;
  mk_rows : nat;
  mk_columns : nat;
  row_mask : list bool;
  col_mask : list bool;
  saverow : nat;
  savecol : nat
}.

Definition mk_set_mask (g : grid Z) (s : Munkres) : Munkres :=
  mkMunkres g (matrix s) (mk_rows s) (mk_columns s) (row_mask s) (col_mask s) (saverow s) (savecol s).
Definition mk_set_matrix (g : grid Z) (s : Munkres) : Munkres :=
  mkMunkres (mask_matrix s) g (mk_rows s) (mk_columns s) (row_mask s) (col_mask s) (saverow s) (savecol s).
Definition mk_set_covers (rm cm : list bool) (s : Munkres) : Munkres :=
  mkMunkres (mask_matrix s) (matrix s) (mk_rows s) (mk_columns s) rm cm (saverow s) (savecol s).
Definition mk_set_save (r c : nat) (s : Munkres) : Munkres :=
  mkMunkres (mask_matrix s) (matrix s) (mk_rows s) (mk_columns s) (row_mask s) (col_mask s) r c.

Definition mask_is (v : Z) (s : Munkres) (r c : nat) : bool := bool_decide (mget (mask_matrix s) r c = v).
Definition set_mask_cell (r c : nat) (v : Z) (s : Munkres) : Munkres := mk_set_mask (mset (mask_matrix s) r c v) s.

(** [for( i = 0; i < n; i++ ) if( p(i) ) break], and over both indices. *)
Definition first_index (p : nat → bool) (n : nat) : option nat := List.find p (seq 0 n).
Definition first_cell (p : nat → nat → bool) (R C : nat) : option (nat * nat) :=
  List.find (λ x, p x.1 x.2) (indices R C).

Definition find_uncovered_in_matrix (item : Z) (s : Munkres) : option (nat * nat) :=
  first_cell (λ row col, negb (row_mask s !!! row) && negb (col_mask s !!! col) &&
    bool_decide (mget (matrix s) row col = item)) (mk_rows s) (mk_columns s).

Definition pair_in_list (needle : nat * nat) (haystack : list (nat * nat)) : bool := bool_decide (needle ∈ haystack).

(** Each step returns the number of the next one. *)
Definition step1_cell (s : Munkres) (x : nat * nat) : Munkres :=
  let '(row, col) := x in
  if bool_decide (mget (matrix s) row col = 0) then
    let isstarred :=
      match first_index (λ nrow, mask_is STAR s nrow col) (mk_rows s) with
      | Some _ => true
      | None => match first_index (λ ncol, mask_is STAR s row ncol) (mk_columns s) with Some _ => true | None => false end
      end in
    if isstarred then s else set_mask_cell row col STAR s
  else s.
Definition step1 (s : Munkres) : nat * Munkres :=
  (2%nat, foldl step1_cell s (indices (mk_rows s) (mk_columns s))).

Definition step2_cell (acc : Munkres * nat) (x : nat * nat) : Munkres * nat :=
  let '(s, covercount) := acc in
  if mask_is STAR s x.1 x.2 then (mk_set_covers (row_mask s) (<[x.2 := true]> (col_mask s)) s, S covercount)
  else (s, covercount).
Definition step2 (s : Munkres) : nat * Munkres :=
  let '(s', covercount) := foldl step2_cell (s, O) (indices (mk_rows s) (mk_columns s)) in
  let k := if bool_decide (mk_rows s < mk_columns s)%nat then mk_rows s else mk_columns s in
  if bool_decide (k ≤ covercount)%nat then (O, s') else (3%nat, s').

(** Where no zero is found [saverow] and [savecol] are left where the search
    ended; nothing reads them before the next search. *)
Definition step3 (s : Munkres) : nat * Munkres :=
  match find_uncovered_in_matrix 0 s with
  | Some (row, col) =>
      let s1 := set_mask_cell row col PRIME (mk_set_save row col s) in
      match first_index (λ ncol, mask_is STAR s1 row ncol) (mk_columns s) with
      | Some ncol => (3%nat, mk_set_covers (<[row := true]> (row_mask s1)) (<[ncol := false]> (col_mask s1)) s1)
      | None => (4%nat, s1)
      end
  | None => (5%nat, s)
  end.

(** The alternating sequence. *)
Fixpoint build_seq (fuel : nat) (s : Munkres) (col : nat) (sq : list (nat * nat)) : option (list (nat * nat)) :=
  match fuel with
  | O => None
  | S fuel' =>
      match first_index (λ row, mask_is STAR s row col && negb (pair_in_list (row, col) sq)) (mk_rows s) with
      | None => Some sq
      | Some row =>
          let sq1 := sq ++ [(row, col)] in
          match first_index (λ col', mask_is PRIME s row col' && negb (pair_in_list (row, col') sq1)) (mk_columns s) with
          | None => Some sq1
          | Some col' => build_seq fuel' s col' (sq1 ++ [(row, col')])
          end
      end
  end.

Definition flip_cell (s : Munkres) (x : nat * nat) : Munkres :=
  let s1 := if mask_is STAR s x.1 x.2 then set_mask_cell x.1 x.2 NORMAL s else s in
  if mask_is PRIME s1 x.1 x.2 then set_mask_cell x.1 x.2 STAR s1 else s1.

(** Every round of the loop adds a cell that is not in the sequence. *)
Definition step4 (s : Munkres) : option (nat * Munkres) :=
  let R := mk_rows s in
  let C := mk_columns s in
  sq ← build_seq (S (R * C)) s (savecol s) [(saverow s, savecol s)] ;
  let s1 := foldl flip_cell s sq in
  let s2 := mk_set_mask (update_cells (λ r c, mask_is PRIME s1 r c) (λ _ _ _, NORMAL) (indices R C) (mask_matrix s1)) s1 in
  mret (2%nat, mk_set_covers (replicate R false) (replicate C false) s2).

Definition smallest_uncovered (s : Munkres) : Z :=
  foldl (λ h x,
    if negb (row_mask s !!! x.1) && negb (col_mask s !!! x.2) then
      let v := mget (matrix s) x.1 x.2 in
      if (bool_decide (v < h) && bool_decide (v ≠ 0)) || bool_decide (h = 0) then v else h
    else h) 0 (indices (mk_rows s) (mk_columns s)).
Definition step5 (s : Munkres) : nat * Munkres :=
  let h := smallest_uncovered s in
  let R := mk_rows s in
  let C := mk_columns s in
  let g1 := update_cells (λ r _, row_mask s !!! r) (λ _ _ v, v + h) (indices R C) (matrix s) in
  let g2 := update_cells (λ _ c, negb (col_mask s !!! c)) (λ _ _ v, v - h) (indices R C) g1 in
  (3%nat, mk_set_matrix g2 s).

Definition do_step (step : nat) (s : Munkres) : option (nat * Munkres) :=
  match step with
  | 1 => Some (step1 s)
  | 2 => Some (step2 s)
  | 3 => Some (step3 s)
  | 4 => step4 s
  | 5 => Some (step5 s)
  | _ => None
  end%nat.

Fixpoint solve_loop (fuel : nat) (step : nat) (s : Munkres) : option Munkres :=
  match fuel with
  | O => None
  | S fuel' =>
      match step with
      | O => Some s
      | _ => x ← do_step step s ; solve_loop fuel' x.1 x.2
      end
  end.

(** The largest finite entry, and the matrix with it plus one for infinity. *)
Definition highValue (m : grid Double) (R C : nat) : Z :=
  foldl (λ hv x, match mget m x.1 x.2 with Fin v => if bool_decide (hv < v) then v else hv | INFINITY => hv end)
    0 (indices R C) + 1.
Definition finite_matrix (m : grid Double) (R C : nat) : grid Z :=
  tabulate R C (λ r c, match mget m r c with Fin v => v | INFINITY => highValue m R C end).

Definition solve_start (m : grid Double) (R C : nat) : Munkres :=
  mkMunkres (tabulate R C (λ _ _, NORMAL)) (finite_matrix m R C) R C (replicate R false) (replicate C false) 0 0.

(** There are never more than [R] stars; before the next one at most [R] zeros
    are primed, each after one search in vain and one adjustment. *)
Definition solve_fuel (R : nat) : nat := S R * (3 * R + 3) + 4.

(** solve: 0 where a pair is assigned, -1 elsewhere. *)
Definition solve (m : grid Double) (R C : nat) : option (grid Z) :=
  s ← solve_loop (solve_fuel R) 1 (solve_start m R C) ;
  Some (tabulate R C (λ r c, if mask_is STAR s r c then 0 else -1)).
