(* ===== verification/MunkresProof.v ===== *)
(** The invariants of the assignment solver, and that each step keeps them. *)
From S2P Require Export Munkres.

(** ** Loops *)
Lemma first_index_Some p n i : first_index p n = Some i → (i < n)%nat ∧ p i = true.
Proof. intros [Hi Hp]%find_some. split; [|done]. apply in_seq in Hi. lia. Qed.
Lemma first_index_None p n : first_index p n = None → ∀ i, (i < n)%nat → p i = false.
Proof. intros Hn i Hi. apply (find_none _ _ Hn). apply in_seq. lia. Qed.
Lemma first_index_unique p n i : (i < n)%nat → p i = true → (∀ j, (j < n)%nat → p j = true → j = i) → first_index p n = Some i.
Proof.
  intros Hi Hp Hu. destruct (first_index p n) as [j|] eqn:Hf.
  - apply first_index_Some in Hf as [Hj Hpj]. f_equal. by apply Hu.
  - by rewrite (first_index_None _ _ Hf i Hi) in Hp.
Qed.
Lemma first_cell_Some p R C r c : first_cell p R C = Some (r, c) → (r < R)%nat ∧ (c < C)%nat ∧ p r c = true.
Proof. intros [Hi Hp]%find_some. apply list_elem_of_In, elem_of_indices in Hi as [? ?]. done. Qed.
Lemma first_cell_None p R C : first_cell p R C = None → ∀ r c, (r < R)%nat → (c < C)%nat → p r c = false.
Proof. intros Hn r c Hr Hc. apply (find_none _ _ Hn (r, c)). apply list_elem_of_In. by apply elem_of_indices. Qed.

(** ** The state *)
Section state.
Implicit Types (s : Munkres) (r c : nat).

Definition cell s r c : Prop := (r < mk_rows s)%nat ∧ (c < mk_columns s)%nat.
Definition star s r c : Prop := cell s r c ∧ mget (mask_matrix s) r c = STAR.
Definition prime s r c : Prop := cell s r c ∧ mget (mask_matrix s) r c = PRIME.
Definition starred_row s r : Prop := ∃ c, star s r c.
Definition starred_col s c : Prop := ∃ r, star s r c.

Record well_shaped s : Prop := {
  ws_mask : shape (mask_matrix s) (mk_rows s) (mk_columns s);
  ws_matrix : shape (matrix s) (mk_rows s) (mk_columns s);
  ws_rows : length (row_mask s) = mk_rows s;
  ws_cols : length (col_mask s) = mk_columns s
}.

(** No two stars share a row or a column. *)
Record independent s : Prop := {
  in_row r c c' : star s r c → star s r c' → c = c';
  in_col r r' c : star s r c → star s r' c → r = r'
}.

(** [u] is what was added to the rows of the matrix [m0], [v] what was taken
    from its columns, at most [h] from each.  Stars are on zeros.  [pos]: the
    matrix has no negative entries. *)
Record reduced (pos : Prop) (m0 : nat → nat → Z) (u v : nat → Z) (h : Z) s : Prop := {
  rd_wf : well_shaped s;
  rd_independent : independent s;
  rd_zero r c : star s r c ∨ prime s r c → mget (matrix s) r c = 0;
  rd_nonneg r c : pos → cell s r c → 0 ≤ mget (matrix s) r c;
  rd_matrix r c : cell s r c → mget (matrix s) r c = m0 r c + u r - v c;
  rd_u r : pos → 0 ≤ u r;
  rd_u0 r : (r < mk_rows s)%nat → ¬ starred_row s r → u r = 0;
  rd_v c : pos → v c ≤ h;
  rd_vh c : (c < mk_columns s)%nat → ¬ starred_col s c → v c = h
}.

Lemma mask_is_true v s r c : mask_is v s r c = true ↔ mget (mask_matrix s) r c = v.
Proof. apply bool_decide_eq_true. Qed.
Lemma mask_is_false v s r c : mask_is v s r c = false ↔ mget (mask_matrix s) r c ≠ v.
Proof. apply bool_decide_eq_false. Qed.

#[export] Instance star_dec s r c : Decision (star s r c).
Proof. unfold star, cell. apply _. Defined.
Lemma bounded_dec (n : nat) (P : nat → Prop) `{!∀ i, Decision (P i)} : (∃ i, (i < n)%nat ∧ P i) ∨ (∀ i, (i < n)%nat → ¬ P i).
Proof.
  destruct (decide (Exists P (seq 0 n))) as [He|Hn].
  - left. apply Exists_exists in He as (i & Hi%elem_of_seq & HP). exists i. split; [lia|done].
  - right. intros i Hi HP. apply Hn, Exists_exists. exists i. split; [apply elem_of_seq; lia|done].
Qed.
Lemma starred_row_dec s r : starred_row s r ∨ ¬ starred_row s r.
Proof.
  destruct (bounded_dec (mk_columns s) (star s r)) as [(c & _ & Hc)|Hn]; [left; by exists c|].
  right. intros [c Hc]. apply (Hn c); [apply Hc|done].
Qed.

(** Writing a cell of the mask. *)
Lemma star_set s r c v r' c' : well_shaped s → cell s r c →
  star (set_mask_cell r c v s) r' c' ↔ if decide (r' = r ∧ c' = c) then v = STAR else star s r' c'.
Proof.
  intros Hw [Hr Hc]. unfold star, cell. cbn. rewrite (mget_mset _ _ _ _ _ _ _ _ (ws_mask _ Hw)) by done.
  case_decide as Hd; [|done]. destruct Hd as [-> ->]. tauto.
Qed.
Lemma prime_set s r c v r' c' : well_shaped s → cell s r c →
  prime (set_mask_cell r c v s) r' c' ↔ if decide (r' = r ∧ c' = c) then v = PRIME else prime s r' c'.
Proof.
  intros Hw [Hr Hc]. unfold prime, cell. cbn. rewrite (mget_mset _ _ _ _ _ _ _ _ (ws_mask _ Hw)) by done.
  case_decide as Hd; [|done]. destruct Hd as [-> ->]. tauto.
Qed.
Lemma wf_set s r c v : well_shaped s → well_shaped (set_mask_cell r c v s).
Proof. intros []. split; try done. cbn. by apply shape_mset. Qed.
Lemma star_prime s r c : star s r c → prime s r c → False.
Proof. intros [_ Hs] [_ Hp]. rewrite Hs in Hp. done. Qed.
End state.

(** ** The alternating sequence *)
Section path.
Implicit Types (s : Munkres) (r c : nat) (p : list (nat * nat)).

(** From a primed zero in column [c] on: the star of the column, the prime of
    its row, and so on up to a column without a star. *)
Inductive altpath s : nat → list (nat * nat) → Prop :=
  | ap_end c : (c < mk_columns s)%nat → ¬ starred_col s c → altpath s c []
  | ap_step c r1 c1 p : star s r1 c → prime s r1 c1 → altpath s c1 p → r1 ∉ p.*1 →
      altpath s c ((r1, c) :: (r1, c1) :: p).

(** Primes are alone in their row. *)
Definition single_primes s : Prop := ∀ r c c', prime s r c → prime s r c' → c = c'.

Lemma run_build_seq s c p : independent s → single_primes s → altpath s c p → ∀ fuel sq, (length p < 2 * fuel)%nat →
  (∀ r, r ∈ p.*1 → r ∉ sq.*1) → build_seq fuel s c sq = Some (sq ++ p).
Proof.
  intros Hi Hp Hpath. induction Hpath as [c Hc Hn|c r1 c1 p Hs Hpr Hpath IH Hr1]; intros fuel sq Hfuel Hsq;
    (destruct fuel as [|fuel]; [cbn in Hfuel; lia|]); cbn [build_seq].
  - destruct (first_index _ _) as [row|] eqn:Hf; [exfalso|by rewrite app_nil_r].
    apply first_index_Some in Hf as [Hrow [Hm _]%andb_true_iff]. apply mask_is_true in Hm. apply Hn. by exists row.
  - assert (Hnotin : ∀ c', (r1, c') ∉ sq).
    { intros c' Hin. apply (Hsq r1); [by left|]. apply list_elem_of_fmap. by exists (r1, c'). }
    rewrite (first_index_unique _ _ r1); cycle 1.
    + apply Hs.
    + apply andb_true_iff. split; [apply mask_is_true, Hs|]. unfold pair_in_list. by rewrite bool_decide_false.
    + intros j Hj [Hm _]%andb_true_iff. apply mask_is_true in Hm. eapply (in_col _ Hi); [|exact Hs].
      split; [|done]. split; [done|apply Hs].
    + assert (Hne : c1 ≠ c) by (intros ->; by eapply star_prime).
      rewrite (first_index_unique _ _ c1); cycle 1.
      * apply Hpr.
      * apply andb_true_iff. split; [apply mask_is_true, Hpr|]. unfold pair_in_list. rewrite bool_decide_false; [done|].
        intros [?|Hin%list_elem_of_singleton]%elem_of_app; [by eapply Hnotin|congruence].
      * intros j Hj [Hm _]%andb_true_iff. apply mask_is_true in Hm. eapply Hp; [|exact Hpr]. split; [|done].
        split; [apply Hs|done].
      * rewrite IH; [by rewrite <-!app_assoc|cbn in Hfuel; lia|]. intros r Hr Hin.
        rewrite !fmap_app, !elem_of_app in Hin. destruct Hin as [[Hin|Hin]|Hin].
        -- eapply (Hsq r); [|done]. by do 2 right.
        -- apply list_elem_of_singleton in Hin. cbn in Hin. by subst.
        -- apply list_elem_of_singleton in Hin. cbn in Hin. by subst.
Qed.

(** A column whose star is in a row that the path does not visit. *)
Lemma altpath_other s c p c0 r0 : independent s → altpath s c p → star s r0 c0 → r0 ∉ p.*1 → c0 ∉ (p.*2) ∧ c0 ≠ c.
Proof.
  intros Hi Hpath Hs. induction Hpath as [c Hc Hn|c r1 c1 p Hs1 Hpr Hpath IH Hr1]; intros Hr0.
  - split; [by intros ?%elem_of_nil|]. intros ->. apply Hn. by exists r0.
  - cbn in Hr0. rewrite !not_elem_of_cons in Hr0. destruct Hr0 as (Hne & _ & Hr0). destruct (IH Hr0) as [Hnin Hc1].
    assert (Hc : c0 ≠ c) by (intros ->; apply Hne; by eapply (in_col _ Hi)).
    split; [|done]. cbn. rewrite !not_elem_of_cons. done.
Qed.

(** A path only looks at its own columns and rows. *)
Lemma altpath_stable s s' c p : mk_columns s' = mk_columns s → (∀ c', c' = c ∨ c' ∈ p.*2 → ∀ r, star s' r c' ↔ star s r c') →
  (∀ r c', r ∈ p.*1 → prime s r c' → prime s' r c') → altpath s c p → altpath s' c p.
Proof.
  intros Hcols Hst Hpr Hpath. revert Hst Hpr. induction Hpath as [c Hc Hn|c r1 c1 p Hs1 Hp1 Hpath IH Hr1]; intros Hst Hpr.
  - apply ap_end; [by rewrite Hcols|]. intros [r Hr]. apply Hn. exists r. apply Hst; [by left|done].
  - apply ap_step; [apply Hst; [by left|done]|apply Hpr; [by left|done]| |done]. apply IH.
    + intros c' Hc' r. apply Hst. right. cbn. rewrite !elem_of_cons. tauto.
    + intros r c' Hr Hp. apply Hpr; [|done]. by do 2 right.
Qed.

(** ** Flipping the sequence *)
Lemma flip_prime s r c : prime s r c → flip_cell s (r, c) = set_mask_cell r c STAR s.
Proof.
  intros [_ Hp]. unfold flip_cell. cbn [fst snd].
  assert (Hns : mask_is STAR s r c = false) by (apply mask_is_false; rewrite Hp; done).
  assert (Hpr : mask_is PRIME s r c = true) by (by apply mask_is_true). by rewrite Hns, Hpr.
Qed.
Lemma flip_star s r c : well_shaped s → star s r c → flip_cell s (r, c) = set_mask_cell r c NORMAL s.
Proof.
  intros Hw [Hc Hs]. unfold flip_cell. cbn [fst snd].
  assert (Hst : mask_is STAR s r c = true) by (by apply mask_is_true). rewrite Hst.
  assert (Hnp : mask_is PRIME (set_mask_cell r c NORMAL s) r c = false).
  { apply mask_is_false. cbn. rewrite (mget_mset _ _ _ _ _ _ _ _ (ws_mask _ Hw)) by apply Hc. by rewrite decide_True. }
  by rewrite Hnp.
Qed.

Record flipped s s' r : Prop := {
  fl_matrix : matrix s' = matrix s;
  fl_size : mk_rows s' = mk_rows s ∧ mk_columns s' = mk_columns s;
  fl_wf : well_shaped s';
  fl_independent : independent s';
  fl_star r' c' : star s' r' c' → star s r' c' ∨ prime s r' c';
  fl_rows r' : starred_row s r' ∨ r' = r → starred_row s' r';
  fl_cols c' : starred_col s c' → starred_col s' c'
}.

(** Starring the prime of a row without a star, and taking away the star of its
    column if there is one. *)
Lemma star_prime_free s r c : well_shaped s → independent s → ¬ starred_row s r → prime s r c → ¬ starred_col s c →
  flipped s (set_mask_cell r c STAR s) r.
Proof.
  intros Hw Hi Hr Hp Hc. assert (Hcell : cell s r c) by apply Hp.
  assert (Hst : ∀ r' c', star (set_mask_cell r c STAR s) r' c' ↔ (r' = r ∧ c' = c) ∨ star s r' c').
  { intros r' c'. rewrite (star_set _ _ _ _ _ _ Hw Hcell). case_decide; [tauto|]. naive_solver. }
  split; try done.
  - by apply wf_set.
  - split.
    + intros r' c1 c2 [[-> ->]|H1']%Hst [[E ->]|H2']%Hst; [done|exfalso; apply Hr; by exists c2| |by eapply (in_row _ Hi)].
      exfalso. subst. apply Hr. by exists c1.
    + intros r1 r2 c' [[-> ->]|H1']%Hst [[-> E]|H2']%Hst; [done|exfalso; apply Hc; by exists r2| |by eapply (in_col _ Hi)].
      exfalso. subst. apply Hc. by exists r1.
  - intros r' c' [[-> ->]|?]%Hst; auto.
  - intros r' [[c' Hs']| ->]; [exists c'|exists c]; apply Hst; auto.
  - intros c' [r' Hs']. exists r'. apply Hst. auto.
Qed.

Lemma star_prime_step s r c r1 : well_shaped s → independent s → ¬ starred_row s r → prime s r c → star s r1 c →
  let s2 := set_mask_cell r1 c NORMAL (set_mask_cell r c STAR s) in
  well_shaped s2 ∧ independent s2 ∧ ¬ starred_row s2 r1 ∧
  (∀ r' c', star s2 r' c' ↔ (r' = r ∧ c' = c) ∨ (star s r' c' ∧ r' ≠ r1)) ∧
  (∀ r' c', prime s2 r' c' ↔ prime s r' c' ∧ (r', c') ≠ (r, c)).
Proof.
  intros Hw Hi Hr Hp Hs1 s2. assert (Hcell : cell s r c) by apply Hp. assert (Hcell1 : cell s r1 c) by apply Hs1.
  assert (Hne : r1 ≠ r) by (intros ->; apply Hr; by exists c).
  assert (Hw1 : well_shaped (set_mask_cell r c STAR s)) by (by apply wf_set).
  assert (Hst : ∀ r' c', star s2 r' c' ↔ (r' = r ∧ c' = c) ∨ (star s r' c' ∧ r' ≠ r1)).
  { intros r' c'. unfold s2. rewrite (star_set _ _ _ _ _ _ Hw1 Hcell1). case_decide as H1'.
    - destruct H1' as [-> ->]. split; [done|]. intros [[? _]|[_ ?]]; congruence.
    - rewrite (star_set _ _ _ _ _ _ Hw Hcell). case_decide as H2'; [tauto|]. split; [|naive_solver].
      intros Hs'. right. split; [done|]. intros ->. apply H1'. split; [done|]. by eapply (in_row _ Hi). }
  split_and!; [by apply wf_set| | |done|].
  - split.
    + intros r' c1 c2 [[-> ->]|[H1' _]]%Hst [[E ->]|[H2' _]]%Hst; [done|exfalso; apply Hr; by exists c2| |by eapply (in_row _ Hi)].
      exfalso. subst. apply Hr. by exists c1.
    + intros ra rb c' [[-> ->]|[H1' Hn1]]%Hst [[-> E]|[H2' Hn2]]%Hst; [done| | |by eapply (in_col _ Hi)].
      * exfalso. apply Hn2. by eapply (in_col _ Hi).
      * exfalso. subst. apply Hn1. by eapply (in_col _ Hi).
  - intros [c' [[? _]|[_ ?]]%Hst]; done.
  - intros r' c'. unfold s2. rewrite (prime_set _ _ _ _ _ _ Hw1 Hcell1). case_decide as H1'.
    + destruct H1' as [-> ->]. split; [done|]. intros [Hp' _]. exfalso. by eapply star_prime.
    + rewrite (prime_set _ _ _ _ _ _ Hw Hcell). case_decide as H2'.
      * destruct H2' as [-> ->]. split; [done|]. by intros [_ ?].
      * split; [|tauto]. intros Hp'. split; [done|]. intros [= -> ->]. by apply H2'.
Qed.

Lemma flip_path n : ∀ p s r c, (length p ≤ n)%nat → well_shaped s → independent s → ¬ starred_row s r → prime s r c →
  altpath s c p → r ∉ p.*1 → flipped s (foldl flip_cell s ((r, c) :: p)) r.
Proof.
  induction n as [|n IH]; intros p s r c Hn Hw Hi Hr Hp Hpath Hnin; inversion Hpath as [? Hc Hns|? r1 c1 p' Hs1 Hp1 Hpath' Hr1]; subst.
  - cbn [foldl]. rewrite flip_prime by done. by apply star_prime_free.
  - cbn in Hn. lia.
  - cbn [foldl]. rewrite flip_prime by done. by apply star_prime_free.
  - cbn in Hn, Hnin. rewrite !not_elem_of_cons in Hnin. destruct Hnin as (Hne & _ & Hnin).
    destruct (star_prime_step s r c r1 Hw Hi Hr Hp Hs1) as (Hw2 & Hi2 & Hr2 & Hst2 & Hpr2).
    set (s2 := set_mask_cell r1 c NORMAL (set_mask_cell r c STAR s)) in *.
    assert (Hfold : foldl flip_cell s ((r, c) :: (r1, c) :: (r1, c1) :: p') = foldl flip_cell s2 ((r1, c1) :: p')).
    { cbn [foldl]. rewrite (flip_prime s r c) by done. rewrite (flip_star _ r1 c); [done|by apply wf_set|].
      apply star_set; [done|apply Hp|]. rewrite decide_False; [done|]. by intros [? _]. }
    rewrite Hfold. destruct (altpath_other s c1 p' c r1 Hi Hpath' Hs1 Hr1) as [Hcp Hc1].
    destruct (IH p' s2 r1 c1) as [Fm [Fr Fc] Fw Fi Fs Frows Fcols]; [lia|done|done|done| | |done|].
    { apply Hpr2. split; [done|]. by intros [= ? _]. }
    { apply (altpath_stable s); [done| | |done].
      - intros c' Hc' r'. rewrite Hst2. assert (c' ≠ c) by (intros ->; destruct Hc'; [by apply Hc1|done]).
        split; [naive_solver|]. intros Hs'. right. split; [done|]. intros ->. by apply (in_row _ Hi r1 c c') in Hs1.
      - intros r' c' Hr' Hp'. apply Hpr2. split; [done|]. intros [= -> ->]. done. }
    split; try done; try congruence.
    + intros r' c' [Hs'|Hp']%Fs; [apply Hst2 in Hs' as [[-> ->]|[? _]]; auto|]. apply Hpr2 in Hp' as [? _]. auto.
    + intros r' Hr'. destruct (decide (r' = r1)) as [->|Hn1]; [apply Frows; by right|]. apply Frows. left.
      destruct Hr' as [[c' Hs']| ->]; [exists c'|exists c]; apply Hst2; auto.
    + intros c' [r' Hs']. apply Fcols. destruct (decide (r' = r1)) as [->|Hn1].
      * exists r. apply Hst2. left. split; [done|]. by eapply (in_row _ Hi).
      * exists r'. apply Hst2. auto.
Qed.
End path.

(** ** The steps *)
Section steps.
Implicit Types (s : Munkres) (r c : nat) (L : list nat).

Definition rcov s r : bool := row_mask s !!! r.
Definition ccov s c : bool := col_mask s !!! c.
#[local] Arguments rcov : simpl never.
#[local] Arguments ccov : simpl never.

(** Before step 2: nothing covered or primed. *)
Record clean s : Prop := {
  cl_prime r c : ¬ prime s r c;
  cl_rows r : (r < mk_rows s)%nat → rcov s r = false;
  cl_cols c : (c < mk_columns s)%nat → ccov s c = false
}.

(** Between step 2 and step 4: [L] are the covered rows, the last one first. *)
Record phase L s : Prop := {
  ph_rows r : (r < mk_rows s)%nat → rcov s r = true ↔ r ∈ L;
  ph_NoDup : NoDup L;
  ph_bound r : r ∈ L → (r < mk_rows s)%nat;
  ph_prime r c : prime s r c → r ∈ L ∧ ccov s c = false;
  ph_single : single_primes s;
  ph_has r : r ∈ L → ∃ c, prime s r c;
  ph_star r c : star s r c → (r ∈ L ∧ ccov s c = false) ∨ (r ∉ L ∧ ccov s c = true);
  ph_rowstar r : r ∈ L → starred_row s r;
  ph_colstar c : (c < mk_columns s)%nat → ccov s c = true → starred_col s c;
  ph_rank L1 r L2 c r' : L = L1 ++ r :: L2 → prime s r c → star s r' c → r' ∈ L2
}.

(** The path from a prime in a row that is not covered. *)
Lemma path_exists s n : ∀ L c, (length L ≤ n)%nat → independent s → (∀ r, r ∈ L → ∃ c, prime s r c) → NoDup L →
  (∀ L1 r L2 c r', L = L1 ++ r :: L2 → prime s r c → star s r' c → r' ∈ L2) →
  (c < mk_columns s)%nat → (∀ r, star s r c → r ∈ L) →
  ∃ p, altpath s c p ∧ (∀ r, r ∈ p.*1 → r ∈ L) ∧ (length p ≤ 2 * length L)%nat.
Proof.
  induction n as [|n IH]; intros L c Hn Hi Hhas Hnd Hrank Hc Hst.
  { exists []. split; [|by split; [intros ? ?%elem_of_nil|cbn; lia]]. apply ap_end; [done|]. intros [r Hr].
    specialize (Hst r Hr). destruct L; [by apply elem_of_nil in Hst|cbn in Hn; lia]. }
  destruct (bounded_dec (mk_rows s) (λ r, star s r c)) as [(r1 & _ & Hs1)|Hns].
  2:{ exists []. split; [|by split; [intros ? ?%elem_of_nil|cbn; lia]]. apply ap_end; [done|]. intros [r Hr].
      apply (Hns r); [apply Hr|done]. }
  destruct (Hhas r1 (Hst r1 Hs1)) as [c1 Hp1]. destruct (list_elem_of_split _ _ (Hst r1 Hs1)) as (L1 & L2 & HL).
  assert (Hsub : ∀ r, r ∈ L2 → r ∈ L) by (intros r Hr; rewrite HL, elem_of_app, elem_of_cons; auto).
  rewrite HL in Hnd. apply NoDup_app in Hnd as (_ & _ & Hnd). apply NoDup_cons in Hnd as [Hr1 Hnd2].
  assert (Hlen : (length L = length L1 + S (length L2))%nat) by (rewrite HL, length_app; done).
  destruct (IH L2 c1) as (p & Hpath & Hrows & Hlp); [lia|done|auto|done| |apply Hp1|by intros; eapply Hrank|].
  { intros La r Lb c' r' HLb. apply (Hrank (L1 ++ r1 :: La) r Lb). rewrite HL, HLb, <-app_assoc. done. }
  exists ((r1, c) :: (r1, c1) :: p). split_and!.
  - apply ap_step; [done..|]. intros Hin. apply Hr1. by apply Hrows.
  - cbn. intros r Hr. rewrite !elem_of_cons in Hr. destruct Hr as [->|[->|Hr]]; auto.
  - cbn. lia.
Qed.

(** *** Step 4: one more star *)

(** A prime in a row without a star has been found. *)
Record ready L s : Prop := {
  rs_prime : prime s (saverow s) (savecol s);
  rs_row : saverow s ∉ L;
  rs_free : ¬ starred_row s (saverow s);
  rs_col r : star s r (savecol s) → r ∈ L;
  rs_single : single_primes s;
  rs_has r : r ∈ L → ∃ c, prime s r c;
  rs_NoDup : NoDup L;
  rs_bound r : r ∈ L → (r < mk_rows s)%nat;
  rs_rank L1 r L2 c r' : L = L1 ++ r :: L2 → prime s r c → star s r' c → r' ∈ L2
}.

Lemma NoDup_bound (L : list nat) n : NoDup L → (∀ r, r ∈ L → (r < n)%nat) → (length L ≤ n)%nat.
Proof.
  intros Hnd Hb. rewrite <-(length_seq n 0). apply submseteq_length, NoDup_submseteq; [done|].
  intros r Hr. apply elem_of_seq. specialize (Hb r Hr). lia.
Qed.

Lemma step4_ok pos m0 u v h L s : reduced pos m0 u v h s → ready L s →
  ∃ s', step4 s = Some (2%nat, s') ∧ reduced pos m0 u v h s' ∧ clean s' ∧
    mk_rows s' = mk_rows s ∧ mk_columns s' = mk_columns s ∧
    (∀ r, starred_row s r ∨ r = saverow s → starred_row s' r).
Proof.
  intros [Hw Hi Hz Hnn Hm Hu Hu0 Hv Hvh] [Hp Hrow Hfree Hcol Hsingle Hhas Hnd Hb Hrank].
  destruct (path_exists s (length L) L (savecol s)) as (p & Hpath & Hrows & Hlen); try done; [by apply Hp|].
  assert (HlenR : (length L < mk_rows s)%nat).
  { apply (NoDup_bound (saverow s :: L) (mk_rows s)); [by constructor|].
    intros r [->|Hr]%elem_of_cons; [apply Hp|by apply Hb]. }
  assert (HcolC : (savecol s < mk_columns s)%nat) by apply Hp.
  assert (Hseq : build_seq (S (mk_rows s * mk_columns s)) s (savecol s) [(saverow s, savecol s)] = Some ((saverow s, savecol s) :: p)).
  { apply (run_build_seq s (savecol s) p); try done.
    - assert (mk_rows s * 1 ≤ mk_rows s * mk_columns s)%nat by (apply Nat.mul_le_mono_l; lia). lia.
    - intros r Hr Hin%list_elem_of_singleton. cbn in Hin. subst. by apply Hrow, Hrows. }
  assert (Hfl : flipped s (foldl flip_cell s ((saverow s, savecol s) :: p)) (saverow s)).
  { apply (flip_path (length p)); try done. intros Hin. by apply Hrow, Hrows. }
  set (s1 := foldl flip_cell s ((saverow s, savecol s) :: p)) in *.
  destruct Hfl as [Fm [Fr Fc] Fw Fi Fs Frows Fcols].
  unfold step4. rewrite Hseq. cbn [mbind option_bind]. fold s1.
  set (g := update_cells _ _ _ _). eexists. split; [reflexivity|].
  set (s' := mk_set_covers _ _ _).
  assert (Hsize : mk_rows s' = mk_rows s ∧ mk_columns s' = mk_columns s) by done. destruct Hsize as [HR HC].
  assert (Hget : ∀ r c, cell s r c → mget g r c = if mask_is PRIME s1 r c then NORMAL else mget (mask_matrix s1) r c).
  { intros r c [Hr Hc]. unfold g. apply mget_update_all with (R := mk_rows s) (C := mk_columns s); [|done..].
    pose proof (ws_mask _ Fw) as Hsh. by rewrite Fr, Fc in Hsh. }
  assert (Hcell : ∀ r c, cell s' r c ↔ cell s r c) by (intros; unfold cell; by rewrite HR, HC).
  assert (Hst : ∀ r c, star s' r c ↔ star s1 r c).
  { intros r c. unfold star at 1. rewrite Hcell. cbn [mask_matrix s' mk_set_covers mk_set_mask]. split.
    - intros [Hc Hs]. rewrite (Hget _ _ Hc) in Hs. destruct (mask_is PRIME s1 r c); [done|]. split; [|done].
      unfold cell. by rewrite Fr, Fc.
    - intros [Hc Hs]. assert (Hc' : cell s r c) by (unfold cell in *; by rewrite Fr, Fc in Hc). split; [done|].
      rewrite (Hget _ _ Hc'). assert (Hnp : mask_is PRIME s1 r c = false) by (apply mask_is_false; rewrite Hs; done).
      by rewrite Hnp. }
  assert (Hnp : ∀ r c, ¬ prime s' r c).
  { intros r c [Hc Hpr]. apply Hcell in Hc. cbn [mask_matrix s' mk_set_covers mk_set_mask] in Hpr. rewrite (Hget _ _ Hc) in Hpr.
    destruct (mask_is PRIME s1 r c) eqn:E; [done|]. apply mask_is_false in E. done. }
  assert (HM : matrix s' = matrix s) by exact Fm.
  split; [|split; [|split_and!]]; try done.
  - split; rewrite ?HM, ?HR, ?HC; try done.
    + split; rewrite ?HM, ?HR, ?HC; [|apply Hw|cbn; by rewrite length_replicate..].
      apply shape_update. rewrite <-Fr, <-Fc. apply Fw.
    + split; [intros r c c' Hs1%Hst Hs2%Hst|intros r r' c Hs1%Hst Hs2%Hst]; [by eapply (in_row _ Fi)|by eapply (in_col _ Fi)].
    + intros r c [Hs%Hst%Fs|Hpr]; [auto|]. by apply Hnp in Hpr.
    + intros r c Hpos Hc%Hcell. auto.
    + intros r c Hc%Hcell. auto.
    + intros r Hr Hns. apply Hu0; [done|]. intros Hs. apply Hns. destruct (Frows r) as [c Hc]; [by left|]. exists c. by apply Hst.
    + intros c Hc Hns. apply Hvh; [done|]. intros Hs. apply Hns. destruct (Fcols c Hs) as [r Hr]. exists r. by apply Hst.
  - split; [done| |]; intros i Hi'; rewrite ?HR, ?HC in Hi'; by apply lookup_total_replicate_2.
  - intros r Hr. destruct (Frows r Hr) as [c Hc]. exists c. by apply Hst.
Qed.

(** *** Step 3: a zero is primed *)
Lemma reduced_same pos m0 u v h s s' : reduced pos m0 u v h s → well_shaped s' → matrix s' = matrix s →
  mk_rows s' = mk_rows s → mk_columns s' = mk_columns s → (∀ r c, star s' r c ↔ star s r c) →
  (∀ r c, prime s' r c → mget (matrix s) r c = 0) → reduced pos m0 u v h s'.
Proof.
  intros [Hw Hi Hz Hnn Hm Hu Hu0 Hv Hvh] Hw' HM HR HC Hst Hpr.
  assert (Hcell : ∀ r c, cell s' r c → cell s r c) by (intros ? ?; unfold cell; by rewrite HR, HC).
  split; rewrite ?HM, ?HR, ?HC; try done; auto.
  - split; [intros r c c'|intros r r' c]; rewrite !Hst; apply Hi.
  - intros r c [Hs|Hp]; [apply Hz; left; by apply Hst|by apply Hpr].
  - intros r Hr Hns. apply Hu0; [done|]. intros [c Hc]. apply Hns. exists c. by apply Hst.
  - intros c Hc Hns. apply Hvh; [done|]. intros [r Hr]. apply Hns. exists r. by apply Hst.
Qed.

Definition uncovered_zero s r c : Prop :=
  cell s r c ∧ rcov s r = false ∧ ccov s c = false ∧ mget (matrix s) r c = 0.

Lemma find_Some s r c : find_uncovered_in_matrix 0 s = Some (r, c) → uncovered_zero s r c.
Proof.
  intros (Hr & Hc & Hp)%first_cell_Some. apply andb_true_iff in Hp as [[Hrm Hcm]%andb_true_iff Hz%bool_decide_eq_true].
  split; [done|]. unfold rcov, ccov. by rewrite negb_true_iff in Hrm, Hcm.
Qed.
Lemma find_None s r c : find_uncovered_in_matrix 0 s = None → ¬ uncovered_zero s r c.
Proof.
  intros Hn ([Hr Hc] & Hrm & Hcm & Hz). pose proof (first_cell_None _ _ _ Hn r c Hr Hc) as Hp. cbn in Hp.
  unfold rcov, ccov in *. rewrite Hrm, Hcm, bool_decide_true in Hp by done. done.
Qed.

(** The state after the zero has been primed. *)
Definition primed s r c : Munkres := set_mask_cell r c PRIME (mk_set_save r c s).

Lemma primed_ok pos m0 u v h L s r c : reduced pos m0 u v h s → phase L s → uncovered_zero s r c →
  reduced pos m0 u v h (primed s r c) ∧ r ∉ L ∧ (∀ r' c', star (primed s r c) r' c' ↔ star s r' c') ∧
  (∀ r' c', prime (primed s r c) r' c' ↔ (r' = r ∧ c' = c) ∨ prime s r' c') ∧
  single_primes (primed s r c) ∧ (∀ r', star s r' c → r' ∈ L).
Proof.
  intros Hred Hph (Hcell & Hrm & Hcm & Hz). pose proof (rd_wf _ _ _ _ _ _ Hred) as Hw.
  assert (HrL : r ∉ L). { intros HL. apply (ph_rows _ _ Hph) in HL; [|apply Hcell]. congruence. }
  assert (Hns : ¬ star s r c). { intros Hs. destruct (ph_star _ _ Hph _ _ Hs) as [[? _]|[_ ?]]; [done|congruence]. }
  assert (Hw0 : well_shaped (mk_set_save r c s)) by (by destruct Hw).
  assert (Hst : ∀ r' c', star (primed s r c) r' c' ↔ star s r' c').
  { intros r' c'. unfold primed. rewrite (star_set _ _ _ _ _ _ Hw0 Hcell). case_decide as Hd; [|done].
    destruct Hd as [-> ->]. by split. }
  assert (Hpr : ∀ r' c', prime (primed s r c) r' c' ↔ (r' = r ∧ c' = c) ∨ prime s r' c').
  { intros r' c'. unfold primed. rewrite (prime_set _ _ _ _ _ _ Hw0 Hcell). case_decide as Hd; [tauto|].
    split; [by right|]. by intros [?|?]. }
  split_and!; try done.
  - apply (reduced_same _ _ _ _ _ s); try done; [by apply wf_set|]. intros r' c' [[-> ->]|Hp]%Hpr; [done|].
    apply (rd_zero _ _ _ _ _ _ Hred). by right.
  - intros r' c1 c2 [[-> ->]|H1']%Hpr [[E ->]|H2']%Hpr; [done| | |by eapply (ph_single _ _ Hph)]; exfalso; subst;
      apply HrL; by eapply (ph_prime _ _ Hph).
  - intros r' Hs. destruct (ph_star _ _ Hph _ _ Hs) as [[? _]|[_ ?]]; [done|congruence].
Qed.

Lemma step3_found pos m0 u v h L s r c : reduced pos m0 u v h s → phase L s → find_uncovered_in_matrix 0 s = Some (r, c) →
  ∃ s', mk_rows s' = mk_rows s ∧ mk_columns s' = mk_columns s ∧ (∀ r' c', star s' r' c' ↔ star s r' c') ∧
    reduced pos m0 u v h s' ∧
    ((step3 s = (3%nat, s') ∧ r ∉ L ∧ phase (r :: L) s') ∨ (step3 s = (4%nat, s') ∧ ready L s')).
Proof.
  intros Hred Hph Hf. pose proof (find_Some _ _ _ Hf) as Hz. pose proof Hz as ([Hr Hc] & Hrm & Hcm & _).
  destruct (primed_ok _ _ _ _ _ _ _ _ _ Hred Hph Hz) as (Hred1 & HrL & Hst & Hpr & Hsingle & Hcol).
  pose proof (rd_wf _ _ _ _ _ _ Hred) as Hw.
  unfold step3. rewrite Hf. fold (primed s r c).
  destruct (first_index (λ ncol, mask_is STAR (primed s r c) r ncol) (mk_columns s)) as [nc|] eqn:Hnc.
  - apply first_index_Some in Hnc as [Hnc Hm%mask_is_true].
    assert (Hsn : star s r nc) by (by apply Hst).
    exists (mk_set_covers (<[r := true]> (row_mask (primed s r c))) (<[nc := false]> (col_mask (primed s r c))) (primed s r c)).
    split_and!; [done|done| | |left; split; [reflexivity|split; [done|]]].
    + intros r' c'. apply Hst.
    + apply (reduced_same _ _ _ _ _ _ _ Hred1); try done.
      * destruct (rd_wf _ _ _ _ _ _ Hred1). split; try done; cbn; by rewrite length_insert.
      * intros r' c' Hp. apply (rd_zero _ _ _ _ _ _ Hred1). by right.
    + set (s' := mk_set_covers _ _ _).
      assert (Hrc : ∀ r', rcov s' r' = if decide (r' = r) then true else rcov s r').
      { intros r'. unfold rcov, s'. cbn. case_decide as Hd; [subst; apply list_lookup_total_insert_eq; by rewrite (ws_rows _ Hw)|].
        by rewrite list_lookup_total_insert_ne. }
      assert (Hcc : ∀ c', ccov s' c' = if decide (c' = nc) then false else ccov s c').
      { intros c'. unfold ccov, s'. cbn. case_decide as Hd; [subst; apply list_lookup_total_insert_eq; by rewrite (ws_cols _ Hw)|].
        by rewrite list_lookup_total_insert_ne. }
      assert (Hst' : ∀ r' c', star s' r' c' ↔ star s r' c') by apply Hst.
      assert (Hpr' : ∀ r' c', prime s' r' c' ↔ (r' = r ∧ c' = c) ∨ prime s r' c') by apply Hpr.
      pose proof (rd_independent _ _ _ _ _ _ Hred) as Hi.
      split.
      * intros r' Hr'. rewrite Hrc, elem_of_cons. case_decide; [tauto|]. rewrite (ph_rows _ _ Hph r' Hr'). naive_solver.
      * constructor; [done|apply Hph].
      * intros r' [->|Hin]%elem_of_cons; [done|by apply (ph_bound _ _ Hph)].
      * intros r' c' [[-> ->]|Hp]%Hpr'; rewrite Hcc, elem_of_cons.
        -- split; [by left|]. by case_decide.
        -- destruct (ph_prime _ _ Hph _ _ Hp). split; [by right|]. by case_decide.
      * exact Hsingle.
      * intros r' [->|Hin]%elem_of_cons; [exists c; apply Hpr'; by left|]. destruct (ph_has _ _ Hph _ Hin) as [c' Hp].
        exists c'. apply Hpr'. by right.
      * intros r' c' Hs%Hst'. rewrite Hcc, elem_of_cons. case_decide as Hd.
        -- subst. left. split; [left; by eapply (in_col _ Hi)|done].
        -- destruct (ph_star _ _ Hph _ _ Hs) as [[? ?]|[? ?]]; [by left; auto|]. right. split; [|done].
           intros [->|?]; [|done]. apply Hd. by eapply (in_row _ Hi).
      * intros r' [->|Hin]%elem_of_cons; [exists nc; by apply Hst'|]. destruct (ph_rowstar _ _ Hph _ Hin) as [c' Hs].
        exists c'. by apply Hst'.
      * intros c' Hc' Hcov. rewrite Hcc in Hcov. case_decide; [done|]. destruct (ph_colstar _ _ Hph _ Hc' Hcov) as [r' Hs].
        exists r'. by apply Hst'.
      * intros L1 r1 L2 c1 r' HL [[-> ->]|Hp]%Hpr' Hs%Hst'.
        -- destruct L1 as [|x L1]; [injection HL as <-; by apply Hcol|]. exfalso. injection HL as -> HL. apply HrL. rewrite HL.
           apply elem_of_app. right. by left.
        -- destruct L1 as [|x L1].
           ++ injection HL as -> <-. exfalso. apply HrL. by eapply (ph_prime _ _ Hph).
           ++ injection HL as -> HL. by eapply (ph_rank _ _ Hph).
  - exists (primed s r c). split_and!; [done..|]. right. split; [done|].
    assert (Hfree : ¬ starred_row (primed s r c) r).
    { intros [c' Hs]. pose proof (first_index_None _ _ Hnc c' ltac:(apply Hs)) as Hm%mask_is_false. by apply Hm, Hs. }
    split; try done.
    + apply Hpr. by left.
    + intros r' Hs%Hst. by apply Hcol.
    + intros r' Hin. destruct (ph_has _ _ Hph _ Hin) as [c' Hp]. exists c'. apply Hpr. by right.
    + apply Hph.
    + apply (ph_bound _ _ Hph).
    + intros L1 r1 L2 c1 r' HL [[-> ->]|Hp]%Hpr Hs%Hst; [|by eapply (ph_rank _ _ Hph)].
      exfalso. apply HrL. rewrite HL. apply elem_of_app. right. by left.
Qed.

(** *** Step 5: a new zero *)
Definition open_cell s (x : nat * nat) : bool := negb (rcov s x.1) && negb (ccov s x.2).

Lemma smallest_spec s l : (∀ x, x ∈ l → open_cell s x = true → mget (matrix s) x.1 x.2 ≠ 0) →
  let h := foldl (λ h x,
    if negb (row_mask s !!! x.1) && negb (col_mask s !!! x.2) then
      let v := mget (matrix s) x.1 x.2 in
      if (bool_decide (v < h) && bool_decide (v ≠ 0)) || bool_decide (h = 0) then v else h
    else h) 0 l in
  (h = 0 ∧ ∀ x, x ∈ l → open_cell s x = false) ∨
  (h ≠ 0 ∧ (∃ x, x ∈ l ∧ open_cell s x = true ∧ mget (matrix s) x.1 x.2 = h) ∧
    ∀ x, x ∈ l → open_cell s x = true → h ≤ mget (matrix s) x.1 x.2).
Proof.
  induction l as [|x l IH] using rev_ind; intros Hpos.
  { left. split; [done|]. by intros ? ?%elem_of_nil. }
  rewrite foldl_app. cbn [foldl]. specialize (IH ltac:(intros y Hy; apply Hpos, elem_of_app; by left)).
  set (h := foldl _ 0 l) in *. cbn zeta. fold (rcov s x.1) (ccov s x.2) (open_cell s x).
  assert (Hx : x ∈ l ++ [x]) by (apply elem_of_app; right; by apply list_elem_of_singleton).
  assert (Hsub : ∀ y, y ∈ l → y ∈ l ++ [x]) by (intros y Hy; apply elem_of_app; by left).
  assert (Hcase : ∀ y, y ∈ l ++ [x] → y ∈ l ∨ y = x).
  { intros y [?|?%list_elem_of_singleton]%elem_of_app; auto. }
  destruct (open_cell s x) eqn:Hop.
  - specialize (Hpos x Hx Hop). right. destruct IH as [[-> Hnone]|(Hh & (y & Hy & Hyo & Hyv) & Hmin)].
    + rewrite (bool_decide_true (0 = 0)), orb_true_r by done. split_and!; [done|by exists x|].
      intros y [Hy| ->]%Hcase Hyo; [by rewrite Hnone in Hyo|done].
    + rewrite (bool_decide_false (h = 0)), orb_false_r, (bool_decide_true (_ ≠ 0)), andb_true_r by done.
      case_bool_decide as Hlt.
      * split_and!; [done|by exists x|]. intros z [Hz| ->]%Hcase Hzo; [specialize (Hmin z Hz Hzo); lia|done].
      * split_and!; [done|by exists y; auto|]. intros z [Hz| ->]%Hcase Hzo; [by apply Hmin|lia].
  - destruct IH as [[-> Hnone]|(Hh & (y & Hy & Hyo & Hyv) & Hmin)].
    + left. split; [done|]. intros y [Hy| ->]%Hcase; [by apply Hnone|done].
    + right. split_and!; [done|by exists y; auto|]. intros z [Hz| ->]%Hcase Hzo; [by apply Hmin|congruence].
Qed.

Lemma smallest_ok s r0 c0 : (∀ r c, cell s r c → open_cell s (r, c) = true → mget (matrix s) r c ≠ 0) →
  cell s r0 c0 → open_cell s (r0, c0) = true →
  (∃ r c, cell s r c ∧ open_cell s (r, c) = true ∧ mget (matrix s) r c = smallest_uncovered s) ∧
  ∀ r c, cell s r c → open_cell s (r, c) = true → smallest_uncovered s ≤ mget (matrix s) r c.
Proof.
  intros Hpos Hc0 Hop0.
  destruct (smallest_spec s (indices (mk_rows s) (mk_columns s))) as [[_ Hno]|(_ & ([r1 c1] & Hin & Hop1 & Hv1) & Hmin)].
  { intros [r c] Hin%elem_of_indices Hop. by apply Hpos. }
  { exfalso. by rewrite (Hno (r0, c0)) in Hop0 by (by apply elem_of_indices). }
  split; [exists r1, c1; split_and!; [by apply elem_of_indices|done|exact Hv1]|].
  intros r c Hc Hop. apply (Hmin (r, c)); [by apply elem_of_indices|done].
Qed.

Lemma step5_ok pos m0 u v h L s : reduced pos m0 u v h s → phase L s → find_uncovered_in_matrix 0 s = None →
  (∃ r, (r < mk_rows s)%nat ∧ ¬ starred_row s r) → (∃ c, (c < mk_columns s)%nat ∧ ¬ starred_col s c) →
  ∃ s' u' v' h', step5 s = (3%nat, s') ∧ reduced pos m0 u' v' h' s' ∧ phase L s' ∧
    mk_rows s' = mk_rows s ∧ mk_columns s' = mk_columns s ∧ (∀ r c, star s' r c ↔ star s r c) ∧
    find_uncovered_in_matrix 0 s' ≠ None.
Proof.
  intros Hred Hph Hnone (r0 & Hr0 & Hnr0) (c0 & Hc0 & Hnc0). pose proof Hred as [Hw Hi Hz Hnn Hm Hu Hu0 Hv Hvh].
  assert (Hopen : ∀ r c, cell s r c → open_cell s (r, c) = true → mget (matrix s) r c ≠ 0).
  { intros r c Hc Hop Hzero. apply andb_true_iff in Hop as [Hr1%negb_true_iff Hc1%negb_true_iff].
    by apply (find_None s r c Hnone). }
  assert (Hop0 : open_cell s (r0, c0) = true).
  { unfold open_cell. cbn. assert (rcov s r0 = false) as ->.
    { destruct (rcov s r0) eqn:E; [|done]. exfalso. by apply Hnr0, (ph_rowstar _ _ Hph), (ph_rows _ _ Hph). }
    destruct (ccov s c0) eqn:E; [|done]. exfalso. by apply Hnc0, (ph_colstar _ _ Hph). }
  destruct (smallest_ok s r0 c0 Hopen) as ((r1 & c1 & Hin1 & Hop1 & Hv1) & Hmin); [done|done|].
  set (d := smallest_uncovered s) in *.
  assert (Hd : pos → 0 ≤ d) by (intros Hp; rewrite <-Hv1; auto).
  set (s' := (step5 s).2).
  assert (Hget : ∀ r c, cell s r c → mget (matrix s') r c =
    mget (matrix s) r c + (if rcov s r then d else 0) - (if ccov s c then 0 else d)).
  { intros r c [Hr Hc]. unfold s', step5. cbn [snd mk_set_matrix matrix].
    rewrite (mget_update_all _ _ _ (mk_rows s) (mk_columns s)); [|by apply shape_update, Hw|done..].
    rewrite (mget_update_all _ _ _ (mk_rows s) (mk_columns s)); [|by apply Hw|done..].
    fold d. unfold rcov, ccov. destruct (row_mask s !!! r), (col_mask s !!! c); cbn; lia. }
  exists s', (λ r, u r + if bool_decide (r ∈ L) then d else 0), (λ c, v c + if bool_decide (c < mk_columns s)%nat && ccov s c then 0 else d), (h + d).
  assert (HinL : ∀ r c, cell s r c → (if rcov s r then d else 0) = (if bool_decide (r ∈ L) then d else 0)).
  { intros r c [Hr _]. destruct (rcov s r) eqn:E.
    - by rewrite bool_decide_true by (by apply (ph_rows _ _ Hph)).
    - rewrite bool_decide_false; [done|]. intros HL. apply (ph_rows _ _ Hph) in HL; [congruence|done]. }
  split_and!; [done| | |done|done|done|].
  - split; try done.
    + destruct Hw. split; try done. unfold s', step5. cbn. by do 2 apply shape_update.
    + by destruct Hi.
    + intros r c Hsp. assert (Hc : cell s r c) by (destruct Hsp as [[? _]|[? _]]; done). rewrite (Hget r c Hc), (Hz r c Hsp).
      assert (Hx : rcov s r = negb (ccov s c)).
      { destruct Hsp as [Hs|Hp].
        - destruct (ph_star _ _ Hph _ _ Hs) as [[HL ->]|[HL ->]]; cbn.
          + apply (ph_rows _ _ Hph); [apply Hc|done].
          + destruct (rcov s r) eqn:E; [|done]. exfalso. apply HL, (ph_rows _ _ Hph); [apply Hc|done].
        - destruct (ph_prime _ _ Hph _ _ Hp) as [HL ->]. apply (ph_rows _ _ Hph); [apply Hc|done]. }
      rewrite Hx. destruct (ccov s c); cbn; lia.
    + intros r c Hp Hc. change (cell s r c) in Hc. rewrite (Hget r c Hc). specialize (Hnn r c Hp Hc). specialize (Hd Hp).
      destruct (rcov s r) eqn:Er, (ccov s c) eqn:Ec; try lia.
      assert (d ≤ mget (matrix s) r c); [|lia]. apply Hmin; [done|]. unfold open_cell. cbn. by rewrite Er, Ec.
    + intros r c Hc. change (cell s r c) in Hc. rewrite (Hget r c Hc), (Hm r c Hc), (HinL r c Hc).
      rewrite (bool_decide_true (c < _)%nat) by apply Hc. cbn [andb]. lia.
    + intros r Hp. specialize (Hu r Hp). specialize (Hd Hp). case_bool_decide; lia.
    + intros r Hr Hns. rewrite (Hu0 r Hr Hns), bool_decide_false; [done|]. intros HL. by apply Hns, (ph_rowstar _ _ Hph).
    + intros c Hp. specialize (Hv c Hp). specialize (Hd Hp). destruct (_ && _); lia.
    + intros c Hc Hns. rewrite (Hvh c Hc Hns). rewrite (bool_decide_true (c < _)%nat) by done. cbn [andb].
      destruct (ccov s c) eqn:E; [|done]. exfalso. by apply Hns, (ph_colstar _ _ Hph).
  - by destruct Hph.
  - intros Hn. apply (find_None s' r1 c1 Hn). apply andb_true_iff in Hop1 as [Hr1%negb_true_iff Hc1%negb_true_iff].
    split; [done|]. split; [done|]. split; [done|]. rewrite (Hget r1 c1) by done. cbn in Hr1, Hc1. rewrite Hr1, Hc1, Hv1. lia.
Qed.
End steps.
