(* ===== verification/MunkresTheorem.v ===== *)
(** The assignment solver terminates with a cheapest assignment. *)
From S2P Require Export MunkresProof.

(** ** The stars as a list *)
Definition stars (s : Munkres) : list (nat * nat) :=
  filter (λ x, mget (mask_matrix s) x.1 x.2 = STAR) (indices (mk_rows s) (mk_columns s)).

Section stars.
Implicit Types (s : Munkres) (r c : nat).

Lemma elem_of_stars s r c : (r, c) ∈ stars s ↔ star s r c.
Proof. unfold stars. rewrite list_elem_of_filter, elem_of_indices. cbn. unfold star, cell. tauto. Qed.
Lemma NoDup_stars s : NoDup (stars s).
Proof. apply NoDup_filter, NoDup_indices. Qed.
Lemma NoDup_star_rows s : independent s → NoDup (stars s).*1.
Proof.
  intros Hi. apply NoDup_fmap_2_strong; [|apply NoDup_stars]. intros [r c] [r' c'] H1%elem_of_stars H2%elem_of_stars. cbn.
  intros ->. f_equal. by eapply (in_row _ Hi).
Qed.
Lemma NoDup_star_cols s : independent s → NoDup (stars s).*2.
Proof.
  intros Hi. apply NoDup_fmap_2_strong; [|apply NoDup_stars]. intros [r c] [r' c'] H1%elem_of_stars H2%elem_of_stars. cbn.
  intros ->. f_equal. by eapply (in_col _ Hi).
Qed.
Lemma star_rows_bound s r : r ∈ (stars s).*1 → (r < mk_rows s)%nat.
Proof. intros ([r' c'] & -> & Hs%elem_of_stars)%list_elem_of_fmap. apply Hs. Qed.
Lemma star_cols_bound s c : c ∈ (stars s).*2 → (c < mk_columns s)%nat.
Proof. intros ([r' c'] & -> & Hs%elem_of_stars)%list_elem_of_fmap. apply Hs. Qed.
Lemma starred_row_stars s r : starred_row s r ↔ r ∈ (stars s).*1.
Proof.
  rewrite list_elem_of_fmap. split.
  - intros [c Hs]. exists (r, c). split; [done|]. by apply elem_of_stars.
  - intros ([r' c] & -> & Hs%elem_of_stars). by exists c.
Qed.
Lemma starred_col_stars s c : starred_col s c ↔ c ∈ (stars s).*2.
Proof.
  rewrite list_elem_of_fmap. split.
  - intros [r Hs]. exists (r, c). split; [done|]. by apply elem_of_stars.
  - intros ([r c'] & -> & Hs%elem_of_stars). by exists r.
Qed.

Lemma not_all_below (l : list nat) n : (length l < n)%nat → ∃ i, (i < n)%nat ∧ i ∉ l.
Proof.
  intros Hl. destruct (bounded_dec n (λ i, i ∉ l)) as [Hd|Hn]; [done|exfalso].
  assert (Hsub : seq 0 n ⊆+ l).
  { apply NoDup_submseteq; [apply NoDup_seq|]. intros i Hi%elem_of_seq. destruct (decide (i ∈ l)) as [|Hni]; [done|].
    exfalso. apply (Hn i); [lia|done]. }
  apply submseteq_length in Hsub. rewrite length_seq in Hsub. lia.
Qed.

(** ** Step 2 *)
Lemma step2_fold s l k : (∀ x, x ∈ l → (x.2 < length (col_mask s))%nat) →
  ∃ cm, foldl step2_cell (s, k) l =
      (mk_set_covers (row_mask s) cm s, (k + length (filter (λ x, mget (mask_matrix s) x.1 x.2 = STAR) l))%nat) ∧
    length cm = length (col_mask s) ∧
    ∀ c, cm !!! c = true ↔ col_mask s !!! c = true ∨ ∃ x, x ∈ l ∧ x.2 = c ∧ mget (mask_matrix s) x.1 x.2 = STAR.
Proof.
  revert s k. induction l as [|x l IH]; intros s k Hl.
  { exists (col_mask s). cbn. rewrite Nat.add_0_r. split; [by destruct s|]. split; [done|]. intros c. split; [by left|].
    intros [?|(y & Hy%elem_of_nil & _)]; done. }
  cbn [foldl]. unfold step2_cell at 2. unfold mask_is. rewrite filter_cons. case_bool_decide as Hs.
  - rewrite decide_True by done. cbn [length].
    destruct (IH (mk_set_covers (row_mask s) (<[x.2 := true]> (col_mask s)) s) (S k)) as (cm & Hf & Hlen & Hcm).
    { intros y Hy. cbn. rewrite length_insert. apply Hl. by right. }
    exists cm. rewrite Hf. split_and!; [by rewrite Nat.add_succ_r|by rewrite Hlen; cbn; rewrite length_insert|].
    intros c. rewrite Hcm. cbn [col_mask mk_set_covers mask_matrix]. destruct (decide (x.2 = c)) as [Heq|Hne].
    + subst c. rewrite list_lookup_total_insert_eq by (apply Hl; by left). split; [|by left]. intros _. right. exists x.
      split; [by left|done].
    + rewrite list_lookup_total_insert_ne by done. setoid_rewrite elem_of_cons. naive_solver.
  - rewrite decide_False by done. destruct (IH s k) as (cm & Hf & Hlen & Hcm); [intros y Hy; apply Hl; by right|].
    exists cm. split_and!; [done..|]. intros c. rewrite Hcm. setoid_rewrite elem_of_cons. naive_solver.
Qed.

Lemma step2_ok pos m0 u v h s : reduced pos m0 u v h s → clean s →
  ∃ s' , reduced pos m0 u v h s' ∧ mk_rows s' = mk_rows s ∧ mk_columns s' = mk_columns s ∧ (∀ r c, star s' r c ↔ star s r c) ∧
    ((step2 s = (O, s') ∧ (Nat.min (mk_rows s) (mk_columns s) ≤ length (stars s'))%nat) ∨
     (step2 s = (3%nat, s') ∧ phase [] s' ∧ (∃ r, (r < mk_rows s)%nat ∧ ¬ starred_row s r) ∧
       ∃ c, (c < mk_columns s)%nat ∧ ¬ starred_col s c)).
Proof.
  intros Hred [Hnp Hrows Hcols]. pose proof (rd_wf _ _ _ _ _ _ Hred) as Hw.
  destruct (step2_fold s (indices (mk_rows s) (mk_columns s)) 0) as (cm & Hf & Hlen & Hcm).
  { intros [r c] [_ Hc]%elem_of_indices. by rewrite (ws_cols _ Hw). }
  set (s' := mk_set_covers (row_mask s) cm s) in *. exists s'.
  assert (Hred' : reduced pos m0 u v h s').
  { apply (reduced_same _ _ _ _ _ _ _ Hred); try done.
    - destruct Hw. split; try done. cbn. by rewrite Hlen.
    - intros r c Hp. by apply Hnp in Hp. }
  split_and!; try done. unfold step2. rewrite Hf. fold (stars s). set (n := (0 + length (stars s))%nat).
  assert (Hmin : (if bool_decide (mk_rows s < mk_columns s)%nat then mk_rows s else mk_columns s) = Nat.min (mk_rows s) (mk_columns s)) by (case_bool_decide; lia).
  rewrite Hmin. destruct (decide (mk_rows s `min` mk_columns s ≤ n)%nat) as [Hn|Hn];
    [rewrite bool_decide_true by done; left; split; [done|exact Hn]|rewrite bool_decide_false by done; right; split; [done|]].
  assert (Hccov : ∀ c, (c < mk_columns s)%nat → ccov s' c = true ↔ starred_col s c).
  { intros c Hc. unfold ccov, s'. cbn. rewrite Hcm. split.
    - intros [Hcov|([r c'] & Hin%elem_of_indices & <- & Hm)]; [|by exists r]. specialize (Hcols c Hc). unfold ccov in Hcols. congruence.
    - intros [r [Hcell Hs]]. right. exists (r, c). split; [by apply elem_of_indices|done]. }
  split_and!.
  - split.
    + intros r Hr. rewrite elem_of_nil. change (rcov s' r) with (rcov s r). by rewrite Hrows.
    + constructor.
    + intros r Hin. by apply elem_of_nil in Hin.
    + intros r c Hp. by apply Hnp in Hp.
    + intros r c c' Hp. by apply Hnp in Hp.
    + intros r Hin. by apply elem_of_nil in Hin.
    + intros r c Hs. right. split; [apply not_elem_of_nil|]. apply Hccov; [apply Hs|]. by exists r.
    + intros r Hin. by apply elem_of_nil in Hin.
    + intros c Hc Hcov. by apply Hccov.
    + intros L1 r L2 c r' HL. by destruct L1.
  - destruct (not_all_below (stars s).*1 (mk_rows s)) as (r & Hr & Hnr); [rewrite length_fmap; lia|].
    exists r. split; [done|]. by rewrite starred_row_stars.
  - destruct (not_all_below (stars s).*2 (mk_columns s)) as (c & Hc & Hnc); [rewrite length_fmap; lia|].
    exists c. split; [done|]. by rewrite starred_col_stars.
Qed.
End stars.

(** ** From one star to the next *)
Section phases.
Implicit Types (s : Munkres) (r c : nat).

Lemma run_step fuel step s step' s' : do_step step s = Some (step', s') →
  solve_loop (S fuel) step s = solve_loop fuel step' s'.
Proof. intros Hd. cbn [solve_loop]. destruct step; [done|]. by rewrite Hd. Qed.

(** [s'] is reached from step [i] of [s] in at most [n] rounds, at step [j]. *)
Definition steps_to (i j n : nat) s s' : Prop :=
  ∃ k, (k ≤ n)%nat ∧ ∀ fuel, solve_loop (k + fuel) i s = solve_loop fuel j s'.

Lemma steps_one i j s s' : do_step i s = Some (j, s') → steps_to i j 1 s s'.
Proof. intros Hd. exists 1%nat. split; [done|]. intros fuel. by apply run_step. Qed.
Lemma steps_trans i j k n m s s1 s2 : steps_to i j n s s1 → steps_to j k m s1 s2 → steps_to i k (n + m) s s2.
Proof.
  intros (a & Ha & Hr1) (b & Hb & Hr2). exists (a + b)%nat. split; [lia|]. intros fuel. by rewrite <-Nat.add_assoc, Hr1, Hr2.
Qed.
Lemma steps_le i j n m s s' : (n ≤ m)%nat → steps_to i j n s s' → steps_to i j m s s'.
Proof. intros Hnm (k & Hk & Hr). exists k. split; [lia|done]. Qed.

(** More rows have a star. *)
Definition grows s s' : Prop :=
  mk_rows s' = mk_rows s ∧ mk_columns s' = mk_columns s ∧ (∀ r, starred_row s r → starred_row s' r) ∧
  ∃ r, (r < mk_rows s)%nat ∧ ¬ starred_row s r ∧ starred_row s' r.

Definition open_row s : Prop := ∃ r, (r < mk_rows s)%nat ∧ ¬ starred_row s r.
Definition open_col s : Prop := ∃ c, (c < mk_columns s)%nat ∧ ¬ starred_col s c.

Lemma open_row_same s s' : mk_rows s' = mk_rows s → (∀ r c, star s' r c ↔ star s r c) → open_row s → open_row s'.
Proof. intros HR Hst (r & Hr & Hn). exists r. rewrite HR. split; [done|]. intros [c Hc]. apply Hn. exists c. by apply Hst. Qed.
Lemma open_col_same s s' : mk_columns s' = mk_columns s → (∀ r c, star s' r c ↔ star s r c) → open_col s → open_col s'.
Proof. intros HC Hst (c & Hc & Hn). exists c. rewrite HC. split; [done|]. intros [r Hr]. apply Hn. exists r. by apply Hst. Qed.
Lemma grows_same s s' s'' : mk_rows s' = mk_rows s → mk_columns s' = mk_columns s → (∀ r c, star s' r c ↔ star s r c) →
  grows s' s'' → grows s s''.
Proof.
  intros HR HC Hst (HR' & HC' & Hrows & r & Hr & Hn & Hs).
  assert (Hsr : ∀ r', starred_row s' r' ↔ starred_row s r') by (intros r'; split; intros [c Hc]; exists c; by apply Hst).
  split_and!; [congruence|congruence|intros r' Hr'; apply Hrows; by apply Hsr|]. exists r. rewrite <-HR. split_and!; [done| |done].
  intros Hs'. apply Hn. by apply Hsr.
Qed.

Lemma phase_run pos m0 k : ∀ L s u v h, reduced pos m0 u v h s → phase L s → (mk_rows s - length L ≤ k)%nat →
  open_row s → open_col s →
  ∃ s' u' v' h', steps_to 3 2 (3 * k + 1) s s' ∧ reduced pos m0 u' v' h' s' ∧ clean s' ∧ grows s s'.
Proof.
  induction k as [|k IH]; intros L s u v h Hred Hph Hk Hr Hc.
  { exfalso. destruct Hr as (r & Hr & Hn).
    assert (Hlen : (length (r :: L) ≤ mk_rows s)%nat); [|cbn in Hlen; lia]. apply NoDup_bound.
    - constructor; [|apply Hph]. intros HL. by apply Hn, (ph_rowstar _ _ Hph).
    - intros r' [->|Hin]%elem_of_cons; [done|by apply (ph_bound _ _ Hph)]. }
  (* a zero is found at once, or after one adjustment *)
  assert (Hzero : ∃ s1 u1 v1 h1, steps_to 3 3 2 s s1 ∧ reduced pos m0 u1 v1 h1 s1 ∧ phase L s1 ∧
    mk_rows s1 = mk_rows s ∧ mk_columns s1 = mk_columns s ∧ (∀ r c, star s1 r c ↔ star s r c) ∧
    find_uncovered_in_matrix 0 s1 ≠ None).
  { destruct (find_uncovered_in_matrix 0 s) as [x|] eqn:Hf.
    - exists s, u, v, h. split; [by exists 0%nat; split; [lia|]|]. split_and!; try done. by rewrite Hf.
    - destruct (step5_ok _ _ _ _ _ _ _ Hred Hph Hf Hr Hc) as (s1 & u1 & v1 & h1 & Hrun & Hrest). exists s1, u1, v1, h1.
      split; [|done]. apply (steps_trans 3 5 3 1 1 s s); apply steps_one; cbn [do_step].
      + unfold step3. by rewrite Hf.
      + by rewrite Hrun. }
  destruct Hzero as (s1 & u1 & v1 & h1 & Hrun1 & Hred1 & Hph1 & HR1 & HC1 & Hst1 & Hf).
  destruct (find_uncovered_in_matrix 0 s1) as [[r c]|] eqn:Hf1; [|done].
  destruct (step3_found _ _ _ _ _ _ _ _ _ Hred1 Hph1 Hf1) as (s2 & HR2 & HC2 & Hst2 & Hred2 & [(Hrun2 & HrL & Hph2)|(Hrun2 & Hready)]).
  - assert (Hst : ∀ r c, star s2 r c ↔ star s r c) by (intros; by rewrite Hst2, Hst1).
    destruct (IH (r :: L) s2 u1 v1 h1) as (s' & u' & v' & h' & Hrun & Hred' & Hcl & Hgr); [done|done| | | |].
    + cbn. rewrite HR2, HR1. lia.
    + apply (open_row_same s); [congruence|done..].
    + apply (open_col_same s); [congruence|done..].
    + exists s', u', v', h'. split_and!; [|done|done|apply (grows_same s s2); congruence || done].
      apply (steps_le _ _ (2 + (1 + (3 * k + 1)))); [lia|].
      apply (steps_trans 3 3 2 _ _ s s1); [done|]. apply (steps_trans 3 3 2 _ _ s1 s2); [|done].
      apply steps_one. cbn [do_step]. by rewrite Hrun2.
  - destruct (step4_ok _ _ _ _ _ _ _ Hred2 Hready) as (s' & Hrun4 & Hred' & Hcl & HR & HC & Hrows).
    exists s', u1, v1, h1. split_and!; [|done|done|].
    + apply (steps_le _ _ (2 + (1 + 1))); [lia|].
      apply (steps_trans 3 3 2 _ _ s s1); [done|]. apply (steps_trans 3 4 2 _ _ s1 s2); apply steps_one; [|done].
      cbn [do_step]. by rewrite Hrun2.
    + apply (grows_same s s2); [congruence|congruence|intros; by rewrite Hst2, Hst1|].
      split_and!; [done|done|auto|]. exists (saverow s2). split_and!; [apply Hready|apply Hready|apply Hrows; by right].
Qed.

(** The rows that have no star yet. *)
Definition free_rows s : nat := mk_rows s - length (stars s).

Lemma grows_free s s' : independent s → independent s' → grows s s' → (free_rows s' < free_rows s)%nat.
Proof.
  intros Hi Hi' (HR & _ & Hrows & r & Hr & Hn & Hs).
  assert (Hsub : r :: (stars s).*1 ⊆+ (stars s').*1).
  { apply NoDup_submseteq.
    - constructor; [by rewrite <-starred_row_stars|by apply NoDup_star_rows].
    - intros r' [->|Hin]%elem_of_cons; apply starred_row_stars; [done|]. apply Hrows. by apply starred_row_stars. }
  apply submseteq_length in Hsub. cbn in Hsub. rewrite !length_fmap in Hsub.
  assert (Hle : (length (stars s').*1 ≤ mk_rows s')%nat) by (apply NoDup_bound; [by apply NoDup_star_rows|apply star_rows_bound]).
  rewrite length_fmap in Hle. unfold free_rows. lia.
Qed.

(** ** The whole run *)
Lemma solve_run pos m0 n : ∀ s u v h, reduced pos m0 u v h s → clean s → (free_rows s ≤ n)%nat →
  ∃ s' u' v' h', steps_to 2 0 (n * (3 * mk_rows s + 2) + 1) s s' ∧ reduced pos m0 u' v' h' s' ∧
    mk_rows s' = mk_rows s ∧ mk_columns s' = mk_columns s ∧
    (Nat.min (mk_rows s) (mk_columns s) ≤ length (stars s'))%nat.
Proof.
  induction n as [|n IH]; intros s u v h Hred Hcl Hn;
    destruct (step2_ok _ _ _ _ _ _ Hred Hcl) as (s1 & Hred1 & HR1 & HC1 & Hst1 & [(Hrun & Hlen)|(Hrun & Hph & Hrow & Hcol)]).
  1,3: (exists s1, u, v, h; split_and!; [|done..]; apply (steps_le _ _ 1); [lia|]; apply steps_one; cbn [do_step]; by rewrite Hrun).
  all: assert (Hrow1 : open_row s1) by (by apply (open_row_same s)); assert (Hcol1 : open_col s1) by (by apply (open_col_same s)).
  all: destruct (phase_run pos m0 (mk_rows s1) [] s1 u v h Hred1 Hph) as (s2 & u2 & v2 & h2 & Hrun2 & Hred2 & Hcl2 & Hgr); [cbn; lia|done|done|].
  all: assert (Hgr' : grows s s2) by (by apply (grows_same s s1)).
  all: pose proof (grows_free s s2 (rd_independent _ _ _ _ _ _ Hred) (rd_independent _ _ _ _ _ _ Hred2) Hgr') as Hfree.
  - lia.
  - destruct (IH s2 u2 v2 h2 Hred2 Hcl2 ltac:(lia)) as (s' & u' & v' & h' & Hrun' & Hred' & HR' & HC' & Hlen).
    destruct Hgr' as (HR2 & HC2 & _). exists s', u', v', h'. rewrite <-HR2, <-HC2. split_and!; [|done..].
    apply (steps_le _ _ (1 + ((3 * mk_rows s1 + 1) + (n * (3 * mk_rows s2 + 2) + 1)))); [rewrite HR1, HR2; lia|].
    apply (steps_trans 2 3 0 _ _ s s1); [apply steps_one; cbn [do_step]; by rewrite Hrun|].
    by apply (steps_trans 3 2 0 _ _ s1 s2).
Qed.
End phases.

(** ** The first stars *)
Section start.
Implicit Types (s : Munkres) (r c : nat).

Record first_stars s0 s : Prop := {
  fs_matrix : matrix s = matrix s0;
  fs_rows : mk_rows s = mk_rows s0;
  fs_columns : mk_columns s = mk_columns s0;
  fs_covers : row_mask s = row_mask s0 ∧ col_mask s = col_mask s0;
  fs_wf : well_shaped s;
  fs_independent : independent s;
  fs_zero r c : star s r c → mget (matrix s) r c = 0;
  fs_prime r c : ¬ prime s r c
}.

Lemma step1_cell_ok s0 s r c : first_stars s0 s → cell s r c → first_stars s0 (step1_cell s (r, c)).
Proof.
  intros Hfs Hc. pose proof Hfs as [HM HR HC Hcov Hw Hi Hz Hnp]. unfold step1_cell. case_bool_decide as H0; [|done].
  destruct (first_index (λ nrow, mask_is STAR s nrow c) (mk_rows s)) as [i|] eqn:Hcol; [done|].
  destruct (first_index (λ ncol, mask_is STAR s r ncol) (mk_columns s)) as [i|] eqn:Hrow; [done|].
  assert (Hnc : ¬ starred_col s c).
  { intros [r' Hs]. pose proof (first_index_None _ _ Hcol r' ltac:(apply Hs)) as Hm%mask_is_false. by apply Hm, Hs. }
  assert (Hnr : ¬ starred_row s r).
  { intros [c' Hs]. pose proof (first_index_None _ _ Hrow c' ltac:(apply Hs)) as Hm%mask_is_false. by apply Hm, Hs. }
  assert (Hst : ∀ r' c', star (set_mask_cell r c STAR s) r' c' ↔ (r' = r ∧ c' = c) ∨ star s r' c').
  { intros r' c'. rewrite (star_set _ _ _ _ _ _ Hw Hc). case_decide; [tauto|]. naive_solver. }
  split; try done.
  - by apply wf_set.
  - split.
    + intros r' c1 c2 [[-> ->]|H1']%Hst [[E ->]|H2']%Hst; [done|exfalso; apply Hnr; by exists c2| |by eapply (in_row _ Hi)].
      exfalso. subst. apply Hnr. by exists c1.
    + intros r1 r2 c' [[-> ->]|H1']%Hst [[-> E]|H2']%Hst; [done|exfalso; apply Hnc; by exists r2| |by eapply (in_col _ Hi)].
      exfalso. subst. apply Hnc. by exists r1.
  - intros r' c' [[-> ->]|Hs]%Hst; [done|by apply Hz].
  - intros r' c' Hp. rewrite (prime_set _ _ _ _ _ _ Hw Hc) in Hp. case_decide; [done|]. by apply (Hnp r' c').
Qed.

Lemma step1_ok s0 : first_stars s0 s0 → ∃ s, step1 s0 = (2%nat, s) ∧ first_stars s0 s.
Proof.
  intros Hfs. eexists. split; [reflexivity|].
  assert (Hall : ∀ l s, first_stars s0 s → (∀ x, x ∈ l → cell s0 x.1 x.2) → first_stars s0 (foldl step1_cell s l)).
  { induction l as [|[r c] l IH]; intros s Hs Hl; [done|]. cbn [foldl]. apply IH; [|by intros x Hx; apply Hl; right].
    apply step1_cell_ok; [done|]. specialize (Hl (r, c) ltac:(by left)). unfold cell in *.
    by rewrite (fs_rows _ _ Hs), (fs_columns _ _ Hs). }
  apply Hall; [done|]. intros [r c] Hin. by apply elem_of_indices.
Qed.

Lemma first_reduced (pos : Prop) s0 s : first_stars s0 s → (pos → ∀ r c, cell s0 r c → 0 ≤ mget (matrix s0) r c) →
  reduced pos (mget (matrix s0)) (λ _, 0) (λ _, 0) 0 s.
Proof.
  intros [HM HR HC Hcov Hw Hi Hz Hnp] Hnn. split; try done; rewrite ?HM.
  - intros r c [Hs|Hp]; [rewrite <-HM; by apply Hz|by apply Hnp in Hp].
  - intros r c Hp Hc. apply Hnn; [done|]. unfold cell in *. by rewrite <-HR, <-HC.
  - intros. lia.
Qed.
End start.

(** ** The cost of an assignment *)
Definition sum_of {A} (f : A → Z) (l : list A) : Z := foldr (λ x acc, f x + acc) 0 l.

Lemma sum_of_app {A} (f : A → Z) l1 l2 : sum_of f (l1 ++ l2) = sum_of f l1 + sum_of f l2.
Proof. unfold sum_of. induction l1 as [|x l1 IH]; cbn in *; lia. Qed.
Lemma sum_of_perm {A} (f : A → Z) l1 l2 : l1 ≡ₚ l2 → sum_of f l1 = sum_of f l2.
Proof. unfold sum_of. induction 1; cbn in *; lia. Qed.
Lemma sum_of_nonneg {A} (f : A → Z) l : (∀ x, x ∈ l → 0 ≤ f x) → 0 ≤ sum_of f l.
Proof.
  unfold sum_of. induction l as [|x l IH]; cbn; intros Hf; [done|]. pose proof (Hf x ltac:(by left)).
  assert (0 ≤ foldr (λ y acc, f y + acc) 0 l) by (apply IH; intros; apply Hf; by right). lia.
Qed.
Lemma sum_of_zero {A} (f : A → Z) l : (∀ x, x ∈ l → f x = 0) → sum_of f l = 0.
Proof.
  unfold sum_of. induction l as [|x l IH]; cbn; intros Hf; [done|]. rewrite (Hf x) by (by left).
  rewrite IH; [done|]. intros; apply Hf; by right.
Qed.
Lemma sum_of_fmap {A B} (f : B → Z) (g : A → B) l : sum_of f (g <$> l) = sum_of (f ∘ g) l.
Proof. unfold sum_of. induction l as [|x l IH]; cbn in *; [done|]. by rewrite IH. Qed.
Lemma sum_of_plus {A} (f g h k : A → Z) (d : Z) l : (∀ x, x ∈ l → f x = g x - h x + d - k x) →
  sum_of f l = sum_of g l - sum_of h l + Z.of_nat (length l) * d - sum_of k l.
Proof.
  unfold sum_of. induction l as [|x l IH]; cbn [foldr length]; intros Hf; [lia|]. rewrite (Hf x) by (by left).
  rewrite IH by (intros; apply Hf; by right). lia.
Qed.

(** A sum of weights that are not negative over some of the indices. *)
Lemma sum_of_part (w : nat → Z) l n : (∀ i, 0 ≤ w i) → NoDup l → (∀ i, i ∈ l → (i < n)%nat) →
  sum_of w l ≤ sum_of w (seq 0 n) ∧
  ((∀ i, (i < n)%nat → i ∉ l → w i = 0) → sum_of w l = sum_of w (seq 0 n)).
Proof.
  intros Hw Hnd Hb. assert (Hsub : l ⊆+ seq 0 n).
  { apply NoDup_submseteq; [done|]. intros i Hi. apply elem_of_seq. specialize (Hb i Hi). lia. }
  apply submseteq_Permutation in Hsub as [k Hperm]. rewrite (sum_of_perm _ _ _ Hperm), sum_of_app. split.
  - assert (0 ≤ sum_of w k) by (apply sum_of_nonneg; auto). lia.
  - intros H0. rewrite (sum_of_zero w k); [lia|]. intros i Hi. apply H0.
    + assert (Hin : i ∈ seq 0 n) by (rewrite Hperm; apply elem_of_app; by right). apply elem_of_seq in Hin. lia.
    + assert (Hnd2 : NoDup (l ++ k)) by (rewrite <-Hperm; apply NoDup_seq).
      apply NoDup_app in Hnd2 as (_ & Hdis & _). intros Hil. by apply (Hdis i Hil).
Qed.

(** Pairs of a row and a column, none used twice. *)
Record assignment (R C : nat) (l : list (nat * nat)) : Prop := {
  as_rows : NoDup l.*1;
  as_cols : NoDup l.*2;
  as_row_bound r : r ∈ l.*1 → (r < R)%nat;
  as_col_bound c : c ∈ l.*2 → (c < C)%nat
}.
Definition cost (m : nat → nat → Z) (l : list (nat * nat)) : Z := sum_of (λ x, m x.1 x.2) l.

Lemma stars_assignment s : independent s → assignment (mk_rows s) (mk_columns s) (stars s).
Proof.
  intros Hi. split; [by apply NoDup_star_rows|by apply NoDup_star_cols|apply star_rows_bound|apply star_cols_bound].
Qed.

(** The stars of a reduced matrix are a cheapest assignment of their number. *)
Lemma reduced_optimal (pos : Prop) m0 u v h s l : pos → reduced pos m0 u v h s → assignment (mk_rows s) (mk_columns s) l →
  length l = length (stars s) → cost m0 (stars s) ≤ cost m0 l.
Proof.
  intros Hp [Hw Hi Hz Hnn Hm Hu Hu0 Hv Hvh] Hl Hlen. specialize (λ r c, Hnn r c Hp) as Hnn'. specialize (λ r, Hu r Hp) as Hu'.
  assert (Hcost : ∀ l', assignment (mk_rows s) (mk_columns s) l' →
    cost m0 l' = cost (mget (matrix s)) l' - sum_of u l'.*1 + Z.of_nat (length l') * h - sum_of (λ c, h - v c) l'.*2).
  { intros l' [_ _ Hr Hc]. unfold cost. rewrite !sum_of_fmap. apply sum_of_plus. intros x Hx. cbn.
    rewrite (Hm x.1 x.2); [lia|]. split; [apply Hr|apply Hc]; apply list_elem_of_fmap; by exists x. }
  pose proof (stars_assignment s Hi) as Hs.
  rewrite (Hcost _ Hl), (Hcost _ Hs), Hlen.
  assert (Hz0 : cost (mget (matrix s)) (stars s) = 0).
  { apply sum_of_zero. intros [r c] Hx%elem_of_stars. apply Hz. by left. }
  assert (Hnn0 : 0 ≤ cost (mget (matrix s)) l).
  { apply sum_of_nonneg. intros x Hx. apply Hnn'. split; [apply (as_row_bound _ _ _ Hl)|apply (as_col_bound _ _ _ Hl)]; apply list_elem_of_fmap; by exists x. }
  destruct (sum_of_part u l.*1 (mk_rows s) Hu' (as_rows _ _ _ Hl) (as_row_bound _ _ _ Hl)) as [Hul _].
  destruct (sum_of_part u (stars s).*1 (mk_rows s) Hu' (as_rows _ _ _ Hs) (as_row_bound _ _ _ Hs)) as [_ Hus].
  rewrite Hus by (intros r Hr Hn; apply Hu0; [done|by rewrite starred_row_stars]).
  assert (Hwn : ∀ c, 0 ≤ h - v c) by (intros c; specialize (Hv c Hp); lia).
  destruct (sum_of_part (λ c, h - v c) l.*2 (mk_columns s) Hwn (as_cols _ _ _ Hl) (as_col_bound _ _ _ Hl)) as [Hvl _].
  destruct (sum_of_part (λ c, h - v c) (stars s).*2 (mk_columns s) Hwn (as_cols _ _ _ Hs) (as_col_bound _ _ _ Hs)) as [_ Hvs].
  rewrite Hvs; [lia|]. intros c Hc Hn. rewrite (Hvh c Hc); [lia|]. by rewrite starred_col_stars.
Qed.

(** ** solve *)
Definition nonneg_entries (m : grid Double) (R C : nat) : Prop :=
  ∀ r c, (r < R)%nat → (c < C)%nat → match mget m r c with Fin v => 0 ≤ v | INFINITY => True end.

Lemma highValue_pos m R C : 0 < highValue m R C.
Proof.
  unfold highValue. assert (Hf : ∀ l acc, 0 ≤ acc → 0 ≤ foldl (λ hv x,
    match mget m x.1 x.2 with Fin v => if bool_decide (hv < v) then v else hv | INFINITY => hv end) acc l).
  { induction l as [|x l IH]; cbn [foldl]; intros acc Ha; [done|]. apply IH. destruct (mget m x.1 x.2); [|done].
    case_bool_decide; lia. }
  specialize (Hf (indices R C) 0). lia.
Qed.

Lemma start_ok m R C : first_stars (solve_start m R C) (solve_start m R C).
Proof.
  assert (Hmask : ∀ r c, cell (solve_start m R C) r c → mget (mask_matrix (solve_start m R C)) r c = NORMAL).
  { intros r c [Hr Hc]. by apply mget_tabulate. }
  split; try done.
  - split; cbn; [apply shape_tabulate..|apply length_replicate|apply length_replicate].
  - split; intros ? ? ? [Hc Hs]; by rewrite Hmask in Hs.
  - intros r c [Hc Hs]. by rewrite Hmask in Hs.
  - intros r c [Hc Hs]. by rewrite Hmask in Hs.
Qed.

Lemma solve_assigns m R C :
  ∃ g l, solve m R C = Some g ∧ assignment R C l ∧ length l = Nat.min R C ∧
    (∀ r c, (r < R)%nat → (c < C)%nat → mget g r c = if decide ((r, c) ∈ l) then 0 else -1) ∧
    (nonneg_entries m R C → ∀ l', assignment R C l' → length l' = Nat.min R C →
      cost (mget (finite_matrix m R C)) l ≤ cost (mget (finite_matrix m R C)) l').
Proof.
  destruct (step1_ok _ (start_ok m R C)) as (s1 & Hrun1 & Hfs).
  assert (Hm0 : nonneg_entries m R C → ∀ r c, cell (solve_start m R C) r c → 0 ≤ mget (matrix (solve_start m R C)) r c).
  { intros Hnn r c [Hr Hc]. cbn in Hr, Hc. cbn [matrix solve_start]. unfold finite_matrix. rewrite mget_tabulate by done.
    specialize (Hnn r c Hr Hc). destruct (mget m r c); [done|]. pose proof (highValue_pos m R C). lia. }
  pose proof (first_reduced _ _ _ Hfs Hm0) as Hred. pose proof Hfs as [_ HR HC [Hrm Hcm] _ _ _ Hnp]. cbn in HR, HC, Hrm, Hcm.
  assert (Hcl : clean s1).
  { split; [done| |]; unfold rcov, ccov; rewrite ?Hrm, ?Hcm, ?HR, ?HC; intros i Hi; by apply lookup_total_replicate_2. }
  destruct (solve_run _ _ R s1 _ _ _ Hred Hcl) as (s' & u & v & h & (k & Hk & Hrun) & Hred' & HR' & HC' & Hlen).
  { unfold free_rows. lia. }
  rewrite HR in *. rewrite HC in *.
  pose proof (stars_assignment s' (rd_independent _ _ _ _ _ _ Hred')) as Has. rewrite HR', HC' in Has.
  assert (Hmin : length (stars s') = Nat.min R C).
  { pose proof (NoDup_bound _ _ (as_rows _ _ _ Has) (as_row_bound _ _ _ Has)) as Hlr.
    pose proof (NoDup_bound _ _ (as_cols _ _ _ Has) (as_col_bound _ _ _ Has)) as Hlc. rewrite length_fmap in Hlr, Hlc. lia. }
  assert (Hloop : solve_loop (solve_fuel R) 1 (solve_start m R C) = Some s').
  { unfold solve_fuel. replace (S R * (3 * R + 3) + 4)%nat with (S (k + S (S R * (3 * R + 3) + 2 - k)))%nat by lia.
    erewrite run_step by (cbn [do_step]; by rewrite Hrun1). by rewrite Hrun. }
  exists (tabulate R C (λ r c, if mask_is STAR s' r c then 0 else -1)), (stars s'). split_and!; [|done|done| |].
  - unfold solve. by rewrite Hloop.
  - intros r c Hr Hc. rewrite mget_tabulate by done.
    assert (Hst : (r, c) ∈ stars s' ↔ mask_is STAR s' r c = true).
    { rewrite elem_of_stars, mask_is_true. unfold star, cell. rewrite HR', HC'. tauto. }
    case_decide as Hin; [by rewrite (proj1 Hst Hin)|]. destruct (mask_is STAR s' r c); [|done]. by destruct Hin; apply Hst.
  - intros Hnn l' Hl' Hlen'. apply (reduced_optimal _ _ _ _ _ _ _ Hnn Hred'); [by rewrite HR', HC'|congruence].
Qed.

(** C13: the solver ends on every matrix, square or not (the bound on its rounds
    is never reached), and assigns as many pairs as the smaller side has, no row
    or column twice.  Without negative entries no assignment of that size is
    cheaper; an infinite entry counts as the largest finite one plus one. *)
Theorem solve_optimal m R C :
  ∃ g l, solve m R C = Some g ∧ assignment R C l ∧ length l = Nat.min R C ∧
    (∀ r c, (r < R)%nat → (c < C)%nat → mget g r c = if decide ((r, c) ∈ l) then 0 else -1) ∧
    (nonneg_entries m R C → ∀ l', assignment R C l' → length l' = Nat.min R C →
      cost (mget (finite_matrix m R C)) l ≤ cost (mget (finite_matrix m R C)) l').
Proof.
  apply solve_assigns.
Qed.

Lemma solve_optimal_witness :
  ∃ l, solve [[Fin 4; Fin 1; INFINITY]; [Fin 2; Fin 0; Fin 5]] 2 3 = Some [[-1; 0; -1]; [0; -1; -1]] ∧
    length l = 2%nat ∧ ∀ l', assignment 2 3 l' → length l' = 2%nat →
      cost (mget [[4; 1; 6]; [2; 0; 5]]) l ≤ cost (mget [[4; 1; 6]; [2; 0; 5]]) l'.
Proof.
  destruct (solve_optimal [[Fin 4; Fin 1; INFINITY]; [Fin 2; Fin 0; Fin 5]] 2 3) as (g & l & Hg & _ & Hlen & _ & Hopt).
  exists l. split; [vm_compute; reflexivity|]. split; [exact Hlen|]. apply Hopt.
  intros r c Hr Hc. destruct r as [|[|r]], c as [|[|[|c]]]; cbn; lia || exact I.
Defined.
