(* ===== verification/BlobTracker.v ===== *)
(** The blob tracker (plvblobtracker/Blob.h/.cpp, BlobTrack.h/.cpp,
    BlobTracker.h/.cpp): blobs found in one image are matched with the tracks
    of those before. *)
From S2P Require Export Munkres Util.

(** ** Blobs

    OpenCV computes the bounding rectangle, the area and the moments of a
    contour.  [contourArea] is twice the area, which is a whole number; of the
    moments only quotients are used, and they are whole numbers on a common
    scale. *)
Abbreviation Point := (Z * Z)%type.
Record Moments := mkMoments { m00 : Z; m10 : Z; m01 : Z }.
Class OpenCVContours := {
  contourArea : list Point → Z;
  boundingRect : list Point → Rect;
  moments : list Point → Moments
}.

Record Blob := mkBlob {
  b_frameNr : Z;
  b_contour : list Point;
  b_size : Z;
  b_cog : Point;
  b_boundingRect : Rect;
  b_valid : bool
}.
#[export] Instance Blob_inhabited : Inhabited Blob := populate (mkBlob 0 [] 0 (0, 0) (mkRect 0 0 0 0) false).

(** The divisions truncate; without area they have no result. *)
Definition new_Blob `{OpenCVContours} (frameNr : Z) (contour : list Point) : outcome Blob :=
  let m := moments contour in
  if bool_decide (m00 m = 0) then Abort UndefinedBehaviour
  else Ok (mkBlob frameNr contour (Z.abs (contourArea contour)) (Z.quot (m10 m) (m00 m), Z.quot (m01 m) (m00 m))
             (boundingRect contour) true).

Definition overlappingAreaRect (b other : Blob) (area : Rect) : bool * Rect :=
  let '(n, r) := overlappingArea (b_boundingRect b) (b_boundingRect other) area in (bool_decide (0 < n), r).
Definition rect_area (r : Rect) : Z := i32 (r_width r * r_height r).
Definition matchingArea (b other : Blob) : Z :=
  let '(some, area) := overlappingAreaRect b other (mkRect 0 0 0 0) in
  if negb some then 0 else rect_area area.

(** ** Tracks *)
Inductive PlvOpenCVBlobTrackState := BlobTrackBirth | BlobTrackNormal | BlobTrackLost | BlobTrackDead.
#[export] Instance state_eq_dec : EqDecision PlvOpenCVBlobTrackState.
Proof. solve_decision. Defined.

(** The drawing colour, the speed and the conversion factor are left out:
    nothing reads the last two. *)
Record BlobTrack := mkBlobTrack {
  t_id : Z;
  birthThreshold : Z;
  birthWindow : Z;
  dieThreshold : Z;
  historySize : Z;
  trackSize : Z;
  t_age : Z;
  t_state : PlvOpenCVBlobTrackState;
  history : list Blob;
  track : list Point
}.
#[export] Instance BlobTrack_inhabited : Inhabited BlobTrack := populate (mkBlobTrack 0 0 0 0 0 0 0 BlobTrackDead [] []).

(** BlobTrackData and BlobTrack each append the blob. *)
Definition new_BlobTrackData (id : Z) (blob : Blob) (birth window die hist tr : Z) : outcome BlobTrack :=
  if b_valid blob then Ok (mkBlobTrack id birth window die hist tr 0 BlobTrackBirth [blob] []) else Abort AssertFailed.
Definition new_BlobTrack (id : Z) (blob : Blob) (birth window die hist tr : Z) : outcome BlobTrack :=
  match new_BlobTrackData id blob birth window die hist tr with
  | Ok d => Ok (mkBlobTrack id (birthThreshold d) (birthWindow d) (dieThreshold d) hist tr 0 (t_state d) (history d ++ [blob]) (track d))
  | Throw e => Throw e
  | Abort f => Abort f
  end.

Definition getLastMeasurement (t : BlobTrack) : Blob := default inhabitant (last (history t)).

Definition set_state (st : PlvOpenCVBlobTrackState) (t : BlobTrack) : BlobTrack :=
  mkBlobTrack (t_id t) (birthThreshold t) (birthWindow t) (dieThreshold t) (historySize t) (trackSize t) (t_age t) st (history t) (track t).
Definition set_lists (h : list Blob) (p : list Point) (t : BlobTrack) : BlobTrack :=
  mkBlobTrack (t_id t) (birthThreshold t) (birthWindow t) (dieThreshold t) (historySize t) (trackSize t) (t_age t) (t_state t) h p.
Definition grow_older (t : BlobTrack) : BlobTrack :=
  mkBlobTrack (t_id t) (birthThreshold t) (birthWindow t) (dieThreshold t) (historySize t) (trackSize t) (u32 (t_age t + 1)) (t_state t) (history t) (track t).

Definition notMatched (frameNumber : Z) (t : BlobTrack) : BlobTrack :=
  let t1 := grow_older t in
  if bool_decide (dieThreshold t1 < u32 (frameNumber - b_frameNr (getLastMeasurement t1))) then set_state BlobTrackDead t1 else t1.

(** The loop over the birth window is empty, [count] stays 0. *)
Definition addMeasurement (blob : Blob) (t : BlobTrack) : BlobTrack :=
  let t1 := grow_older t in
  let h := history t1 ++ [blob] in
  let h1 := if bool_decide (historySize t1 < Z.of_nat (length h)) then tail h else h in
  let p := track t1 ++ [b_cog blob] in
  let p1 := if bool_decide (trackSize t1 < Z.of_nat (length p)) then tail p else p in
  let t2 := set_lists h1 p1 t1 in
  if bool_decide (t_state t2 = BlobTrackBirth) then
    let count := 0 in
    if bool_decide (birthThreshold t2 ≤ count) then set_state BlobTrackNormal t2 else t2
  else t2.

Definition matches (blob : Blob) (t : BlobTrack) : Z :=
  if bool_decide (t_state t = BlobTrackDead) then 0 else matchingArea blob (getLastMeasurement t).

(** ** BlobTracker *)
Record BlobTracker := mkBlobTracker { m_blobTracks : list BlobTrack; m_idCounter : Z }.

Definition new_BlobTracker : BlobTracker := mkBlobTracker [] 0.

(** The largest score less one.  It starts from the least positive [double],
    which is lost when one is subtracted: 0 stands for it. *)
Definition maxScore (blobs : list Blob) (tracks : list BlobTrack) : Z :=
  foldl (λ best t, foldl (λ best b, let score := matches b t in if bool_decide (best < score) then score else best) best blobs)
    0 tracks - 1.

Definition score_matrix (blobs : list Blob) (tracks : list BlobTrack) : grid Double :=
  let n := if bool_decide (length blobs < length tracks)%nat then length tracks else length blobs in
  tabulate n n (λ i j,
    if bool_decide (i < length tracks)%nat && bool_decide (j < length blobs)%nat then
      let score := matches (blobs !!! j) (tracks !!! i) in
      if bool_decide (0 < score) then Fin (maxScore blobs tracks - score) else INFINITY
    else INFINITY).

(** The last blob assigned to track [i]. *)
Definition assigned (m : grid Z) (i nblobs : nat) : option nat :=
  foldl (λ found j, if bool_decide (mget m i j = 0) then Some j else found) None (seq 0 nblobs).

Definition update_track (m : grid Z) (blobs : list Blob) (serial : Z) (i : nat) (t : BlobTrack) : BlobTrack :=
  match assigned m i (length blobs) with
  | Some j => addMeasurement (blobs !!! j) t
  | None => notMatched serial t
  end.

(** [matchedBlobs[j]] *)
Definition matchedBlob (m : grid Z) (ntracks nblobs : nat) (j : nat) : bool :=
  existsb (λ i, bool_decide (assigned m i nblobs = Some j)) (seq 0 ntracks).

(** getNewId and the constructor with its default arguments. *)
Fixpoint add_tracks (blobs : list Blob) (tr : BlobTracker) : outcome BlobTracker :=
  match blobs with
  | [] => Ok tr
  | b :: blobs' =>
      let id := u32 (m_idCounter tr + 1) in
      match new_BlobTrack id b 3 10 10 10 (2 ^ 31 - 1) with
      | Ok t => add_tracks blobs' (mkBlobTracker (m_blobTracks tr ++ [t]) id)
      | Throw e => Throw e
      | Abort f => Abort f
      end
  end.

Definition matchBlobs (serial : Z) (blobs : list Blob) (tr : BlobTracker) : outcome BlobTracker :=
  let tracks := m_blobTracks tr in
  let n := if bool_decide (length blobs < length tracks)%nat then length tracks else length blobs in
  match solve (score_matrix blobs tracks) n n with
  | None => Abort OutOfFuel
  | Some m =>
      let tracks' := imap (update_track m blobs serial) tracks in
      let rest := (blobs !!!.) <$> filter (λ j, matchedBlob m (length tracks) (length blobs) j = false) (seq 0 (length blobs)) in
      add_tracks rest (mkBlobTracker tracks' (m_idCounter tr))
  end.

(** deinit and stop. *)
Definition tracker_stop (tr : BlobTracker) : BlobTracker := mkBlobTracker [] (m_idCounter tr).

(** ** BlobDetector

    What [process] does with the contours that OpenCV finds, without the
    drawing; [m_minBlobSize] and [m_iterations] are given. *)
Fixpoint detect_blobs `{OpenCVContours} (iterations minBlobSize : Z) (l : list (list Point)) (acc : list Blob) : outcome (list Blob) :=
  match l with
  | [] => Ok acc
  | c :: l' =>
      match new_Blob iterations c with
      | Ok b => detect_blobs iterations minBlobSize l' (if bool_decide (2 * minBlobSize ≤ b_size b) then acc ++ [b] else acc)
      | Throw e => Throw e
      | Abort f => Abort f
      end
  end.
Definition detect `{OpenCVContours} (iterations minBlobSize : Z) (contours : list (list Point)) : outcome (list Blob * Z) :=
  match detect_blobs iterations minBlobSize contours [] with
  | Ok l => Ok (filter (λ b, ¬ b_size b < 2 * minBlobSize) l, u32 (iterations + 1))
  | Throw e => Throw e
  | Abort f => Abort f
  end.
Definition setMinBlobSize (size current : Z) : Z := if bool_decide (0 ≤ size) then size else current.
