(* ===== verification/BlobTheorems.v ===== *)
(** What the blob tracker does with the assignment: every blob that can be is
    given to a track, with or without overlap; tracks, counters and
    identifiers stay within their bounds. *)
From S2P Require Export BlobTracker MunkresTheorem.

(** ** One assignment *)
Section matching.
Implicit Types (m : grid Z) (l : list (nat * nat)) (tr : BlobTracker) (blobs : list Blob).

Lemma assigned_S m i n : assigned m i (S n) = if bool_decide (mget m i n = 0) then Some n else assigned m i n.
Proof. unfold assigned. by rewrite seq_S, foldl_app. Qed.

(** [m] has the pairs of [l] as zeros. *)
Definition zeros_of l R C m : Prop :=
  ∀ r c, (r < R)%nat → (c < C)%nat → mget m r c = if decide ((r, c) ∈ l) then 0 else -1.

Lemma zeros_of_zero l R C m r c : zeros_of l R C m → (r < R)%nat → (c < C)%nat → mget m r c = 0 ↔ (r, c) ∈ l.
Proof. intros Hm Hr Hc. rewrite (Hm r c Hr Hc). by case_decide. Qed.

Lemma pairs_inj_row l r c c' : NoDup l.*1 → (r, c) ∈ l → (r, c') ∈ l → c = c'.
Proof.
  intros Hnd H1 H2. apply list_elem_of_lookup in H1 as [i Hi], H2 as [j Hj].
  assert (i = j) as ->; [|congruence]. apply (NoDup_lookup l.*1 i j r); [done| |]; by rewrite list_lookup_fmap, ?Hi, ?Hj.
Qed.
Lemma pairs_inj_col l r r' c : NoDup l.*2 → (r, c) ∈ l → (r', c) ∈ l → r = r'.
Proof.
  intros Hnd H1 H2. apply list_elem_of_lookup in H1 as [i Hi], H2 as [j Hj].
  assert (i = j) as ->; [|congruence]. apply (NoDup_lookup l.*2 i j c); [done| |]; by rewrite list_lookup_fmap, ?Hi, ?Hj.
Qed.

Lemma assigned_spec l R C m i n : zeros_of l R C m → NoDup l.*1 → (i < R)%nat → (n ≤ C)%nat →
  match assigned m i n with
  | Some j => (j < n)%nat ∧ (i, j) ∈ l
  | None => ∀ j, (j < n)%nat → (i, j) ∉ l
  end.
Proof.
  intros Hm Hnd Hi. induction n as [|n IH]; intros Hn; [cbn; lia|]. rewrite assigned_S.
  pose proof (zeros_of_zero _ _ _ _ i n Hm Hi ltac:(lia)) as Hz. case_bool_decide as H0; [split; [lia|by apply Hz]|].
  specialize (IH ltac:(lia)). destruct (assigned m i n) as [j|]; [destruct IH; split; [lia|done]|].
  intros j Hj Hin. destruct (decide (j = n)) as [->|Hne]; [by apply H0, Hz|]. apply (IH j); [lia|done].
Qed.

Lemma assigned_Some l R C m i n j : zeros_of l R C m → NoDup l.*1 → (i < R)%nat → (n ≤ C)%nat →
  assigned m i n = Some j ↔ (j < n)%nat ∧ (i, j) ∈ l.
Proof.
  intros Hm Hnd Hi Hn. pose proof (assigned_spec _ _ _ _ _ _ Hm Hnd Hi Hn) as Hs. destruct (assigned m i n) as [j'|].
  - destruct Hs as [Hj' Hin']. split; [intros [= <-]; done|]. intros [Hj Hin]. f_equal. by eapply pairs_inj_row.
  - split; [done|]. intros [Hj Hin]. by apply (Hs j) in Hin.
Qed.

(** The pairs of a complete assignment within [T] rows and [B] columns. *)
Definition within (T B : nat) l : list (nat * nat) := filter (λ x, (x.1 < T)%nat ∧ (x.2 < B)%nat) l.

Lemma elem_of_within T B l r c : (r, c) ∈ within T B l ↔ (r, c) ∈ l ∧ (r < T)%nat ∧ (c < B)%nat.
Proof. unfold within. rewrite list_elem_of_filter. cbn. tauto. Qed.

Lemma within_assignment R C T B l : assignment R C l → assignment T B (within T B l).
Proof.
  intros [Hr Hc _ _]. assert (Hsub : within T B l `sublist_of` l) by apply sublist_filter.
  split.
  - apply (sublist_NoDup _ _ Hr). by apply fmap_sublist.
  - apply (sublist_NoDup _ _ Hc). by apply fmap_sublist.
  - intros r ([r' c'] & -> & H%elem_of_within)%list_elem_of_fmap. apply H.
  - intros c ([r' c'] & -> & H%elem_of_within)%list_elem_of_fmap. apply H.
Qed.

(** Filtering pairs by one side. *)
Lemma filter_project {A B} (f : A → B) (P : A → Prop) (Q : B → Prop) `{!∀ x, Decision (P x), !∀ y, Decision (Q y)} (k : list A) :
  (∀ x, x ∈ k → P x ↔ Q (f x)) → f <$> filter P k = filter Q (f <$> k).
Proof.
  induction k as [|x k IH]; intros Hk; [done|]. rewrite fmap_cons, !filter_cons.
  rewrite <-IH by (intros; apply Hk; by right). pose proof (Hk x ltac:(by left)) as Hx.
  destruct (decide (P x)), (decide (Q (f x))); [done|tauto..|done].
Qed.

Lemma filter_below_length (k : list nat) n T : k ≡ₚ seq 0 n → (T ≤ n)%nat → length (filter (λ i, (i < T)%nat) k) = T.
Proof.
  intros Hk HT. assert (Hp : filter (λ i, (i < T)%nat) k ≡ₚ seq 0 T); [|by rewrite Hp, length_seq].
  rewrite Hk. apply NoDup_Permutation; [apply NoDup_filter, NoDup_seq|apply NoDup_seq|].
  intros i. rewrite list_elem_of_filter, !elem_of_seq. lia.
Qed.

Lemma complete_perm (k : list nat) n : NoDup k → (∀ i, i ∈ k → (i < n)%nat) → length k = n → k ≡ₚ seq 0 n.
Proof.
  intros Hnd Hb Hlen. apply submseteq_length_Permutation; [|by rewrite length_seq, Hlen].
  apply NoDup_submseteq; [done|]. intros i Hi. apply elem_of_seq. specialize (Hb i Hi). lia.
Qed.

Lemma within_length n T B l : assignment n n l → length l = n → n = Nat.max T B → length (within T B l) = Nat.min T B.
Proof.
  intros [Hr Hc Hrb Hcb] Hlen Hn. destruct (decide (T ≤ B)%nat) as [HTB|HTB].
  - rewrite Nat.min_l by done. rewrite <-(length_fmap fst).
    assert (Heq : (within T B l).*1 = filter (λ i, (i < T)%nat) l.*1).
    { apply filter_project. intros [r c] Hin. cbn.
      assert (c < n)%nat by (apply Hcb, list_elem_of_fmap; by exists (r, c)). lia. }
    rewrite Heq. apply (filter_below_length _ n); [|lia]. apply complete_perm; [done..|by rewrite length_fmap].
  - rewrite Nat.min_r by lia. rewrite <-(length_fmap snd).
    assert (Heq : (within T B l).*2 = filter (λ i, (i < B)%nat) l.*2).
    { apply filter_project. intros [r c] Hin. cbn.
      assert (r < n)%nat by (apply Hrb, list_elem_of_fmap; by exists (r, c)). lia. }
    rewrite Heq. apply (filter_below_length _ n); [|lia]. apply complete_perm; [done..|by rewrite length_fmap].
Qed.
End matching.

(** ** New tracks *)
Section tracks.
Implicit Types (tr : BlobTracker) (t : BlobTrack) (b : Blob) (blobs : list Blob).

Definition fresh_track (id : Z) b : BlobTrack := mkBlobTrack id 3 10 10 10 (2 ^ 31 - 1) 0 BlobTrackBirth [b; b] [].

Definition fresh_tracks (k : Z) blobs : list BlobTrack := imap (λ i b, fresh_track (u32 (k + 1 + Z.of_nat i)) b) blobs.

Lemma u32_add k n : u32 (u32 k + n) = u32 (k + n).
Proof. unfold u32. by rewrite Z.add_mod_idemp_l. Qed.

Lemma add_tracks_ok blobs : ∀ tracks k, Forall (λ b, b_valid b = true) blobs →
  add_tracks blobs (mkBlobTracker tracks (u32 k)) =
    Ok (mkBlobTracker (tracks ++ fresh_tracks k blobs) (u32 (k + Z.of_nat (length blobs)))).
Proof.
  induction blobs as [|b blobs IH]; intros tracks k Hv.
  { cbn. by rewrite app_nil_r, Z.add_0_r. }
  apply Forall_cons in Hv as [Hb Hv]. cbn [add_tracks m_idCounter m_blobTracks]. unfold new_BlobTrack, new_BlobTrackData.
  rewrite Hb, u32_add, (IH _ (k + 1) Hv). cbn [length]. unfold fresh_tracks. cbn [imap]. rewrite Z.add_0_r, <-app_assoc.
  do 2 f_equal; [|f_equal; lia]. do 2 f_equal. apply imap_ext. intros i b' _. cbn. do 2 f_equal. lia.
Qed.

(** ** matchBlobs

    The result for pairs [l] of a track and a blob. *)
Record matched (serial : Z) blobs tr (l : list (nat * nat)) (k : Z) tr' : Prop := {
  md_pair i j t : m_blobTracks tr !! i = Some t → (i, j) ∈ l →
    m_blobTracks tr' !! i = Some (addMeasurement (blobs !!! j) t);
  md_single i t : m_blobTracks tr !! i = Some t → i ∉ l.*1 → m_blobTracks tr' !! i = Some (notMatched serial t);
  md_new : drop (length (m_blobTracks tr)) (m_blobTracks tr') =
    fresh_tracks k ((blobs !!!.) <$> filter (λ j, j ∉ l.*2) (seq 0 (length blobs)));
  md_length : length (m_blobTracks tr') = Nat.max (length (m_blobTracks tr)) (length blobs);
  md_counter : m_idCounter tr' = u32 (k + Z.of_nat (length blobs - length l))
}.

Lemma matchedBlob_spec l R C m T B j : zeros_of l R C m → NoDup l.*1 → (T ≤ R)%nat → (B ≤ C)%nat → (j < B)%nat →
  matchedBlob m T B j = true ↔ j ∈ (within T B l).*2.
Proof.
  intros Hm Hnd HT HB Hj. unfold matchedBlob. rewrite existsb_exists. split.
  - intros (i & Hi%list_elem_of_In%elem_of_seq & Ha%bool_decide_eq_true). apply list_elem_of_fmap. exists (i, j).
    split; [done|]. apply (assigned_Some l R C) in Ha as [_ Hin]; [|done..|lia|lia]. apply elem_of_within. split; [done|lia].
  - intros ([i j'] & -> & (Hin & Hi & _)%elem_of_within)%list_elem_of_fmap. exists i.
    split; [apply list_elem_of_In, elem_of_seq; lia|]. apply bool_decide_eq_true. cbn in Hj.
    apply (assigned_Some l R C); [done|done|lia|lia|done].
Qed.

Lemma filter_not_length (k : list nat) n : NoDup k → (∀ i, i ∈ k → (i < n)%nat) →
  length (filter (λ j, j ∉ k) (seq 0 n)) = (n - length k)%nat.
Proof.
  intros Hnd Hb. assert (Hp : k ++ filter (λ j, j ∉ k) (seq 0 n) ≡ₚ seq 0 n).
  { apply NoDup_Permutation; [|apply NoDup_seq|].
    - apply NoDup_app. split; [done|]. split; [|apply NoDup_filter, NoDup_seq]. intros i Hi [Hn _]%list_elem_of_filter. done.
    - intros i. rewrite elem_of_app, list_elem_of_filter, elem_of_seq. split.
      + intros [Hi|[_ Hi]]; [specialize (Hb i Hi); lia|lia].
      + intros Hi. destruct (decide (i ∈ k)); [by left|right; split; [done|lia]]. }
  apply Permutation_length in Hp. rewrite length_app, length_seq in Hp. lia.
Qed.

Lemma update_track_pair l R C m blobs serial i j t : zeros_of l R C m → NoDup l.*1 → (i < R)%nat → (length blobs ≤ C)%nat →
  (j < length blobs)%nat → (i, j) ∈ l → update_track m blobs serial i t = addMeasurement (blobs !!! j) t.
Proof.
  intros Hm Hnd Hi HB Hj Hin. unfold update_track.
  by rewrite (proj2 (assigned_Some l R C m i _ j Hm Hnd Hi HB) (conj Hj Hin)).
Qed.
Lemma update_track_single l R C m blobs serial i t : zeros_of l R C m → NoDup l.*1 → (i < R)%nat → (length blobs ≤ C)%nat →
  (∀ j, (j < length blobs)%nat → (i, j) ∉ l) → update_track m blobs serial i t = notMatched serial t.
Proof.
  intros Hm Hnd Hi HB Hn. unfold update_track. pose proof (assigned_spec l R C m i _ Hm Hnd Hi HB) as Hs.
  destruct (assigned m i (length blobs)) as [j|]; [|done]. destruct Hs as [Hj Hin]. by apply (Hn j) in Hin.
Qed.

Lemma matchBlobs_matched serial blobs tr k : Forall (λ b, b_valid b = true) blobs → m_idCounter tr = u32 k →
  ∃ tr' l, matchBlobs serial blobs tr = Ok tr' ∧ assignment (length (m_blobTracks tr)) (length blobs) l ∧
    length l = Nat.min (length (m_blobTracks tr)) (length blobs) ∧ matched serial blobs tr l k tr'.
Proof.
  intros Hv Hk. set (T := length (m_blobTracks tr)). set (B := length blobs). set (n := Nat.max T B).
  destruct (solve_assigns (score_matrix blobs (m_blobTracks tr)) n n) as (m & l & Hsolve & Has & Hlen & Hm & _).
  rewrite Nat.min_id in Hlen. pose proof (as_rows _ _ _ Has) as Hnd. change (zeros_of l n n m) in Hm.
  assert (Hn : (if bool_decide (B < T)%nat then T else B) = n) by (case_bool_decide; lia).
  pose proof (within_assignment n n T B l Has) as Has'.
  pose proof (within_length n T B l Has Hlen eq_refl) as Hwl.
  set (rest := (blobs !!!.) <$> filter (λ j, matchedBlob m T B j = false) (seq 0 B)).
  assert (Hrest : filter (λ j, matchedBlob m T B j = false) (seq 0 B) = filter (λ j, j ∉ (within T B l).*2) (seq 0 B)).
  { rewrite <-(list_fmap_id (filter _ (seq 0 B))) at 1. rewrite (filter_project id _ (λ j, j ∉ (within T B l).*2)).
    - by rewrite list_fmap_id.
    - intros j Hj%elem_of_seq. cbn. rewrite <-(matchedBlob_spec l n n m T B j Hm Hnd) by lia.
      by rewrite not_true_iff_false. }
  assert (Hrv : Forall (λ b, b_valid b = true) rest).
  { apply Forall_fmap, Forall_forall. intros j [_ Hj%elem_of_seq]%list_elem_of_filter.
    destruct (lookup_lt_is_Some_2 blobs j) as [b Hb]; [unfold B in Hj; lia|]. cbn. rewrite (list_lookup_total_correct _ _ _ Hb).
    rewrite Forall_lookup in Hv. by eapply Hv. }
  set (tracks' := imap (update_track m blobs serial) (m_blobTracks tr)).
  assert (Hlt : length tracks' = T) by apply length_imap.
  assert (Hlr : length rest = (B - Nat.min T B)%nat).
  { unfold rest. rewrite length_fmap, Hrest, filter_not_length; [by rewrite length_fmap, Hwl|apply Has'|apply Has']. }
  eexists _, (within T B l). split; [|split; [done|split; [done|]]].
  - unfold matchBlobs. fold T B. rewrite Hn, Hsolve. fold tracks' rest. rewrite Hk. by apply add_tracks_ok.
  - split; cbn [m_blobTracks m_idCounter]; fold T B.
    + intros i j t Ht (Hin & Hi & Hj)%elem_of_within. rewrite lookup_app_l by (rewrite Hlt; done).
      unfold tracks'. rewrite list_lookup_imap, Ht. cbn [fmap option_fmap option_map]. f_equal. apply (update_track_pair l n n); (done || lia).
    + intros i t Ht Hni. pose proof (lookup_lt_Some _ _ _ Ht) as Hi. rewrite lookup_app_l by (rewrite Hlt; done).
      unfold tracks'. rewrite list_lookup_imap, Ht. cbn [fmap option_fmap option_map]. f_equal. apply (update_track_single l n n); [done|done|unfold T in *; lia|lia|].
      intros j Hj Hin. apply Hni, list_elem_of_fmap. exists (i, j). split; [done|]. by apply elem_of_within.
    + rewrite drop_app_length' by done. unfold rest. by rewrite Hrest.
    + rewrite length_app, Hlt. unfold fresh_tracks. rewrite length_imap, Hlr. lia.
    + rewrite Hlr, Hwl. do 2 f_equal; lia.
Qed.
End tracks.

(** ** Runs of the tracker *)
Inductive tracker_op := Process (serial : Z) (blobs : list Blob) | Stop.

Definition tracker_step (op : tracker_op) (tr : BlobTracker) : outcome BlobTracker :=
  match op with Process serial blobs => matchBlobs serial blobs tr | Stop => Ok (tracker_stop tr) end.

Fixpoint tracker_run (ops : list tracker_op) (tr : BlobTracker) : outcome BlobTracker :=
  match ops with
  | [] => Ok tr
  | op :: ops' => match tracker_step op tr with Ok tr' => tracker_run ops' tr' | Throw e => Throw e | Abort f => Abort f end
  end.

(** Blobs that a detector made. *)
Definition op_ok (op : tracker_op) : Prop :=
  match op with Process _ blobs => Forall (λ b, b_valid b = true) blobs | Stop => True end.

Section invariant.
Implicit Types (tr : BlobTracker) (t : BlobTrack) (b : Blob) (blobs : list Blob).

(** A track is never [BlobTrackNormal] or [BlobTrackLost]. *)
Record track_ok t : Prop := {
  tk_state : t_state t = BlobTrackBirth ∨ t_state t = BlobTrackDead;
  tk_parameters : birthThreshold t = 3 ∧ dieThreshold t = 10 ∧ historySize t = 10 ∧ trackSize t = 2 ^ 31 - 1;
  tk_history : (1 ≤ length (history t) ≤ 10)%nat;
  tk_valid : Forall (λ b, b_valid b = true) (history t);
  tk_track : Z.of_nat (length (track t)) ≤ 2 ^ 31 - 1;
  tk_age : 0 ≤ t_age t < 2 ^ 32
}.

Record tracker_ok (k : Z) tr : Prop := {
  tr_tracks : Forall track_ok (m_blobTracks tr);
  tr_counter : m_idCounter tr = u32 k;
  tr_ids : t_id <$> m_blobTracks tr = u32 <$> seqZ (k - Z.of_nat (length (m_blobTracks tr)) + 1) (Z.of_nat (length (m_blobTracks tr)))
}.

Lemma fresh_track_ok id b : b_valid b = true → track_ok (fresh_track id b).
Proof. intros Hb. split; cbn; auto; lia. Qed.

Lemma notMatched_ok serial t : track_ok t → track_ok (notMatched serial t).
Proof.
  intros [Hs Hp Hh Hv Ht Ha]. unfold notMatched. case_bool_decide; split; cbn; auto; apply u32_range.
Qed.

Lemma bounded_push {A} (n : Z) (x : A) l : 0 < n → Z.of_nat (length l) ≤ n →
  Z.of_nat (length (if bool_decide (n < Z.of_nat (length (l ++ [x]))) then tail (l ++ [x]) else l ++ [x])) ≤ n.
Proof.
  intros Hn Hl. rewrite length_app. cbn [length]. case_bool_decide as Hd.
  - assert (Ht : length (tail (l ++ [x])) = length l); [|lia]. destruct l as [|y l]; [done|]. cbn. rewrite length_app. cbn. lia.
  - rewrite length_app. cbn. lia.
Qed.
Lemma push_nonempty {A} (p : bool) (x : A) l : (1 ≤ length l)%nat → (1 ≤ length (if p then tail (l ++ [x]) else l ++ [x]))%nat.
Proof. destruct l as [|y l]; cbn; [lia|]. destruct p; cbn; rewrite ?length_app; cbn; lia. Qed.
Lemma Forall_push {A} (P : A → Prop) (p : bool) x l : P x → Forall P l → Forall P (if p then tail (l ++ [x]) else l ++ [x]).
Proof.
  intros Hx Hl. assert (Ha : Forall P (l ++ [x])) by (by apply Forall_app; split; [|constructor]). destruct p; [|done].
  by apply Forall_tail.
Qed.

Lemma addMeasurement_ok b t : b_valid b = true → track_ok t → track_ok (addMeasurement b t).
Proof.
  intros Hb [Hs (Hbt & Hdt & Hhs & Hts) Hh Hv Ht Ha]. unfold addMeasurement. cbn -[app tail].
  rewrite Hhs, Hts, Hbt. rewrite (bool_decide_false (3 ≤ 0)) by lia.
  assert (Hk : track_ok (set_lists (if bool_decide (10 < Z.of_nat (length (history t ++ [b]))) then tail (history t ++ [b]) else history t ++ [b])
    (if bool_decide (2 ^ 31 - 1 < Z.of_nat (length (track t ++ [b_cog b]))) then tail (track t ++ [b_cog b]) else track t ++ [b_cog b]) (grow_older t))).
  { split; cbn -[app tail]; try done.
    - split; [apply push_nonempty; lia|]. pose proof (bounded_push 10 b (history t)). lia.
    - by apply Forall_push.
    - apply bounded_push; lia.
    - apply u32_range. }
  by destruct (bool_decide (t_state t = BlobTrackBirth)).
Qed.

Lemma seqZ_fresh_ids k blobs : t_id <$> fresh_tracks k blobs = u32 <$> seqZ (k + 1) (Z.of_nat (length blobs)).
Proof.
  unfold fresh_tracks. rewrite fmap_imap. unfold seqZ. rewrite Nat2Z.id, <-list_fmap_compose.
  apply list_eq. intros i. rewrite list_lookup_imap, list_lookup_fmap. destruct (blobs !! i) as [b|] eqn:Hb; cbn.
  - pose proof (lookup_lt_Some _ _ _ Hb) as Hi. rewrite lookup_seq_lt by done. cbn. do 2 f_equal. lia.
  - apply lookup_ge_None in Hb. by rewrite lookup_seq_ge.
Qed.

Lemma addMeasurement_id b t : t_id (addMeasurement b t) = t_id t.
Proof. unfold addMeasurement. by repeat case_match. Qed.
Lemma notMatched_id serial t : t_id (notMatched serial t) = t_id t.
Proof. unfold notMatched. by case_match. Qed.

(** ** Preservation *)
Lemma matched_tracks serial blobs tr l k tr' i t' : assignment (length (m_blobTracks tr)) (length blobs) l →
  matched serial blobs tr l k tr' → m_blobTracks tr' !! i = Some t' → (i < length (m_blobTracks tr))%nat →
  ∃ t, m_blobTracks tr !! i = Some t ∧
    ((∃ j, (i, j) ∈ l ∧ (j < length blobs)%nat ∧ t' = addMeasurement (blobs !!! j) t) ∨ t' = notMatched serial t).
Proof.
  intros Has Hm Ht' Hi. destruct (lookup_lt_is_Some_2 _ _ Hi) as [t Ht]. exists t. split; [done|].
  destruct (decide (i ∈ l.*1)) as [Hin|Hn].
  - apply list_elem_of_fmap in Hin as ([i' j] & -> & Hin). left. exists j. split; [done|]. split.
    + apply (as_col_bound _ _ _ Has), list_elem_of_fmap. by exists (i', j).
    + rewrite (md_pair _ _ _ _ _ _ Hm _ j t Ht Hin) in Ht'. congruence.
  - right. rewrite (md_single _ _ _ _ _ _ Hm _ t Ht Hn) in Ht'. congruence.
Qed.

Lemma valid_total blobs j : Forall (λ b, b_valid b = true) blobs → (j < length blobs)%nat → b_valid (blobs !!! j) = true.
Proof.
  intros Hv Hj. destruct (lookup_lt_is_Some_2 _ _ Hj) as [b Hb]. rewrite (list_lookup_total_correct _ _ _ Hb).
  rewrite Forall_lookup in Hv. by eapply Hv.
Qed.

Lemma fresh_tracks_ok k blobs : Forall (λ b, b_valid b = true) blobs → Forall track_ok (fresh_tracks k blobs).
Proof.
  intros Hv. unfold fresh_tracks. apply Forall_lookup. intros i t Ht. rewrite list_lookup_imap in Ht.
  apply fmap_Some in Ht as (b & Hb & ->). apply fresh_track_ok. rewrite Forall_lookup in Hv. by eapply Hv.
Qed.

Lemma matched_ok serial blobs tr l k tr' : Forall (λ b, b_valid b = true) blobs → tracker_ok k tr →
  assignment (length (m_blobTracks tr)) (length blobs) l → length l = Nat.min (length (m_blobTracks tr)) (length blobs) →
  matched serial blobs tr l k tr' → tracker_ok (k + Z.of_nat (length blobs - length l)) tr'.
Proof.
  intros Hv [Htr Hc Hids] Has Hlen Hm. pose proof Hm as [_ _ Hnew Hl Hcnt]. set (T := length (m_blobTracks tr)) in *.
  assert (Hsplit : m_blobTracks tr' = take T (m_blobTracks tr') ++ drop T (m_blobTracks tr')) by (by rewrite take_drop).
  assert (Hrest : Forall (λ b, b_valid b = true) ((blobs !!!.) <$> filter (λ j, j ∉ l.*2) (seq 0 (length blobs)))).
  { apply Forall_fmap, Forall_forall. intros j [_ Hj%elem_of_seq]%list_elem_of_filter. apply valid_total; [done|lia]. }
  assert (Hold : ∀ i t', m_blobTracks tr' !! i = Some t' → (i < T)%nat → ∃ t, m_blobTracks tr !! i = Some t ∧ track_ok t' ∧ t_id t' = t_id t).
  { intros i t' Ht' Hi. destruct (matched_tracks _ _ _ _ _ _ _ _ Has Hm Ht' Hi) as (t & Ht & Hcase). exists t. split; [done|].
    assert (Hok : track_ok t) by (rewrite Forall_lookup in Htr; by eapply Htr).
    destruct Hcase as [(j & _ & Hj & ->)| ->]; split;
      [apply addMeasurement_ok; [by apply valid_total|done]|apply addMeasurement_id|by apply notMatched_ok|apply notMatched_id]. }
  split; [|done|].
  - rewrite Hsplit. apply Forall_app. split; [|rewrite Hnew; by apply fresh_tracks_ok].
    apply Forall_lookup. intros i t' [Ht' Hi]%lookup_take_Some. by destruct (Hold i t' Ht' Hi) as (t & _ & ? & _).
  - assert (Hn : (length (m_blobTracks tr') = T + (length blobs - length l))%nat) by lia.
    rewrite Hn, Hsplit, fmap_app, Hnew, seqZ_fresh_ids, length_fmap, filter_not_length; [|apply Has|apply Has]. rewrite length_fmap.
    rewrite Nat2Z.inj_add, seqZ_app, fmap_app by lia.
    f_equal; [|f_equal; f_equal; lia].
    replace (k + Z.of_nat (length blobs - length l) - (Z.of_nat T + Z.of_nat (length blobs - length l)) + 1) with (k - Z.of_nat T + 1) by lia.
    rewrite <-Hids. apply list_eq. intros i. rewrite !list_lookup_fmap. destruct (decide (i < T)%nat) as [Hi|Hi].
    + rewrite lookup_take_lt by done. destruct (lookup_lt_is_Some_2 (m_blobTracks tr') i) as [t' Ht']; [lia|].
      destruct (Hold i t' Ht' Hi) as (t & Ht & _ & Hid). rewrite Ht', Ht. cbn. by rewrite Hid.
    + rewrite lookup_take_ge by lia. rewrite (proj2 (lookup_ge_None _ _)); [done|lia].
Qed.

Lemma tracker_step_ok op tr k : op_ok op → tracker_ok k tr →
  ∃ tr' k', tracker_step op tr = Ok tr' ∧ tracker_ok k' tr' ∧ k ≤ k'.
Proof.
  intros Hop Htr. destruct op as [serial blobs|].
  - destruct (matchBlobs_matched serial blobs tr k Hop (tr_counter _ _ Htr)) as (tr' & l & Hrun & Has & Hlen & Hm).
    exists tr', (k + Z.of_nat (length blobs - length l)). split_and!; [done|by eapply matched_ok|lia].
  - exists (tracker_stop tr), k. split_and!; [done| |done]. destruct Htr as [_ Hc _]. by split.
Qed.

Lemma tracker_run_ok ops : ∀ tr k, Forall op_ok ops → tracker_ok k tr →
  ∃ tr' k', tracker_run ops tr = Ok tr' ∧ tracker_ok k' tr' ∧ k ≤ k'.
Proof.
  induction ops as [|op ops IH]; intros tr k Hops Htr; [by exists tr, k|].
  apply Forall_cons in Hops as [Hop Hops]. destruct (tracker_step_ok op tr k Hop Htr) as (tr1 & k1 & Hrun & Htr1 & Hk).
  destruct (IH tr1 k1 Hops Htr1) as (tr' & k' & Hrun' & Htr' & Hk'). exists tr', k'. cbn. rewrite Hrun. split_and!; [done|done|lia].
Qed.
End invariant.

(** What a detector puts out is valid, of this image and large enough. *)
Lemma detect_ok `{OpenCVContours} iterations minBlobSize contours blobs it : detect iterations minBlobSize contours = Ok (blobs, it) →
  it = u32 (iterations + 1) ∧
  ∀ b, b ∈ blobs → b_valid b = true ∧ b_frameNr b = iterations ∧ b_contour b ∈ contours ∧ 2 * minBlobSize ≤ b_size b.
Proof.
  assert (Hloop : ∀ l acc bs, detect_blobs iterations minBlobSize l acc = Ok bs →
    ∀ b, b ∈ bs → b ∈ acc ∨ (b_valid b = true ∧ b_frameNr b = iterations ∧ b_contour b ∈ l ∧ 2 * minBlobSize ≤ b_size b)).
  { induction l as [|c l IH]; cbn [detect_blobs]; intros acc bs Hrun b Hb; [injection Hrun as <-; by left|].
    unfold new_Blob in Hrun. case_bool_decide as Hm; [done|]. destruct (IH _ _ Hrun b Hb) as [Hacc|(? & ? & ? & ?)];
      [|right; split_and!; [done|done|by right|done]].
    case_bool_decide as Hsz; [|by left]. apply elem_of_app in Hacc as [?|Heq%list_elem_of_singleton]; [by left|]. subst. right.
    split_and!; [done|done|by left|done]. }
  unfold detect. destruct (detect_blobs _ _ _ _) as [bs| |] eqn:Hrun; [|done..]. intros [= <- <-]. split; [done|].
  intros b [_ Hb]%list_elem_of_filter. destruct (Hloop _ _ _ Hrun b Hb) as [Hnil|Hok]; [by apply elem_of_nil in Hnil|done].
Qed.

(** ** Properties *)


(** C17: whatever images come in and however often the element is stopped, from
    a new tracker every call returns.  The tracks carry consecutive identifiers
    (modulo 2^32, so that none is used twice), keep between one and ten blobs,
    all valid, and are new or dead: none ever becomes normal. *)
Theorem tracker_runs ops : Forall op_ok ops →
  ∃ tr k, tracker_run ops new_BlobTracker = Ok tr ∧ tracker_ok k tr ∧
    (Z.of_nat (length (m_blobTracks tr)) ≤ 2 ^ 32 → NoDup (t_id <$> m_blobTracks tr)).
Proof.
  intros Hops. destruct (tracker_run_ok ops new_BlobTracker 0 Hops) as (tr & k & Hrun & Hok & _).
  { split; [constructor|done|done]. }
  exists tr, k. split_and!; [done|done|]. intros Hlen. rewrite (tr_ids _ _ Hok).
  apply NoDup_fmap_2_strong; [|apply NoDup_seqZ]. intros x y Hx%elem_of_seqZ Hy%elem_of_seqZ Heq. unfold u32 in Heq.
  assert (Hd : (x - y) mod 2 ^ 32 = 0) by (rewrite Zminus_mod, Heq, Z.sub_diag; done).
  apply Z.mod_divide in Hd as [q Hq]; [|done]. nia.
Qed.

(** Of two tracks that a single blob overlaps, the one that it overlaps by
    one pixel less is given the blob: the best score has cost -1, not 0, and the
    solver expects costs that are not negative. *)
Theorem smaller_overlap_wins serial b t1 t2 c k : 0 < k → matches b t1 = k + 1 → matches b t2 = k →
  matchBlobs serial [b] (mkBlobTracker [t1; t2] c) =
    Ok (mkBlobTracker [notMatched serial t1; addMeasurement b t2] c).
Proof.
  intros Hk H1 H2.
  assert (Hscore : score_matrix [b] [t1; t2] = [[Fin (-1); INFINITY]; [Fin 0; INFINITY]]).
  { assert (Hmax : maxScore [b] [t1; t2] = k).
    { unfold maxScore. cbn [foldl]. rewrite H1, H2. rewrite (bool_decide_true (0 < k + 1)) by lia.
      rewrite (bool_decide_false (k + 1 < k)) by lia. lia. }
    unfold score_matrix. rewrite Hmax.
    transitivity [[if bool_decide (0 < matches b t1) then Fin (k - matches b t1) else INFINITY; INFINITY];
                  [if bool_decide (0 < matches b t2) then Fin (k - matches b t2) else INFINITY; INFINITY]]; [reflexivity|].
    rewrite H1, H2.
    rewrite (bool_decide_true (0 < k + 1)), (bool_decide_true (0 < k)) by lia.
    by replace (k - (k + 1)) with (-1) by lia; replace (k - k) with 0 by lia. }
  unfold matchBlobs. cbn [m_blobTracks m_idCounter length]. rewrite Hscore.
  replace (solve _ _ _) with (Some [[-1; 0]; [0; -1]] : option (grid Z)) by (by vm_compute). reflexivity.
Qed.

(** ** Witnesses *)
Definition box (x y w h : Z) : Blob := mkBlob 0 [] (2 * w * h) (x, y) (mkRect x y w h) true.


Lemma tracker_runs_witness :
  ∃ tr, tracker_run [Process 0 [box 0 0 4 4; box 9 9 3 3]; Process 1 [box 1 1 4 4]; Stop; Process 2 [box 2 2 4 4]] new_BlobTracker = Ok tr ∧
    (t_id <$> m_blobTracks tr) = [3].
Proof.
  destruct (tracker_runs [Process 0 [box 0 0 4 4; box 9 9 3 3]; Process 1 [box 1 1 4 4]; Stop; Process 2 [box 2 2 4 4]])
    as (tr & k & Hrun & _).
  - repeat constructor.
  - exists tr. split; [exact Hrun|]. revert Hrun. vm_compute. intros Hrun. injection Hrun as <-. reflexivity.
Defined.

Lemma smaller_overlap_wins_witness :
  matches (box 0 0 5 1) (fresh_track 1 (box 0 0 5 1)) = 4 + 1 ∧ matches (box 0 0 5 1) (fresh_track 2 (box 1 0 9 1)) = 4 ∧
  matchBlobs 3 [box 0 0 5 1] (mkBlobTracker [fresh_track 1 (box 0 0 5 1); fresh_track 2 (box 1 0 9 1)] 2) =
    Ok (mkBlobTracker [notMatched 3 (fresh_track 1 (box 0 0 5 1)); addMeasurement (box 0 0 5 1) (fresh_track 2 (box 1 0 9 1))] 2).
Proof.
  split; [reflexivity|]. split; [reflexivity|]. apply (smaller_overlap_wins _ _ _ _ _ 4); [lia|reflexivity|reflexivity].
Defined.
