(* ===== verification/Camera.v ===== *)
(** The camera of plvopencv (OpenCVCamera.h/.cpp, CameraProducer.h/.cpp): one
    thread grabs frames in a loop, another starts, pauses and releases the
    camera.  Their steps interleave; a step is one access to what they share: a
    mutex, the condition, the state of the camera, the capture device. *)
From S2P Require Export Model.

(** ** The capture device

    What OpenCV's highgui does for a camera.  A captured image is copied; a
    frame without data is not valid. *)
Inductive CapProp := CV_CAP_PROP_FRAME_WIDTH | CV_CAP_PROP_FRAME_HEIGHT | CV_CAP_PROP_FPS.
Class HighGui := {
  CvCapture : Type;
  CamFrame : Type;
  frame_isValid : CamFrame → bool;
  cvCreateCameraCapture : Z → option CvCapture;
  cvGetCaptureProperty : CvCapture → CapProp → Z;
  cvSetCaptureProperty : CvCapture → CapProp → Z → CvCapture
}.

Inductive CameraState := CAM_UNINITIALIZED | CAM_INITIALIZED | CAM_RUNNING | CAM_PAUSED.
#[export] Instance CameraState_eq_dec : EqDecision CameraState.
Proof. solve_decision. Defined.

Inductive thread := Caller | Worker.
#[export] Instance thread_eq_dec : EqDecision thread.
Proof. solve_decision. Defined.

Section camera.
Context `{HighGui}.

(** ** Where the threads are

    In [run]: what comes next.  [Asleep] is inside [m_condition.wait], with
    whether it has been woken; [Finished] is a thread that does not run. *)
Inductive worker_pc :=
  | Finished
  | RunEntry              (** the assertions at the start of [run] *)
  | TestRunning           (** [m_state == CAM_RUNNING] of the loop *)
  | TestPaused            (** [|| m_state == CAM_PAUSED] *)
  | FrameLock             (** getFrame: [QMutexLocker lock( &m_opencv_mutex )] *)
  | FrameState            (** [m_state == CAM_UNINITIALIZED] *)
  | FrameGrab             (** [cvGrabFrame], [cvRetrieveFrame] *)
  | Emit (f : CamFrame)   (** [emit newFrame( frame )] *)
  | AfterFrame            (** [if( m_state == CAM_PAUSED )] *)
  | PauseLock             (** [m_mutex.lock()] *)
  | CondWait              (** [m_condition.wait( &m_mutex )] *)
  | Asleep (woken : bool)
  | CondRelock            (** the end of wait: the mutex is taken again *)
  | PauseUnlock.          (** [m_mutex.unlock()] *)

(** In the calls of the other thread. *)
Inductive caller_pc :=
  | Idle
  | InitLock (id : Z) | InitBody (id : Z)
  | StartLock | StartBody | StartThread | StartWake | StartUnlock
  | PauseCallLock | PauseBody | PauseCallUnlock
  | ReleaseLock | ReleaseBody | ReleaseWake | ReleaseUnlock | ReleaseRelock
  | ReleaseWait | ReleaseDeviceLock | ReleaseDevice | ReleaseDone.

Record OpenCVCamera := mkCamera {
  cam_id : Z;
  cam_state : CameraState;
  cam_mutex : option thread;
  cam_opencv_mutex : option thread;
  cam_device : option CvCapture;
  cam_imgCount : Z;
  cam_worker : worker_pc;
  cam_caller : caller_pc;
  cam_result : bool;            (** what the last call returned *)
  cam_frames : list CamFrame;   (** newFrame, the latest last *)
  cam_aborted : bool            (** an assertion has failed *)
}.

Definition set_camstate (st : CameraState) (s : OpenCVCamera) : OpenCVCamera :=
  mkCamera (cam_id s) st (cam_mutex s) (cam_opencv_mutex s) (cam_device s) (cam_imgCount s) (cam_worker s) (cam_caller s)
    (cam_result s) (cam_frames s) (cam_aborted s).
Definition set_mutex (o : option thread) (s : OpenCVCamera) : OpenCVCamera :=
  mkCamera (cam_id s) (cam_state s) o (cam_opencv_mutex s) (cam_device s) (cam_imgCount s) (cam_worker s) (cam_caller s)
    (cam_result s) (cam_frames s) (cam_aborted s).
Definition set_opencv_mutex (o : option thread) (s : OpenCVCamera) : OpenCVCamera :=
  mkCamera (cam_id s) (cam_state s) (cam_mutex s) o (cam_device s) (cam_imgCount s) (cam_worker s) (cam_caller s)
    (cam_result s) (cam_frames s) (cam_aborted s).
Definition set_device (id : Z) (d : option CvCapture) (b : bool) (s : OpenCVCamera) : OpenCVCamera :=
  mkCamera id (cam_state s) (cam_mutex s) (cam_opencv_mutex s) d (cam_imgCount s) (cam_worker s) (cam_caller s)
    b (cam_frames s) (cam_aborted s).
Definition set_worker (w : worker_pc) (s : OpenCVCamera) : OpenCVCamera :=
  mkCamera (cam_id s) (cam_state s) (cam_mutex s) (cam_opencv_mutex s) (cam_device s) (cam_imgCount s) w (cam_caller s)
    (cam_result s) (cam_frames s) (cam_aborted s).
Definition set_caller (c : caller_pc) (s : OpenCVCamera) : OpenCVCamera :=
  mkCamera (cam_id s) (cam_state s) (cam_mutex s) (cam_opencv_mutex s) (cam_device s) (cam_imgCount s) (cam_worker s) c
    (cam_result s) (cam_frames s) (cam_aborted s).
Definition count_image (s : OpenCVCamera) : OpenCVCamera :=
  mkCamera (cam_id s) (cam_state s) (cam_mutex s) (cam_opencv_mutex s) (cam_device s) (u32 (cam_imgCount s + 1)) (cam_worker s)
    (cam_caller s) (cam_result s) (cam_frames s) (cam_aborted s).
(** [if( frame.isValid() ) emit newFrame( frame )] *)
Definition emit_frame (f : CamFrame) (s : OpenCVCamera) : OpenCVCamera :=
  mkCamera (cam_id s) (cam_state s) (cam_mutex s) (cam_opencv_mutex s) (cam_device s) (cam_imgCount s) (cam_worker s)
    (cam_caller s) (cam_result s) (if frame_isValid f then cam_frames s ++ [f] else cam_frames s) (cam_aborted s).
Definition fail_assert (s : OpenCVCamera) : OpenCVCamera :=
  mkCamera (cam_id s) (cam_state s) (cam_mutex s) (cam_opencv_mutex s) (cam_device s) (cam_imgCount s) (cam_worker s)
    (cam_caller s) (cam_result s) (cam_frames s) true.

Definition new_OpenCVCamera : OpenCVCamera :=
  mkCamera 0 CAM_UNINITIALIZED None None None 0 Finished Idle true [] false.

(** A mutex is taken when it is free. *)
Definition lock_mutex (t : thread) (s : OpenCVCamera) : option OpenCVCamera :=
  match cam_mutex s with None => Some (set_mutex (Some t) s) | Some _ => None end.
Definition lock_opencv (t : thread) (s : OpenCVCamera) : option OpenCVCamera :=
  match cam_opencv_mutex s with None => Some (set_opencv_mutex (Some t) s) | Some _ => None end.

(** [m_condition.wakeOne()]: lost when nobody waits. *)
Definition wakeOne (s : OpenCVCamera) : OpenCVCamera :=
  match cam_worker s with Asleep _ => set_worker (Asleep true) s | _ => s end.

(** OpenCVCamera::run and getFrame; [r] is the image that is grabbed, None
    when grabbing fails. *)
Definition step_worker (r : option CamFrame) (s : OpenCVCamera) : option OpenCVCamera :=
  match cam_worker s with
  | Finished => None
  | RunEntry =>
      if bool_decide (cam_state s = CAM_UNINITIALIZED) then Some (fail_assert s)
      else match cam_device s with None => Some (fail_assert s) | Some _ => Some (set_worker TestRunning s) end
  | TestRunning => Some (set_worker (if bool_decide (cam_state s = CAM_RUNNING) then FrameLock else TestPaused) s)
  | TestPaused => Some (set_worker (if bool_decide (cam_state s = CAM_PAUSED) then FrameLock else Finished) s)
  | FrameLock => set_worker FrameState <$> lock_opencv Worker s
  | FrameState =>
      if bool_decide (cam_state s = CAM_UNINITIALIZED) then Some (set_worker Finished (set_opencv_mutex None s))
      else Some (set_worker FrameGrab s)
  | FrameGrab =>
      match r with
      | None => Some (set_worker Finished (set_opencv_mutex None s))
      | Some f => Some (set_worker (Emit f) (set_opencv_mutex None (count_image s)))
      end
  | Emit f => Some (set_worker AfterFrame (emit_frame f s))
  | AfterFrame => Some (set_worker (if bool_decide (cam_state s = CAM_PAUSED) then PauseLock else TestRunning) s)
  | PauseLock => set_worker CondWait <$> lock_mutex Worker s
  | CondWait => Some (set_worker (Asleep false) (set_mutex None s))
  | Asleep woken => if woken then Some (set_worker CondRelock s) else None
  | CondRelock => set_worker PauseUnlock <$> lock_mutex Worker s
  | PauseUnlock => Some (set_worker TestRunning (set_mutex None s))
  end.

(** setFPS, width, height *)
Definition cam_width (d : CvCapture) : Z := cvGetCaptureProperty d CV_CAP_PROP_FRAME_WIDTH.
Definition cam_height (d : CvCapture) : Z := cvGetCaptureProperty d CV_CAP_PROP_FRAME_HEIGHT.
Definition setFPS (value : Z) (d : CvCapture) : outcome CvCapture :=
  if bool_decide (0 ≤ value) then Ok (cvSetCaptureProperty d CV_CAP_PROP_FPS value) else Abort AssertFailed.

(** setDimensions: only the width is set. *)
Definition setDimensions (w h : Z) (d : CvCapture) : outcome (bool * CvCapture) :=
  if bool_decide (0 < w) && bool_decide (0 < h) then
    if bool_decide (w * 3 / 4 ≠ h) then Ok (false, d)
    else
      let d' := cvSetCaptureProperty d CV_CAP_PROP_FRAME_WIDTH w in
      if bool_decide (cam_width d' ≠ w) || bool_decide (cam_height d' ≠ h) then Ok (false, d') else Ok (true, d')
  else Abort AssertFailed.

(** init, start, pause and release. *)
Definition step_caller (s : OpenCVCamera) : option OpenCVCamera :=
  match cam_caller s with
  | Idle => None
  | InitLock id => set_caller (InitBody id) <$> lock_opencv Caller s
  | InitBody id =>
      match cvCreateCameraCapture id with
      | None => Some (set_caller Idle (set_opencv_mutex None (set_device id None false s)))
      | Some d =>
          match setFPS 30 d with
          | Ok d' => Some (set_caller Idle (set_opencv_mutex None (set_camstate CAM_INITIALIZED (set_device id (Some d') true s))))
          | _ => Some (fail_assert s)
          end
      end
  | StartLock => set_caller StartBody <$> lock_mutex Caller s
  | StartBody =>
      match cam_state s with
      | CAM_UNINITIALIZED => Some (set_caller StartUnlock s)
      | CAM_INITIALIZED => Some (set_caller StartThread (set_camstate CAM_RUNNING s))
      | CAM_RUNNING => Some (set_caller StartUnlock s)
      | CAM_PAUSED => Some (set_caller StartWake (set_camstate CAM_RUNNING s))
      end
  | StartThread =>  (* QThread::start: nothing when the thread runs *)
      Some (set_caller StartUnlock (match cam_worker s with Finished => set_worker RunEntry s | _ => s end))
  | StartWake => Some (set_caller StartUnlock (wakeOne s))
  | StartUnlock => Some (set_caller Idle (set_mutex None s))
  | PauseCallLock => set_caller PauseBody <$> lock_mutex Caller s
  | PauseBody => Some (set_caller PauseCallUnlock (if bool_decide (cam_state s = CAM_RUNNING) then set_camstate CAM_PAUSED s else s))
  | PauseCallUnlock => Some (set_caller Idle (set_mutex None s))
  | ReleaseLock => set_caller ReleaseBody <$> lock_mutex Caller s
  | ReleaseBody =>
      Some (set_caller (match cam_state s with
        | CAM_PAUSED => ReleaseWake
        | CAM_RUNNING => ReleaseWait
        | CAM_INITIALIZED => ReleaseDeviceLock
        | CAM_UNINITIALIZED => ReleaseDone
        end) (set_camstate CAM_UNINITIALIZED s))
  | ReleaseWake => Some (set_caller ReleaseUnlock (wakeOne s))
  | ReleaseUnlock => Some (set_caller ReleaseRelock (set_mutex None s))
  | ReleaseRelock => set_caller ReleaseWait <$> lock_mutex Caller s
  | ReleaseWait =>  (* QThread::wait *)
      match cam_worker s with Finished => Some (set_caller ReleaseDeviceLock s) | _ => None end
  | ReleaseDeviceLock => set_caller ReleaseDevice <$> lock_opencv Caller s
  | ReleaseDevice => Some (set_caller ReleaseDone (set_opencv_mutex None (set_device (cam_id s) None (cam_result s) s)))
  | ReleaseDone => Some (set_caller Idle (set_mutex None s))
  end.

(** ** Interleaving

    The producer calls init only on a camera that is not initialised: after its
    constructor or after release. *)
Inductive camera_call := CallInit (id : Z) | CallStart | CallPause | CallRelease.

Definition begin_call (op : camera_call) (s : OpenCVCamera) : option OpenCVCamera :=
  match cam_caller s with
  | Idle =>
      match op with
      | CallInit id => if bool_decide (cam_state s = CAM_UNINITIALIZED) then Some (set_caller (InitLock id) s) else None
      | CallStart => Some (set_caller StartLock s)
      | CallPause => Some (set_caller PauseCallLock s)
      | CallRelease => Some (set_caller ReleaseLock s)
      end
  | _ => None
  end.

Inductive label := Call (op : camera_call) | CallerStep | WorkerStep (r : option CamFrame).

Definition camera_step (l : label) (s : OpenCVCamera) : option OpenCVCamera :=
  if cam_aborted s then None
  else match l with
  | Call op => begin_call op s
  | CallerStep => step_caller s
  | WorkerStep r => step_worker r s
  end.

Fixpoint camera_run (ls : list label) (s : OpenCVCamera) : option OpenCVCamera :=
  match ls with [] => Some s | l :: ls' => camera_step l s ≫= camera_run ls' end.
End camera.

(** ** CameraProducer

    The frames that have come from the camera and have not been produced. *)
Section producer.
Context `{HighGui}.

Record CameraProducer := mkCameraProducer { cp_frames : list CamFrame; cp_maxBufferSize : Z }.

Definition new_CameraProducer : CameraProducer := mkCameraProducer [] 3.

Definition cp_newFrame (frame : CamFrame) (p : CameraProducer) : CameraProducer :=
  let l := cp_frames p ++ [frame] in
  mkCameraProducer (if bool_decide (cp_maxBufferSize p < Z.of_nat (length l)) then tail l else l) (cp_maxBufferSize p).
Definition cp_readyToProduce (p : CameraProducer) : bool := bool_decide (cp_frames p ≠ []).
Definition cp_produce (p : CameraProducer) : outcome (CamFrame * CameraProducer) :=
  match cp_frames p with
  | [] => Abort AssertFailed
  | f :: l => Ok (f, mkCameraProducer l (cp_maxBufferSize p))
  end.
End producer.
