(* ===== verification/CameraTheorems.v ===== *)
(** The camera: the device is never used after it was released whatever the
    interleaving, and the interleavings in which its threads wait for each other. *)
From S2P Require Export Camera.

Section safety.
Context `{HighGui}.
Implicit Types s : OpenCVCamera.

(** ** Who holds the mutexes *)
Definition caller_holds (c : caller_pc) : bool :=
  match c with
  | StartBody | StartThread | StartWake | StartUnlock | PauseBody | PauseCallUnlock
  | ReleaseBody | ReleaseWake | ReleaseUnlock | ReleaseWait | ReleaseDeviceLock | ReleaseDevice | ReleaseDone => true
  | _ => false
  end.
Definition worker_holds (w : worker_pc) : bool := match w with CondWait | PauseUnlock => true | _ => false end.
Definition caller_holds_device (c : caller_pc) : bool := match c with InitBody _ | ReleaseDevice => true | _ => false end.
Definition worker_holds_device (w : worker_pc) : bool := match w with FrameState | FrameGrab => true | _ => false end.

Definition owner (c w : bool) : option thread := if c then Some Caller else if w then Some Worker else None.

Definition closed s : Prop := cam_worker s = Finished ∧ cam_device s = None.

(** What each place in a call knows. *)
Definition caller_ok s : Prop :=
  match cam_caller s with
  | InitLock _ | InitBody _ => cam_state s = CAM_UNINITIALIZED ∧ closed s
  | StartThread => cam_state s = CAM_RUNNING ∧ cam_worker s = Finished
  | StartWake => cam_state s = CAM_RUNNING
  | ReleaseWake | ReleaseUnlock | ReleaseRelock | ReleaseWait => cam_state s = CAM_UNINITIALIZED ∧ cam_device s ≠ None
  | ReleaseDeviceLock | ReleaseDevice => cam_state s = CAM_UNINITIALIZED ∧ cam_worker s = Finished
  | ReleaseDone => cam_state s = CAM_UNINITIALIZED ∧ closed s
  | _ => cam_state s = CAM_UNINITIALIZED → closed s
  end.

Record camera_inv s : Prop := {
  ci_mutex : cam_mutex s = owner (caller_holds (cam_caller s)) (worker_holds (cam_worker s));
  ci_exclusive : caller_holds (cam_caller s) && worker_holds (cam_worker s) = false;
  ci_opencv : cam_opencv_mutex s = owner (caller_holds_device (cam_caller s)) (worker_holds_device (cam_worker s));
  ci_device_exclusive : caller_holds_device (cam_caller s) && worker_holds_device (cam_worker s) = false;
  ci_worker : cam_worker s ≠ Finished → cam_device s ≠ None;
  ci_state : cam_state s ≠ CAM_UNINITIALIZED → cam_device s ≠ None;
  ci_initialized : cam_state s = CAM_INITIALIZED → cam_worker s = Finished;
  ci_caller : caller_ok s
}.

Lemma new_camera_inv : camera_inv new_OpenCVCamera.
Proof. by split. Qed.

Ltac camera_cases Hs :=
  repeat match type of Hs with
  | Some _ = Some _ => injection Hs as <-
  | None = Some _ => discriminate Hs
  | _ <$> _ = Some _ => apply fmap_Some in Hs as (? & Hs & ->)
  | context [match ?x with _ => _ end] => destruct x eqn:?
  end.

(** A place in a call that does not hold for what the worker does is left as it
    was. *)
Ltac camera_done c := first
  [ done | congruence | tauto
  | unfold caller_ok, closed, owner in *; destruct c; cbn in *; first [done | congruence | intuition congruence] ].

Lemma worker_inv r s s' : camera_inv s → step_worker r s = Some s' → camera_inv s'.
Proof.
  intros [H1 H2 H3 H4 H5 H6 H7 H8] Hs. destruct s as [id st mx cx dev n w c res fr ab].
  unfold step_worker, lock_mutex, lock_opencv in Hs. cbn in *.
  destruct w as [| | | | | | |f| | | |woken| |]; camera_cases Hs; repeat case_bool_decide; split; cbn in *.
  all: try camera_done c.
Qed.

Lemma caller_inv s s' : camera_inv s → step_caller s = Some s' → camera_inv s'.
Proof.
  intros [H1 H2 H3 H4 H5 H6 H7 H8] Hs. destruct s as [id st mx cx dev n w c res fr ab].
  unfold step_caller, lock_mutex, lock_opencv, wakeOne in Hs. cbn in *.
  destruct c; camera_cases Hs; repeat case_bool_decide;
    try match goal with |- context [match st with _ => _ end] => destruct st end; split; cbn in *.
  all: try camera_done w.
Qed.

Lemma call_inv op s s' : camera_inv s → begin_call op s = Some s' → camera_inv s'.
Proof.
  intros [H1 H2 H3 H4 H5 H6 H7 H8] Hs. destruct s as [id st mx cx dev n w c res fr ab].
  unfold begin_call in Hs. cbn in *. destruct c; try discriminate Hs.
  destruct op; camera_cases Hs; repeat case_bool_decide; split; cbn in *.
  all: try camera_done w.
Qed.

Lemma camera_step_inv l s s' : camera_inv s → camera_step l s = Some s' → camera_inv s'.
Proof.
  intros Hi. unfold camera_step. destruct (cam_aborted s); [done|]. destruct l; [by apply call_inv|by apply caller_inv|by apply worker_inv].
Qed.

Lemma camera_run_inv ls : ∀ s s', camera_inv s → camera_run ls s = Some s' → camera_inv s'.
Proof.
  induction ls as [|l ls IH]; intros s s' Hi; cbn; [by intros [= <-]|].
  intros (s1 & Hstep & Hrun)%bind_Some. by eapply IH, Hrun; eapply camera_step_inv.
Qed.
End safety.

Section theorems.
Context `{HighGui}.
Implicit Types s : OpenCVCamera.

(** ** Safety *)

(** C11: however the calls of the producer and the steps of the camera thread
    interleave, the thread only grabs from an open device and while it holds the
    device mutex, no mutex is held twice, and when release has returned the
    device is closed and the thread has ended. *)
Theorem camera_device_safe ls s : camera_run ls new_OpenCVCamera = Some s →
  (cam_worker s = FrameGrab → cam_device s ≠ None ∧ cam_opencv_mutex s = Some Worker) ∧
  (caller_holds (cam_caller s) && worker_holds (cam_worker s) = false) ∧
  (caller_holds_device (cam_caller s) && worker_holds_device (cam_worker s) = false) ∧
  (cam_caller s = Idle → cam_state s = CAM_UNINITIALIZED → cam_worker s = Finished ∧ cam_device s = None).
Proof.
  intros Hrun. pose proof (camera_run_inv ls _ _ new_camera_inv Hrun) as [Hm Hx Ho Hy Hw _ _ Hc]. split_and!; [|done|done|].
  - intros Hg. split; [apply Hw; by rewrite Hg|]. rewrite Hg in Ho, Hy. rewrite Ho.
    by destruct (caller_holds_device (cam_caller s)).
  - intros Hi. unfold caller_ok in Hc. by rewrite Hi in Hc.
Qed.

(** ** Schedules *)
Definition calls (ls : list label) : list camera_call := omap (λ l, match l with Call op => Some op | _ => None end) ls.

(** init and start; then the thread up to its first image, and up to the next
    look at the state. *)
Definition opened (id : Z) : list label := [Call (CallInit id); CallerStep; CallerStep].
Definition started : list label := [Call CallStart; CallerStep; CallerStep; CallerStep; CallerStep].
Definition one_frame (f : CamFrame) : list label := repeat (WorkerStep (Some f)) 6.
Definition paused : list label := [Call CallPause; CallerStep; CallerStep; CallerStep].

Lemma run_cons l ls s s1 : camera_step l s = Some s1 → camera_run (l :: ls) s = camera_run ls s1.
Proof. intros Hs. cbn [camera_run]. by rewrite Hs. Qed.
Lemma run_opened id d ls : cvCreateCameraCapture id = Some d →
  camera_run (opened id ++ ls) new_OpenCVCamera =
  camera_run ls (mkCamera id CAM_INITIALIZED None None (Some (cvSetCaptureProperty d CV_CAP_PROP_FPS 30)) 0 Finished Idle true [] false).
Proof.
  intros Hd. unfold opened. cbn [app]. do 2 erewrite run_cons by reflexivity. apply run_cons.
  unfold camera_step, step_caller. cbn [cam_aborted cam_caller set_caller set_opencv_mutex]. by rewrite Hd.
Qed.

(** C33: release, as the producer calls it, need not return.  After a pause it
    wakes the thread and waits for it while it holds the mutex that the thread
    needs to go on; right after start the thread finds the state already reset
    and fails its assertion. *)
Theorem camera_release_fails id d (f : CamFrame) : cvCreateCameraCapture id = Some d →
  (∃ ls s, camera_run ls new_OpenCVCamera = Some s ∧ calls ls = [CallInit id; CallStart; CallPause; CallRelease] ∧
    cam_caller s = ReleaseWait ∧ cam_worker s = CondRelock ∧ cam_aborted s = false ∧ ∀ l, camera_step l s = None) ∧
  (∃ ls s, camera_run ls new_OpenCVCamera = Some s ∧ calls ls = [CallInit id; CallStart; CallRelease] ∧ cam_aborted s = true).
Proof.
  intros Hd. split.
  - exists (opened id ++ started ++ one_frame f ++ paused ++ repeat (WorkerStep None) 3 ++
      [Call CallRelease; CallerStep; CallerStep; CallerStep; CallerStep; WorkerStep None; CallerStep]).
    exists (mkCamera id CAM_UNINITIALIZED (Some Caller) None (Some (cvSetCaptureProperty d CV_CAP_PROP_FPS 30)) 1 CondRelock ReleaseWait true
      (if frame_isValid f then [f] else []) false).
    split; [rewrite (run_opened _ _ _ Hd); by vm_compute|]. split_and!; try done. by intros [[]| |].
  - exists (opened id ++ started ++ [Call CallRelease; CallerStep; CallerStep; WorkerStep None]).
    exists (mkCamera id CAM_UNINITIALIZED (Some Caller) None (Some (cvSetCaptureProperty d CV_CAP_PROP_FPS 30)) 0 RunEntry ReleaseWait true [] true).
    split; [rewrite (run_opened _ _ _ Hd); by vm_compute|]. by split.
Qed.

(** ** A lost wake-up *)

(** The camera runs, but its thread sleeps. *)
Definition stuck s : Prop :=
  cam_state s = CAM_RUNNING ∧ cam_worker s = Asleep false ∧
  match cam_caller s with Idle | StartLock | StartBody | StartUnlock => True | _ => False end.

Lemma asleep_step l s s' : stuck s → (∀ op, l = Call op → op = CallStart) → camera_step l s = Some s' →
  stuck s' ∧ cam_frames s' = cam_frames s.
Proof.
  intros (Hst & Hw & Hc) Hl. destruct s as [id st mx cx dev n w c res fr ab]. cbn in *. subst. unfold camera_step. cbn.
  destruct ab; [done|]. destruct l as [op| |r]; [|destruct c; done || idtac|done].
  - specialize (Hl op eq_refl) as ->. destruct c; done || (intros [= <-]; done).
  - unfold step_caller, lock_mutex. cbn. destruct mx; [done|]. by intros [= <-].
  - by intros [= <-].
  - by intros [= <-].
Qed.

Lemma asleep_run ls : ∀ s s', stuck s → Forall (λ op, op = CallStart) (calls ls) → camera_run ls s = Some s' →
  stuck s' ∧ cam_frames s' = cam_frames s.
Proof.
  induction ls as [|l ls IH]; intros s s' Hs Hls; cbn; [by intros [= <-]|].
  intros (s1 & Hstep & Hrun)%bind_Some.
  assert (Hl : (∀ op, l = Call op → op = CallStart) ∧ Forall (λ op, op = CallStart) (calls ls)).
  { destruct l as [op| |r]; [|by split..]. cbn in Hls. apply Forall_cons in Hls as [-> Hls]. split; [by intros ? [= <-]|done]. }
  destruct Hl as [Hl Hls']. destruct (asleep_step l s s1 Hs Hl Hstep) as [Hs1 Hf1].
  destruct (IH s1 s' Hs1 Hls' Hrun) as [Hs' Hf']. split; [done|congruence].
Qed.

(** A start that follows a pause closely can be lost: the thread has seen
    the pause but does not wait yet when start wakes it.  The camera then counts
    as running while its thread sleeps, and no further start ever brings another
    frame. *)
Theorem camera_wakeup_lost id d (f : CamFrame) : cvCreateCameraCapture id = Some d →
  ∃ ls s, camera_run ls new_OpenCVCamera = Some s ∧ calls ls = [CallInit id; CallStart; CallPause; CallStart] ∧
    cam_caller s = Idle ∧ cam_state s = CAM_RUNNING ∧ cam_worker s = Asleep false ∧
    ∀ ls' s', Forall (λ op, op = CallStart) (calls ls') → camera_run ls' s = Some s' →
      cam_state s' = CAM_RUNNING ∧ cam_worker s' = Asleep false ∧ cam_frames s' = cam_frames s.
Proof.
  intros Hd. exists (opened id ++ started ++ one_frame f ++ paused ++ [WorkerStep None] ++ started ++ repeat (WorkerStep None) 2).
  exists (mkCamera id CAM_RUNNING None None (Some (cvSetCaptureProperty d CV_CAP_PROP_FPS 30)) 1 (Asleep false) Idle true (if frame_isValid f then [f] else []) false).
  split; [rewrite (run_opened _ _ _ Hd); by vm_compute|]. split_and!; try done.
  intros ls' s' Hls Hrun. apply asleep_run in Hrun as [(? & ? & _) ?]; [done| |done]. by repeat split.
Qed.

(** ** The buffer of the producer *)
Inductive producer_op := NewFrame (f : CamFrame) | Produce.

(** Frames come in, and the pipeline produces when the producer is ready. *)
Fixpoint producer_run (ops : list producer_op) (p : CameraProducer) : outcome (list CamFrame * CameraProducer) :=
  match ops with
  | [] => Ok ([], p)
  | NewFrame f :: ops' => producer_run ops' (cp_newFrame f p)
  | Produce :: ops' =>
      if cp_readyToProduce p then
        match cp_produce p with
        | Ok (f, p') => match producer_run ops' p' with Ok (l, q) => Ok (f :: l, q) | Throw e => Throw e | Abort x => Abort x end
        | Throw e => Throw e
        | Abort x => Abort x
        end
      else producer_run ops' p
  end.

Definition received (ops : list producer_op) : list CamFrame :=
  omap (λ op, match op with NewFrame f => Some f | Produce => None end) ops.

Lemma tail_sublist {A} (l : list A) : tail l `sublist_of` l.
Proof. destruct l; [constructor|by constructor]. Qed.

Lemma producer_run_frames ops : ∀ p, 0 < cp_maxBufferSize p → Z.of_nat (length (cp_frames p)) ≤ cp_maxBufferSize p →
  ∃ out p', producer_run ops p = Ok (out, p') ∧ out ++ cp_frames p' `sublist_of` cp_frames p ++ received ops ∧
    cp_maxBufferSize p' = cp_maxBufferSize p ∧ Z.of_nat (length (cp_frames p')) ≤ cp_maxBufferSize p.
Proof.
  induction ops as [|[f|] ops IH]; intros p Hpos Hlen; cbn [producer_run].
  - exists [], p. split_and!; [done|by rewrite app_nil_r|done|done].
  - set (l := cp_frames p ++ [f]). assert (Hl : length l = S (length (cp_frames p))) by (unfold l; rewrite length_app; cbn; lia).
    destruct (IH (cp_newFrame f p)) as (out & p' & Hrun & Hsub & Hmax & Hb); [done| |].
    { unfold cp_newFrame. cbn -[app tail]. fold l. case_bool_decide; [|lia]. destruct l; cbn in *; lia. }
    exists out, p'. split_and!; [done| |done|done]. etrans; [exact Hsub|].
    assert (Hr : cp_frames p ++ received (NewFrame f :: ops) = l ++ received ops) by (unfold l; by rewrite <-app_assoc).
    rewrite Hr. unfold cp_newFrame. cbn [cp_frames]. fold l.
    apply sublist_app; [|reflexivity]. case_bool_decide; [apply tail_sublist|reflexivity].
  - unfold cp_readyToProduce, cp_produce. destruct (cp_frames p) as [|f l] eqn:Hf; cbn.
    + destruct (IH p) as (out & p' & Hrun & Hsub & Hrest); [done|by rewrite Hf|]. exists out, p'. by rewrite Hf in Hsub.
    + destruct (IH (mkCameraProducer l (cp_maxBufferSize p))) as (out & p' & Hrun & Hsub & Hmax & Hb); [done|cbn in *; lia|].
      exists (f :: out), p'. rewrite Hrun. split_and!; [done|by constructor|done|done].
Qed.
End theorems.

(** ** Witnesses *)
Definition test_highgui : HighGui := {|
  CvCapture := unit; CamFrame := nat; frame_isValid _ := true;
  cvCreateCameraCapture id := if bool_decide (id = 0) then Some tt else None;
  cvGetCaptureProperty _ p := match p with CV_CAP_PROP_FRAME_WIDTH => 640 | CV_CAP_PROP_FRAME_HEIGHT => 480 | CV_CAP_PROP_FPS => 30 end;
  cvSetCaptureProperty d _ _ := d
|}.
#[local] Existing Instance test_highgui.

Lemma camera_device_safe_witness :
  ∃ s, camera_run (opened 0 ++ started ++ repeat (WorkerStep None) 4) new_OpenCVCamera = Some s ∧ cam_worker s = FrameGrab ∧ cam_device s ≠ None.
Proof.
  eexists. split; [vm_compute; reflexivity|]. split; [reflexivity|].
  eapply (camera_device_safe (opened 0 ++ started ++ repeat (WorkerStep None) 4)); [vm_compute; reflexivity|reflexivity].
Defined.
Lemma camera_release_fails_witness :
  ∃ ls s, camera_run ls new_OpenCVCamera = Some s ∧ cam_caller s = ReleaseWait ∧ ∀ l, camera_step l s = None.
Proof.
  destruct (camera_release_fails (H := test_highgui) 0 tt 1%nat) as [(ls & s & Hrun & _ & Hc & _ & _ & Hl) _]; [reflexivity|]. by exists ls, s.
Defined.
Lemma camera_wakeup_lost_witness :
  ∃ ls s, camera_run ls new_OpenCVCamera = Some s ∧ cam_state s = CAM_RUNNING ∧ cam_worker s = Asleep false.
Proof.
  destruct (camera_wakeup_lost (H := test_highgui) 0 tt 1%nat) as (ls & s & Hrun & _ & _ & Hst & Hw & _); [reflexivity|]. by exists ls, s.
Defined.
