(* ===== verification/ImageElements.v ===== *)
(** Elements of plvopencv with a state of their own: Trigger, DelayImage,
    Snapshot, Average, GaussianSmooth, Stitch, ImageDirectoryProducer,
    VideoProducer.  A call of [process] or [produce] takes what it reads from
    its pins and returns what it puts. *)
From S2P Require Export Matrix Util.

(** ** Trigger.cpp

    The constructor does not initialise [m_received]. *)
Record Trigger := mkTrigger { m_activate : bool; m_continuous : bool; m_count : Z; m_received : Z }.

Definition new_Trigger (received : Z) : Trigger := mkTrigger false false 1 received.
Definition setCount (i : Z) (t : Trigger) : Trigger :=
  mkTrigger (m_activate t) (m_continuous t) (if bool_decide (0 < i) then i else m_count t) (m_received t).
Definition setActivate (b : bool) (t : Trigger) : Trigger := mkTrigger b (m_continuous t) (m_count t) (m_received t).
Definition setContinuous (b : bool) (t : Trigger) : Trigger := mkTrigger (m_activate t) b (m_count t) (m_received t).

(** [num]: what waits on the count pin, if it is connected. *)
Definition trigger_process (num : option Z) (t : Trigger) : bool * Trigger :=
  let received := i32 (m_received t + 1) in
  let t1 := if bool_decide (m_count t ≤ received) then mkTrigger true (m_continuous t) (m_count t) 0
            else mkTrigger (m_activate t) (m_continuous t) (m_count t) received in
  let t2 := match num with Some n => mkTrigger (m_activate t1) (m_continuous t1) n (m_received t1) | None => t1 end in
  if m_activate t2 then (true, if m_continuous t2 then t2 else setActivate false t2) else (false, t2).

(** ** DelayImage.cpp *)
Definition MAX_STEPS : Z := 100.
Record DelayImage (I : Type) := mkDelay { m_images : list I; m_steps : Z }.
Arguments mkDelay {I} m_images m_steps.
Arguments m_images {I} d.
Arguments m_steps {I} d.

Section delay.
Context {I : Type}.

Definition new_DelayImage : DelayImage I := mkDelay [] 5.
Definition setSteps (i : Z) (d : DelayImage I) : DelayImage I :=
  mkDelay (m_images d) (if bool_decide (i < 0) then 0 else if bool_decide (MAX_STEPS < i) then MAX_STEPS else i).
Definition delay_start (d : DelayImage I) : outcome (DelayImage I) :=
  match m_images d with [] => Ok d | _ => Abort AssertFailed end.
Definition delay_stop (d : DelayImage I) : DelayImage I := mkDelay [] (m_steps d).

(** The image that is put, if any. *)
Definition delay_process (img : I) (d : DelayImage I) : option I * DelayImage I :=
  let l := m_images d ++ [img] in
  if bool_decide (m_steps d ≤ Z.of_nat (length l)) then (head l, mkDelay (tail l) (m_steps d)) else (None, mkDelay l (m_steps d)).
End delay.

(** ** Snapshot.cpp *)
Record Snapshot (I : Type) := mkSnapshot { m_makeSnapshot : bool; m_keepSending : bool; m_snapshot : option I }.
Arguments mkSnapshot {I} m_makeSnapshot m_keepSending m_snapshot.
Arguments m_makeSnapshot {I} s.
Arguments m_keepSending {I} s.
Arguments m_snapshot {I} s.

Section snapshot.
Context {I : Type}.

Definition new_Snapshot : Snapshot I := mkSnapshot true false None.
(** [trigger]: what waits on the trigger pin, if it is connected. *)
Definition snapshot_process (img : I) (trigger : option bool) (s : Snapshot I) : option I * Snapshot I :=
  let make := match trigger with Some b => b || m_makeSnapshot s | None => m_makeSnapshot s end in
  if make then (Some img, mkSnapshot false (m_keepSending s) (Some img))
  else
    let s' := mkSnapshot make (m_keepSending s) (m_snapshot s) in
    match m_snapshot s with
    | Some shot => (if m_keepSending s then Some shot else None, s')
    | None => (None, s')
    end.
End snapshot.

(** ** Average.cpp

    OpenCV converts, adds and scales the images. *)
Class CvSum := {
  SrcImage : Type; SumImage : Type; OutImage : Type;
  same_format : SumImage → SrcImage → bool;      (** width, height, channels *)
  src_convertTo : SrcImage → SumImage;
  cv_accumulate : SumImage → SrcImage → SumImage;
  sum_convertTo : SumImage → Z → OutImage        (** scaled by [1.0 / total] *)
}.

Section average.
Context `{CvSum}.
Record Average := mkAverage { m_numFrames : Z; m_total : Z; m_avg : option SumImage }.

Definition new_Average : Average := mkAverage 10 0 None.
Definition average_start (a : Average) : Average := mkAverage (m_numFrames a) 0 (m_avg a).
Definition setNumFrames (f : Z) (a : Average) : Average :=
  mkAverage (if bool_decide (0 < f) then f else m_numFrames a) (m_total a) (m_avg a).

(** [frames]: what waits on the pin for the number of frames. *)
Definition average_process (frames : option Z) (src : SrcImage) (a : Average) : option OutImage * Average :=
  let a1 := match frames with Some f => if bool_decide (m_numFrames a ≠ f) then setNumFrames f a else a | None => a end in
  let avg := match m_avg a1 with
             | Some s => if same_format s src then s else src_convertTo src
             | None => src_convertTo src
             end in
  let avg1 := cv_accumulate avg src in
  if bool_decide (m_numFrames a1 ≤ m_total a1)
  then (Some (sum_convertTo avg1 (m_total a1)), mkAverage (m_numFrames a1) (i32 (0 + 1)) (Some (src_convertTo src)))
  else (None, mkAverage (m_numFrames a1) (i32 (m_total a1 + 1)) (Some avg1)).
End average.

(** ** GaussianSmooth.cpp: setKernelSizeWidth, setKernelSizeHeight *)
Definition setKernelSize (i current : Z) : Z :=
  if bool_decide (i < 1) then 1
  else if isEven i then if bool_decide (current < i) then i32 (i + 1) else i32 (i - 1)
  else i.

(** ** Stitch.cpp

    Images of one channel of 16 bits, by rows. *)
Definition STITCH_DESTINATION_WIDTH_DEFAULT : Z := 1280.
Definition STITCH_DESTINATION_HEIGHT_DEFAULT : Z := 960.
Definition STITCH_DESTINATION_WIDTH_MAX : Z := 3840.
Definition STITCH_DESTINATION_HEIGHT_MAX : Z := 2160.
Definition setDestinationWidth (width : Z) : Z :=
  let width := if bool_decide (width < 0) then 0 else width in
  if bool_decide (STITCH_DESTINATION_WIDTH_MAX < width) then STITCH_DESTINATION_WIDTH_MAX else width.
Definition setDestinationHeight (height : Z) : Z :=
  let height := if bool_decide (height < 0) then 0 else height in
  if bool_decide (STITCH_DESTINATION_HEIGHT_MAX < height) then STITCH_DESTINATION_HEIGHT_MAX else height.

Record Image16 := mkImage16 { im_rows : Z; im_cols : Z; im_pixels : grid Z }.

(** [at<unsigned short>( y, x )] *)
Definition inside (m : Image16) (y x : Z) : bool :=
  bool_decide (0 ≤ y) && bool_decide (y < im_rows m) && bool_decide (0 ≤ x) && bool_decide (x < im_cols m).
Definition at16 (m : Image16) (y x : Z) : outcome Z :=
  if inside m y x then Ok (mget (im_pixels m) (Z.to_nat y) (Z.to_nat x)) else Abort OutOfRange.
Definition set16 (m : Image16) (y x v : Z) : outcome Image16 :=
  if inside m y x then Ok (mkImage16 (im_rows m) (im_cols m) (mset (im_pixels m) (Z.to_nat y) (Z.to_nat x) v)) else Abort OutOfRange.

(** [outval > 0 ? (unsigned short) (inval + outval) * 0.5f : inval]: the cast
    applies to the sum, which it cannot represent above 65535. *)
Definition blend (inval outval : Z) : outcome Z :=
  if bool_decide (0 < outval) then
    if bool_decide (inval + outval < 65536) then Ok ((inval + outval) / 2) else Abort UndefinedBehaviour
  else Ok inval.

Definition bind_out {A B} (x : outcome A) (f : A → outcome B) : outcome B :=
  match x with Ok a => f a | Throw e => Throw e | Abort e => Abort e end.

Definition copy_pixel (doblend : bool) (i : Image16) (dx dy : Z) (out : Image16) (y x : Z) : outcome Image16 :=
  if doblend then
    bind_out (at16 out (y + dy) (x + dx)) (λ outval, bind_out (at16 i y x) (λ inval,
    bind_out (blend inval outval) (λ v, set16 out (y + dy) (x + dx) v)))
  else bind_out (at16 i y x) (λ v, set16 out (y + dy) (x + dx) v).

(** [for( y = yStart; y < yStop; ++y ) for( x = xStart; x < xStop; ++x )] *)
Definition copy_cellsZ (xStart xStop yStart yStop : Z) : list (Z * Z) :=
  seqZ yStart (yStop - yStart) ≫= λ y, pair y <$> seqZ xStart (xStop - xStart).

Definition copyImgInto (doblend : bool) (i out : Image16) (posX posY : Z) : outcome Image16 :=
  let xStart := if bool_decide (posX < 0) then i32 (- posX) else 0 in
  let yStart := if bool_decide (posY < 0) then i32 (- posY) else 0 in
  let xStop := if bool_decide (im_cols out < i32 (im_cols i + posX)) then i32 (im_cols i - i32 (i32 (im_cols i + posX) - im_cols out)) else im_cols i in
  let yStop := if bool_decide (im_rows out < i32 (im_rows i + posY)) then i32 (im_rows i - i32 (i32 (im_rows i + posY) - im_rows out)) else im_rows i in
  foldl (λ o c, bind_out o (λ out, copy_pixel doblend i posX posY out c.1 c.2)) (Ok out) (copy_cellsZ xStart xStop yStart yStop).

(** Where the four images go; [in2] and [in3] are images that were never
    written when their pins are not connected. *)
Record Stitch := mkStitch {
  destinationWidth : Z; destinationHeight : Z;
  in0x : Z; in0y : Z; in1x : Z; in1y : Z; in2x : Z; in2y : Z; in3x : Z; in3y : Z; m_blend : bool
}.
Definition black (rows cols : Z) : Image16 := mkImage16 rows cols (tabulate (Z.to_nat rows) (Z.to_nat cols) (λ _ _, 0)).
Definition stitch_process (s : Stitch) (in0 in1 in2 in3 : Image16) : outcome Image16 :=
  if bool_decide (0 < destinationWidth s) && bool_decide (0 < destinationHeight s) then
    bind_out (copyImgInto (m_blend s) in0 (black (destinationHeight s) (destinationWidth s)) (in0x s) (in0y s)) (λ out,
    bind_out (copyImgInto (m_blend s) in1 out (in1x s + im_cols in0) (in1y s)) (λ out,
    bind_out (copyImgInto (m_blend s) in2 out (in2x s) (in2y s + im_rows in0)) (λ out,
    copyImgInto (m_blend s) in3 out (in3x s + im_cols in0) (in3y s + im_rows in0))))
  else Abort AssertFailed.

(** ** ImageDirectoryProducer.cpp

    The files that were found and what [imread] makes of each. *)
Record ImageDirectory (F : Type) := mkDirectory { m_entryInfoList : list F; m_idx : nat }.
Arguments mkDirectory {F} m_entryInfoList m_idx.
Arguments m_entryInfoList {F} i.
Arguments m_idx {F} i.

Section directory.
Context {F I : Type} (imread : F → option I).
Definition directory_init (exists_ : bool) (files : list F) (d : ImageDirectory F) : bool * ImageDirectory F :=
  if exists_ then (true, mkDirectory files 0) else (false, d).
Definition directory_deinit (d : ImageDirectory F) : ImageDirectory F := mkDirectory [] 0.
Definition directory_readyToProduce (d : ImageDirectory F) : bool := bool_decide (m_idx d < length (m_entryInfoList d))%nat.
(** None: an error is reported. *)
Definition directory_produce (d : ImageDirectory F) : outcome (option (I * F) * ImageDirectory F) :=
  match m_entryInfoList d !! m_idx d with
  | None => Abort AssertFailed
  | Some f =>
      match imread f with
      | None => Ok (None, d)
      | Some img => Ok (Some (img, f), mkDirectory (m_entryInfoList d) (S (m_idx d)))
      end
  end.
End directory.

(** ** VideoProducer.cpp

    The frames that have not been grabbed, and the one grabbed last. *)
Record Video (I : Type) := mkVideo { v_rest : list I; v_grabbed : option I }.
Arguments mkVideo {I} v_rest v_grabbed.
Arguments v_rest {I} v.
Arguments v_grabbed {I} v.

Section video.
Context {I : Type}.
(** readyToProduce grabs the next frame. *)
Definition video_readyToProduce (v : Video I) : bool * Video I :=
  match v_rest v with [] => (false, mkVideo [] None) | f :: l => (true, mkVideo l (Some f)) end.
Definition video_produce (v : Video I) : option I := v_grabbed v.
End video.
