(* ===== verification/ImageTheorems.v ===== *)
(** What the elements of ImageElements.v do over a run. *)
From S2P Require Export ImageElements.

(** ** Stitch: copying one image into another *)
Section stitch.
Implicit Types (i out : Image16).

Record image_ok i : Prop := {
  io_rows : 0 ≤ im_rows i < 2 ^ 31;
  io_cols : 0 ≤ im_cols i < 2 ^ 31;
  io_shape : shape (im_pixels i) (Z.to_nat (im_rows i)) (Z.to_nat (im_cols i))
}.

Definition pixel i (y x : Z) : Z := mget (im_pixels i) (Z.to_nat y) (Z.to_nat x).

Lemma inside_spec i y x : inside i y x = true ↔ 0 ≤ y < im_rows i ∧ 0 ≤ x < im_cols i.
Proof. unfold inside. rewrite !andb_true_iff, !bool_decide_eq_true. lia. Qed.

(** The pixel that is written. *)
Definition pixel_value (b : bool) (inval outval : Z) : Z :=
  if b && bool_decide (0 < outval) then (inval + outval) / 2 else inval.
Definition representable (b : bool) (inval outval : Z) : Prop := b = true → 0 < outval → inval + outval < 65536.

Lemma set16_ok i y x v : image_ok i → inside i y x = true →
  ∃ i', set16 i y x v = Ok i' ∧ image_ok i' ∧ im_rows i' = im_rows i ∧ im_cols i' = im_cols i ∧
    ∀ y' x', inside i y' x' = true → pixel i' y' x' = if decide (y' = y ∧ x' = x) then v else pixel i y' x'.
Proof.
  intros [Hr Hc Hs] Hin. unfold set16. rewrite Hin. apply inside_spec in Hin as [Hy Hx]. eexists. split; [done|].
  split_and!; [split; cbn; [done|done|by apply shape_mset]|done|done|].
  intros y' x' [Hy' Hx']%inside_spec. unfold pixel. cbn. rewrite (mget_mset _ _ _ _ _ _ _ _ Hs) by lia.
  destruct (decide (y' = y ∧ x' = x)) as [[-> ->]|Hne]; [by rewrite decide_True|]. rewrite decide_False; [done|]. lia.
Qed.

Lemma copy_pixel_ok b i dx dy out y x : image_ok i → image_ok out → inside i y x = true → inside out (y + dy) (x + dx) = true →
  representable b (pixel i y x) (pixel out (y + dy) (x + dx)) →
  copy_pixel b i dx dy out y x = set16 out (y + dy) (x + dx) (pixel_value b (pixel i y x) (pixel out (y + dy) (x + dx))).
Proof.
  intros Hi Ho Hin Hout Hrep. unfold copy_pixel, at16. rewrite Hin, Hout. cbn [bind_out]. fold (pixel i y x) (pixel out (y + dy) (x + dx)).
  unfold pixel_value, blend. destruct b; cbn [andb]; [|done]. case_bool_decide as H0; [|done].
  rewrite bool_decide_true; [done|]. by apply Hrep.
Qed.

Lemma copy_fold b i dx dy l : NoDup l → (∀ y x, (y, x) ∈ l → inside i y x = true) → ∀ out, image_ok i → image_ok out →
  (∀ y x, (y, x) ∈ l → inside out (y + dy) (x + dx) = true ∧ representable b (pixel i y x) (pixel out (y + dy) (x + dx))) →
  ∃ out', foldl (λ o c, bind_out o (λ out, copy_pixel b i dx dy out c.1 c.2)) (Ok out) l = Ok out' ∧ image_ok out' ∧
    im_rows out' = im_rows out ∧ im_cols out' = im_cols out ∧
    ∀ y x, inside out y x = true → pixel out' y x =
      if decide ((y - dy, x - dx) ∈ l) then pixel_value b (pixel i (y - dy) (x - dx)) (pixel out y x) else pixel out y x.
Proof.
  intros Hnd Hin. induction Hnd as [|[y x] l Hnin Hnd IH]; intros out Hi Ho Hl.
  { exists out. split_and!; done. }
  destruct (Hl y x ltac:(by left)) as [Hout Hrep]. cbn [foldl bind_out fst snd].
  rewrite copy_pixel_ok by (done || (apply Hin; by left)).
  destruct (set16_ok out (y + dy) (x + dx) (pixel_value b (pixel i y x) (pixel out (y + dy) (x + dx))) Ho Hout) as (o1 & Hs & Ho1 & Hr1 & Hc1 & Hp1).
  rewrite Hs. assert (Hins : ∀ y' x', inside o1 y' x' = inside out y' x') by (intros; unfold inside; by rewrite Hr1, Hc1).
  destruct (IH ltac:(intros; apply Hin; by right) o1 Hi Ho1) as (out' & Hf & Ho' & Hr' & Hc' & Hp').
  { intros y' x' Hin'. destruct (Hl y' x' ltac:(by right)) as [Hout' Hrep']. rewrite Hins. split; [done|].
    rewrite Hp1 by done. rewrite decide_False; [done|]. intros [Hy Hx]. apply Hnin. by replace (y, x) with (y', x') by (f_equal; lia). }
  exists out'. split_and!; [done|done|congruence|congruence|]. intros y' x' Hi'. rewrite Hp' by (by rewrite Hins).
  rewrite Hp1 by done. destruct (decide ((y' - dy, x' - dx) ∈ l)) as [Hl'|Hl'].
  - rewrite (decide_True (P := (_ ∈ (y, x) :: l))) by (by right). rewrite decide_False; [done|].
    intros [-> ->]. apply Hnin. by replace (y, x) with (y + dy - dy, x + dx - dx) by (f_equal; lia).
  - destruct (decide (y' = y + dy ∧ x' = x + dx)) as [[-> ->]|Hne].
    + rewrite decide_True by (apply elem_of_cons; left; f_equal; lia). by replace (y + dy - dy) with y by lia; replace (x + dx - dx) with x by lia.
    + rewrite decide_False; [done|]. intros [Heq|?]%elem_of_cons; [|done]. injection Heq as Hy Hx. apply Hne. lia.
Qed.

Lemma elem_of_copy_cells a b c d y x : (y, x) ∈ copy_cellsZ a b c d ↔ c ≤ y < d ∧ a ≤ x < b.
Proof.
  unfold copy_cellsZ. rewrite list_elem_of_bind. setoid_rewrite elem_of_seqZ. split.
  - intros (y' & (x' & Heq & Hx%elem_of_seqZ)%list_elem_of_fmap & Hy). simplify_eq. lia.
  - intros [Hy Hx]. exists y. split; [|lia]. apply list_elem_of_fmap. exists x. split; [done|]. apply elem_of_seqZ. lia.
Qed.
Lemma NoDup_copy_cells a b c d : NoDup (copy_cellsZ a b c d).
Proof.
  unfold copy_cellsZ. apply NoDup_bind; [| |apply NoDup_seqZ].
  - intros y1 y2 z _ _ (x1 & -> & _)%list_elem_of_fmap (x2 & Heq & _)%list_elem_of_fmap. by simplify_eq.
  - intros y _. apply NoDup_fmap_2; [by intros ? ? [= ->]|apply NoDup_seqZ].
Qed.

End stitch.

(** ** Runs of an element

    The results of [step] on one input after the other, and the last state. *)
Section runs.
Context {S I O : Type} (step : I → S → O * S).

Fixpoint element_run (l : list I) (s : S) : list O * S :=
  match l with
  | [] => ([], s)
  | x :: l' => let '(o, s1) := step x s in let '(os, s2) := element_run l' s1 in (o :: os, s2)
  end.

Lemma element_run_cons x l s : element_run (x :: l) s =
  ((step x s).1 :: (element_run l (step x s).2).1, (element_run l (step x s).2).2).
Proof. cbn. destruct (step x s) as [o s1]. cbn. by destruct (element_run l s1). Qed.
Lemma element_run_app l1 l2 s : element_run (l1 ++ l2) s =
  ((element_run l1 s).1 ++ (element_run l2 (element_run l1 s).2).1, (element_run l2 (element_run l1 s).2).2).
Proof.
  revert s. induction l1 as [|x l1 IH]; intros s; [apply surjective_pairing|].
  rewrite <-app_comm_cons, !element_run_cons, IH. done.
Qed.
End runs.

(** ** DelayImage *)
Section delay.
Context {I : Type}.
Implicit Types (d : DelayImage I) (imgs : list I).

Lemma delay_run_spec k s imgs : (k = Z.to_nat (Z.max 1 s) - 1)%nat → ∀ l, (length l ≤ k)%nat →
  (element_run delay_process imgs (mkDelay l s)).1 =
    replicate (Nat.min (k - length l) (length imgs)) None ++ (Some <$> take (length imgs - (k - length l)) (l ++ imgs)) ∧
  length (m_images (element_run delay_process imgs (mkDelay l s)).2) = Nat.min k (length l + length imgs).
Proof.
  intros Hk. induction imgs as [|img imgs IH]; intros l Hl.
  { cbn [element_run fst snd m_images length]. rewrite Nat.min_0_r. cbn [replicate app Nat.sub take fmap list_fmap]. split; [done|lia]. }
  assert (Hlen : length (l ++ [img]) = S (length l)) by (rewrite length_app; cbn; lia).
  rewrite element_run_cons. destruct (decide (length l < k)%nat) as [Hlt|Hge].
  - assert (Hstep : delay_process img (mkDelay l s) = (None, mkDelay (l ++ [img]) s)).
    { unfold delay_process. cbn [m_images m_steps]. by rewrite bool_decide_false by lia. }
    rewrite Hstep. cbn [fst snd length]. destruct (IH (l ++ [img])) as [IH1 IH2]; [lia|]. rewrite IH1, IH2, Hlen. split; [|lia].
    replace (Nat.min (k - length l) (S (length imgs))) with (S (Nat.min (k - S (length l)) (length imgs))) by lia.
    cbn [replicate app]. f_equal. rewrite <-app_assoc. cbn [app]. do 3 f_equal. lia.
  - destruct (l ++ [img]) as [|h t] eqn:Happ; [cbn in Hlen; lia|].
    assert (Hstep : delay_process img (mkDelay l s) = (Some h, mkDelay t s)).
    { unfold delay_process. cbn [m_images m_steps]. rewrite Happ. by rewrite bool_decide_true by (cbn [length] in *; lia). }
    cbn [length] in Hlen. rewrite Hstep. cbn [fst snd length]. destruct (IH t) as [IH1 IH2]; [lia|]. rewrite IH1, IH2. split; [|lia].
    replace (k - length t)%nat with 0%nat by lia. replace (k - length l)%nat with 0%nat by lia.
    cbn [Nat.min replicate app]. rewrite !Nat.sub_0_r. replace (l ++ img :: imgs) with (h :: t ++ imgs); [done|].
    rewrite app_comm_cons, <-Happ, <-app_assoc. done.
Qed.

Inductive delay_op := SetSteps (i : Z) | ProcessImage (img : I).
Definition delay_step (op : delay_op) d : option I * DelayImage I :=
  match op with SetSteps i => (None, setSteps i d) | ProcessImage img => delay_process img d end.

Lemma delay_keeps ops : ∀ d, (length (m_images d) ≤ length (m_images (element_run delay_step ops d).2))%nat.
Proof.
  induction ops as [|op ops IH]; intros d; [done|]. rewrite element_run_cons. cbn [snd]. etrans; [|apply IH].
  destruct op as [i|img]; [done|]. cbn [delay_step]. unfold delay_process.
  assert (Hl : length (m_images d ++ [img]) = S (length (m_images d))) by (rewrite length_app; cbn; lia).
  case_bool_decide; cbn [snd m_images]; [|lia]. destruct (m_images d ++ [img]); cbn in *; lia.
Qed.

(** With a delay of [s] steps the first image comes out after [s - 1]
    further ones (at once for 0), and from then on one image per image, in
    order; whatever the steps are set to later, the images held back never get
    fewer, so that a delay can only grow. *)
Theorem delay_correct s imgs : 0 ≤ s ≤ MAX_STEPS →
  let k := (Z.to_nat (Z.max 1 s) - 1)%nat in
  (element_run delay_process imgs (setSteps s new_DelayImage)).1 =
    replicate (Nat.min k (length imgs)) None ++ (Some <$> take (length imgs - k) imgs) ∧
  (∀ ops, let d := (element_run delay_process imgs (setSteps s new_DelayImage)).2 in
    (Nat.min k (length imgs) ≤ length (m_images (element_run delay_step ops d).2))%nat).
Proof.
  intros Hs k. unfold setSteps. unfold MAX_STEPS in *. rewrite !bool_decide_false by lia. cbn [m_images new_DelayImage].
  destruct (delay_run_spec k s imgs eq_refl []) as [Hrun Hlen]; [cbn; lia|]. cbn [length] in Hrun, Hlen. rewrite !Nat.sub_0_r in Hrun. split; [done|].
  intros ops. cbn [Nat.add] in Hlen. rewrite <-Hlen. apply delay_keeps.
Qed.
End delay.

(** ** Average *)
Section average.
Context `{CvSum} (one_format : ∀ a s, same_format a s = true).
Implicit Types (imgs : list SrcImage) (a : Average).

Lemma average_step n t avg s : n ≠ t → n > t →
  average_process None s (mkAverage n t (Some avg)) = (None, mkAverage n (i32 (t + 1)) (Some (cv_accumulate avg s))).
Proof using one_format. intros _ Ht. unfold average_process. cbn. rewrite one_format, bool_decide_false by lia. done. Qed.

Lemma average_fill n imgs : n < 2 ^ 31 - 1 → ∀ t avg, 0 ≤ t → t + Z.of_nat (length imgs) ≤ n →
  element_run (average_process None) imgs (mkAverage n t (Some avg)) =
    (replicate (length imgs) None, mkAverage n (t + Z.of_nat (length imgs)) (Some (foldl cv_accumulate avg imgs))).
Proof using one_format.
  intros Hn. induction imgs as [|s imgs IH]; intros t avg Ht Hl; cbn [length] in Hl.
  { cbn. by rewrite Z.add_0_r. }
  rewrite element_run_cons, average_step by lia. cbn [fst snd]. rewrite i32_id by lia. rewrite IH by lia. cbn [fst snd length replicate foldl].
  do 2 f_equal. lia.
Qed.

Lemma average_out n avg s : average_process None s (mkAverage n n (Some avg)) =
  (Some (sum_convertTo (cv_accumulate avg s) n), mkAverage n 1 (Some (src_convertTo s))).
Proof using one_format. unfold average_process. cbn. by rewrite one_format, bool_decide_true. Qed.

(** The average of [n] images is not one: the first image that is put is
    the sum of [n + 2] images (the first of them twice) divided by [n], and every
    later one the sum of [n + 1] images divided by [n]: the last image of a
    round is also the first of the next one. *)
Theorem average_too_bright n s l last l' last' : 0 < n < 2 ^ 31 - 1 →
  Z.of_nat (length l) = n - 1 → Z.of_nat (length l') = n - 1 →
  (element_run (average_process None) (s :: l ++ [last] ++ l' ++ [last']) (average_start (setNumFrames n new_Average))).1 =
    replicate (length (s :: l)) None ++ [Some (sum_convertTo (foldl cv_accumulate (src_convertTo s) (s :: l ++ [last])) n)] ++
    replicate (length l') None ++ [Some (sum_convertTo (foldl cv_accumulate (src_convertTo last) (l' ++ [last'])) n)].
Proof using one_format.
  intros Hn Hl Hl'. unfold setNumFrames, average_start. rewrite bool_decide_true by lia. cbn [m_numFrames m_total m_avg new_Average].
  rewrite element_run_cons.
  assert (Hfirst : average_process None s (mkAverage n 0 None) = (None, mkAverage n 1 (Some (cv_accumulate (src_convertTo s) s)))).
  { unfold average_process. cbn. by rewrite bool_decide_false by lia. }
  rewrite Hfirst. cbn [fst snd]. rewrite element_run_app, (average_fill n l) by lia. cbn [fst snd]. rewrite Hl, Z.add_sub_assoc, Z.add_simpl_l.
  cbn [app]. rewrite element_run_cons, average_out. cbn [fst snd]. rewrite element_run_app, (average_fill n l') by lia. cbn [fst snd].
  rewrite Hl', Z.add_sub_assoc, Z.add_simpl_l. rewrite element_run_cons, average_out. cbn [fst snd element_run length replicate app].
  cbn [foldl]. by rewrite !foldl_app.
Qed.
End average.

(** ** Trigger *)
Lemma trigger_run_spec n k : 0 < n < 2 ^ 31 → ∀ r, 0 ≤ r < n →
  (element_run trigger_process (repeat None k) (mkTrigger false false n r)).1 =
    (λ i, bool_decide ((r + i + 1) mod n = 0)) <$> seqZ 0 (Z.of_nat k).
Proof.
  intros Hn. induction k as [|k IH]; intros r Hr; [done|]. cbn [repeat].
  assert (Hstep : trigger_process None (mkTrigger false false n r) =
    (bool_decide (r + 1 = n), mkTrigger false false n (if bool_decide (r + 1 = n) then 0 else r + 1))).
  { unfold trigger_process. cbn [m_count m_received m_activate m_continuous]. rewrite i32_id by lia.
    destruct (decide (r + 1 = n)); [rewrite !bool_decide_true by lia|rewrite !bool_decide_false by lia]; done. }
  rewrite element_run_cons, Hstep. cbn [fst snd]. rewrite (seqZ_cons 0) by lia.
  replace (Z.pred (Z.of_nat (S k))) with (Z.of_nat k) by lia. change (Z.succ 0) with (1 + 0).
  rewrite fmap_cons, Z.add_0_r, <-(fmap_add_seqZ 1 0), <-list_fmap_compose.
  destruct (decide (r + 1 = n)) as [Hr1|Hr1].
  - rewrite (bool_decide_true (r + 1 = n)) by done. f_equal.
    + by rewrite Hr1, Z.mod_same, bool_decide_true by lia.
    + rewrite IH by lia. apply list_fmap_ext. intros j i _. cbn. apply bool_decide_ext.
      replace (r + (1 + i) + 1) with (0 + i + 1 + 1 * n) by lia. by rewrite Z.mod_add by lia.
  - rewrite (bool_decide_false (r + 1 = n)) by done. f_equal.
    + by rewrite Z.mod_small, bool_decide_false by lia.
    + rewrite IH by lia. apply list_fmap_ext. intros j i _. cbn. apply bool_decide_ext.
      by replace (r + 1 + i + 1) with (r + (1 + i) + 1) by lia.
Qed.

(** ** GaussianSmooth: OpenCV asks for positive and odd sizes *)
Lemma setKernelSize_odd i current : - 2 ^ 31 ≤ i < 2 ^ 31 → let k := setKernelSize i current in 0 < k < 2 ^ 31 ∧ Z.odd k = true.
Proof.
  intros Hi. assert (Heven : ∀ z, isEven z = Z.even z).
  { intros z. unfold isEven. change 1 with (Z.ones 1). rewrite Z.land_ones by done. change (2 ^ 1) with 2.
    rewrite Zmod_even. by destruct (Z.even z). }
  unfold setKernelSize. rewrite Heven. case_bool_decide; [done|]. destruct (Z.even i) eqn:He.
  - apply Z.even_spec in He as [m Hm]. case_bool_decide; rewrite i32_id by lia; (split; [lia|]).
    + rewrite Hm. by rewrite Z.odd_add, Z.odd_mul.
    + rewrite Hm. by rewrite Z.odd_sub, Z.odd_mul.
  - split; [lia|]. by rewrite <-Z.negb_even, He.
Qed.

(** ** VideoProducer: what is grabbed and not produced is lost *)
Lemma video_skips {I} (l : list I) f rest : 
  video_produce (foldl (λ v _, (video_readyToProduce v).2) (mkVideo (l ++ f :: rest) None) (l ++ [f])) = Some f.
Proof.
  unfold video_produce. generalize (@None I). induction l as [|x l IH]; intros g; [done|]. cbn. apply IH.
Qed.

(** ** Witnesses *)
Definition small_image : Image16 := mkImage16 2 2 [[1; 2]; [3; 4]].
Definition small_black : Image16 := black 3 3.


Lemma delay_correct_witness : (element_run delay_process [10; 20; 30; 40] (setSteps 3 new_DelayImage)).1 = [None; None; Some 10; Some 20].
Proof. apply (delay_correct 3 [10; 20; 30; 40]). unfold MAX_STEPS. lia. Defined.

Definition sum_of_numbers : CvSum := {|
  SrcImage := Z; SumImage := Z; OutImage := Z; same_format _ _ := true; src_convertTo s := s;
  cv_accumulate := Z.add; sum_convertTo s n := s / n
|}.
(** Images of brightness 10, averaged over two: 20, then 15. *)
Lemma average_too_bright_witness :
  (@element_run _ _ _ (@average_process sum_of_numbers None) [10; 10; 10; 10; 10] (@average_start sum_of_numbers (@setNumFrames sum_of_numbers 2 (@new_Average sum_of_numbers)))).1 =
    [None; None; Some 20; None; Some 15].
Proof. apply (@average_too_bright sum_of_numbers (λ _ _, eq_refl) 2 10 [10] 10 [10] 10); [lia|reflexivity|reflexivity]. Defined.
