(* ===== verification/Kinect.v ===== *)
(** The Kinect elements (mskinectdevice.cpp, mskinectproducer.cpp,
    kinectthreshold.cpp): a device with its thread, the producer that collects
    the frames of all devices, the threshold on depth images. *)
From S2P Require Export Model.

(** ** Images

    Depths as a stream of 16 bit values, colours as quads; images by rows. *)
Record RGBQUAD := mkQuad { rgbBlue : Z; rgbGreen : Z; rgbRed : Z }.
Inductive KImage :=
  | KEmpty                                             (** [CvMatData()] *)
  | K16U (width height : Z) (values : list Z)
  | K8UC3 (width height : Z) (values : list RGBQUAD).

Definition kimage_isValid (i : KImage) : bool := match i with KEmpty => false | _ => true end.

Definition u8 (z : Z) : Z := z mod 2 ^ 8.
Definition u16 (z : Z) : Z := z mod 2 ^ 16.

(** The 16 bit value written for a depth: [<< 4]. *)
Definition depth_value (v : Z) : Z := u16 (Z.shiftl v 4).

(** [l], and KinectDevice::Nui_ShortToQuad_DepthAndPlayerIndex *)
Definition intensity (RealDepth : Z) : Z := u8 (255 - u8 (256 * RealDepth / 0xfff)).
Definition Nui_ShortToQuad_DepthAndPlayerIndex (s : Z) : RGBQUAD :=
  let RealDepth := Z.shiftr (Z.land s 0xfff8) 3 in
  let l := intensity RealDepth in
  match Z.land s 7 with
  | 0 => mkQuad (l / 2) (l / 2) (l / 2)
  | 1 => mkQuad 0 0 l
  | 2 => mkQuad 0 l 0
  | 3 => mkQuad l l (l / 4)
  | 4 => mkQuad (l / 4) l l
  | 5 => mkQuad l (l / 4) l
  | 6 => mkQuad l (l / 2) (l / 2)
  | 7 => mkQuad (255 - l / 2) (255 - l / 2) (255 - l / 2)
  | _ => mkQuad 0 0 0
  end.

(** What the SDK gives for an alert: the resolution, the type, the pitch and
    the values of a locked rectangle. *)
Inductive NuiImageType := NUI_IMAGE_TYPE_DEPTH | NUI_IMAGE_TYPE_DEPTH_AND_PLAYER_INDEX | OtherImageType.
Record DepthFrame := mkDepthFrame { df_320x240 : bool; df_type : NuiImageType; df_Pitch : Z; df_bits : list Z }.
Record VideoFrame := mkVideoFrame { vf_Pitch : Z; vf_bits : list RGBQUAD }.

(** The loops over the rows and columns read the buffer from its start. *)
Definition read_pixels {A B} (f : A → B) (width height : Z) (buffer : list A) : outcome (list B) :=
  let n := Z.to_nat (width * height) in
  if bool_decide (n ≤ length buffer)%nat then Ok (f <$> take n buffer) else Abort OutOfRange.

(** KinectDevice::Nui_GotDepthAlert: with a pitch of 0 the buffer is a null
    pointer. *)
Definition Nui_GotDepthAlert (fr : DepthFrame) : outcome KImage :=
  let width := if df_320x240 fr then 320 else 640 in
  let height := if df_320x240 fr then 240 else 480 in
  let pBuffer := if bool_decide (df_Pitch fr ≠ 0) then Some (df_bits fr) else None in
  match df_type fr with
  | NUI_IMAGE_TYPE_DEPTH =>
      match pBuffer with
      | None => Abort NullPointer
      | Some buf => match read_pixels depth_value width height buf with
                    | Ok l => Ok (K16U width height l) | Throw e => Throw e | Abort x => Abort x end
      end
  | NUI_IMAGE_TYPE_DEPTH_AND_PLAYER_INDEX =>
      match pBuffer with
      | None => Abort NullPointer
      | Some buf => match read_pixels Nui_ShortToQuad_DepthAndPlayerIndex width height buf with
                    | Ok l => Ok (K8UC3 width height l) | Throw e => Throw e | Abort x => Abort x end
      end
  | OtherImageType => Ok KEmpty
  end.

(** KinectDevice::Nui_GotVideoAlert: None when nothing is emitted. *)
Definition Nui_GotVideoAlert (fr : VideoFrame) : outcome (option KImage) :=
  if bool_decide (vf_Pitch fr ≠ 0) then
    match read_pixels id 640 480 (vf_bits fr) with
    | Ok l => Ok (Some (K8UC3 640 480 l)) | Throw e => Throw e | Abort x => Abort x end
  else Ok None.

(** ** KinectThreshold.cpp *)
Record KinectThreshold := mkKinectThreshold { kt_threshold : Z; kt_maxValue : Z }.
Definition new_KinectThreshold : KinectThreshold := mkKinectThreshold 0 5000.
Definition threshold_pixel (t : KinectThreshold) (v : Z) : Z :=
  let threshold := u32 (Z.shiftl (kt_threshold t) 4) in
  let maxValue := u32 (Z.shiftl (kt_maxValue t) 4) in
  if bool_decide (threshold ≤ v) then if bool_decide (maxValue < v) then 0 else v else 0.
Definition kinect_threshold_process (t : KinectThreshold) (values : list Z) : list Z := threshold_pixel t <$> values.

(** ** The SDK *)
Class NuiSdk := {
  NuiInstance : Type;
  MSR_NuiCreateInstanceByIndex : Z → option NuiInstance;   (** None: it failed *)
  NuiInitialize : NuiInstance → bool;
  NuiSkeletonTrackingEnable : NuiInstance → bool;
  NuiVideoStreamOpen : NuiInstance → bool;
  NuiDepthStreamOpen : NuiInstance → bool;
  SkeletonData : Type;
  skeleton_tracked : SkeletonData → bool;                  (** some skeleton is NUI_SKELETON_TRACKED *)
  NuiTransformSmooth : SkeletonData → SkeletonData
}.

Inductive KinectState := KINECT_UNINITIALIZED | KINECT_INITIALIZED | KINECT_RUNNING | KINECT_STOP_REQUESTED.
#[export] Instance KinectState_eq_dec : EqDecision KinectState.
Proof. solve_decision. Defined.

Section device.
Context `{NuiSdk}.

(** What ends the wait of the thread. *)
Inductive nui_event :=
  | Timeout
  | DepthAlert (fr : option DepthFrame)      (** None: the frame could not be had *)
  | VideoAlert (fr : option VideoFrame)
  | SkeletonAlert (sf : option SkeletonData).

Inductive kinect_signal :=
  | newDepthFrame (id : Z) (i : KImage)
  | newVideoFrame (id : Z) (i : KImage)
  | newSkeletonFrame (id : Z) (sf : SkeletonData)
  | deviceFinished (id : Z).

(** [m_nuiInstance]: deinit destroys the instance and keeps the pointer. *)
Inductive nui_pointer := NuiNull | NuiLive (i : NuiInstance) | NuiDestroyed.

(** Where [run] is: before its first statement, in WaitForMultipleObjects, at
    the test of the state, at the switch, after the loop, ended. *)
Inductive kworker := KFinished | KEntry | KWait | KTest (e : nui_event) | KHandle (e : nui_event) | KExit | KEnding.
(** Where [stop] is: before it sets the state, in QThread::wait. *)
Inductive kcaller := KIdle | KStopRequest | KStopWait.

Record KinectDevice := mkKinect {
  kd_id : Z;
  kd_state : KinectState;
  kd_instance : nui_pointer;
  kd_depthEvent : bool; kd_videoEvent : bool; kd_skeletonEvent : bool; kd_stopEvent : bool;  (** open handles *)
  kd_worker : kworker;
  kd_caller : kcaller;
  kd_signals : list kinect_signal;
  kd_fault : option fault
}.

Definition kd_set_state (st : KinectState) (d : KinectDevice) : KinectDevice :=
  mkKinect (kd_id d) st (kd_instance d) (kd_depthEvent d) (kd_videoEvent d) (kd_skeletonEvent d) (kd_stopEvent d)
    (kd_worker d) (kd_caller d) (kd_signals d) (kd_fault d).
Definition kd_set_worker (w : kworker) (d : KinectDevice) : KinectDevice :=
  mkKinect (kd_id d) (kd_state d) (kd_instance d) (kd_depthEvent d) (kd_videoEvent d) (kd_skeletonEvent d) (kd_stopEvent d)
    w (kd_caller d) (kd_signals d) (kd_fault d).
Definition kd_set_caller (c : kcaller) (d : KinectDevice) : KinectDevice :=
  mkKinect (kd_id d) (kd_state d) (kd_instance d) (kd_depthEvent d) (kd_videoEvent d) (kd_skeletonEvent d) (kd_stopEvent d)
    (kd_worker d) c (kd_signals d) (kd_fault d).
Definition kd_emit (l : list kinect_signal) (d : KinectDevice) : KinectDevice :=
  mkKinect (kd_id d) (kd_state d) (kd_instance d) (kd_depthEvent d) (kd_videoEvent d) (kd_skeletonEvent d) (kd_stopEvent d)
    (kd_worker d) (kd_caller d) (kd_signals d ++ l) (kd_fault d).
Definition kd_fail (x : fault) (d : KinectDevice) : KinectDevice :=
  mkKinect (kd_id d) (kd_state d) (kd_instance d) (kd_depthEvent d) (kd_videoEvent d) (kd_skeletonEvent d) (kd_stopEvent d)
    (kd_worker d) (kd_caller d) (kd_signals d) (Some x).
Definition kd_set_device (p : nui_pointer) (ev stop : bool) (d : KinectDevice) : KinectDevice :=
  mkKinect (kd_id d) (kd_state d) p ev ev ev stop (kd_worker d) (kd_caller d) (kd_signals d) (kd_fault d).

Definition new_KinectDevice (id : Z) : KinectDevice :=
  mkKinect id KINECT_UNINITIALIZED NuiNull false false false false KFinished KIdle [] None.

(** KinectDevice::zero: the handles are forgotten, not closed. *)
Definition kd_zero (d : KinectDevice) : KinectDevice := kd_set_state KINECT_UNINITIALIZED (kd_set_device NuiNull false false d).

Definition kd_init (d : KinectDevice) : outcome (bool * KinectDevice) :=
  if bool_decide (kd_state d = KINECT_UNINITIALIZED) then
    let d0 := kd_zero d in
    match MSR_NuiCreateInstanceByIndex (kd_id d) with
    | None => Ok (false, d0)
    | Some i =>
        let d1 := kd_set_device (NuiLive i) true true d0 in
        if negb (NuiInitialize i) then Ok (false, d1)
        else if negb (NuiSkeletonTrackingEnable i) then Ok (false, d1)
        else if negb (NuiVideoStreamOpen i) then Ok (false, d1)
        else if negb (NuiDepthStreamOpen i) then Ok (false, d1)
        else Ok (true, kd_set_state KINECT_INITIALIZED d1)
    end
  else Abort AssertFailed.

(** KinectDevice::deinit: destroying an instance again is undefined. *)
Definition kd_deinit (d : KinectDevice) : outcome KinectDevice :=
  match kd_instance d with
  | NuiNull => Ok (kd_set_state KINECT_UNINITIALIZED (kd_set_device NuiNull false (kd_stopEvent d) d))
  | NuiLive _ => Ok (kd_set_state KINECT_UNINITIALIZED (kd_set_device NuiDestroyed false (kd_stopEvent d) d))
  | NuiDestroyed => Abort UndefinedBehaviour
  end.

(** KinectDevice::start; QThread::start does nothing when the thread runs. *)
Definition kd_start (d : KinectDevice) : KinectDevice :=
  match kd_state d with
  | KINECT_INITIALIZED => match kd_worker d with KFinished => kd_set_worker KEntry d | _ => d end
  | _ => d
  end.

(** KinectDevice::stop: up to the test of the state. *)
Definition kd_stop (d : KinectDevice) : KinectDevice :=
  match kd_state d with KINECT_RUNNING => kd_set_caller KStopRequest d | _ => d end.

(** The switch in run. *)
Definition handle_alert (id : Z) (e : nui_event) : outcome (list kinect_signal) :=
  match e with
  | Timeout | DepthAlert None | VideoAlert None | SkeletonAlert None => Ok []
  | DepthAlert (Some fr) =>
      match Nui_GotDepthAlert fr with Ok i => Ok [newDepthFrame id i] | Throw x => Throw x | Abort x => Abort x end
  | VideoAlert (Some fr) =>
      match Nui_GotVideoAlert fr with
      | Ok (Some i) => Ok [newVideoFrame id i] | Ok None => Ok [] | Throw x => Throw x | Abort x => Abort x end
  | SkeletonAlert (Some sf) => Ok (if skeleton_tracked sf then [newSkeletonFrame id (NuiTransformSmooth sf)] else [])
  end.

(** One step of KinectDevice::run; [e] is what a wait ends with. *)
Definition kd_step_worker (e : nui_event) (d : KinectDevice) : option KinectDevice :=
  match kd_worker d with
  | KFinished => None
  | KEntry => Some (kd_set_worker KWait (kd_set_state KINECT_RUNNING d))
  | KWait => Some (kd_set_worker (KTest e) d)
  | KTest e' => Some (kd_set_worker (if bool_decide (kd_state d = KINECT_STOP_REQUESTED) then KExit else KHandle e') d)
  | KHandle e' =>
      match handle_alert (kd_id d) e' with
      | Ok l => Some (kd_set_worker KWait (kd_emit l d))
      | Abort x => Some (kd_fail x d)
      | Throw _ => Some (kd_fail UnexpectedException d)
      end
  | KExit => Some (kd_set_worker KEnding (kd_set_state KINECT_INITIALIZED d))
  | KEnding => (* finished(), threadFinished *) Some (kd_set_worker KFinished (kd_emit [deviceFinished (kd_id d)] d))
  end.

(** The rest of KinectDevice::stop. *)
Definition kd_step_caller (d : KinectDevice) : option KinectDevice :=
  match kd_caller d with
  | KIdle => None
  | KStopRequest => Some (kd_set_caller KStopWait (kd_set_state KINECT_STOP_REQUESTED d))
  | KStopWait => match kd_worker d with KFinished => Some (kd_set_caller KIdle d) | _ => None end
  end.

(** ** Interleaving *)
Inductive kinect_call := KInit | KDeinit | KStart | KStop.
Inductive klabel := KCall (op : kinect_call) | KCallerStep | KWorkerStep (e : nui_event).

Definition kd_begin (op : kinect_call) (d : KinectDevice) : option KinectDevice :=
  match kd_caller d with
  | KIdle =>
      match op with
      | KInit => match kd_init d with Ok (_, d') => Some d' | Abort x => Some (kd_fail x d) | Throw _ => Some (kd_fail UnexpectedException d) end
      | KDeinit => match kd_deinit d with Ok d' => Some d' | Abort x => Some (kd_fail x d) | Throw _ => Some (kd_fail UnexpectedException d) end
      | KStart => Some (kd_start d)
      | KStop => Some (kd_stop d)
      end
  | _ => None
  end.

Definition kinect_step (l : klabel) (d : KinectDevice) : option KinectDevice :=
  match kd_fault d with
  | Some _ => None
  | None => match l with
            | KCall op => kd_begin op d
            | KCallerStep => kd_step_caller d
            | KWorkerStep e => kd_step_worker e d
            end
  end.

Fixpoint kinect_run (ls : list klabel) (d : KinectDevice) : option KinectDevice :=
  match ls with [] => Some d | l :: ls' => kinect_step l d ≫= kinect_run ls' end.
End device.

(** ** MSKinectProducer

    What has come from each device and was not produced.  [S]: skeletons, None
    when there is no valid one. *)
Record MSKinectProducer (S : Type) := mkKinectProducer {
  m_depthFrames : list KImage; m_videoFrames : list KImage; m_skeletonFrames : list (option S)
}.
Arguments mkKinectProducer {S} _ _ _.
Arguments m_depthFrames {S} _.
Arguments m_videoFrames {S} _.
Arguments m_skeletonFrames {S} _.

Section producer.
Context {S : Type}.

Definition new_MSKinectProducer (deviceCount : nat) : MSKinectProducer S :=
  mkKinectProducer (replicate deviceCount KEmpty) (replicate deviceCount KEmpty) (replicate deviceCount None).

Definition in_range (deviceIndex : Z) (p : MSKinectProducer S) : bool :=
  bool_decide (-1 < deviceIndex) && bool_decide (deviceIndex < Z.of_nat (length (m_depthFrames p))).
Definition kp_newDepthFrame (deviceIndex : Z) (depth : KImage) (p : MSKinectProducer S) : outcome (MSKinectProducer S) :=
  if in_range deviceIndex p
  then Ok (mkKinectProducer (<[Z.to_nat deviceIndex := depth]> (m_depthFrames p)) (m_videoFrames p) (m_skeletonFrames p))
  else Abort AssertFailed.
Definition kp_newVideoFrame (deviceIndex : Z) (video : KImage) (p : MSKinectProducer S) : outcome (MSKinectProducer S) :=
  if in_range deviceIndex p
  then Ok (mkKinectProducer (m_depthFrames p) (<[Z.to_nat deviceIndex := video]> (m_videoFrames p)) (m_skeletonFrames p))
  else Abort AssertFailed.
Definition kp_newSkeletonFrame (deviceIndex : Z) (sf : option S) (p : MSKinectProducer S) : outcome (MSKinectProducer S) :=
  if in_range deviceIndex p
  then Ok (mkKinectProducer (m_depthFrames p) (m_videoFrames p) (<[Z.to_nat deviceIndex := sf]> (m_skeletonFrames p)))
  else Abort AssertFailed.

(** [for( i = 0; i < m_deviceCount && ready; ++i )] *)
Fixpoint frames_ready (l : list (KImage * KImage)) : bool :=
  match l with [] => true | (d, v) :: l' => if kimage_isValid d && kimage_isValid v then frames_ready l' else false end.
Definition kp_readyToProduce (p : MSKinectProducer S) : bool := frames_ready (zip (m_depthFrames p) (m_videoFrames p)).

(** What each device puts on its three pins. *)
Definition kp_produce (p : MSKinectProducer S) : list (KImage * KImage * option S) * MSKinectProducer S :=
  (zip (zip (m_depthFrames p) (m_videoFrames p)) (m_skeletonFrames p),
   mkKinectProducer ((λ _, KEmpty) <$> m_depthFrames p) ((λ _, KEmpty) <$> m_videoFrames p) ((λ _, None) <$> m_skeletonFrames p)).
End producer.

(** MSKinectProducer::init, deinit, start: over all devices, in order. *)
Section devices.
Context `{NuiSdk}.
Fixpoint deinit_all (ds : list KinectDevice) : outcome (list KinectDevice) :=
  match ds with
  | [] => Ok []
  | d :: ds' =>
      match kd_deinit d with
      | Ok d' => match deinit_all ds' with Ok l => Ok (d' :: l) | Throw x => Throw x | Abort x => Abort x end
      | Throw x => Throw x
      | Abort x => Abort x
      end
  end.
(** [done]: the devices that are initialised already.  On failure: the
    message, and all devices. *)
Fixpoint init_all (done todo : list KinectDevice) : outcome (option Z * list KinectDevice) :=
  match todo with
  | [] => Ok (None, done)
  | d :: todo' =>
      match kd_init d with
      | Ok (true, d') => init_all (done ++ [d']) todo'
      | Ok (false, d') =>
          match deinit_all done with
          | Ok done' => Ok (Some (kd_id d'), done' ++ d' :: todo')
          | Throw x => Throw x
          | Abort x => Abort x
          end
      | Throw x => Throw x
      | Abort x => Abort x
      end
  end.
Definition kp_init (ds : list KinectDevice) : outcome (option Z * list KinectDevice) := init_all [] ds.
Definition kp_deinit (ds : list KinectDevice) : outcome (list KinectDevice) := deinit_all ds.
Definition kp_start (ds : list KinectDevice) : list KinectDevice := kd_start <$> ds.
End devices.
