(* ===== verification/KinectProof.v ===== *)
(** The Kinect elements: depths and colours, the device as the pipeline uses
    it, the stop that comes too early, the producer. *)
From S2P Require Export Kinect.

(** ** Pixels *)
Lemma depth_value_spec d : 0 ≤ d < 4096 → depth_value d = 16 * d.
Proof. intros Hd. unfold depth_value, u16. rewrite Z.shiftl_mul_pow2, Z.mod_small by lia. lia. Qed.

(** Threshold and maximum are depths: a depth of 12 bits passes exactly when it
    lies between them. *)
Theorem threshold_in_depths t m d : 0 ≤ t < 2 ^ 28 → 0 ≤ m < 2 ^ 28 → 0 ≤ d < 4096 →
  threshold_pixel (mkKinectThreshold t m) (depth_value d) = if bool_decide (t ≤ d ≤ m) then 16 * d else 0.
Proof.
  intros Ht Hm Hd. rewrite depth_value_spec by done. unfold threshold_pixel. cbn.
  rewrite !Z.shiftl_mul_pow2, !u32_id by lia. repeat case_bool_decide; lia.
Qed.

(** Nearer is brighter, except that the largest depth is white again. *)
Theorem intensity_wraps a b : 0 ≤ a ≤ b → b ≤ 4094 →
  0 ≤ intensity b ≤ intensity a ∧ intensity a ≤ 255 ∧ intensity 4095 = 255 ∧ intensity 4094 = 0.
Proof.
  intros Hab Hb. unfold intensity, u8.
  assert (H1 : 0 ≤ 256 * a / 0xfff ≤ 256 * b / 0xfff) by (split; [apply Z.div_pos; lia|apply Z.div_le_mono; lia]).
  assert (H2 : 256 * b / 0xfff < 2 ^ 8) by (apply Z.div_lt_upper_bound; lia).
  rewrite (Z.mod_small (256 * a / 0xfff)), (Z.mod_small (256 * b / 0xfff)), !(Z.mod_small (255 - _)) by lia.
  split_and!; [lia..|done|done].
Qed.
Lemma intensity_wraps_witness : intensity 4094 < intensity 100 ∧ intensity 4095 = 255.
Proof. split; [done|]. apply (intensity_wraps 100 4094); done. Defined.

(** What a depth frame of the right size becomes. *)
Lemma depth_alert_spec fr : df_Pitch fr ≠ 0 → df_type fr = NUI_IMAGE_TYPE_DEPTH →
  (if df_320x240 fr then 320 * 240 else 640 * 480) ≤ Z.of_nat (length (df_bits fr)) →
  ∃ w h l, Nui_GotDepthAlert fr = Ok (K16U w h l) ∧ Z.of_nat (length l) = w * h ∧
    ∀ k v, l !! k = Some v → v = depth_value (df_bits fr !!! k).
Proof.
  intros Hp Ht Hl. unfold Nui_GotDepthAlert. rewrite Ht, bool_decide_true by done.
  set (w := if df_320x240 fr then 320 else 640). set (h := if df_320x240 fr then 240 else 480).
  assert (Hwh : 0 ≤ w * h ≤ Z.of_nat (length (df_bits fr))) by (unfold w, h; destruct (df_320x240 fr); lia).
  unfold read_pixels. rewrite bool_decide_true by lia. do 3 eexists. split; [reflexivity|]. split.
  - rewrite length_fmap, length_take. lia.
  - intros k v Hv. rewrite list_lookup_fmap in Hv. apply fmap_Some in Hv as (x & Hx & ->).
    apply lookup_take_Some in Hx as [Hx _]. by rewrite (list_lookup_total_correct _ _ _ Hx).
Qed.
(** A frame without data is read through a null pointer. *)
Lemma depth_alert_null fr : df_Pitch fr = 0 → df_type fr ≠ OtherImageType → Nui_GotDepthAlert fr = Abort NullPointer.
Proof. intros Hp Ht. unfold Nui_GotDepthAlert. rewrite bool_decide_false by (by intros []). by destruct (df_type fr). Qed.

(** ** The device, as the pipeline uses it *)
Section device.
Context `{NuiSdk}.
Implicit Types d : KinectDevice.

Definition in_loop (w : kworker) : bool := match w with KWait | KTest _ | KHandle _ => true | _ => false end.
Definition open_device d : Prop :=
  (∃ i, kd_instance d = NuiLive i) ∧ kd_depthEvent d = true ∧ kd_videoEvent d = true ∧ kd_skeletonEvent d = true.

(** The devices that the calls of the producer can lead to when stop is only
    called after the thread has entered its loop; the flag says whether the
    device was started and not stopped. *)
Inductive used : KinectDevice → bool → Prop :=
  | used_new id : used (new_KinectDevice id) false
  | used_init d b d' : used d false → kd_caller d = KIdle → kd_state d = KINECT_UNINITIALIZED → kd_init d = Ok (b, d') → used d' false
  | used_start d : used d false → kd_caller d = KIdle → kd_state d = KINECT_INITIALIZED → used (kd_start d) true
  | used_stop d : used d true → kd_state d = KINECT_RUNNING → used (kd_stop d) false
  | used_deinit d d' : used d false → kd_caller d = KIdle → kd_state d = KINECT_INITIALIZED → kd_deinit d = Ok d' → used d' false
  | used_caller d d' b : used d b → kinect_step KCallerStep d = Some d' → used d' b
  | used_worker d d' b e : used d b → kinect_step (KWorkerStep e) d = Some d' → used d' b.

Definition kinect_inv d (started : bool) : Prop :=
  (kd_state d ≠ KINECT_UNINITIALIZED → open_device d) ∧
  match started, kd_caller d with
  | true, KIdle => (kd_worker d = KEntry ∧ kd_state d = KINECT_INITIALIZED) ∨ (in_loop (kd_worker d) = true ∧ kd_state d = KINECT_RUNNING)
  | true, _ => False
  | false, KIdle => kd_worker d = KFinished ∧ (kd_state d = KINECT_UNINITIALIZED ∨ kd_state d = KINECT_INITIALIZED)
  | false, KStopRequest => in_loop (kd_worker d) = true ∧ kd_state d = KINECT_RUNNING
  | false, KStopWait =>
      ((in_loop (kd_worker d) = true ∨ kd_worker d = KExit) ∧ kd_state d = KINECT_STOP_REQUESTED) ∨
      ((kd_worker d = KEnding ∨ kd_worker d = KFinished) ∧ kd_state d = KINECT_INITIALIZED)
  end.

Lemma kd_init_inv d b d' : kinect_inv d false → kd_caller d = KIdle → kd_init d = Ok (b, d') → kinect_inv d' false.
Proof.
  unfold kinect_inv. intros [_ Hw] Hc. rewrite Hc in Hw. destruct Hw as [Hw _]. unfold kd_init. case_bool_decide; [|done].
  destruct (MSR_NuiCreateInstanceByIndex (kd_id d)) as [i|]; [|by intros [= <- <-]; cbn; rewrite Hc; split; [|auto]].
  destruct (NuiInitialize i), (NuiSkeletonTrackingEnable i), (NuiVideoStreamOpen i), (NuiDepthStreamOpen i);
    intros [= <- <-]; cbn; rewrite Hc; (split; [unfold open_device; cbn; naive_solver|auto]).
Qed.

Lemma kd_worker_inv e d d' b : kinect_inv d b → kd_step_worker e d = Some d' → kinect_inv d' b.
Proof.
  unfold kinect_inv, open_device. intros [Ho Hw] Hs. unfold kd_step_worker in Hs.
  destruct d as [id st p e1 e2 e3 e4 w c sg f]. cbn in *.
  destruct b, c; try done; destruct w as [| | |e'|e'| |]; cbn in *; try done.
  all: try destruct (handle_alert id e') as [l|x|x]; simplify_eq; repeat case_bool_decide; cbn in *; simplify_eq.
  all: split; [intros ?; apply Ho|]; clear Ho; intuition congruence.
Qed.

Lemma kd_caller_inv d d' b : kinect_inv d b → kd_step_caller d = Some d' → kinect_inv d' b.
Proof.
  unfold kinect_inv, open_device. intros [Ho Hw] Hs. unfold kd_step_caller in Hs.
  destruct d as [id st p e1 e2 e3 e4 w c sg f]. cbn in *. destruct c; [done| |].
  - injection Hs as <-. destruct b; [done|]. destruct Hw as [Hw ->]. split; [intros _; by apply Ho|]. left. auto.
  - destruct w; try done. injection Hs as <-. destruct b; [done|]. split; [exact Ho|].
    cbn. split; [done|]. destruct Hw as [[[|] _]|[_ ->]]; [done|done|by right].
Qed.

Lemma used_inv d b : used d b → kinect_inv d b.
Proof.
  induction 1 as [id|d b d' _ IH Hc Hst Hi|d _ [Ho Hw] Hc Hst|d _ [Ho Hw] Hst|d d' _ [Ho Hw] Hc Hst Hd|d d' b _ IH Hs|d d' b e _ IH Hs].
  - split; [done|]. cbn. auto.
  - by eapply kd_init_inv.
  - unfold kinect_inv, kd_start. rewrite Hc in Hw. destruct Hw as [Hw _]. rewrite Hst, Hw. cbn. rewrite Hc. split; [|by left].
    intros _. apply Ho. by rewrite Hst.
  - unfold kinect_inv, kd_stop. rewrite Hst. cbn. destruct (kd_caller d); [|done..]. rewrite Hst in *. split; [done|].
    by destruct Hw as [[_ ?]|?].
  - unfold kd_deinit in Hd. rewrite Hc in Hw. unfold kinect_inv.
    destruct (kd_instance d); simplify_eq; cbn; rewrite Hc; naive_solver.
  - unfold kinect_step in Hs. destruct (kd_fault d); [done|]. by eapply kd_caller_inv.
  - unfold kinect_step in Hs. destruct (kd_fault d); [done|]. by eapply kd_worker_inv.
Qed.

(** C12: a device whose stop comes after its thread has entered the loop: the thread
    waits and reads only while the instance and the event handles are open; when
    stop has returned the thread has ended; deinit and init find the device in
    the state they ask for. *)
Theorem kinect_device_safe d b : used d b →
  (in_loop (kd_worker d) = true → open_device d) ∧
  (b = false → kd_caller d = KIdle → kd_worker d = KFinished ∧
    (kd_state d = KINECT_UNINITIALIZED ∧ kd_init d ≠ Abort AssertFailed ∨ kd_state d = KINECT_INITIALIZED ∧ ∃ d', kd_deinit d = Ok d')).
Proof.
  intros [Ho Hw]%used_inv. split.
  - intros Hl. apply Ho. intros Hu. rewrite Hu in Hw.
    destruct b, (kd_caller d); try done; repeat destruct Hw as [Hw|Hw]; destruct Hw as [Hw Hw']; try done. by rewrite Hw in Hl.
  - intros -> Hc. rewrite Hc in Hw. destruct Hw as [Hf [Hu|Hi]]; split; [done| |done|].
    + left. split; [done|]. unfold kd_init. rewrite bool_decide_true by done.
      destruct (MSR_NuiCreateInstanceByIndex (kd_id d)) as [i|]; [|done].
      by destruct (NuiInitialize i), (NuiSkeletonTrackingEnable i), (NuiVideoStreamOpen i), (NuiDepthStreamOpen i).
    + right. split; [done|]. destruct Ho as [[i Hi'] _]; [by rewrite Hi|]. unfold kd_deinit. rewrite Hi'. by eexists.
Qed.

(** Steps of the thread that are left when it is told to stop. *)
Definition steps_left (w : kworker) : nat :=
  match w with KFinished => 0 | KEnding => 1 | KExit => 2 | KTest _ => 3 | KWait => 4 | KHandle _ | KEntry => 5 end.

(** stop returns: once it waits, the thread takes at most five steps, whatever
    its waits end with, and until it has ended it can take one, unless handling
    an alert failed. *)
Theorem kinect_stop_returns d b es d' : used d b → kd_caller d = KStopWait → kinect_run (KWorkerStep <$> es) d = Some d' →
  (length es ≤ 5)%nat ∧
  (kd_worker d' = KFinished ∨ is_Some (kd_fault d') ∨ ∀ e, is_Some (kinect_step (KWorkerStep e) d')).
Proof.
  intros Hu Hc Hrun.
  enough (Hle : (length es ≤ steps_left (kd_worker d))%nat ∧ (kd_worker d' = KFinished ∨ is_Some (kd_fault d') ∨ ∀ e, is_Some (kinect_step (KWorkerStep e) d'))).
  { destruct Hle as [Hle ?]. split; [|done]. by destruct (kd_worker d); cbn in *; lia. }
  revert d Hu Hc Hrun. induction es as [|e es IH]; intros d Hu Hc; cbn.
  - intros [= <-]. split; [lia|]. unfold kinect_step. destruct (kd_fault d); [by eauto|].
    unfold kd_step_worker. destruct (kd_worker d); eauto. right. right. intros _. by repeat case_match.
  - intros (d1 & Hs & Hrun)%bind_Some. assert (Hu1 : used d1 b) by (by eapply used_worker).
    apply used_inv in Hu as [_ Hw]. rewrite Hc in Hw.
    assert (Hc1 : kd_caller d1 = KStopWait ∧ (is_Some (kd_fault d1) ∨ steps_left (kd_worker d) = S (steps_left (kd_worker d1)))).
    { unfold kinect_step in Hs. destruct (kd_fault d); [done|]. unfold kd_step_worker in Hs.
      destruct d as [id st p e1 e2 e3 e4 w c sg f]. cbn in *. destruct b; [done|].
      destruct w as [| | |e'|e'| |]; cbn in *; repeat case_match; simplify_eq; repeat case_bool_decide; cbn; naive_solver. }
    destruct Hc1 as [Hc1 [[x Hx]|Hst]].
    + destruct es as [|e' es]; cbn in *; [|by unfold kinect_step in Hrun; rewrite Hx in Hrun]. injection Hrun as <-.
      split; [|right; left; by exists x]. unfold kinect_step, kd_step_worker in Hs.
      destruct (kd_worker d); cbn; try lia; by destruct (kd_fault d).
    + destruct (IH d1 Hu1 Hc1 Hrun) as [Hle ?]. split; [lia|done].
Qed.

(** ** A stop that comes too early *)

(** Running without its device. *)
Definition deviceless d : Prop :=
  kd_state d = KINECT_RUNNING ∧ kd_instance d = NuiDestroyed ∧ kd_depthEvent d = false ∧ in_loop (kd_worker d) = true.

Lemma deviceless_step e d d' : deviceless d → kinect_step (KWorkerStep e) d = Some d' → deviceless d'.
Proof.
  intros (Hst & Hin & Hev & Hl) Hs. unfold kinect_step in Hs. destruct (kd_fault d); [done|]. unfold kd_step_worker in Hs.
  destruct d as [id st p e1 e2 e3 e4 w c sg f]. cbn in *. subst.
  destruct w as [| | |e'|e'| |]; cbn in *; repeat case_match; simplify_eq; by repeat split.
Qed.

(** Stop finds the device initialised while the thread has not begun, and
    returns at once.  The device is then destroyed under the thread, which takes
    up its loop and counts as running: the next init fails its assertion, and
    the thread goes on without its device, whatever its waits end with. *)
Theorem kinect_early_stop id i : MSR_NuiCreateInstanceByIndex id = Some i →
  NuiInitialize i = true → NuiSkeletonTrackingEnable i = true → NuiVideoStreamOpen i = true → NuiDepthStreamOpen i = true →
  ∃ d, kinect_run [KCall KInit; KCall KStart; KCall KStop; KCall KDeinit; KWorkerStep Timeout] (new_KinectDevice id) = Some d ∧
    kd_caller d = KIdle ∧ deviceless d ∧ kd_init d = Abort AssertFailed ∧
    ∀ es d', kinect_run (KWorkerStep <$> es) d = Some d' → deviceless d'.
Proof.
  intros Hi H1 H2 H3 H4. eexists. split.
  { cbn -[kd_init]. unfold kinect_step, kd_begin, kd_init. cbn. rewrite Hi. cbn. rewrite H1, H2, H3, H4. reflexivity. }
  split_and!; [done|by repeat split|done|]. intros es d'.
  match goal with |- kinect_run _ ?d0 = _ → _ => assert (Hd : deviceless d0) by (by repeat split); revert Hd; generalize d0 end.
  induction es as [|e es IH]; intros d Hd; cbn; [by intros [= <-]|].
  intros (d1 & Hs & Hrun)%bind_Some. by eapply IH, Hrun; eapply deviceless_step.
Qed.

(** ** All devices *)
Lemma kd_init_spec d b d' : kd_init d = Ok (b, d') → kd_state d' = (if b then KINECT_INITIALIZED else KINECT_UNINITIALIZED) ∧
  (b = true → ∃ i, kd_instance d' = NuiLive i) ∧ kd_id d' = kd_id d.
Proof.
  unfold kd_init. case_bool_decide; [|done]. destruct (MSR_NuiCreateInstanceByIndex (kd_id d)) as [i|]; [|by intros [= <- <-]].
  destruct (NuiInitialize i), (NuiSkeletonTrackingEnable i), (NuiVideoStreamOpen i), (NuiDepthStreamOpen i); intros [= <- <-]; cbn; eauto.
Qed.

Definition live d : Prop := kd_state d = KINECT_INITIALIZED ∧ ∃ i, kd_instance d = NuiLive i.
Definition shut d : Prop := kd_state d = KINECT_UNINITIALIZED ∧ kd_instance d = NuiDestroyed.

Lemma deinit_all_live ds : Forall live ds → ∃ ds', deinit_all ds = Ok ds' ∧ Forall shut ds' ∧ length ds' = length ds.
Proof.
  induction 1 as [|d ds [Hst [i Hi]] _ (ds' & Hd & Hs & Hl)]; cbn; [by exists []|].
  unfold kd_deinit. rewrite Hi, Hd. eexists. split_and!; [done|by constructor|by cbn; f_equal].
Qed.

Lemma init_all_spec todo : ∀ dn, Forall live dn → Forall (λ d, kd_state d = KINECT_UNINITIALIZED) todo →
  (∃ ds, init_all dn todo = Ok (None, ds) ∧ Forall live ds ∧ length ds = (length dn + length todo)%nat) ∨
  (∃ n d0 d sh, init_all dn todo = Ok (Some (kd_id d0), sh ++ d :: drop (S n) todo) ∧ todo !! n = Some d0 ∧
    length sh = (length dn + n)%nat ∧ Forall shut sh ∧ kd_init d0 = Ok (false, d)).
Proof.
  induction todo as [|d0 todo IH]; intros dn Hdn Htodo; cbn.
  { left. exists dn. split_and!; [done|done|lia]. }
  apply Forall_cons in Htodo as [Hst Htodo]. destruct (kd_init d0) as [[[|] d]|e|x] eqn:Hi.
  - pose proof (kd_init_spec _ _ _ Hi) as (Hs & Hl & _).
    destruct (IH (dn ++ [d])) as [(ds & Hds & Hlive & Hlen)|(n & d1 & d2 & sh & Hds & Hn & Hlen & Hsh & Hi1)]; [|done| |].
    { apply Forall_app. split; [done|]. constructor; [|done]. split; [done|by apply Hl]. }
    + left. exists ds. rewrite length_app in Hlen. cbn in Hlen. split_and!; [done|done|lia].
    + right. exists (S n), d1, d2, sh. rewrite length_app in Hlen. cbn in Hlen. split_and!; [done|done|lia|done|done].
  - pose proof (kd_init_spec _ _ _ Hi) as (_ & _ & Hid). destruct (deinit_all_live _ Hdn) as (sh & Hsh & Hs & Hlen).
    right. exists 0%nat, d0, d, sh. rewrite Hsh, Hid. cbn. rewrite drop_0. split_and!; [done|done|lia|done|done].
  - exfalso. revert Hi. unfold kd_init. rewrite bool_decide_true by done. destruct (MSR_NuiCreateInstanceByIndex _) as [i|]; [|done].
    by destruct (NuiInitialize i), (NuiSkeletonTrackingEnable i), (NuiVideoStreamOpen i), (NuiDepthStreamOpen i).
  - exfalso. revert Hi. unfold kd_init. rewrite bool_decide_true by done. destruct (MSR_NuiCreateInstanceByIndex _) as [i|]; [|done].
    by destruct (NuiInitialize i), (NuiSkeletonTrackingEnable i), (NuiVideoStreamOpen i), (NuiDepthStreamOpen i).
Qed.

(** init either opens every device, or reports the first that fails and has
    destroyed again those before it; those after it are as they were.  The
    device that failed keeps what it had opened. *)
Theorem kinect_init_all_or_none ds : Forall (λ d, kd_state d = KINECT_UNINITIALIZED) ds →
  (∃ ds', kp_init ds = Ok (None, ds') ∧ Forall live ds' ∧ length ds' = length ds) ∨
  (∃ n d0 d sh, kp_init ds = Ok (Some (kd_id d0), sh ++ d :: drop (S n) ds) ∧ ds !! n = Some d0 ∧
    length sh = n ∧ Forall shut sh ∧ kd_state d = KINECT_UNINITIALIZED ∧
    ∀ i, MSR_NuiCreateInstanceByIndex (kd_id d0) = Some i → kd_instance d = NuiLive i ∧ kd_depthEvent d = true).
Proof.
  intros Hds. destruct (init_all_spec ds [] (Forall_nil_2 _) Hds) as [?|(n & d0 & d & sh & H1 & H2 & H3 & H4 & H5)]; [by left|].
  right. exists n, d0, d, sh. split_and!; [done..|by apply kd_init_spec in H5 as [? _]|].
  intros i Hi. revert H5. unfold kd_init. case_bool_decide; [|done]. rewrite Hi.
  destruct (NuiInitialize i), (NuiSkeletonTrackingEnable i), (NuiVideoStreamOpen i), (NuiDepthStreamOpen i); by intros [= <-].
Qed.

(** The pipeline calls deinit on an element whose init failed: unless it was
    the first device that failed, an instance is destroyed a second time. *)
Lemma kinect_destroyed_twice ds ds' id : Forall (λ d, kd_state d = KINECT_UNINITIALIZED) ds →
  kp_init ds = Ok (Some id, ds') → (∀ d0, head ds = Some d0 → ∃ d, kd_init d0 = Ok (true, d)) →
  kp_deinit ds' = Abort UndefinedBehaviour.
Proof.
  intros Hds Hi Hfirst. destruct (init_all_spec ds [] (Forall_nil_2 _) Hds) as [(x & Hx & _)|(n & d0 & d & sh & Hx & Hn & Hlen & Hsh & Hd)];
    unfold kp_init in Hi; rewrite Hx in Hi; injection Hi as; subst ds'; [done|].
  destruct sh as [|d1 sh].
  - cbn in Hlen. subst n. destruct ds as [|d2 ds]; [done|]. injection Hn as ->. destruct (Hfirst d0 eq_refl) as [d' Hd']. congruence.
  - apply Forall_cons in Hsh as [[_ Hd1] _]. unfold kp_deinit. cbn. unfold kd_deinit. by rewrite Hd1.
Qed.
End device.

(** ** The producer *)
Section producer.
Context {S : Type}.
Implicit Types p : MSKinectProducer S.

Definition kp_ok (n : nat) p : Prop :=
  length (m_depthFrames p) = n ∧ length (m_videoFrames p) = n ∧ length (m_skeletonFrames p) = n.

Inductive kp_event := KpDepth (i : Z) (im : KImage) | KpVideo (i : Z) (im : KImage) | KpSkeleton (i : Z) (sf : option S).
Definition kp_slot (e : kp_event) (p : MSKinectProducer S) : outcome (MSKinectProducer S) :=
  match e with KpDepth i im => kp_newDepthFrame i im p | KpVideo i im => kp_newVideoFrame i im p | KpSkeleton i sf => kp_newSkeletonFrame i sf p end.
Definition kp_index (e : kp_event) : Z := match e with KpDepth i _ | KpVideo i _ | KpSkeleton i _ => i end.

(** The slots fail their assertion exactly on an index that no device has. *)
Lemma kp_slot_spec n e p : kp_ok n p →
  (0 ≤ kp_index e < Z.of_nat n → ∃ p', kp_slot e p = Ok p' ∧ kp_ok n p') ∧
  (¬ (0 ≤ kp_index e < Z.of_nat n) → kp_slot e p = Abort AssertFailed).
Proof.
  intros (Hd & Hv & Hs).
  assert (Hr : in_range (kp_index e) p = bool_decide (0 ≤ kp_index e < Z.of_nat n)).
  { unfold in_range. rewrite Hd. repeat case_bool_decide; cbn; try done; lia. }
  split; intros Hi; [rewrite bool_decide_true in Hr by done|rewrite bool_decide_false in Hr by done];
    destruct e; cbn in *; unfold kp_newDepthFrame, kp_newVideoFrame, kp_newSkeletonFrame; rewrite Hr; try done;
    (eexists; split; [done|]; unfold kp_ok; cbn; by rewrite ?length_insert).
Qed.

Lemma frames_ready_spec l : frames_ready l = true ↔ Forall (λ dv, kimage_isValid dv.1 = true ∧ kimage_isValid dv.2 = true) l.
Proof.
  induction l as [|[d v] l IH]; cbn; [by split|]. rewrite Forall_cons, <-IH. cbn.
  destruct (kimage_isValid d), (kimage_isValid v); naive_solver.
Qed.

(** The producer is ready when every device has given a depth and a camera
    frame since the last production; what it then puts are those frames, all
    valid, and it is not ready again before new ones have come.  Without a
    device it is always ready. *)
Theorem kinect_produces_complete_frames n p : kp_ok n p → kp_readyToProduce p = true →
  length (kp_produce p).1 = n ∧
  (∀ k d v s, (kp_produce p).1 !! k = Some (d, v, s) → kimage_isValid d = true ∧ kimage_isValid v = true ∧
    m_depthFrames p !! k = Some d ∧ m_videoFrames p !! k = Some v ∧ m_skeletonFrames p !! k = Some s) ∧
  kp_ok n (kp_produce p).2 ∧ kp_readyToProduce (kp_produce p).2 = bool_decide (n = 0%nat).
Proof.
  intros (Hd & Hv & Hs) Hr. unfold kp_readyToProduce in *. apply frames_ready_spec in Hr. split_and!.
  - cbn. rewrite !length_zip. lia.
  - intros k d v s Hk. cbn in Hk. apply lookup_zip_with_Some in Hk as ([d' v'] & s' & [= <- <- <-] & Hdv & Hs').
    rewrite Forall_lookup in Hr. pose proof (Hr _ _ Hdv) as [? ?].
    apply lookup_zip_with_Some in Hdv as (d' & v' & [= -> ->] & Hd' & Hv'). done.
  - unfold kp_ok. cbn. by rewrite !length_fmap.
  - cbn. destruct (m_depthFrames p) as [|d l], (m_videoFrames p); cbn in *; subst; done.
Qed.
End producer.

(** ** Instances *)
Definition test_nui : NuiSdk := {|
  NuiInstance := Z; MSR_NuiCreateInstanceByIndex id := if bool_decide (id < 4) then Some id else None;
  NuiInitialize _ := true; NuiSkeletonTrackingEnable _ := true; NuiVideoStreamOpen i := bool_decide (i < 2); NuiDepthStreamOpen _ := true;
  SkeletonData := list bool; skeleton_tracked l := existsb id l; NuiTransformSmooth l := l
|}.
#[local] Existing Instance test_nui.

Lemma threshold_in_depths_witness : threshold_pixel (mkKinectThreshold 800 4000) (depth_value 1000) = 16000.
Proof. rewrite (threshold_in_depths 800 4000 1000) by lia. reflexivity. Defined.

Lemma kinect_early_stop_witness : ∃ d, kinect_run [KCall KInit; KCall KStart; KCall KStop; KCall KDeinit; KWorkerStep Timeout]
    (new_KinectDevice 0) = Some d ∧ deviceless d.
Proof. destruct (kinect_early_stop (H := test_nui) 0 0) as (d & Hr & _ & Hd & _); [reflexivity..|]. by exists d. Defined.

(** Device 0 opened, running, and asked to stop. *)
Definition opened0 : KinectDevice := mkKinect 0 KINECT_INITIALIZED (NuiLive 0) true true true true KFinished KIdle [] None.
Definition running0 : KinectDevice := kd_set_worker KWait (kd_set_state KINECT_RUNNING opened0).
Definition stopping0 : KinectDevice := kd_set_caller KStopWait (kd_set_state KINECT_STOP_REQUESTED running0).

Lemma used_running0 : used running0 true.
Proof.
  apply (used_worker (kd_start opened0) _ _ Timeout); [|reflexivity]. apply used_start; [|reflexivity..].
  by apply (used_init (new_KinectDevice 0) true); [constructor|..].
Qed.
Lemma used_stopping0 : used stopping0 false.
Proof. apply (used_caller (kd_stop running0)); [|reflexivity]. by apply used_stop; [apply used_running0|]. Qed.

Lemma kinect_device_safe_witness : in_loop (kd_worker running0) = true ∧ open_device running0.
Proof. split; [reflexivity|]. apply (kinect_device_safe _ _ used_running0). reflexivity. Defined.

Lemma kinect_init_all_or_none_witness : ∃ ds sh d, kp_init [new_KinectDevice 0; new_KinectDevice 2] = Ok (Some 2, ds) ∧
  ds = sh ++ [d] ∧ Forall shut sh ∧ length sh = 1%nat ∧ kd_instance d = NuiLive 2.
Proof.
  assert (He : ∃ ds, kp_init [new_KinectDevice 0; new_KinectDevice 2] = Ok (Some 2, ds)) by (eexists; reflexivity). destruct He as [ds He].
  destruct (kinect_init_all_or_none [new_KinectDevice 0; new_KinectDevice 2]) as [(ds' & Hi & _)|(n & d0 & d & sh & Hi & Hn & Hlen & Hs & _ & Hd)].
  - by repeat constructor.
  - rewrite He in Hi. discriminate Hi.
  - rewrite He in Hi. injection Hi as Hid ->. exists (sh ++ d :: drop (S n) [new_KinectDevice 0; new_KinectDevice 2]), sh, d.
    destruct n as [|[|n]]; [injection Hn as <-; discriminate Hid|injection Hn as <-|discriminate Hn].
    split; [exact He|]. split; [reflexivity|]. split; [exact Hs|]. split; [exact Hlen|]. by apply (Hd 2).
Defined.

Lemma kinect_produces_complete_frames_witness :
  length (kp_produce (mkKinectProducer [K16U 1 1 [7]] [K8UC3 1 1 [mkQuad 1 2 3]] [None : option nat])).1 = 1%nat.
Proof. by apply (kinect_produces_complete_frames 1). Defined.

Lemma kinect_stop_returns_witness : ∃ d, kinect_run (KWorkerStep <$> replicate 4 Timeout) stopping0 = Some d ∧ kd_worker d = KFinished.
Proof.
  eexists. split; [reflexivity|].
  destruct (kinect_stop_returns stopping0 false (replicate 4 Timeout) _ used_stopping0 eq_refl eq_refl) as [_ [Hf|[[x Hx]|Hs]]].
  - exact Hf.
  - discriminate Hx.
  - destruct (Hs Timeout) as [d Hd]. discriminate Hd.
Defined.
