(* ===== verification/SaveImage.v ===== *)
(** Images on disk (SaveImageToFile.cpp, ImageProducer.cpp of plvopencv): the
    names under which images are saved, what is written and what is reported,
    the file an image is read from. *)
From Stdlib Require Import Ascii.
From S2P Require Export Model Enum.

(** ** What Qt and OpenCV do with names and files

    [qt_arg]: a format whose place markers are filled one after the other;
    [can_open]: opening the new file for writing succeeds; [imwrite]: the image
    is written. *)
Class ImageFiles := {
  FileImage : Type;
  qt_arg : string → list string → string;
  qt_number : Z → string;
  dir_exists : string → bool;
  can_open : string → bool;
  imwrite : string → FileImage → bool
}.

(** ** Names *)
Definition backslash : ascii := "092"%char.
Definition slash : ascii := "/"%char.

(** [replace('\\','/')] *)
Fixpoint slashes (s : string) : string :=
  match s with EmptyString => EmptyString | String c s' => String (if bool_decide (c = backslash) then slash else c) (slashes s') end.
Fixpoint endsWith_slash (s : string) : bool :=
  match s with EmptyString => false | String c EmptyString => bool_decide (c = slash) | String _ s' => endsWith_slash s' end.
Definition as_directory (s : string) : string :=
  let s' := slashes s in if endsWith_slash s' then s' else s' +:+ "/".

(** ** SaveImageToFile.cpp

    The files and what is in them; None for a file that was only created. *)
Notation files := (gmap string (option FileImage)).

Section save.
Context `{ImageFiles}.

Record SaveImageToFile := mkSave { si_directory : string; si_fileFormat : Enum; si_fileExt : string }.

(** enum ImageFormat *)
Definition BMP : Z := 0.
Definition JPG : Z := 1.
Definition PNG : Z := 2.
Definition PBM : Z := 3.
Definition SR : Z := 4.
Definition TIFF : Z := 5.

Definition new_SaveImageToFile : SaveImageToFile :=
  mkSave "/tmp/"
    (enum_add "TIFF Files - *.tiff" TIFF (enum_add "Sun Rasters - *.sr" SR
      (enum_add "Portable Image Format - *.pbm" PBM (enum_add "Portable Network Graphics - *.png" PNG
      (enum_add "JPEG Files - *.jpg" JPG (enum_add "Windows Bitmap - *.bmp" BMP (new_Enum 0)))))))
    ".bmp".

Definition save_init (s : SaveImageToFile) : bool * SaveImageToFile :=
  let d := as_directory (si_directory s) in (dir_exists d, mkSave d (si_fileFormat s) (si_fileExt s)).
Definition setDirectory (state : State) (d : string) (s : SaveImageToFile) : SaveImageToFile :=
  if bool_decide (state_rank PLE_UNDEFINED < state_rank state) then s else mkSave d (si_fileFormat s) (si_fileExt s).
Definition file_extension (index : Z) : string :=
  if bool_decide (index = JPG) then ".jpg" else if bool_decide (index = PNG) then ".png"
  else if bool_decide (index = PBM) then ".pbm" else if bool_decide (index = SR) then ".sr"
  else if bool_decide (index = TIFF) then ".tiff" else ".bmp".
Definition setFileFormat (e : Enum) (s : SaveImageToFile) : SaveImageToFile :=
  mkSave (si_directory s) e (file_extension (en_selectedIndex e)).

(** What the pins of one call hold, None for a pin that is not connected; the
    trigger pin may be connected and empty. *)
Record SaveInput := mkSaveInput {
  in_image : option FileImage; in_images : option (list FileImage);
  in_name : option string; in_path : option string; in_trigger : option (option bool)
}.

(** [filename] of image [i]. *)
Definition image_filename (multi_image : bool) (path filenameBegin ext : string) (i : nat) : string :=
  if multi_image then qt_arg "%1%2_%3%4" [path; filenameBegin; qt_number (Z.of_nat i); ext]
  else qt_arg "%1%2%3" [path; filenameBegin; ext].

(** One image: [success] goes from one image to the next. *)
Definition save_one (filename : string) (img : FileImage) (success : bool) (fs : files) : bool * files :=
  match fs !! filename with
  | Some _ => (success, fs)
  | None =>
      if can_open filename then
        if imwrite filename img then (true, <[filename := Some img]> fs) else (false, <[filename := None]> fs)
      else (success, fs)
  end.

(** The names that are reported as failed, and the files. *)
Fixpoint save_loop (name : nat → string) (i : nat) (images : list FileImage) (success : bool) (fs : files) : list string * files :=
  match images with
  | [] => ([], fs)
  | img :: images' =>
      let '(success', fs') := save_one (name i) img success fs in
      let '(failed, fs'') := save_loop name (S i) images' success' fs' in
      (if success' then failed else name i :: failed, fs'')
  end.

Definition save_images (inp : SaveInput) : list FileImage :=
  match in_image inp with Some img => [img] | None => [] end ++ default [] (in_images inp).
Definition save_begin (serial : Z) (inp : SaveInput) : string :=
  match in_name inp with
  | Some n => if bool_decide (n = EmptyString) then qt_number serial else before_dot n
  | None => qt_number serial
  end.

Definition save_process (serial : Z) (inp : SaveInput) (s : SaveImageToFile) (fs : files) : list string * files :=
  let images := save_images inp in
  let path := match in_path inp with Some p => as_directory p | None => si_directory s end in
  if match in_path inp with Some _ => negb (dir_exists path) | None => false end then ([], fs)
  else
    let filenameBegin := save_begin serial inp in
    let go := save_loop (image_filename (bool_decide (1 < length images)%nat) path filenameBegin (si_fileExt s)) 0 images false fs in
    match in_trigger inp with
    | Some (Some true) | None => go
    | Some (Some false) | Some None => ([], fs)
    end.
End save.

(** ** ImageProducer.cpp *)
Definition lower (c : ascii) : ascii :=
  let n := nat_of_ascii c in if bool_decide (65 ≤ n ≤ 90)%nat then ascii_of_nat (n + 32) else c.
Fixpoint lower_string (s : string) : string :=
  match s with EmptyString => EmptyString | String c s' => String (lower c) (lower_string s') end.
(** [midRef( length() - n, n )] compared without regard to case. *)
Definition has_extension (filename e : string) : bool :=
  let n := String.length e in
  bool_decide (lower_string (String.substring (String.length filename - n) n filename) = e).

(** For at least three characters. *)
Definition validateExtension (filename : string) : bool :=
  if has_extension filename ".sr" then true
  else if bool_decide (String.length filename < 5)%nat then false
  else if has_extension filename ".bmp" || has_extension filename ".dib" || has_extension filename ".jpg" ||
          has_extension filename ".jpe" || has_extension filename ".png" || has_extension filename ".pbm" ||
          has_extension filename ".pgm" || has_extension filename ".ppm" || has_extension filename ".ras" ||
          has_extension filename ".tif" then true
  else if bool_decide (String.length filename < 6)%nat then false
  else has_extension filename ".jpeg" || has_extension filename ".tiff".

Section producer.
Context {I : Type}.
Record ImageProducer := mkImageProducer {
  ipr_filename : string; ipr_directory : string; ipr_loadedImage : option I; ipr_putImage : bool
}.

Definition new_ImageProducer : ImageProducer := mkImageProducer EmptyString EmptyString None true.
Definition setFilename (filename : string) (p : ImageProducer) : ImageProducer :=
  if bool_decide (String.length filename < 4)%nat || negb (validateExtension filename) then p
  else mkImageProducer filename (ipr_directory p) (ipr_loadedImage p) (ipr_putImage p).
(** [exists_]: what QDir says of the directory as it was given. *)
Definition ipr_setDirectory (exists_ : string → bool) (directory : string) (p : ImageProducer) : ImageProducer :=
  if exists_ directory then mkImageProducer (ipr_filename p) (slashes directory) (ipr_loadedImage p) (ipr_putImage p) else p.
(** The error message names the path. *)
Definition ipr_init (imread : string → option I) (p : ImageProducer) : option string * ImageProducer :=
  let path := (if endsWith_slash (ipr_directory p) then ipr_directory p else ipr_directory p +:+ "/") +:+ ipr_filename p in
  match imread path with
  | None => (Some path, p)
  | Some image => (None, mkImageProducer (ipr_filename p) (ipr_directory p) (Some image) true)
  end.
Definition ipr_deinit (p : ImageProducer) : ImageProducer := mkImageProducer (ipr_filename p) (ipr_directory p) None (ipr_putImage p).
Definition ipr_readyToProduce (p : ImageProducer) : bool := bool_decide (is_Some (ipr_loadedImage p)).
(** The image that is put, if any. *)
Definition ipr_produce (p : ImageProducer) : option (option I) * ImageProducer :=
  if ipr_putImage p then (Some (ipr_loadedImage p), mkImageProducer (ipr_filename p) (ipr_directory p) (ipr_loadedImage p) false) else (None, p).
End producer.
