(* ===== verification/SaveTheorems.v ===== *)
(** Images on disk: which files are written, which failures are reported, which
    names an image can be read from. *)
From Stdlib Require Import Ascii.
From S2P Require Export SaveImage.

(** ** Names *)
Fixpoint no_percent (s : string) : bool :=
  match s with EmptyString => true | String c s' => negb (bool_decide (c = "%"%char)) && no_percent s' end.

(** QString::arg on values without place markers of their own; numbers as text. *)
Class ImageFilesLaws `{ImageFiles} := {
  qt_arg_multi a b c d : no_percent a = true → no_percent b = true → no_percent c = true → no_percent d = true →
    qt_arg "%1%2_%3%4" [a; b; c; d] = a +:+ b +:+ "_" +:+ c +:+ d;
  qt_arg_single a b d : no_percent a = true → no_percent b = true → no_percent d = true →
    qt_arg "%1%2%3" [a; b; d] = a +:+ b +:+ d;
  qt_number_percent z : no_percent (qt_number z) = true;
  qt_number_inj i j : 0 ≤ i → 0 ≤ j → qt_number i = qt_number j → i = j
}.

Section save.
Context `{ImageFiles}.
Implicit Types fs : files.

(** ** What a loop does to the files *)
Lemma save_one_keeps f img b fs g : is_Some (fs !! g) → (save_one f img b fs).2 !! g = fs !! g.
Proof.
  intros Hg. unfold save_one. destruct (fs !! f) as [z|] eqn:Hf; [done|].
  assert (f ≠ g) by (intros ->; rewrite Hf in Hg; by destruct Hg).
  destruct (can_open f), (imwrite f img); cbn; by rewrite ?lookup_insert_ne.
Qed.

Lemma save_loop_keeps name imgs : ∀ i b fs g, is_Some (fs !! g) → (save_loop name i imgs b fs).2 !! g = fs !! g.
Proof.
  induction imgs as [|img imgs IH]; intros i b fs g Hg; cbn; [done|].
  pose proof (save_one_keeps (name i) img b fs g Hg) as H1. destruct (save_one (name i) img b fs) as [b' fs']. cbn in H1.
  assert (Hg' : is_Some (fs' !! g)) by (by rewrite H1).
  pose proof (IH (S i) b' fs' g Hg') as H2. destruct (save_loop name (S i) imgs b' fs') as [l fs2]. cbn in *. congruence.
Qed.

(** Saving never changes a file that is there already. *)
Theorem save_never_overwrites serial inp s fs g : is_Some (fs !! g) → (save_process serial inp s fs).2 !! g = fs !! g.
Proof. intros Hg. unfold save_process. repeat case_match; try done; by apply save_loop_keeps. Qed.

(** All images of a loop are written when their names are distinct and free. *)
Lemma save_loop_writes name imgs : ∀ i b fs,
  (∀ j k, (i ≤ j < i + length imgs)%nat → (i ≤ k < i + length imgs)%nat → name j = name k → j = k) →
  (∀ k img, imgs !! k = Some img → fs !! name (i + k)%nat = None ∧ can_open (name (i + k)%nat) = true ∧ imwrite (name (i + k)%nat) img = true) →
  (save_loop name i imgs b fs).1 = [] ∧
  (∀ k img, imgs !! k = Some img → (save_loop name i imgs b fs).2 !! name (i + k)%nat = Some (Some img)) ∧
  (∀ g, (∀ k, (k < length imgs)%nat → name (i + k)%nat ≠ g) → (save_loop name i imgs b fs).2 !! g = fs !! g).
Proof.
  induction imgs as [|img imgs IH]; intros i b fs Hinj Hok; cbn [save_loop].
  { split_and!; [done|by intros []|done]. }
  destruct (Hok 0%nat img eq_refl) as (Hn & Ho & Hw). rewrite Nat.add_0_r in Hn, Ho, Hw.
  unfold save_one. rewrite Hn, Ho, Hw. set (fs1 := <[name i := Some img]> fs).
  destruct (IH (S i) true fs1) as (H1 & H2 & H3).
  { intros j k Hj Hk. apply Hinj; cbn; lia. }
  { intros k img' Hk. pose proof (lookup_lt_Some _ _ _ Hk). replace (S i + k)%nat with (i + S k)%nat by lia.
    destruct (Hok (S k) img' Hk) as (? & ? & ?). unfold fs1. rewrite lookup_insert_ne; [done|].
    intros He. apply Hinj in He; cbn; lia. }
  destruct (save_loop name (S i) imgs true fs1) as [l fs'] eqn:Hl. cbn in H1, H2, H3 |- *. split_and!; [done| |].
  - intros [|k] img' Hk; cbn in Hk.
    + injection Hk as ->. rewrite Nat.add_0_r, H3; [by unfold fs1; rewrite lookup_insert_eq|].
      intros k Hk He. assert (S (i + k) = i) by (apply Hinj; [cbn; lia..|done]). lia.
    + replace (i + S k)%nat with (S i + k)%nat by lia. by apply H2.
  - intros g Hg. rewrite H3.
    + unfold fs1. apply lookup_insert_ne. rewrite <-(Nat.add_0_r i). apply Hg. cbn. lia.
    + intros k Hk. replace (S (i + k)) with (i + S k)%nat by lia. apply Hg. cbn. lia.
Qed.

(** A name that is taken: the image is not saved, and it is reported only when
    no image before it was. *)
Lemma save_loop_taken name i img b fs : is_Some (fs !! name i) →
  save_loop name i [img] b fs = (if b then [] else [name i], fs).
Proof. intros [x Hx]. cbn. unfold save_one. rewrite Hx. by destruct b. Qed.

(** ** The names of the images *)
Context `{!ImageFilesLaws}.
#[local] Set Default Proof Using "Type*".
Definition image_name (n : nat) (path filenameBegin ext : string) (i : nat) : string :=
  path +:+ filenameBegin +:+ (if bool_decide (1 < n)%nat then "_" +:+ qt_number (Z.of_nat i) else EmptyString) +:+ ext.

Lemma append_String c s t : String c s +:+ t = String c (s +:+ t).
Proof. done. Qed.
Lemma append_Empty t : EmptyString +:+ t = t.
Proof. done. Qed.
Lemma length_append s t : String.length (s +:+ t) = (String.length s + String.length t)%nat.
Proof. induction s as [|c s IH]; [done|]. rewrite append_String. cbn. by rewrite IH. Qed.
Lemma append_inj_r s1 : ∀ s2 t, s1 +:+ t = s2 +:+ t → s1 = s2.
Proof.
  induction s1 as [|c s1 IH]; intros s2 t He; pose proof (f_equal String.length He) as Hl; rewrite !length_append in Hl;
    destruct s2 as [|c2 s2]; cbn in Hl; try lia; [done|].
  rewrite !append_String in He. injection He as -> He. f_equal. by eapply IH.
Qed.

Lemma image_filename_spec n path b ext i : no_percent path = true → no_percent b = true → no_percent ext = true →
  image_filename (bool_decide (1 < n)%nat) path b ext i = image_name n path b ext i.
Proof.
  intros Hp Hb He. unfold image_filename, image_name. case_bool_decide.
  - rewrite qt_arg_multi by (done || apply qt_number_percent). reflexivity.
  - by rewrite qt_arg_single.
Qed.

Lemma image_name_inj n path b ext i j : (i < n)%nat → (j < n)%nat → image_name n path b ext i = image_name n path b ext j → i = j.
Proof.
  intros Hi Hj. unfold image_name. case_bool_decide; [|lia]. intros He.
  do 2 apply (inj (String.append _)) in He. apply append_inj_r in He. injection He as He.
  apply qt_number_inj in He; lia.
Qed.

Definition fires (inp : SaveInput) : bool := match in_trigger inp with Some (Some true) | None => true | _ => false end.
Definition save_path (inp : SaveInput) (s : SaveImageToFile) : string :=
  match in_path inp with Some p => as_directory p | None => si_directory s end.

(** When the directory exists, the trigger says so and no name is taken, every
    image of the call is saved under its own name, nothing else changes and no
    failure is reported; when the trigger is not given nothing happens. *)
Theorem save_saves_all serial inp s fs :
  let imgs := save_images inp in let path := save_path inp s in
  let name := image_name (length imgs) path (save_begin serial inp) (si_fileExt s) in
  no_percent path = true → no_percent (save_begin serial inp) = true → no_percent (si_fileExt s) = true →
  (is_Some (in_path inp) → dir_exists path = true) →
  (∀ k img, imgs !! k = Some img → fs !! name k = None ∧ can_open (name k) = true ∧ imwrite (name k) img = true) →
  if fires inp then
    (save_process serial inp s fs).1 = [] ∧
    (∀ k img, imgs !! k = Some img → (save_process serial inp s fs).2 !! name k = Some (Some img)) ∧
    (∀ g, (∀ k, (k < length imgs)%nat → name k ≠ g) → (save_process serial inp s fs).2 !! g = fs !! g)
  else save_process serial inp s fs = ([], fs).
Proof.
  intros imgs path name Hp Hb He Hd Hok. unfold save_process. fold (save_path inp s) path imgs.
  assert (Hdir : match in_path inp with Some _ => negb (dir_exists path) | None => false end = false).
  { destruct (in_path inp); [|done]. by rewrite Hd by done. }
  rewrite Hdir. set (nm := image_filename (bool_decide (1 < length imgs)%nat) path (save_begin serial inp) (si_fileExt s)).
  assert (Hnm : ∀ k, nm k = name k) by (intros k; by apply image_filename_spec).
  destruct (save_loop_writes nm imgs 0 false fs) as (H1 & H2 & H3).
  { intros j k Hj Hk. rewrite !Hnm. apply image_name_inj; lia. }
  { intros k img Hk. rewrite Nat.add_0_l, Hnm. by apply Hok. }
  unfold fires. destruct (in_trigger inp) as [[[]|]|]; try done.
  all: split_and!; [done|intros k img Hk; rewrite <-Hnm; by apply (H2 k)|intros g Hg; apply H3; intros k Hk; rewrite Hnm; by apply Hg].
Qed.

(** Two images under a given name, the second name of which is taken: the
    second image is lost, the call reports nothing. *)
Theorem save_failure_hidden serial a b n s fs (x : option FileImage) :
  let inp := mkSaveInput None (Some [a; b]) (Some n) None None in
  let name := image_name 2 (si_directory s) (before_dot n) (si_fileExt s) in
  n ≠ EmptyString → no_percent (si_directory s) = true → no_percent (before_dot n) = true → no_percent (si_fileExt s) = true →
  fs !! name 0%nat = None → can_open (name 0%nat) = true → imwrite (name 0%nat) a = true → fs !! name 1%nat = Some x →
  save_process serial inp s fs = ([], <[name 0%nat := Some a]> fs).
Proof.
  intros inp name Hn Hp Hb He Hfree Ho Hw Htaken. unfold save_process. cbn -[save_loop name].
  unfold save_begin, inp. cbn -[save_loop name]. rewrite (bool_decide_false (n = EmptyString)) by done.
  set (nm := image_filename true (si_directory s) (before_dot n) (si_fileExt s)).
  assert (Hnm : ∀ k, nm k = name k) by (intros k; by apply (image_filename_spec 2)).
  cbn [save_loop]. rewrite !Hnm. unfold save_one. rewrite Hfree, Ho, Hw.
  rewrite lookup_insert_ne, Htaken; [done|]. intros Heq. apply image_name_inj in Heq; [done|lia|lia].
Qed.
End save.

(** ** The names an image can be read from *)
Definition readable_extensions : list string :=
  [".sr"; ".bmp"; ".dib"; ".jpg"; ".jpe"; ".png"; ".pbm"; ".pgm"; ".ppm"; ".ras"; ".tif"; ".jpeg"; ".tiff"].

Lemma length_lower s : String.length (lower_string s) = String.length s.
Proof. induction s; cbn; by f_equal. Qed.

Lemma substring_whole s : String.substring 0 (String.length s) s = s.
Proof. induction s as [|c s IH]; cbn; [done|by f_equal]. Qed.
Lemma substring_app s t : String.substring (String.length s) (String.length t) (s +:+ t) = t.
Proof. induction s as [|c s IH]; [|exact IH]. rewrite append_Empty. apply substring_whole. Qed.
Lemma substring_split k s : (k ≤ String.length s)%nat → ∃ b, s = b +:+ String.substring (String.length s - k) k s.
Proof.
  induction s as [|c s IH]; cbn [String.length]; intros Hk.
  - exists EmptyString. by assert (k = 0)%nat as -> by lia.
  - destruct (decide (k = S (String.length s))) as [->|Hne].
    + exists EmptyString. rewrite Nat.sub_diag, append_Empty. symmetry. apply (substring_whole (String c s)).
    + destruct IH as (b & Hb); [lia|]. exists (String c b). rewrite Nat.sub_succ_l, append_String by lia. cbn. by f_equal.
Qed.

Definition named (f e : string) : Prop := ∃ b t, f = b +:+ t ∧ b ≠ EmptyString ∧ lower_string t = e.
Lemma named_length f e : named f e → (String.length e < String.length f)%nat.
Proof.
  intros (b & t & -> & Hb & <-). rewrite length_append, length_lower. destruct b as [|c b]; [done|]. cbn. lia.
Qed.
Lemma has_extension_spec f e : (String.length e < String.length f)%nat → has_extension f e = true ↔ named f e.
Proof.
  intros Hl. unfold has_extension. rewrite bool_decide_eq_true. split.
  - intros He. destruct (substring_split (String.length e) f) as (b & Hb); [lia|].
    exists b, (String.substring (String.length f - String.length e) (String.length e) f). split_and!; [done| |done].
    intros ->. rewrite append_Empty in Hb. apply (f_equal String.length) in He. rewrite length_lower, <-Hb in He. lia.
  - intros (b & t & -> & Hb & <-). by rewrite length_append, length_lower, Nat.add_sub, substring_app.
Qed.

Lemma existsb_named f l : Forall (λ e, String.length e < String.length f)%nat l → existsb (has_extension f) l = true ↔ Exists (named f) l.
Proof.
  induction 1 as [|e l He _ IH]; cbn; [by rewrite Exists_nil|]. by rewrite orb_true_iff, Exists_cons, IH, has_extension_spec.
Qed.
Lemma named_short f l : Forall (λ e, String.length f ≤ String.length e)%nat l → ¬ Exists (named f) l.
Proof. intros Hl Hex. apply Exists_exists in Hex as (e & He & Hn%named_length). rewrite Forall_forall in Hl. apply Hl in He. lia. Qed.

Ltac lengths := repeat first [apply Forall_nil_2 | apply Forall_cons_2]; cbn; lia.
Definition extensions4 : list string := [".bmp"; ".dib"; ".jpg"; ".jpe"; ".png"; ".pbm"; ".pgm"; ".ppm"; ".ras"; ".tif"].
Definition extensions5 : list string := [".jpeg"; ".tiff"].
Lemma validateExtension_split f : validateExtension f =
  has_extension f ".sr" || negb (bool_decide (String.length f < 5)%nat) && (existsb (has_extension f) extensions4 ||
    negb (bool_decide (String.length f < 6)%nat) && existsb (has_extension f) extensions5).
Proof.
  unfold validateExtension. cbn [existsb extensions4 extensions5]. rewrite !orb_assoc, !orb_false_r.
  destruct (has_extension f ".sr"); [done|]. case_bool_decide; [done|]. cbn [negb andb orb].
  match goal with |- context [if ?b then _ else _] => destruct b end; [done|]. by case_bool_decide.
Qed.

Lemma validateExtension_spec f : (4 ≤ String.length f)%nat → validateExtension f = true ↔ Exists (named f) readable_extensions.
Proof.
  intros Hl. change readable_extensions with (".sr" :: extensions4 ++ extensions5).
  rewrite validateExtension_split, Exists_cons, Exists_app, orb_true_iff, has_extension_spec by (cbn; lia).
  case_bool_decide as H5; cbn [negb andb].
  { assert (¬ Exists (named f) extensions4 ∧ ¬ Exists (named f) extensions5) by (split; apply named_short; lengths).
    naive_solver. }
  rewrite orb_true_iff, existsb_named by (lengths). case_bool_decide as H6; cbn [negb andb].
  { assert (¬ Exists (named f) extensions5) by (apply named_short; lengths). naive_solver. }
  by rewrite existsb_named by (lengths).
Qed.

(** A file name is taken over exactly when it is a name with one of the
    extensions, in upper or lower case. *)
Theorem setFilename_accepts {I} (p : @ImageProducer I) (f : string) :
  (Exists (named f) readable_extensions → ipr_filename (setFilename f p) = f) ∧
  (¬ Exists (named f) readable_extensions → setFilename f p = p).
Proof.
  assert (Hlen : Exists (named f) readable_extensions → (4 ≤ String.length f)%nat).
  { intros Hex. destruct (decide (4 ≤ String.length f)%nat) as [|Hlt]; [done|]. exfalso. revert Hex. apply named_short. lengths. }
  unfold setFilename. split; intros Hex.
  - rewrite bool_decide_false, (proj2 (validateExtension_spec f (Hlen Hex)) Hex) by (specialize (Hlen Hex); lia). done.
  - case_bool_decide as H4; [done|]. cbn [orb]. destruct (validateExtension f) eqn:Hv; [|done].
    exfalso. apply Hex, validateExtension_spec; [lia|done].
Qed.

(** After init one image is put, however often produce is called. *)
Fixpoint produce_times {I} (n : nat) (p : @ImageProducer I) : list (option I) :=
  match n with
  | O => []
  | S n' => match ipr_produce p with (Some o, p') => o :: produce_times n' p' | (None, p') => produce_times n' p' end
  end.
Theorem image_put_once {I} imread (p p' : @ImageProducer I) n : ipr_init imread p = (None, p') → (0 < n)%nat →
  ipr_readyToProduce p' = true ∧ ∃ img, ipr_loadedImage p' = Some img ∧ produce_times n p' = [Some img].
Proof.
  unfold ipr_init. destruct (imread _) as [img|]; [|done]. intros [= <-] Hn. split; [by apply bool_decide_eq_true|]. exists img. split; [done|].
  destruct n as [|n]; [lia|]. cbn. f_equal. clear. induction n as [|n IH]; [done|]. cbn. exact IH.
Qed.

(** ** Instances *)
Fixpoint tally (n : nat) : string := match n with O => EmptyString | S n' => String "1" (tally n') end.
Definition test_files : ImageFiles := {|
  FileImage := nat;
  qt_arg fmt l := match l with
    | [a; b; c; d] => a +:+ b +:+ "_" +:+ c +:+ d
    | [a; b; d] => a +:+ b +:+ d
    | _ => fmt end;
  qt_number z := tally (Z.to_nat z);
  dir_exists d := bool_decide (d = "/tmp/"); can_open _ := true; imwrite _ _ := true
|}.
#[local] Existing Instance test_files.

Lemma tally_percent n : no_percent (tally n) = true.
Proof. by induction n. Qed.
Lemma tally_inj m : ∀ n, tally m = tally n → m = n.
Proof. induction m as [|m IH]; intros [|n]; cbn; try done. intros [= He]. f_equal. by apply IH. Qed.
#[local] Instance test_files_laws : ImageFilesLaws.
Proof.
  split; [done..| |].
  - intros z. apply tally_percent.
  - intros i j Hi Hj He%tally_inj. lia.
Qed.

Lemma save_never_overwrites_witness :
  (save_process 0 (mkSaveInput (Some 7%nat) None (Some "a.x") None None) new_SaveImageToFile {["/tmp/a.bmp" := Some 5%nat]}).2 !! "/tmp/a.bmp" = Some (Some 5%nat).
Proof. etrans; [apply (save_never_overwrites (H := test_files))|reflexivity]. by exists (Some 5%nat). Defined.

Lemma save_saves_all_witness :
  let inp := mkSaveInput (Some 7%nat) (Some [8%nat]) (Some "a.x") None (Some (Some true)) in
  (save_process 0 inp new_SaveImageToFile ∅).2 !! "/tmp/a_1.bmp" = Some (Some 8%nat).
Proof.
  intros inp. destruct (save_saves_all 0 inp new_SaveImageToFile ∅) as (_ & Hs & _).
  - reflexivity.
  - reflexivity.
  - reflexivity.
  - intros [x Hx]. discriminate Hx.
  - intros k img _. split; [apply lookup_empty|]. split; reflexivity.
  - exact (Hs 1%nat 8%nat eq_refl).
Defined.

Lemma save_failure_hidden_witness :
  let fs : gmap string (option nat) := {["/tmp/a_1.bmp" := Some 5%nat]} in
  save_process 0 (mkSaveInput None (Some [7%nat; 8%nat]) (Some "a") None None) new_SaveImageToFile fs = ([], <["/tmp/a_.bmp" := Some 7%nat]> fs).
Proof. by apply (save_failure_hidden (H := test_files) 0 7%nat 8%nat "a" new_SaveImageToFile _ (Some 5%nat)). Defined.

Lemma image_put_once_witness : ∃ p', ipr_init (λ _, Some 3%nat) new_ImageProducer = (None, p') ∧ produce_times 4 p' = [Some 3%nat].
Proof.
  eexists. split; [reflexivity|].
  destruct (image_put_once (λ _, Some 3%nat) new_ImageProducer _ 4 eq_refl ltac:(lia)) as [_ (img & Hi & Hp)]. cbn in Hi. injection Hi as <-. exact Hp.
Defined.
Lemma setFilename_accepts_witness : ipr_filename (setFilename "Img.JPEG" (@new_ImageProducer nat)) = "Img.JPEG".
Proof.
  apply setFilename_accepts. do 11 right. left. exists "Img", ".JPEG". split; [reflexivity|]. split; [discriminate|reflexivity].
Defined.
