(* ===== verification/ImageConverter.v ===== *)
(** The conversion of matrices to images for the screen
    (plvgui/ImageConverter.cpp). *)
From Stdlib Require Import Floats.SpecFloat.
From S2P Require Export Prelude.

(** ** Matrices

    [ci_data] are the words from [data] on, of the width of the depth; the bits
    of a float are a word of 32 bits.  [ci_step] is in bytes. *)
Inductive CvDepth := Depth8U | Depth8S | Depth16U | Depth16S | Depth32S | Depth32F | Depth64F.
Record CvImage := mkCvImage {
  ci_depth : CvDepth; ci_channels : Z; ci_rows : Z; ci_cols : Z; ci_step : Z; ci_data : list Z
}.
#[export] Instance CvDepth_eq_dec : EqDecision CvDepth.
Proof. solve_decision. Defined.

(** CvMatData::depthToString *)
Definition depth_name (d : CvDepth) : string :=
  match d with
  | Depth8U => "CV_8U" | Depth8S => "CV_8S" | Depth16U => "CV_16U" | Depth16S => "CV_16S"
  | Depth32S => "CV_32S" | Depth32F => "CV_32F" | Depth64F => "CV_64F"
  end.

(** [cvImgData[ i ]] *)
Definition word (data : list Z) (i : Z) : outcome Z :=
  if bool_decide (i < 0) then Abort OutOfRange
  else match data !! Z.to_nat i with Some v => Ok v | None => Abort OutOfRange end.

(** ** Floats

    The bits of a [float], and [(int)( f * 255.0f )]: a value that an [int]
    cannot hold is undefined behaviour. *)
Definition float_of_bits (b : Z) : spec_float :=
  let s := Z.testbit b 31 in
  let e := Z.land (Z.shiftr b 23) 255 in
  let m := Z.land b (2 ^ 23 - 1) in
  if bool_decide (e = 255) then (if bool_decide (m = 0) then S754_infinity s else S754_nan)
  else if bool_decide (e = 0) then match m with Zpos p => S754_finite s p (-149) | _ => S754_zero s end
  else match m + 2 ^ 23 with Zpos p => S754_finite s p (e - 150) | _ => S754_nan end.

Definition float_255 : spec_float := S754_finite false 16711680 (-16).

Definition int_of_float (f : spec_float) : outcome Z :=
  match f with
  | S754_zero _ => Ok 0
  | S754_finite s m e =>
      let a := if bool_decide (0 ≤ e) then Zpos m * 2 ^ e else Zpos m / 2 ^ (- e) in
      let v := if s then - a else a in
      if bool_decide (- 2 ^ 31 ≤ v) && bool_decide (v < 2 ^ 31) then Ok v else Abort UndefinedBehaviour
  | S754_infinity _ | S754_nan => Abort UndefinedBehaviour
  end.
Definition scaled_float (bits : Z) : outcome Z := int_of_float (SFmul 24 128 (float_of_bits bits) float_255).

(** ** QImage *)
Inductive QFormat := Format_Indexed8 | Format_RGB32 | Format_ARGB32_Premultiplied.
Record QImage := mkQImage {
  qi_format : QFormat; qi_width : Z; qi_height : Z;
  qi_pixels : list (list Z);         (** by rows *)
  qi_colorTable : list Z
}.

Definition qRgb (r g b : Z) : Z :=
  Z.lor (Z.shiftl 255 24) (Z.lor (Z.shiftl (Z.land r 255) 16) (Z.lor (Z.shiftl (Z.land g 255) 8) (Z.land b 255))).

(** [colorTable[ i ] = qRgb( i, i, i )] *)
Definition gray_table : list Z := (λ i, qRgb i i i) <$> seqZ 0 256.

(** ** The loops

    [for( x = 0; x < cols; ++x )] and [for( y = 0; y < rows; ++y )], with an
    index or a pointer that goes on to the next element or line. *)
Fixpoint scan {A} (body : Z → outcome A) (next : Z → Z) (n : nat) (i : Z) : outcome (list A) :=
  match n with
  | O => mret []
  | S n' => a ← body i ; l ← scan body next n' (next i) ; mret (a :: l)
  end.
(** [cvIndex += advance] and [cvLineStart += step] on an [int] *)
Definition int_plus (d i : Z) : Z := i32 (i + d).

(** The loop of CV_8UC1 moves a pointer and copies whole lines. *)
Definition copy_line (data : list Z) (cols : nat) (offset : Z) : outcome (list Z) :=
  if bool_decide (Z.to_nat offset + cols ≤ length data)%nat
  then mret (take cols (drop (Z.to_nat offset) data)) else Abort OutOfRange.
Definition copy_lines (m : CvImage) : outcome (list (list Z)) :=
  scan (copy_line (ci_data m) (Z.to_nat (ci_cols m))) (λ p, p + ci_step m) (Z.to_nat (ci_rows m)) 0.
(** The loops of the other cases. *)
Definition scan_image (pixel : Z → outcome Z) (advance step : Z) (m : CvImage) : outcome (list (list Z)) :=
  scan (scan pixel (int_plus advance) (Z.to_nat (ci_cols m))) (int_plus step) (Z.to_nat (ci_rows m)) 0.

(** What each loop makes of the words at [cvIndex]. *)
Definition uchar (v : Z) : Z := v mod 2 ^ 8.
Definition int16 (v : Z) : Z := (v + 2 ^ 15) mod 2 ^ 16 - 2 ^ 15.
Definition gray (value : Z → outcome Z) (data : list Z) (i : Z) : outcome Z := v ← word data i ; value v.
Definition gray_16U (v : Z) : outcome Z := mret (uchar (Z.shiftr v 8)).
Definition gray_32F (bits : Z) : outcome Z := v ← scaled_float bits ; mret (uchar v).
Definition colour (value : Z → outcome Z) (data : list Z) (i : Z) : outcome Z :=
  b ← word data i ; blue ← value b ;
  g ← word data (i32 (i + 1)) ; green ← value g ;
  r ← word data (i32 (i + 2)) ; red ← value r ;
  mret (qRgb red green blue).

(** ** cvMatToQImage *)
Definition indexed8 (m : CvImage) (pixels : list (list Z)) : QImage :=
  mkQImage Format_Indexed8 (ci_cols m) (ci_rows m) pixels gray_table.
Definition rgb32 (m : CvImage) (pixels : list (list Z)) : QImage :=
  mkQImage Format_RGB32 (ci_cols m) (ci_rows m) pixels [].

Section converter.
Context (number : Z → string).

Definition not_supported (m : CvImage) : string :=
  "Conversion not supported: depth " +:+ depth_name (ci_depth m) +:+ " and number of channels is " +:+ number (ci_channels m).

(** The case CV_16S has no [break]: what it converts is thrown away, and the
    image is converted as if it had three channels. *)
Definition cvMatToQImage (m : CvImage) : outcome QImage :=
  let step16 := i32 (ci_step m / 2) in
  let step32 := i32 (ci_step m / 4) in
  let data := ci_data m in
  match ci_depth m, ci_channels m with
  | Depth8U, 1 => ls ← copy_lines m ; mret (indexed8 m ls)
  | Depth8U, 3 => ls ← scan_image (colour mret data) 3 (ci_step m) m ; mret (rgb32 m ls)
  | Depth16U, 1 => ls ← scan_image (gray gray_16U data) 1 step16 m ; mret (indexed8 m ls)
  | Depth16U, 3 => ls ← scan_image (colour mret data) 3 step16 m ; mret (rgb32 m ls)
  | Depth16S, 1 =>
      _ ← scan_image (gray gray_16U data) 1 step16 m ;
      ls ← scan_image (colour (λ v, mret (int16 v)) data) 3 step16 m ;
      mret (mkQImage Format_RGB32 (ci_cols m) (ci_rows m) ls gray_table)
  | Depth16S, 3 => ls ← scan_image (colour (λ v, mret (int16 v)) data) 3 step16 m ; mret (rgb32 m ls)
  | Depth32F, 1 => ls ← scan_image (gray gray_32F data) 1 step32 m ; mret (indexed8 m ls)
  | Depth32F, 3 => ls ← scan_image (colour scaled_float data) 3 step32 m ; mret (rgb32 m ls)
  | _, _ => Throw (StdRuntimeError (not_supported m))
  end.

(** [draw]: white, with the message in black over it. *)
Context (draw : string → Z → Z → list (list Z)).
Definition message_image (msg : string) (m : CvImage) : QImage :=
  mkQImage Format_ARGB32_Premultiplied (ci_cols m) (ci_rows m) (draw msg (ci_cols m) (ci_rows m)) [].
Definition cvMatToQImageNoThrow (m : CvImage) : outcome QImage :=
  match cvMatToQImage m with
  | Throw (StdRuntimeError e) =>
      mret (message_image ("plvgui::ImageConverter failed to convert cv::Mat to QImage with error: " +:+ e) m)
  | Throw _ => Abort UnexpectedException
  | r => r
  end.

(** What is emitted. *)
Inductive converter_signal := converted (img : QImage) (id : Z) | convertedList (imgs : list QImage) (id : Z).
Definition convert (m : CvImage) (id : Z) : outcome converter_signal :=
  img ← cvMatToQImageNoThrow m ; mret (converted img id).
Fixpoint convert_all (l : list CvImage) : outcome (list QImage) :=
  match l with
  | [] => mret []
  | m :: l' => img ← cvMatToQImageNoThrow m ; imgs ← convert_all l' ; mret (img :: imgs)
  end.
Definition convertList (l : list CvImage) (id : Z) : outcome converter_signal :=
  imgs ← convert_all l ; mret (convertedList imgs id).
End converter.
