(* ===== verification/ImageConverterProof.v ===== *)
(** The conversion of a matrix shows every element where it is, whatever the
    padding of the lines; which matrices it reads past the end of. *)
From S2P Require Import ImageConverter.

(** ** Reference: every pixel from its element *)
Definition word_size (d : CvDepth) : Z :=
  match d with Depth8U | Depth8S => 1 | Depth16U | Depth16S => 2 | Depth32S | Depth32F => 4 | Depth64F => 8 end.
Definition line_words (m : CvImage) : Z := ci_step m / word_size (ci_depth m).
Definition component (m : CvImage) (y x c : Z) : Z :=
  default 0 (ci_data m !! Z.to_nat (y * line_words m + x * ci_channels m + c)).
(** The brightness of a component: 8 bits as they are, of 16 bits the high byte
    in a grey image and the low byte in a colour image, floats times 255. *)
Definition brightness (m : CvImage) (v : Z) : outcome Z :=
  match ci_depth m with
  | Depth32F => k ← scaled_float v ; mret (k mod 256)
  | Depth16U => mret (if bool_decide (ci_channels m = 1) then v / 256 else v mod 256)
  | _ => mret (v mod 256)
  end.
Definition reference_pixel (m : CvImage) (y x : Z) : outcome Z :=
  if bool_decide (ci_channels m = 1) then brightness m (component m y x 0)
  else b ← brightness m (component m y x 0) ;
       g ← brightness m (component m y x 1) ;
       r ← brightness m (component m y x 2) ;
       mret (255 * 2 ^ 24 + r * 2 ^ 16 + g * 2 ^ 8 + b).

(** The headers that [cv::Mat] makes: lines of [step] bytes that hold a row,
    the last one perhaps without padding; smaller than 2 GB. *)
Record well_formed (m : CvImage) : Prop := {
  wf_rows : 0 < ci_rows m;
  wf_cols : 0 < ci_cols m;
  wf_channels : 0 < ci_channels m;
  wf_step : ci_step m = line_words m * word_size (ci_depth m);
  wf_line : ci_cols m * ci_channels m ≤ line_words m;
  wf_data : (ci_rows m - 1) * line_words m + ci_cols m * ci_channels m ≤ Z.of_nat (length (ci_data m));
  wf_size : ci_rows m * ci_step m < 2 ^ 31;
  wf_words : Forall (λ v, 0 ≤ v < 2 ^ (8 * word_size (ci_depth m))) (ci_data m)
}.
Definition supported (m : CvImage) : bool :=
  match ci_depth m, ci_channels m with
  | (Depth8U | Depth16U | Depth32F), (1 | 3) | Depth16S, 3 => true
  | _, _ => false
  end.
Definition grid_of (m : CvImage) (f : Z → Z → Z) : list (list Z) := (λ y, f y <$> seqZ 0 (ci_cols m)) <$> seqZ 0 (ci_rows m).
Definition screen_image (m : CvImage) (f : Z → Z → Z) : QImage :=
  if bool_decide (ci_channels m = 1) then indexed8 m (grid_of m f) else rgb32 m (grid_of m f).

(** ** The loops *)
Lemma seqZ_nat n : (λ k, Z.of_nat k) <$> seq 0 n = seqZ 0 (Z.of_nat n).
Proof. unfold seqZ. rewrite Nat2Z.id. apply list_fmap_ext. intros i k _. cbn. lia. Qed.

Lemma scan_ok {A} (body : Z → outcome A) next d n i (f : Z → A) :
  (∀ k, (k < n)%nat → body (i + d * Z.of_nat k) = Ok (f (Z.of_nat k)) ∧ next (i + d * Z.of_nat k) = i + d * Z.of_nat (S k)) →
  scan body next n i = Ok (f <$> seqZ 0 (Z.of_nat n)).
Proof.
  revert i f. induction n as [|n IH]; intros i f Hp; [done|]. cbn [scan].
  destruct (Hp 0%nat ltac:(lia)) as [H0 Hn]. rewrite Z.mul_0_r, Z.add_0_r in H0, Hn. rewrite H0. cbn [mbind outcome_bind].
  rewrite Hn, (IH _ (λ k, f (k + 1))).
  - cbn. rewrite <-!seqZ_nat, <-!list_fmap_compose. cbn [seq]. rewrite fmap_cons. cbn. do 2 f_equal.
    rewrite <-fmap_S_seq, <-list_fmap_compose. apply list_fmap_ext. intros j k _. cbn. f_equal. lia.
  - intros k Hk. destruct (Hp (S k) ltac:(lia)) as [Hb Hn'].
    replace (i + d * Z.of_nat 1 + d * Z.of_nat k) with (i + d * Z.of_nat (S k)) by lia.
    split; [rewrite Hb; do 2 f_equal; lia|rewrite Hn'; lia].
Qed.

Lemma scan_image_ok m pixel adv step f : 0 < ci_rows m → 0 < ci_cols m → 0 ≤ adv → adv * ci_cols m ≤ step →
  ci_rows m * step < 2 ^ 31 →
  (∀ y x, 0 ≤ y < ci_rows m → 0 ≤ x < ci_cols m → pixel (y * step + x * adv) = Ok (f y x)) →
  scan_image pixel adv step m = Ok (grid_of m f).
Proof.
  intros Hr Hc Ha Hs Hsize Hp. unfold scan_image, grid_of.
  rewrite (scan_ok _ _ step _ _ (λ y, f y <$> seqZ 0 (ci_cols m))); [by rewrite Z2Nat.id by lia|].
  intros k Hk. split; [|unfold int_plus; rewrite i32_id; nia].
  rewrite (scan_ok _ _ adv _ _ (f (Z.of_nat k))); [by rewrite Z2Nat.id by lia|].
  intros j Hj. split; [|unfold int_plus; rewrite i32_id; nia]. rewrite <-Hp by lia. f_equal. lia.
Qed.

(** ** The elements *)
Section image.
Context (m : CvImage) (Hm : well_formed m).

Lemma line_words_pos : 0 < line_words m.
Proof using Hm. destruct Hm. nia. Qed.
Lemma line_words_size : ci_rows m * line_words m < 2 ^ 31.
Proof using Hm. destruct Hm. assert (1 ≤ word_size (ci_depth m)) by (destruct (ci_depth m); cbn; lia). nia. Qed.

Lemma component_index y x c : 0 ≤ y < ci_rows m → 0 ≤ x < ci_cols m → 0 ≤ c < ci_channels m →
  0 ≤ y * line_words m + x * ci_channels m + c < Z.of_nat (length (ci_data m)) ∧
  y * line_words m + x * ci_channels m + c < 2 ^ 31.
Proof using Hm.
  intros Hy Hx Hc. pose proof line_words_pos as HL. pose proof line_words_size as HS. destruct Hm.
  assert (y * line_words m ≤ (ci_rows m - 1) * line_words m) by (apply Z.mul_le_mono_nonneg_r; lia).
  assert ((x + 1) * ci_channels m ≤ ci_cols m * ci_channels m) by (apply Z.mul_le_mono_nonneg_r; lia).
  assert (0 ≤ y * line_words m) by (apply Z.mul_nonneg_nonneg; lia).
  assert (0 ≤ x * ci_channels m) by (apply Z.mul_nonneg_nonneg; lia). lia.
Qed.

Lemma word_component y x c : 0 ≤ y < ci_rows m → 0 ≤ x < ci_cols m → 0 ≤ c < ci_channels m →
  word (ci_data m) (y * line_words m + x * ci_channels m + c) = Ok (component m y x c) ∧
  0 ≤ component m y x c < 2 ^ (8 * word_size (ci_depth m)).
Proof using Hm.
  intros Hy Hx Hc. destruct (component_index y x c Hy Hx Hc) as [Hi _]. unfold word, component.
  rewrite bool_decide_false by lia. destruct (lookup_lt_is_Some_2 (ci_data m) (Z.to_nat (y * line_words m + x * ci_channels m + c))) as [v Hv]; [lia|].
  rewrite Hv. cbn. split; [done|]. destruct Hm. by eapply (Forall_lookup_1 _ _ _ _ wf_words0).
Qed.
End image.

(** ** Colours *)
Lemma bit_above b n k : 0 ≤ b < 2 ^ n → 0 ≤ n ≤ k → Z.testbit b k = false.
Proof. intros Hb Hk. rewrite <-(Z.mod_small b (2 ^ n)) by done. by apply Z.mod_pow2_bits_high. Qed.

Lemma lor_shiftl a b n : 0 ≤ n → 0 ≤ b < 2 ^ n → Z.lor (Z.shiftl a n) b = a * 2 ^ n + b.
Proof.
  intros Hn Hb. rewrite <-Z.shiftl_mul_pow2 by done. symmetry. rewrite Z.add_nocarry_lxor.
  - apply Z.bits_inj'. intros k Hk. rewrite Z.lxor_spec, Z.lor_spec.
    destruct (decide (k < n)) as [Hlt|Hge]; [by rewrite Z.shiftl_spec_low|].
    rewrite (bit_above b n k), xorb_false_r, orb_false_r by lia. done.
  - apply Z.bits_inj'. intros k Hk. rewrite Z.land_spec, Z.bits_0.
    destruct (decide (k < n)) as [Hlt|Hge]; [by rewrite Z.shiftl_spec_low|].
    rewrite (bit_above b n k), andb_false_r by lia. done.
Qed.

Lemma qRgb_sum r g b : qRgb r g b = 255 * 2 ^ 24 + r mod 256 * 2 ^ 16 + g mod 256 * 2 ^ 8 + b mod 256.
Proof.
  unfold qRgb. change 255 with (Z.ones 8) at 2 3 4. rewrite !Z.land_ones by lia. change (2 ^ 8) with 256.
  pose proof (Z.mod_pos_bound r 256). pose proof (Z.mod_pos_bound g 256). pose proof (Z.mod_pos_bound b 256).
  rewrite (lor_shiftl (g mod 256)), (lor_shiftl (r mod 256)), (lor_shiftl 255) by lia. lia.
Qed.

(** What a pixel loop of a colour image gives. *)
Lemma colour_ok m value y x b g r : well_formed m → ci_channels m = 3 → 0 ≤ y < ci_rows m → 0 ≤ x < ci_cols m →
  value (component m y x 0) = Ok b → value (component m y x 1) = Ok g → value (component m y x 2) = Ok r →
  colour value (ci_data m) (y * line_words m + x * 3) = Ok (qRgb r g b).
Proof.
  intros Hm Hch Hy Hx Hb Hg Hr. rewrite <-Hch. unfold colour.
  pose proof (λ c, word_component m Hm y x c Hy Hx) as Hw. pose proof (λ c, component_index m Hm y x c Hy Hx) as Hi.
  destruct (Hi 1 ltac:(lia)), (Hi 2 ltac:(lia)). 
  rewrite !i32_id by lia.
  destruct (Hw 0 ltac:(lia)) as [Hw0 _]. rewrite Z.add_0_r in Hw0. rewrite Hw0. cbn [mbind outcome_bind]. rewrite Hb. cbn [mbind outcome_bind].
  destruct (Hw 1 ltac:(lia)) as [-> _]. cbn [mbind outcome_bind]. rewrite Hg. cbn [mbind outcome_bind].
  destruct (Hw 2 ltac:(lia)) as [-> _]. cbn [mbind outcome_bind]. by rewrite Hr.
Qed.

Lemma reference_gray m y x : ci_channels m = 1 → reference_pixel m y x = brightness m (component m y x 0).
Proof. intros Hch. unfold reference_pixel. by rewrite bool_decide_true. Qed.

Lemma reference_colour m y x p : ci_channels m = 3 → reference_pixel m y x = Ok p →
  ∃ b g r, brightness m (component m y x 0) = Ok b ∧ brightness m (component m y x 1) = Ok g ∧
    brightness m (component m y x 2) = Ok r ∧ p = 255 * 2 ^ 24 + r * 2 ^ 16 + g * 2 ^ 8 + b.
Proof.
  intros Hch. unfold reference_pixel. rewrite bool_decide_false by lia.
  destruct (brightness m (component m y x 0)) as [b|?|?]; cbn [mbind outcome_bind]; [|done..].
  destruct (brightness m (component m y x 1)) as [g|?|?]; cbn [mbind outcome_bind]; [|done..].
  destruct (brightness m (component m y x 2)) as [r|?|?]; cbn [mbind outcome_bind]; [|done..].
  intros [= <-]. by exists b, g, r.
Qed.

(** ** The two kinds of loops *)
Section loops.
Context (m : CvImage) (f : Z → Z → Z) (Hm : well_formed m).
Context (Hf : ∀ y x, 0 ≤ y < ci_rows m → 0 ≤ x < ci_cols m → reference_pixel m y x = Ok (f y x)).
Notation word_range v := (0 ≤ v < 2 ^ (8 * word_size (ci_depth m))).

Lemma gray_image value : ci_channels m = 1 → (∀ v k, word_range v → brightness m v = Ok k → value v = Ok k) →
  scan_image (gray value (ci_data m)) 1 (line_words m) m = Ok (grid_of m f).
Proof using Hm Hf.
  intros Hch Hv. pose proof (line_words_size m Hm). apply scan_image_ok; try (destruct Hm; lia).
  intros y x Hy Hx. specialize (Hf y x Hy Hx). rewrite reference_gray in Hf by done.
  destruct (word_component m Hm y x 0 Hy Hx) as [Hw Hr]; [lia|]. rewrite Hch, Z.add_0_r in Hw.
  unfold gray. rewrite Hw. cbn [mbind outcome_bind]. by apply Hv.
Qed.

Lemma colour_image value : ci_channels m = 3 →
  (∀ v k, word_range v → brightness m v = Ok k → ∃ c, value v = Ok c ∧ k = c mod 256) →
  scan_image (colour value (ci_data m)) 3 (line_words m) m = Ok (grid_of m f).
Proof using Hm Hf.
  intros Hch Hv. pose proof (line_words_size m Hm). apply scan_image_ok; try (destruct Hm; lia).
  intros y x Hy Hx. destruct (reference_colour m y x _ Hch (Hf y x Hy Hx)) as (b & g & r & Hb & Hg & Hr & ->).
  pose proof (λ c Hc, proj2 (word_component m Hm y x c Hy Hx Hc)) as Hrange.
  apply Hv in Hb as (b' & Hb & ->); [|apply Hrange; lia].
  apply Hv in Hg as (g' & Hg & ->); [|apply Hrange; lia].
  apply Hv in Hr as (r' & Hr & ->); [|apply Hrange; lia].
  rewrite (colour_ok m value y x b' g' r') by done. by rewrite qRgb_sum.
Qed.

Lemma line_image : ci_channels m = 1 → ci_depth m = Depth8U → copy_lines m = Ok (grid_of m f).
Proof using Hm Hf.
  intros Hch Hd. pose proof Hm as [Hr Hc _ Hstep Hline Hdata _ _].
  rewrite Hch, Z.mul_1_r in Hline, Hdata. rewrite Hd in Hstep. cbn in Hstep. rewrite Z.mul_1_r in Hstep.
  unfold copy_lines, grid_of. rewrite (scan_ok _ _ (ci_step m) _ _ (λ y, f y <$> seqZ 0 (ci_cols m))); [by rewrite Z2Nat.id by lia|].
  intros k Hk. split; [|lia]. set (y := Z.of_nat k). assert (Hy : 0 ≤ y < ci_rows m) by lia.
  assert (y * line_words m ≤ (ci_rows m - 1) * line_words m) by (apply Z.mul_le_mono_nonneg_r; lia).
  assert (0 ≤ y * line_words m) by (apply Z.mul_nonneg_nonneg; [lia|pose proof (line_words_pos m Hm); lia]).
  unfold copy_line. rewrite bool_decide_true by nia. f_equal. apply list_eq. intros j.
  destruct (decide (j < Z.to_nat (ci_cols m))%nat) as [Hj|Hj].
  - rewrite lookup_take_lt, lookup_drop by done. rewrite list_lookup_fmap, lookup_seqZ_lt by lia. cbn [fmap option_fmap option_map].
    specialize (Hf y (Z.of_nat j) Hy ltac:(lia)). rewrite reference_gray in Hf by done.
    destruct (word_component m Hm y (Z.of_nat j) 0 Hy) as [Hw Hv]; [lia..|]. rewrite Hch in Hw.
    unfold brightness in Hf. rewrite Hd in Hf, Hv. injection Hf as Hf'. rewrite Z.mod_small in Hf' by (cbn in Hv; lia).
    rewrite (Z.add_0_l (Z.of_nat j)), <-Hf'. unfold word in Hw. case_bool_decide; [lia|]. replace (Z.to_nat (0 + ci_step m * y) + j)%nat with (Z.to_nat (y * line_words m + Z.of_nat j * 1 + 0)) by nia.
    destruct (ci_data m !! _); by inversion Hw.
  - rewrite lookup_take_ge by lia. symmetry. apply lookup_ge_None. rewrite length_fmap, length_seqZ. lia.
Qed.
End loops.

(** The two sides of a division of the step. *)
Lemma step_words m : well_formed m → ∀ k, word_size (ci_depth m) = k → i32 (ci_step m / k) = line_words m.
Proof.
  intros Hm k <-. fold (line_words m). pose proof (line_words_pos m Hm). pose proof (line_words_size m Hm).
  destruct Hm. apply i32_id. nia.
Qed.

Lemma brightness_int m v k : ci_depth m ≠ Depth32F → ci_channels m = 3 → brightness m v = Ok k → k = v mod 256.
Proof.
  intros Hd Hch. unfold brightness. destruct (ci_depth m); try done; try (by intros [= <-]).
  rewrite bool_decide_false by lia. by intros [= <-].
Qed.

Lemma gray_high_byte m v k : ci_depth m = Depth16U → ci_channels m = 1 → 0 ≤ v < 2 ^ 16 →
  brightness m v = Ok k → gray_16U v = Ok k.
Proof.
  intros Hd Hch Hv. unfold brightness, gray_16U, uchar. rewrite Hd, bool_decide_true by done. intros [= <-].
  rewrite Z.shiftr_div_pow2 by lia. change (2 ^ 8) with 256. f_equal. apply Z.mod_small.
  pose proof (Z.div_pos v 256). pose proof (Z.div_lt_upper_bound v 256 256). lia.
Qed.
Lemma int16_low_byte v : int16 v mod 256 = v mod 256.
Proof.
  unfold int16. rewrite Zminus_mod, <-(Znumtheory.Zmod_div_mod 256 (2 ^ 16)) by (try lia; by exists 256).
  rewrite <-Zminus_mod. f_equal. lia.
Qed.
Lemma float_low_byte m v k : ci_depth m = Depth32F → brightness m v = Ok k → ∃ c, scaled_float v = Ok c ∧ k = c mod 256.
Proof.
  intros Hd. unfold brightness. rewrite Hd. destruct (scaled_float v) as [c|?|?]; [|done..]. intros [= <-]. by exists c.
Qed.
Lemma gray_float m v k : ci_depth m = Depth32F → brightness m v = Ok k → gray_32F v = Ok k.
Proof. intros Hd. unfold brightness. by rewrite Hd. Qed.


(** ** Reading past the end *)
Definition reads {A} (x : outcome A) : Prop := x = Abort OutOfRange ∨ ∃ a, x = Ok a.

Lemma reads_bind {A B} (x : outcome A) (k : A → outcome B) : reads x → (∀ a, reads (k a)) → reads (x ≫= k).
Proof. intros [->|[a ->]] Hk; cbn; [by left|apply Hk]. Qed.
Lemma reads_ret {A} (a : A) : reads (mret a).
Proof. right. by exists a. Qed.
Lemma reads_word data i : reads (word data i).
Proof. unfold word. case_bool_decide; [by left|]. destruct (data !! Z.to_nat i) as [v|]; [right; by exists v|by left]. Qed.
Lemma reads_scan {A} (body : Z → outcome A) next n i : (∀ i, reads (body i)) → reads (scan body next n i).
Proof.
  intros Hb. revert i. induction n as [|n IH]; intros i; cbn [scan]; [apply reads_ret|].
  apply reads_bind; [apply Hb|intros a]. apply reads_bind; [apply IH|intros l; apply reads_ret].
Qed.
#[local] Hint Resolve reads_bind reads_ret reads_word reads_scan : core.

(** A loop that meets an element out of range ends there, if not before. *)
Lemma scan_fails {A} (body : Z → outcome A) next d n i k : (∀ i, reads (body i)) →
  (∀ j, (j < k)%nat → next (i + d * Z.of_nat j) = i + d * Z.of_nat (S j)) → (k < n)%nat →
  body (i + d * Z.of_nat k) = Abort OutOfRange → scan body next n i = Abort OutOfRange.
Proof.
  intros Hb. revert i k. induction n as [|n IH]; intros i k Hn Hk Hf; [lia|]. cbn [scan].
  destruct (Hb i) as [->|[a Ha]]; [done|]. destruct k as [|k].
  { by rewrite Z.mul_0_r, Z.add_0_r, Ha in Hf. }
  rewrite Ha. cbn [mbind outcome_bind]. pose proof (Hn 0%nat ltac:(lia)) as H0. rewrite Z.mul_0_r, Z.add_0_r in H0. rewrite H0.
  rewrite (IH _ k); [done| |lia|].
  - intros j Hj. replace (i + d * Z.of_nat 1 + d * Z.of_nat j) with (i + d * Z.of_nat (S j)) by lia. rewrite Hn by lia. lia.
  - rewrite <-Hf. f_equal. lia.
Qed.

Lemma colour_fails value data i : (∀ v, reads (value v)) → 0 ≤ i → i + 2 < 2 ^ 31 → Z.of_nat (length data) ≤ i + 2 →
  colour value data i = Abort OutOfRange.
Proof.
  intros Hv Hi Hmax Hlen. unfold colour. rewrite !i32_id by lia.
  destruct (reads_word data i) as [->|[b ->]]; [done|]. cbn [mbind outcome_bind]. destruct (Hv b) as [->|[b' ->]]; [done|]. cbn [mbind outcome_bind].
  destruct (reads_word data (i + 1)) as [->|[g ->]]; [done|]. cbn [mbind outcome_bind]. destruct (Hv g) as [->|[g' ->]]; [done|]. cbn [mbind outcome_bind].
  unfold word. rewrite bool_decide_false, lookup_ge_None_2 by lia. done.
Qed.
Lemma reads_colour value data i : (∀ v, reads (value v)) → reads (colour value data i).
Proof. intros Hv. unfold colour. repeat (apply reads_bind; [auto|intros ?]). auto. Qed.

(** A matrix of one channel of 16 bits with sign is converted a second time
    as if it had three channels, because its case has no break: unless its
    buffer goes on behind its last element, the conversion reads past the end
    of the buffer, for every size. *)
Theorem signed_gray_overread number draw m : well_formed m → ci_depth m = Depth16S → ci_channels m = 1 →
  Z.of_nat (length (ci_data m)) = (ci_rows m - 1) * line_words m + ci_cols m →
  cvMatToQImage number m = Abort OutOfRange ∧ cvMatToQImageNoThrow number draw m = Abort OutOfRange.
Proof.
  intros Hm Hd Hch Hlen. enough (H : cvMatToQImage number m = Abort OutOfRange).
  { split; [done|]. unfold cvMatToQImageNoThrow. by rewrite H. }
  unfold cvMatToQImage. rewrite Hd, Hch, (step_words m Hm 2) by (by rewrite Hd).
  pose proof (line_words_pos m Hm) as HL. pose proof (line_words_size m Hm) as HS. destruct Hm as [Hr Hc _ Hstep Hline _ Hsize _].
  rewrite Hch, Z.mul_1_r in Hline. rewrite Hd in Hstep. cbn in Hstep.
  assert (Hint : ∀ v, reads (mret (M:=outcome) (int16 v))) by (intros; apply reads_ret).
  assert (Hfirst : reads (scan_image (gray gray_16U (ci_data m)) 1 (line_words m) m)).
  { apply reads_scan. intros i. apply reads_scan. intros j. apply reads_bind; [apply reads_word|intros; apply reads_ret]. }
  destruct Hfirst as [->|[l ->]]; [done|]. cbn [mbind outcome_bind]. unfold scan_image.
  set (start := (ci_rows m - 1) * line_words m) in *. assert (0 ≤ start) by (apply Z.mul_nonneg_nonneg; lia).
  rewrite (scan_fails _ _ (line_words m) _ _ (Z.to_nat (ci_rows m - 1))); [done| | |lia|].
  - intros i. apply reads_scan. intros j. by apply reads_colour.
  - intros j Hj. unfold int_plus. rewrite i32_id; nia.
  - replace (0 + line_words m * Z.of_nat (Z.to_nat (ci_rows m - 1))) with start by (subst start; rewrite Z2Nat.id by lia; ring).
    pose proof (Z.div_mod (ci_cols m) 3) as Hdiv. pose proof (Z.mod_pos_bound (ci_cols m) 3).
    assert (ci_rows m * line_words m < 2 ^ 30) by (rewrite Hstep in Hsize; lia).
    assert (start + ci_cols m + 4 < 2 ^ 31) by (subst start; lia).
    apply (scan_fails _ _ 3 _ _ (Z.to_nat (ci_cols m / 3))); [intros j; by apply reads_colour| |lia|].
    + intros j Hj. unfold int_plus. rewrite i32_id; lia.
    + apply colour_fails; [done|lia..].
Qed.

(** A matrix of two rows of floats with a padded line, as colours and grey. *)
Definition ex_floats : CvImage := mkCvImage Depth32F 1 2 2 12 [1065353216; 0; 7; 1056964608; 1073741824].
Definition ex_shown (y x : Z) : Z := if bool_decide (y = 0) then (if bool_decide (x = 0) then 255 else 0) else (if bool_decide (x = 0) then 127 else 254).

Lemma ex_floats_well_formed : well_formed ex_floats.
Proof. split; [reflexivity..|vm_compute; by intros|vm_compute; by intros|reflexivity|repeat constructor; cbn; lia]. Qed.


Definition ex_signed : CvImage := mkCvImage Depth16S 1 2 2 4 [1; 2; 3; 4].
Lemma signed_gray_overread_witness : cvMatToQImage (λ _, "n") ex_signed = Abort OutOfRange.
Proof.
  apply (signed_gray_overread (λ _, "n") (λ _ _ _, []) ex_signed); try reflexivity.
  split; [reflexivity..|vm_compute; by intros|vm_compute; by intros|reflexivity|repeat constructor; cbn; lia].
Defined.

(** Every other matrix with a depth or number of channels that the
    converter does not know throws an exception that names both, and is shown
    as an image of its size with that message. *)
Theorem unsupported_is_drawn number draw m : supported m = false → ¬ (ci_depth m = Depth16S ∧ ci_channels m = 1) →
  cvMatToQImage number m = Throw (StdRuntimeError (not_supported number m)) ∧
  ∃ msg, cvMatToQImageNoThrow number draw m = Ok (mkQImage Format_ARGB32_Premultiplied (ci_cols m) (ci_rows m)
    (draw (msg +:+ not_supported number m) (ci_cols m) (ci_rows m)) []).
Proof.
  intros Hs Hn. enough (H : cvMatToQImage number m = Throw (StdRuntimeError (not_supported number m))).
  { split; [done|]. unfold cvMatToQImageNoThrow. rewrite H. by eexists. }
  unfold cvMatToQImage. unfold supported in Hs.
  destruct (ci_depth m) eqn:Hd; try done; destruct (ci_channels m) as [|[[[]|[]|]|[]|]|] eqn:Hch; try done.
  by destruct Hn.
Qed.

Lemma unsupported_is_drawn_witness : cvMatToQImage (λ _, "2") (mkCvImage Depth8U 2 1 1 2 [0; 0]) =
  Throw (StdRuntimeError "Conversion not supported: depth CV_8U and number of channels is 2").
Proof. apply (unsupported_is_drawn (λ _, "2") (λ _ _ _, []) (mkCvImage Depth8U 2 1 1 2 [0; 0])); [reflexivity|by intros []]. Defined.
