(* ===== verification/Filters.v ===== *)
(** The elements of plvopencv that filter or combine images: their parameters,
    which setters keep within what OpenCV accepts, and their [process], which
    checks formats and calls OpenCV.  What OpenCV computes is a parameter. *)
From Stdlib Require Import Floats.SpecFloat.
From S2P Require Export ImageConverter CvMat Enum Util.

(** ** [double] *)
Definition double := spec_float.
Definition double_0 : double := S754_zero false.
Definition double_1 : double := S754_finite false 4503599627370496 (-52).
Definition double_255 : double := S754_finite false 8972014882652160 (-45).
Definition double_65535 : double := S754_finite false 9007061815787520 (-37).
Definition double_div : double → double → double := SFdiv 53 1024.

(** An [int] as a [double]. *)
Definition double_of_int (z : Z) : double := binary_normalize 53 1024 z 0 false.

(** [s > 0 ? s : 0] *)
Definition clip_negative (s : double) : double := if SFltb double_0 s then s else double_0.

(** ** Parameters *)

(** setApertureSize, setKernelSize: odd, and within [lo .. 7]. *)
Definition set_aperture (lo i current : Z) : Z :=
  if bool_decide (i < lo) then lo
  else if bool_decide (7 < i) then 7
  else if isEven i then (if bool_decide (current < i) then i32 (i + 1) else i32 (i - 1))
  else i.

(** EdgeDetectorCanny: [m_l2Gradient] is not initialised. *)
Record EdgeDetectorCanny := mkCanny { canny_apertureSize : Z; canny_thresholdLow : double; canny_thresholdHigh : double; canny_l2Gradient : bool }.
Definition new_EdgeDetectorCanny (l2Gradient : bool) : EdgeDetectorCanny :=
  mkCanny 3 (S754_finite false 7205759403792794 (-56)) double_1 l2Gradient.
Definition canny_setApertureSize (i : Z) (c : EdgeDetectorCanny) : EdgeDetectorCanny :=
  mkCanny (set_aperture 3 i (canny_apertureSize c)) (canny_thresholdLow c) (canny_thresholdHigh c) (canny_l2Gradient c).
Definition canny_setThresholdLow (v : double) (c : EdgeDetectorCanny) : EdgeDetectorCanny :=
  mkCanny (canny_apertureSize c) v (canny_thresholdHigh c) (canny_l2Gradient c).
Definition canny_setThresholdHigh (v : double) (c : EdgeDetectorCanny) : EdgeDetectorCanny :=
  mkCanny (canny_apertureSize c) (canny_thresholdLow c) v (canny_l2Gradient c).
Definition canny_setL2Gradient (b : bool) (c : EdgeDetectorCanny) : EdgeDetectorCanny :=
  mkCanny (canny_apertureSize c) (canny_thresholdLow c) (canny_thresholdHigh c) b.

(** EdgeDetectorLaplace *)
Record EdgeDetectorLaplace := mkLaplace { laplace_apertureSize : Z }.
Definition new_EdgeDetectorLaplace : EdgeDetectorLaplace := mkLaplace 3.
Definition laplace_setApertureSize (i : Z) (l : EdgeDetectorLaplace) : EdgeDetectorLaplace :=
  mkLaplace (set_aperture 1 i (laplace_apertureSize l)).

(** EdgeDetectorSobel *)
Record EdgeDetectorSobel := mkSobel {
  sobel_xOrder : bool; sobel_yOrder : bool; sobel_kernelSize : Z; sobel_scale : double; sobel_delta : double; sobel_borderType : Enum
}.
Definition new_EdgeDetectorSobel `{BorderTypes} : EdgeDetectorSobel :=
  mkSobel true false 3 double_1 double_0 (addDefaultBorderInterpolationTypes (new_Enum 0)).
Definition sobel_setXOrder (x : bool) (s : EdgeDetectorSobel) : EdgeDetectorSobel :=
  if negb (negb x && negb (sobel_yOrder s))
  then mkSobel x (sobel_yOrder s) (sobel_kernelSize s) (sobel_scale s) (sobel_delta s) (sobel_borderType s) else s.
Definition sobel_setYOrder (y : bool) (s : EdgeDetectorSobel) : EdgeDetectorSobel :=
  if negb (negb y && negb (sobel_xOrder s))
  then mkSobel (sobel_xOrder s) y (sobel_kernelSize s) (sobel_scale s) (sobel_delta s) (sobel_borderType s) else s.
Definition sobel_setKernelSize (i : Z) (s : EdgeDetectorSobel) : EdgeDetectorSobel :=
  mkSobel (sobel_xOrder s) (sobel_yOrder s) (set_aperture 1 i (sobel_kernelSize s)) (sobel_scale s) (sobel_delta s) (sobel_borderType s).
Definition sobel_setScale (scale : double) (s : EdgeDetectorSobel) : EdgeDetectorSobel :=
  mkSobel (sobel_xOrder s) (sobel_yOrder s) (sobel_kernelSize s) (clip_negative scale) (sobel_delta s) (sobel_borderType s).
Definition sobel_setDelta (delta : double) (s : EdgeDetectorSobel) : EdgeDetectorSobel :=
  mkSobel (sobel_xOrder s) (sobel_yOrder s) (sobel_kernelSize s) (sobel_scale s) delta (sobel_borderType s).
Definition sobel_setBorderType (bt : Enum) (s : EdgeDetectorSobel) : EdgeDetectorSobel :=
  mkSobel (sobel_xOrder s) (sobel_yOrder s) (sobel_kernelSize s) (sobel_scale s) (sobel_delta s) bt.

(** ImageCornerHarris *)
Record ImageCornerHarris := mkHarris { harris_kernelSize : Z; harris_blockSize : Z; harris_k : double; harris_borderType : Enum }.
Definition new_ImageCornerHarris `{BorderTypes} : ImageCornerHarris :=
  mkHarris 3 3 (S754_finite false 5764607523034235 (-57)) (addDefaultBorderInterpolationTypes (new_Enum 0)).
Definition harris_setKernelSize (i : Z) (h : ImageCornerHarris) : ImageCornerHarris :=
  mkHarris (set_aperture 1 i (harris_kernelSize h)) (harris_blockSize h) (harris_k h) (harris_borderType h).
Definition harris_setBlockSize (i : Z) (h : ImageCornerHarris) : ImageCornerHarris :=
  mkHarris (harris_kernelSize h) (if bool_decide (i < 1) then 1 else i) (harris_k h) (harris_borderType h).
Definition harris_setK (k : double) (h : ImageCornerHarris) : ImageCornerHarris :=
  mkHarris (harris_kernelSize h) (harris_blockSize h) (if SFltb k double_0 then double_0 else k) (harris_borderType h).
Definition harris_setBorderType (bt : Enum) (h : ImageCornerHarris) : ImageCornerHarris :=
  mkHarris (harris_kernelSize h) (harris_blockSize h) (harris_k h) bt.

(** DilateErode *)
Definition BGDEO_ERODE_DELATE : Z := 0.
Definition BGDEO_DELATE_ERODE : Z := 1.
Record DilateErode := mkDilateErode { m_erosionIterations : Z; m_dilationIterations : Z; m_delationErosionOrder : Enum }.
Definition new_DilateErode : DilateErode :=
  mkDilateErode 0 0 (enum_add "delate then erode" BGDEO_DELATE_ERODE (enum_add "erode then delate" BGDEO_ERODE_DELATE (new_Enum 0))).
Definition setErosionIterations (e : Z) (d : DilateErode) : DilateErode :=
  mkDilateErode (if bool_decide (0 ≤ e) then e else m_erosionIterations d) (m_dilationIterations d) (m_delationErosionOrder d).
Definition setDilationIterations (n : Z) (d : DilateErode) : DilateErode :=
  mkDilateErode (m_erosionIterations d) (if bool_decide (0 ≤ n) then n else m_dilationIterations d) (m_delationErosionOrder d).
Definition setOrder (order : Enum) (d : DilateErode) : DilateErode :=
  mkDilateErode (m_erosionIterations d) (m_dilationIterations d) order.

(** GaussianSmooth: setSigmaOne, setSigmaTwo *)
Definition setSigma (s : double) : double := clip_negative s.

(** The first weight of a RunningAverage, and its setWeight *)
Definition weight_default : double := S754_finite false 7205759403792794 (-56).
Definition set_weight (w current : double) : double := if SFleb double_0 w && SFleb w double_1 then w else current.

(** The first factor of a ViolaJonesFaceDetector, and its setScaleFactor *)
Definition scale_default : double := S754_finite false 4953959590107546 (-52).
Definition set_scale (d current : double) : double := if SFltb double_1 d then d else current.

(** ** Formats

    CvMatDataProperties: a type is a depth and a number of channels. *)
Record CvMatDataProperties := mkProps { p_width : Z; p_height : Z; p_depth : CvDepth; p_channels : Z }.
#[export] Instance CvMatDataProperties_eq_dec : EqDecision CvMatDataProperties.
Proof. solve_decision. Defined.
Definition setDepth (d : CvDepth) (p : CvMatDataProperties) : CvMatDataProperties := mkProps (p_width p) (p_height p) d (p_channels p).
Definition setNumChannels (n : Z) (p : CvMatDataProperties) : CvMatDataProperties := mkProps (p_width p) (p_height p) (p_depth p) n.
Definition p_type (p : CvMatDataProperties) : CvDepth * Z := (p_depth p, p_channels p).
Definition p_size (p : CvMatDataProperties) : Z * Z := (p_width p, p_height p).
(** CvMatData::create: an image to write into. *)
Definition CvMatData_create (p : CvMatDataProperties) : outcome unit :=
  if bool_decide (0 < p_width p) && bool_decide (0 < p_height p) then mret tt else Abort AssertFailed.

(** The codes of the conversions, as far as the tables name them. *)
Inductive CvCode :=
  | CV_BGR2BGRA | CV_RGB2BGRA | CV_BGRA2BGR | CV_RGBA2BGR | CV_RGB2BGR | CV_BGRA2RGBA
  | CV_BGR2GRAY | CV_RGB2GRAY | CV_GRAY2BGR | CV_GRAY2BGRA | CV_BGRA2GRAY | CV_RGBA2GRAY
  | CV_BGR2BGR565 | CV_RGB2BGR565 | CV_BGR5652BGR | CV_BGR5652RGB | CV_BGRA2BGR565 | CV_RGBA2BGR565
  | CV_BGR5652BGRA | CV_BGR5652RGBA | CV_GRAY2BGR565 | CV_BGR5652GRAY
  | CV_BGR2BGR555 | CV_RGB2BGR555 | CV_BGR5552BGR | CV_BGR5552RGB | CV_BGRA2BGR555 | CV_RGBA2BGR555
  | CV_BGR5552BGRA | CV_BGR5552RGBA | CV_GRAY2BGR555 | CV_BGR5552GRAY
  | CV_BGR2XYZ | CV_RGB2XYZ | CV_XYZ2BGR | CV_XYZ2RGB | CV_BGR2YCrCb | CV_RGB2YCrCb | CV_YCrCb2BGR | CV_YCrCb2RGB
  | CV_BGR2HSV | CV_RGB2HSV | CV_BGR2Lab | CV_RGB2Lab
  | CV_BayerBG2BGR | CV_BayerGB2BGR | CV_BayerRG2BGR | CV_BayerGR2BGR
  | CV_BGR2Luv | CV_RGB2Luv | CV_BGR2HLS | CV_RGB2HLS | CV_HSV2BGR | CV_HSV2RGB | CV_Lab2BGR | CV_Lab2RGB
  | CV_Luv2BGR | CV_Luv2RGB | CV_HLS2BGR | CV_HLS2RGB
  | CV_OtherCode (code : Z).

(** ** What is used of OpenCV: functions that give an image or throw *)
Class CvFilters := {
  Image : Type;
  properties : Image → CvMatDataProperties;
  cv_code : Z → CvCode;
  cv_code_value : CvCode → Z;
  CV_THRESH_BINARY : Z; CV_THRESH_BINARY_INV : Z; CV_THRESH_TRUNC : Z; CV_THRESH_TOZERO : Z; CV_THRESH_TOZERO_INV : Z;
  cv_addWeighted : Image → double → Image → double → double → outcome Image;
  cv_subtract : Image → Image → option Image → outcome Image;
  cv_multiply : Image → Image → double → outcome Image;
  cv_bitwise_xor : Image → Image → outcome Image;
  cv_absdiff : Image → Image → outcome Image;
  cv_split : Image → outcome (list Image);
  cv_flip : Image → Z → outcome Image;
  cv_threshold : Image → double → double → Z → outcome Image;
  cv_erode : Image → Z → outcome Image;
  cv_dilate : Image → Z → outcome Image;
  cv_Canny : Image → double → double → Z → bool → outcome Image;
  cv_Laplacian : Image → CvDepth → Z → outcome Image;
  cv_Sobel : Image → CvDepth → bool → bool → Z → double → double → Z → outcome Image;
  cv_cornerHarris : Image → Z → Z → double → Z → outcome Image;
  cv_GaussianBlur : Image → Z * Z → double → double → Z → outcome Image;
  cv_cvtColor : Image → CvCode → Z → outcome Image;
  cv_convertTo : Image → CvDepth → double → Image;
  cv_accumulateWeighted : Image → Image → double → outcome Image
}.

Section filters.
Context `{CvFilters} (number : Z → string).

(** What a call puts, by the number of the output pin, in order; and the
    message of a reported error, with which [process] returns false. *)
Record ProcessResult := mkResult { pr_puts : list (nat * Image); pr_error : option string }.
Definition puts (l : list (nat * Image)) : outcome ProcessResult := mret (mkResult l None).
Definition reports (msg : string) : outcome ProcessResult := mret (mkResult [] (Some msg)).

Definition selected (e : Enum) : outcome Z := (enum_getSelectedValue number e).1.

Definition channels_differ : string := "Images do not have same number of channels.".
Definition depth_msg (p1 p2 : CvMatDataProperties) : string :=
  "Input images are not of the same depth. Input 1 has depth " +:+ depth_name (p_depth p1) +:+
  " and input 2 has depth " +:+ depth_name (p_depth p2) +:+ ". ".
Definition size_msg (p1 p2 : CvMatDataProperties) : string :=
  "Input images are not of the same size. Input 1 has size " +:+ number (p_width p1) +:+ " " +:+ number (p_height p1) +:+
  " and input 2 has size " +:+ number (p_width p2) +:+ " " +:+ number (p_height p2) +:+ ". ".

(** ** Elements with two inputs *)
Definition add_process (alpha beta gamma : double) (in1 in2 : Image) : outcome ProcessResult :=
  let p1 := properties in1 in let p2 := properties in2 in
  if bool_decide (p_channels p1 ≠ p_channels p2) then reports channels_differ
  else if bool_decide (p_depth p1 ≠ p_depth p2) then reports (depth_msg p1 p2)
  else if bool_decide (p_width p1 ≠ p_width p2) || bool_decide (p_height p1 ≠ p_height p2) then reports (size_msg p1 p2)
  else CvMatData_create p1 ;; out ← cv_addWeighted in1 alpha in2 beta gamma ; puts [(0%nat, out)].

(** [mask]: what is read from the third pin, if it is connected. *)
Definition sub_process (in1 in2 : Image) (mask : option Image) : outcome ProcessResult :=
  let p1 := properties in1 in let p2 := properties in2 in
  if bool_decide (p_channels p1 ≠ p_channels p2) then reports channels_differ
  else if bool_decide (p_depth p1 ≠ p_depth p2) then reports (depth_msg p1 p2)
  else CvMatData_create p1 ;; out ← cv_subtract in1 in2 mask ; puts [(0%nat, out)].

Definition multiply_process (scale : double) (img1 img2 : Image) : outcome ProcessResult :=
  if bool_decide (properties img1 ≠ properties img2) then reports "Input images do not have equal in properties"
  else CvMatData_create (properties img1) ;; out ← cv_multiply img1 img2 scale ; puts [(0%nat, out)].
Definition multiply_scale : double := double_div double_1 double_255.

Definition xor_process (img1 img2 : Image) : outcome ProcessResult :=
  if bool_decide (properties img1 ≠ properties img2) then reports "Input images do not have equal in properties"
  else CvMatData_create (properties img1) ;; out ← cv_bitwise_xor img1 img2 ; puts [(0%nat, out)].

Definition diff_process (img1 img2 : Image) : outcome ProcessResult :=
  CvMatData_create (properties img1) ;; out ← cv_absdiff img1 img2 ; puts [(0%nat, out)].

(** ** Split.cpp: the switch falls through *)
Definition put_channel (outs : list Image) (i : nat) : outcome (list (nat * Image)) :=
  match outs !! i with Some img => mret [(i, img)] | None => Abort OutOfRange end.
Definition split_process (img : Image) : outcome ProcessResult :=
  let numChannels := p_channels (properties img) in
  if bool_decide (numChannels < 2) then reports "Input image is single channel, expected a multi channel image."
  else
    CvMatData_create (setNumChannels 1 (properties img)) ;;
    outs ← cv_split img ;
    l3 ← (if bool_decide (numChannels = 4) then put_channel outs 3 else mret []) ;
    l2 ← (if bool_decide (numChannels = 4) || bool_decide (numChannels = 3) then put_channel outs 2 else mret []) ;
    l1 ← (if bool_decide (numChannels = 4) || bool_decide (numChannels = 3) || bool_decide (numChannels = 2)
          then put_channel outs 1 else mret []) ;
    l0 ← put_channel outs 0 ;
    puts (l3 ++ l2 ++ l1 ++ l0).

(** ** Elements with one input *)
Definition flip_process (method : Enum) (img : Image) : outcome ProcessResult :=
  CvMatData_create (properties img) ;; m ← selected method ; out ← cv_flip img m ; puts [(0%nat, out)].
Definition flip_methods : Enum :=
  enum_add "flip around y-axis" 1 (enum_add "flip around x-axis" 0 (enum_add "flip around x and y-axis" (-1) (new_Enum 0))).

Definition threshold_methods : Enum :=
  enum_add "CV_THRESH_TOZERO_INV" CV_THRESH_TOZERO_INV (enum_add "CV_THRESH_TOZERO" CV_THRESH_TOZERO
  (enum_add "CV_THRESH_TRUNC" CV_THRESH_TRUNC (enum_add "CV_THRESH_BINARY_INV" CV_THRESH_BINARY_INV
  (enum_add "CV_THRESH_BINARY" CV_THRESH_BINARY (new_Enum 0))))).
Definition image_threshold_process (threshold maxValue : double) (method : Enum) (img : Image) : outcome ProcessResult :=
  CvMatData_create (properties img) ;; m ← selected method ; out ← cv_threshold img threshold maxValue m ; puts [(0%nat, out)].

Definition dilate_erode_process (d : DilateErode) (img : Image) : outcome ProcessResult :=
  CvMatData_create (properties img) ;;
  order ← selected (m_delationErosionOrder d) ;
  if bool_decide (order = BGDEO_ERODE_DELATE) then
    out ← cv_erode img (m_erosionIterations d) ; out2 ← cv_dilate out (m_dilationIterations d) ; puts [(0%nat, out2)]
  else if bool_decide (order = BGDEO_DELATE_ERODE) then
    out ← cv_dilate img (m_dilationIterations d) ; out2 ← cv_erode out (m_erosionIterations d) ; puts [(0%nat, out2)]
  else (* what was created is put as it is *) Abort UndefinedBehaviour.

Definition canny_process (c : EdgeDetectorCanny) (img : Image) : outcome ProcessResult :=
  CvMatData_create (properties img) ;;
  out ← cv_Canny img (canny_thresholdLow c) (canny_thresholdHigh c) (canny_apertureSize c) (canny_l2Gradient c) ;
  puts [(0%nat, out)].

(** [m_apertureSize == 1 || m_apertureSize == 3 || ...] *)
Definition odd_to_7 (n : Z) : bool := bool_decide (n = 1) || bool_decide (n = 3) || bool_decide (n = 5) || bool_decide (n = 7).
Definition check (b : bool) : outcome unit := if b then mret tt else Abort AssertFailed.

Definition laplace_process (l : EdgeDetectorLaplace) (img : Image) : outcome ProcessResult :=
  let p := properties img in
  CvMatData_create (if bool_decide (p_depth p ≠ Depth32F) then setDepth Depth16S p else p) ;;
  check (odd_to_7 (laplace_apertureSize l)) ;;
  out ← cv_Laplacian img (p_depth p) (laplace_apertureSize l) ; puts [(0%nat, out)].

(** [m_xOrder == 1 || m_xOrder == 0] holds of any bool. *)
Definition sobel_process (s : EdgeDetectorSobel) (img : Image) : outcome ProcessResult :=
  CvMatData_create (properties img) ;;
  check (odd_to_7 (sobel_kernelSize s)) ;;
  border ← selected (sobel_borderType s) ;
  out ← cv_Sobel img (p_depth (properties img)) (sobel_xOrder s) (sobel_yOrder s) (sobel_kernelSize s)
          (sobel_scale s) (sobel_delta s) border ;
  puts [(0%nat, out)].

Definition harris_process (h : ImageCornerHarris) (img : Image) : outcome ProcessResult :=
  let p := properties img in
  CvMatData_create (mkProps (p_width p) (p_height p) Depth32F 1) ;;
  border ← selected (harris_borderType h) ;
  out ← cv_cornerHarris img (harris_blockSize h) (harris_kernelSize h) (harris_k h) border ; puts [(0%nat, out)].

Definition gaussian_process (width height : Z) (sigmaOne sigmaTwo : double) (borderType : Enum) (img : Image) : outcome ProcessResult :=
  CvMatData_create (properties img) ;;
  border ← selected borderType ;
  out ← cv_GaussianBlur img (width, height) sigmaOne sigmaTwo border ; puts [(0%nat, out)].
End filters.
