(* ===== verification/Detectors.v ===== *)
(** The elements of plvopencv that keep images, models or pins of their own
    from call to call: ImageColorConvert, RunningAverage, BackgroundSubtractor,
    ForegroundDetector, ViolaJonesFaceDetector. *)
From S2P Require Export Filters.

(** Calls that change nothing, in a call with a state. *)
Definition lift {S A} (x : outcome A) : M S A := λ s, (x, s).

Section elements.
Context `{CvFilters} (number : Z → string).

(** ** ImageColorConvert.cpp *)
Definition getInChannels (code : CvCode) : Z :=
  match code with
  | CV_GRAY2BGRA | CV_GRAY2BGR | CV_GRAY2BGR565 | CV_GRAY2BGR555
  | CV_BayerBG2BGR | CV_BayerGB2BGR | CV_BayerRG2BGR | CV_BayerGR2BGR => 1
  | CV_BGR5652BGRA | CV_BGR5552BGRA | CV_BGR5652RGBA | CV_BGR5552RGBA | CV_BGR5652BGR | CV_BGR5552BGR
  | CV_BGR5652RGB | CV_BGR5552RGB | CV_BGR5652GRAY | CV_BGR5552GRAY => 2
  | CV_BGR2BGRA | CV_RGB2BGRA | CV_BGR2YCrCb | CV_RGB2YCrCb | CV_BGR2XYZ | CV_RGB2XYZ | CV_BGR2HSV | CV_RGB2HSV
  | CV_BGR2Lab | CV_RGB2Lab | CV_BGR2Luv | CV_RGB2Luv | CV_BGR2HLS | CV_RGB2HLS | CV_RGB2BGR
  | CV_BGR2BGR565 | CV_BGR2BGR555 | CV_RGB2BGR565 | CV_RGB2BGR555 | CV_BGR2GRAY | CV_RGB2GRAY
  | CV_YCrCb2BGR | CV_YCrCb2RGB | CV_XYZ2BGR | CV_XYZ2RGB | CV_HSV2BGR | CV_HSV2RGB | CV_Lab2BGR | CV_Lab2RGB
  | CV_Luv2BGR | CV_Luv2RGB | CV_HLS2BGR | CV_HLS2RGB => 3
  | CV_BGRA2RGBA | CV_BGRA2BGR | CV_RGBA2BGR | CV_BGRA2BGR565 | CV_BGRA2BGR555 | CV_RGBA2BGR565 | CV_RGBA2BGR555
  | CV_BGRA2GRAY | CV_RGBA2GRAY => 4
  | CV_OtherCode _ => -1
  end.

Definition getOutChannels (code : CvCode) : Z :=
  match code with
  | CV_BGR2BGRA | CV_RGB2BGRA | CV_BGRA2RGBA | CV_BGR5652BGRA | CV_BGR5552BGRA | CV_BGR5652RGBA | CV_BGR5552RGBA
  | CV_GRAY2BGRA => 4
  | CV_BGR2YCrCb | CV_RGB2YCrCb | CV_BGR2XYZ | CV_RGB2XYZ | CV_BGR2HSV | CV_RGB2HSV | CV_BGR2Lab | CV_RGB2Lab
  | CV_BGR2Luv | CV_RGB2Luv | CV_BGR2HLS | CV_RGB2HLS => 3
  | CV_BayerBG2BGR | CV_BayerGB2BGR | CV_BayerRG2BGR | CV_BayerGR2BGR
  | CV_BGRA2BGR | CV_RGBA2BGR | CV_RGB2BGR | CV_BGR5652BGR | CV_BGR5552BGR | CV_BGR5652RGB | CV_BGR5552RGB | CV_GRAY2BGR
  | CV_YCrCb2BGR | CV_YCrCb2RGB | CV_XYZ2BGR | CV_XYZ2RGB | CV_HSV2BGR | CV_HSV2RGB | CV_Lab2BGR | CV_Lab2RGB
  | CV_Luv2BGR | CV_Luv2RGB | CV_HLS2BGR | CV_HLS2RGB => 3
  | CV_BGR2BGR565 | CV_BGR2BGR555 | CV_RGB2BGR565 | CV_RGB2BGR555 | CV_BGRA2BGR565 | CV_BGRA2BGR555
  | CV_RGBA2BGR565 | CV_RGBA2BGR555 | CV_GRAY2BGR565 | CV_GRAY2BGR555 => 2
  | CV_BGR2GRAY | CV_BGRA2GRAY | CV_RGB2GRAY | CV_RGBA2GRAY | CV_BGR5652GRAY | CV_BGR5552GRAY => 1
  | CV_OtherCode _ => -1
  end.

(** [cc_input], [cc_output]: what the two pins support. *)
Record ImageColorConvert := mkColorConvert {
  cc_conversionType : Enum; cc_inChannels : Z; cc_outChannels : Z; cc_input : Formats; cc_output : Formats
}.
Definition setConversionType (e : Enum) : M ImageColorConvert unit :=
  code ← lift (selected number e) ;
  let inChannels := getInChannels (cv_code code) in
  let outChannels := getOutChannels (cv_code code) in
  modify (λ c, mkColorConvert e inChannels outChannels
    (addSupportedChannels inChannels (clearChannels (cc_input c)))
    (out_addSupportedChannels outChannels (out_clearChannels (cc_output c)))).
(** The channels that the constructor adds at the end. *)
Definition conversion_types : Enum :=
  enum_add "CV_RGB2BGR" (cv_code_value CV_RGB2BGR) (enum_add "CV_RGB2RGBA" (cv_code_value CV_BGR2BGRA)
  (enum_add "CV_RGB2GRAY" (cv_code_value CV_RGB2GRAY) (new_Enum 0))).
Definition new_ImageColorConvert `{OpenCV} : M ImageColorConvert unit :=
  setConversionType conversion_types ;;
  modify (λ c, mkColorConvert (cc_conversionType c) (cc_inChannels c) (cc_outChannels c)
    (addAllChannels (addAllDepths (cc_input c))) (out_addAllChannels (out_addAllDepths (cc_output c)))).
Definition color_convert_process (c : ImageColorConvert) (img : Image) : outcome ProcessResult :=
  CvMatData_create (setNumChannels (cc_outChannels c) (properties img)) ;;
  code ← selected number (cc_conversionType c) ;
  out ← cv_cvtColor img (cv_code code) (cc_outChannels c) ; puts [(0%nat, out)].

(** ** RunningAverage.cpp

    [ra_avg] with its size, and the type of [m_out]. *)
Record RunningAverage := mkRunning { ra_avg : option Image; ra_outType : option (CvDepth * Z); ra_weight : double; ra_conversionFactor : double }.
Definition new_RunningAverage : RunningAverage := mkRunning None None weight_default double_1.
Definition setWeight (w : double) (r : RunningAverage) : RunningAverage :=
  mkRunning (ra_avg r) (ra_outType r) (set_weight w (ra_weight r)) (ra_conversionFactor r).
Definition conversion_factor (d : CvDepth) : double :=
  match d with Depth8U => double_255 | Depth16U => double_65535 | _ => double_1 end.
(** [m_avg.width() != in.width() || ... || in.type() != m_out.type()] *)
Definition restarts (p : CvMatDataProperties) (r : RunningAverage) : bool :=
  match ra_avg r with
  | Some avg => bool_decide (p_size (properties avg) ≠ p_size p) || bool_decide (ra_outType r ≠ Some (p_type p))
  | None => true
  end.
(** The image of 32 bits: a float image is copied. *)
Definition to_float (img : Image) (factor : double) : Image :=
  match p_depth (properties img) with
  | Depth8U | Depth16U => cv_convertTo img Depth32F (double_div double_1 factor)
  | _ => img
  end.
Definition running_process (img : Image) : M RunningAverage ProcessResult :=
  r ← gets id ;
  let p := properties img in
  when (restarts p r)
    (lift (CvMatData_create p) ;;
     let factor := conversion_factor (p_depth p) in
     modify (λ r, mkRunning (Some (to_float img factor)) (Some (p_type p)) (ra_weight r) factor)) ;;
  r ← gets id ;
  match ra_avg r, ra_outType r with
  | Some avg, Some (depth, _) =>
      let tmp := cv_convertTo img Depth32F (double_div double_1 (ra_conversionFactor r)) in
      avg' ← lift (cv_accumulateWeighted tmp avg (ra_weight r)) ;
      modify (λ r, mkRunning (Some avg') (ra_outType r) (ra_weight r) (ra_conversionFactor r)) ;;
      lift (puts [(0%nat, cv_convertTo avg' depth (ra_conversionFactor r))])
  | _, _ => abort UndefinedBehaviour
  end.

(** ** BackgroundSubtractor.cpp *)
Definition BGSM_GRAYSCALE : Z := 0.
Definition BGSM_COLOR_TO_GRAY : Z := 1.
Definition BGSM_COLOR_TO_COLOR : Z := 2.
Record BackgroundSubtractor := mkSubtractor {
  bs_background : option Image; bs_backgroundGray : option Image;
  bs_threshold : Z; bs_replacement : Z; bs_reset : bool; bs_method : Enum
}.
Definition subtraction_methods : Enum :=
  enum_add "color to color" BGSM_COLOR_TO_COLOR (enum_add "color to gray" BGSM_COLOR_TO_GRAY (enum_add "gray" BGSM_GRAYSCALE (new_Enum 0))).
Definition new_BackgroundSubtractor : BackgroundSubtractor := mkSubtractor None None 128 255 true subtraction_methods.
Definition setThreshold (t : Z) (b : BackgroundSubtractor) : BackgroundSubtractor :=
  mkSubtractor (bs_background b) (bs_backgroundGray b)
    (if bool_decide (0 ≤ t) && bool_decide (t ≤ 255) then t else bs_threshold b) (bs_replacement b) (bs_reset b) (bs_method b).
Definition setReplacement (r : Z) (b : BackgroundSubtractor) : BackgroundSubtractor :=
  mkSubtractor (bs_background b) (bs_backgroundGray b) (bs_threshold b)
    (if bool_decide (0 ≤ r) && bool_decide (r ≤ 255) then r else bs_replacement b) (bs_reset b) (bs_method b).
Definition setReset (r : bool) (b : BackgroundSubtractor) : BackgroundSubtractor :=
  mkSubtractor (bs_background b) (bs_backgroundGray b) (bs_threshold b) (bs_replacement b) r (bs_method b).
Definition setMethod (m : Enum) (b : BackgroundSubtractor) : BackgroundSubtractor :=
  mkSubtractor (bs_background b) (bs_backgroundGray b) (bs_threshold b) (bs_replacement b) (bs_reset b) m.

Definition set_background (bg gray : option Image) (b : BackgroundSubtractor) : BackgroundSubtractor :=
  mkSubtractor bg gray (bs_threshold b) (bs_replacement b) (bs_reset b) (bs_method b).
(** setBackground: the background is assigned before it is converted. *)
Definition setBackground (mat : Image) : M BackgroundSubtractor unit :=
  modify (λ b, set_background (Some mat) (bs_backgroundGray b) b) ;;
  if bool_decide (p_channels (properties mat) = 3) then
    gray ← lift (cv_cvtColor mat CV_RGB2GRAY 0) ;
    modify (λ b, set_background (bs_background b) (Some gray) b)
  else modify (λ b, set_background (bs_background b) (Some mat) b).

Definition binary (img : Image) (b : BackgroundSubtractor) : outcome Image :=
  cv_threshold img (double_of_int (bs_threshold b)) (double_of_int (bs_replacement b)) CV_THRESH_BINARY.

(** The foreground, for each of the methods. *)
Definition subtract_gray (img : Image) (b : BackgroundSubtractor) : outcome Image :=
  CvMatData_create (properties img) ;;
  gray ← (if bool_decide (p_channels (properties img) = 3) then cv_cvtColor img CV_RGB2GRAY 0 else mret img) ;
  match bs_backgroundGray b with
  | Some bg => out ← cv_absdiff gray bg ; binary out b
  | None => Abort UndefinedBehaviour
  end.
Definition subtract_color_to_gray (img bg : Image) (b : BackgroundSubtractor) : outcome Image :=
  CvMatData_create (properties img) ;;
  tmp ← cv_absdiff img bg ;
  tmp1 ← binary tmp b ;
  out ← cv_cvtColor tmp1 CV_RGB2GRAY 0 ;
  binary out b.
Definition subtract_color (img bg : Image) (b : BackgroundSubtractor) : outcome Image :=
  CvMatData_create (properties img) ;;
  out ← cv_absdiff img bg ;
  binary out b.

(** [background], [reset]: what waits on the two optional pins. *)
Definition take_background (img : Image) (background : option Image) (reset : option bool) : M BackgroundSubtractor unit :=
  b ← gets id ;
  when (bs_reset b) (setBackground img ;; modify (setReset false)) ;;
  match background with Some bg => setBackground bg | None => mret tt end ;;
  match reset with Some true => setBackground img | _ => mret tt end.
Definition subtract_background (img : Image) : M BackgroundSubtractor ProcessResult :=
  b ← gets id ;
  match bs_background b with
  | None => lift (puts [(0%nat, img)])
  | Some bg =>
      if bool_decide (p_width (properties img) ≠ p_width (properties bg)) || bool_decide (p_height (properties img) ≠ p_height (properties bg))
      then lift (reports channels_differ)
      else
        m ← lift (selected number (bs_method b)) ;
        if bool_decide (m = BGSM_GRAYSCALE) then fg ← lift (subtract_gray img b) ; lift (puts [(0%nat, fg); (1%nat, bg)])
        else
          m' ← lift (selected number (bs_method b)) ;
          if bool_decide (m' = BGSM_COLOR_TO_GRAY)
          then fg ← lift (subtract_color_to_gray img bg b) ; lift (puts [(0%nat, fg); (1%nat, bg)])
          else fg ← lift (subtract_color img bg b) ; lift (puts [(0%nat, fg); (1%nat, bg)])
  end.
Definition background_process (img : Image) (background : option Image) (reset : option bool) : M BackgroundSubtractor ProcessResult :=
  take_background img background reset ;; subtract_background img.
End elements.

(** ** ForegroundDetector.cpp

    A model of the background of OpenCV; creating one may fail. *)
Class CvBackgroundModels `{CvFilters} := {
  CvBGStatModel : Type;
  cvCreateFGDStatModel : Image → option CvBGStatModel;
  cvCreateGaussianBGModel : Image → option CvBGStatModel;
  cvUpdateBGStatModel : Image → CvBGStatModel → CvBGStatModel;
  bg_foreground : CvBGStatModel → Image;
  bg_background : CvBGStatModel → Image
}.

Section foreground.
Context `{CvBackgroundModels} (number : Z → string).
Definition FG_ACMMM2003 : Z := 0.
Definition FG_ACMMM2003_SIMPLE : Z := 1.
Definition FG_CVPR1999 : Z := 2.
Record ForegroundDetector := mkForeground { m_bgModel : option CvBGStatModel; fd_method : Enum }.
Definition new_ForegroundDetector : ForegroundDetector :=
  mkForeground None (enum_add "CVPR 1999" FG_CVPR1999 (enum_add "ACM MM2003 simple" FG_ACMMM2003 (enum_add "ACM MM2003" FG_ACMMM2003 (new_Enum 0)))).
Definition foreground_start (f : ForegroundDetector) : bool * ForegroundDetector := (true, f).
Definition foreground_stop (f : ForegroundDetector) : bool * ForegroundDetector := (true, mkForeground None (fd_method f)).
Definition foreground_setMethod (m : Enum) (f : ForegroundDetector) : ForegroundDetector := mkForeground (m_bgModel f) m.
(** The first image only makes the model. *)
Definition foreground_process (img : Image) : M ForegroundDetector ProcessResult :=
  f ← gets id ;
  match m_bgModel f with
  | None =>
      m ← lift (selected number (fd_method f)) ;
      let model := if bool_decide (m = FG_ACMMM2003) || bool_decide (m = FG_ACMMM2003_SIMPLE) then cvCreateFGDStatModel img
                   else if bool_decide (m = FG_CVPR1999) then cvCreateGaussianBGModel img else None in
      modify (λ f, mkForeground model (fd_method f)) ;; lift (puts [])
  | Some model =>
      let model' := cvUpdateBGStatModel img model in
      modify (λ f, mkForeground (Some model') (fd_method f)) ;;
      lift (puts [(0%nat, bg_foreground model'); (1%nat, bg_background model')])
  end.
End foreground.

(** ** ViolaJonesFaceDetector.cpp

    What the C interface gives. *)
Class CvHaar `{CvFilters} := {
  file_exists : string → bool;
  cv_storage : bool;                                        (** there is memory for the storage *)
  Cascade : Type;
  cvLoad : string → option Cascade;
  cvHaarDetectObjects : Image → Cascade → double → Z → bool → Z * Z → list Rect;
  draw_rectangles : Image → list Rect → Image               (** on a copy *)
}.

Section faces.
Context `{CvHaar}.
(** [vj_cascade], [vj_storage]: what [m_pCascade] and [m_pStorage] point to. *)
Record ViolaJones := mkViolaJones {
  vj_minNeighbours : Z; vj_scaleFactor : double; vj_useCannyPruning : bool; vj_minWidth : Z; vj_minHeight : Z;
  vj_haarCascadeFile : string; vj_cascade : option Cascade; vj_storage : bool
}.
Definition new_ViolaJones : ViolaJones :=
  mkViolaJones 3 scale_default true 20 20 "C:/OpenCV-2.1.0/data/haarcascades/haarcascade_frontalface_alt.xml" None false.
Definition vj_setMinNeighbours (i : Z) (v : ViolaJones) : ViolaJones :=
  mkViolaJones (if bool_decide (0 < i) then i else vj_minNeighbours v) (vj_scaleFactor v) (vj_useCannyPruning v) (vj_minWidth v)
    (vj_minHeight v) (vj_haarCascadeFile v) (vj_cascade v) (vj_storage v).
Definition vj_setScaleFactor (d : double) (v : ViolaJones) : ViolaJones :=
  mkViolaJones (vj_minNeighbours v) (set_scale d (vj_scaleFactor v)) (vj_useCannyPruning v) (vj_minWidth v)
    (vj_minHeight v) (vj_haarCascadeFile v) (vj_cascade v) (vj_storage v).
Definition vj_setUseCannyPruning (b : bool) (v : ViolaJones) : ViolaJones :=
  mkViolaJones (vj_minNeighbours v) (vj_scaleFactor v) b (vj_minWidth v) (vj_minHeight v) (vj_haarCascadeFile v) (vj_cascade v) (vj_storage v).
Definition vj_setMinWidth (w : Z) (v : ViolaJones) : ViolaJones :=
  mkViolaJones (vj_minNeighbours v) (vj_scaleFactor v) (vj_useCannyPruning v) (if bool_decide (0 ≤ w) then w else vj_minWidth v)
    (vj_minHeight v) (vj_haarCascadeFile v) (vj_cascade v) (vj_storage v).
Definition vj_setMinHeight (h : Z) (v : ViolaJones) : ViolaJones :=
  mkViolaJones (vj_minNeighbours v) (vj_scaleFactor v) (vj_useCannyPruning v) (vj_minWidth v)
    (if bool_decide (0 ≤ h) then h else vj_minHeight v) (vj_haarCascadeFile v) (vj_cascade v) (vj_storage v).
Definition vj_setHaarCascadeFile (f : string) (v : ViolaJones) : ViolaJones :=
  mkViolaJones (vj_minNeighbours v) (vj_scaleFactor v) (vj_useCannyPruning v) (vj_minWidth v) (vj_minHeight v) f (vj_cascade v) (vj_storage v).
Definition vj_set_memory (c : option Cascade) (s : bool) (v : ViolaJones) : ViolaJones :=
  mkViolaJones (vj_minNeighbours v) (vj_scaleFactor v) (vj_useCannyPruning v) (vj_minWidth v) (vj_minHeight v) (vj_haarCascadeFile v) c s.

(** The message of a failure. *)
Definition vj_init : M ViolaJones (option string) :=
  v ← gets id ;
  assert (negb (vj_storage v)) ;;
  assert (match vj_cascade v with None => true | Some _ => false end) ;;
  modify (vj_set_memory None cv_storage) ;;
  if negb cv_storage then mret (Some "Failed to allocate temporary storage in OpenCV for Viola Jones Facedetector processor")
  else if negb (file_exists (vj_haarCascadeFile v))
  then mret (Some ("Failed to load haar cascade file " +:+ vj_haarCascadeFile v +:+ ". File does not exist."))
  else match cvLoad (vj_haarCascadeFile v) with
       | None => mret (Some ("Failed to load haar cascade file " +:+ vj_haarCascadeFile v))
       | Some c => modify (vj_set_memory (Some c) cv_storage) ;; mret None
       end.
Definition vj_deinit : M ViolaJones bool := modify (vj_set_memory None false) ;; mret true.

(** The rectangles that are put, if there are any, and the image for the
    monitor. *)
Definition vj_process (img : Image) : M ViolaJones (option ((Z * Z) * list Rect) * Image) :=
  v ← gets id ;
  match vj_cascade v with
  | None => abort AssertFailed
  | Some c =>
      assert (vj_storage v) ;;
      lift (CvMatData_create (properties img)) ;;
      let rects := cvHaarDetectObjects img c (vj_scaleFactor v) (vj_minNeighbours v) (vj_useCannyPruning v) (vj_minWidth v, vj_minHeight v) in
      mret (match rects with [] => None | _ => Some (p_size (properties img), rects) end, draw_rectangles img rects)
  end.
End faces.
