(* ===== verification/FiltersProof.v ===== *)
(** Filters: which parameters their setters let through, and what they do with
    images of all formats. *)
From Stdlib Require Import Floats.SpecFloat.
From S2P Require Import Filters.

(** ** Parameters *)
Lemma set_aperture_odd lo i current : lo = 1 ∨ lo = 3 → odd_to_7 (set_aperture lo i current) = true ∧ lo ≤ set_aperture lo i current.
Proof.
  intros Hlo. remember (set_aperture lo i current) as v eqn:Hv. unfold set_aperture in Hv.
  assert (Hgoal : v = 1 ∧ lo = 1 ∨ v = 3 ∨ v = 5 ∨ v = 7).
  { destruct (decide (i < lo)); [rewrite bool_decide_true in Hv by done; lia|].
    rewrite (bool_decide_false (i < lo)) in Hv by done.
    destruct (decide (7 < i)); [rewrite bool_decide_true in Hv by done; lia|].
    rewrite (bool_decide_false (7 < i)) in Hv by done.
    assert (i = 1 ∨ i = 2 ∨ i = 3 ∨ i = 4 ∨ i = 5 ∨ i = 6 ∨ i = 7) as Hi by lia.
    destruct Hi as [->|[->|[->|[->|[->|[->| ->]]]]]]; destruct (bool_decide (current < _)) in Hv; vm_compute in Hv; lia. }
  clear Hv. destruct Hgoal as [[-> ->]|[->|[->| ->]]]; (split; [reflexivity|lia]).
Qed.

Lemma clip_negative_spec s : clip_negative s = double_0 ∨ SFltb double_0 (clip_negative s) = true.
Proof. unfold clip_negative. destruct (SFltb double_0 s) eqn:Hs; [by right|by left]. Qed.

(** The calls of the setters, with any arguments. *)
Inductive sobel_call := SobelXOrder (b : bool) | SobelYOrder (b : bool) | SobelKernelSize (i : Z) | SobelScale (s : double)
  | SobelDelta (d : double) | SobelBorderType (e : Enum).
Definition sobel_apply (s : EdgeDetectorSobel) (c : sobel_call) : EdgeDetectorSobel :=
  match c with
  | SobelXOrder b => sobel_setXOrder b s | SobelYOrder b => sobel_setYOrder b s | SobelKernelSize i => sobel_setKernelSize i s
  | SobelScale d => sobel_setScale d s | SobelDelta d => sobel_setDelta d s | SobelBorderType e => sobel_setBorderType e s
  end.
Inductive canny_call := CannyApertureSize (i : Z) | CannyThresholdLow (d : double) | CannyThresholdHigh (d : double) | CannyL2Gradient (b : bool).
Definition canny_apply (s : EdgeDetectorCanny) (c : canny_call) : EdgeDetectorCanny :=
  match c with
  | CannyApertureSize i => canny_setApertureSize i s | CannyThresholdLow d => canny_setThresholdLow d s
  | CannyThresholdHigh d => canny_setThresholdHigh d s | CannyL2Gradient b => canny_setL2Gradient b s
  end.
Inductive harris_call := HarrisKernelSize (i : Z) | HarrisBlockSize (i : Z) | HarrisK (k : double) | HarrisBorderType (e : Enum).
Definition harris_apply (s : ImageCornerHarris) (c : harris_call) : ImageCornerHarris :=
  match c with
  | HarrisKernelSize i => harris_setKernelSize i s | HarrisBlockSize i => harris_setBlockSize i s
  | HarrisK k => harris_setK k s | HarrisBorderType e => harris_setBorderType e s
  end.

(** An invariant of the setters holds after any sequence of calls. *)
Lemma foldl_invariant {S C} (apply : S → C → S) (I : S → Prop) s0 cs :
  I s0 → (∀ s c, I s → I (apply s c)) → I (foldl apply s0 cs).
Proof. intros H0 Hstep. revert s0 H0. induction cs as [|c cs IH]; intros s0 H0; [done|]. cbn. by apply IH, Hstep. Qed.

(** What OpenCV asks of the parameters. *)
Record sobel_valid (s : EdgeDetectorSobel) : Prop := {
  sv_kernel : odd_to_7 (sobel_kernelSize s) = true;
  sv_orders : sobel_xOrder s || sobel_yOrder s = true;
  sv_scale : sobel_scale s = double_0 ∨ SFltb double_0 (sobel_scale s) = true
}.
Definition canny_valid (c : EdgeDetectorCanny) : Prop := odd_to_7 (canny_apertureSize c) = true ∧ 3 ≤ canny_apertureSize c.
Definition harris_valid (h : ImageCornerHarris) : Prop :=
  odd_to_7 (harris_kernelSize h) = true ∧ 1 ≤ harris_blockSize h ∧ SFltb (harris_k h) double_0 = false.

Lemma sobel_apply_valid s c : sobel_valid s → sobel_valid (sobel_apply s c).
Proof.
  intros [Hk Ho Hs]. destruct c; cbn; try by split.
  - unfold sobel_setXOrder. destruct b, (sobel_yOrder s) eqn:Hy; cbn; split; cbn; rewrite ?Hy; done || by destruct (sobel_xOrder s).
  - unfold sobel_setYOrder. destruct b, (sobel_xOrder s) eqn:Hx; cbn; split; cbn; rewrite ?Hx; done || by destruct (sobel_yOrder s).
  - split; cbn; [apply set_aperture_odd; by left|done|done].
  - split; cbn; [done|done|apply clip_negative_spec].
Qed.

Section parameters.
Context `{BorderTypes}.

Lemma sobel_reachable cs : sobel_valid (foldl sobel_apply new_EdgeDetectorSobel cs).
Proof. apply foldl_invariant; [split; cbn; try done; by right|apply sobel_apply_valid]. Qed.
Lemma canny_reachable l2 cs : canny_valid (foldl canny_apply (new_EdgeDetectorCanny l2) cs).
Proof.
  apply foldl_invariant; [by split|]. intros s [] Hs; try done. apply set_aperture_odd. by right.
Qed.
Lemma harris_reachable cs : harris_valid (foldl harris_apply new_ImageCornerHarris cs).
Proof.
  apply foldl_invariant; [by split_and!|]. intros s [i|i|k|e] (Hk & Hb & Hz); cbn; [| | |done]; split_and!; cbn; try done.
  - apply set_aperture_odd. by left.
  - case_bool_decide; lia.
  - destruct (SFltb k double_0) eqn:He; [reflexivity|done].
Qed.
Lemma laplace_reachable l : odd_to_7 (laplace_apertureSize (foldl (flip laplace_setApertureSize) new_EdgeDetectorLaplace l)) = true.
Proof.
  apply (foldl_invariant (flip laplace_setApertureSize) (λ l, odd_to_7 (laplace_apertureSize l) = true)); [done|].
  intros s i _. apply set_aperture_odd. by left.
Qed.
End parameters.

(** ** What OpenCV promises

    Functions of two images succeed on images of one format, whose format the
    result has, and throw when the formats differ (a single row or column may
    stand for a scalar); split gives one image per channel. *)
Definition several `{CvFilters} (img : Image) : Prop := 1 < p_width (properties img) ∧ 1 < p_height (properties img).
Definition pairwise `{CvFilters} (f : Image → Image → outcome Image) : Prop := ∀ a b,
  (properties a = properties b → ∃ r, f a b = Ok r ∧ properties r = properties a) ∧
  (several a → several b → properties a ≠ properties b → ∃ msg, f a b = Throw (CvException msg)).
Class CvFiltersLaws `{CvFilters} := {
  addWeighted_pairwise alpha beta gamma : pairwise (λ a b, cv_addWeighted a alpha b beta gamma);
  subtract_pairwise : pairwise (λ a b, cv_subtract a b None);
  multiply_pairwise scale : pairwise (λ a b, cv_multiply a b scale);
  xor_pairwise : pairwise cv_bitwise_xor;
  absdiff_pairwise : pairwise cv_absdiff;
  split_channels img : 1 ≤ p_channels (properties img) → ∃ outs, cv_split img = Ok outs ∧
    Z.of_nat (length outs) = p_channels (properties img) ∧ Forall (λ o, properties o = setNumChannels 1 (properties img)) outs
}.
Definition not_empty `{CvFilters} (img : Image) : Prop := 0 < p_width (properties img) ∧ 0 < p_height (properties img).

Section processes.
Context `{BorderTypes} `{CvFilters} (number : Z → string).

Lemma create_ok img : not_empty img → CvMatData_create (properties img) = Ok tt.
Proof. intros [Hw Hh]. unfold CvMatData_create. by rewrite !bool_decide_true. Qed.
Lemma create_size_ok img p : not_empty img → p_size p = p_size (properties img) → CvMatData_create p = Ok tt.
Proof. intros [Hw Hh] [= Hpw Hph]. unfold CvMatData_create. by rewrite Hpw, Hph, !bool_decide_true. Qed.


Context `{!CvFiltersLaws}.
#[local] Set Default Proof Using "Type*".

(** The elements that combine two images of several rows and columns: Add, Multiply and Xor put one
    image of the format of their inputs when these agree, and report an error
    and put nothing when they differ in size, depth or channels; Sub checks
    depth and channels only, and images of different sizes make OpenCV throw;
    Diff checks nothing. *)
Theorem combining_filters alpha beta gamma scale a b : several a → several b →
  let same := properties a = properties b in
  let gives r := ∃ out, r = puts [(0%nat, out)] ∧ properties out = properties a in
  let refuses r := ∃ msg, r = reports msg in
  let throws r := ∃ msg, r = Throw (CvException msg) in
  (same → gives (add_process number alpha beta gamma a b) ∧ gives (multiply_process scale a b) ∧ gives (xor_process a b) ∧
          gives (sub_process a b None) ∧ gives (diff_process a b)) ∧
  (¬ same → refuses (add_process number alpha beta gamma a b) ∧ refuses (multiply_process scale a b) ∧ refuses (xor_process a b) ∧
            throws (diff_process a b) ∧
            (if decide (p_type (properties a) = p_type (properties b)) then throws (sub_process a b None) else refuses (sub_process a b None))).
Proof.
  intros Ha Hb same gives refuses throws. subst same. assert (Hca : CvMatData_create (properties a) = Ok tt) by (apply create_ok; destruct Ha; split; lia).
  pose proof (addWeighted_pairwise alpha beta gamma a b) as [Hadd Hadd'].
  pose proof (multiply_pairwise scale a b) as [Hmul Hmul']. pose proof (xor_pairwise a b) as [Hxor Hxor'].
  pose proof (subtract_pairwise a b) as [Hsub Hsub']. pose proof (absdiff_pairwise a b) as [Hdiff Hdiff'].
  unfold add_process, multiply_process, xor_process, sub_process, diff_process. rewrite Hca. split.
  - intros Hs. destruct (Hadd Hs) as (r1 & -> & ?), (Hmul Hs) as (r2 & -> & ?), (Hxor Hs) as (r3 & -> & ?),
      (Hsub Hs) as (r4 & -> & ?), (Hdiff Hs) as (r5 & -> & ?).
    rewrite <-Hs, !(bool_decide_false (_ ≠ _)) by (by intros []). cbn [orb mbind outcome_bind].
    split_and!; eexists; (split; [reflexivity|done]).
  - intros Hs. rewrite !(bool_decide_true (properties a ≠ properties b)) by done.
    destruct (Hdiff' Ha Hb Hs) as [e1 ->], (Hsub' Ha Hb Hs) as [e2 Hsub2]. rewrite Hsub2. clear Hadd Hmul Hxor Hsub Hdiff.
    assert (Hparts : p_type (properties a) = p_type (properties b) → p_size (properties a) ≠ p_size (properties b)).
    { intros Ht Hsz. apply Hs. destruct (properties a), (properties b). injection Ht as -> ->. by injection Hsz as -> ->. }
    case_decide as Ht; [injection Ht as Hd Hc|].
    + rewrite Hd, Hc, !(bool_decide_false (_ ≠ _)) by (by intros []).
      split_and!; try (by eexists). assert (Hsz : p_width (properties a) ≠ p_width (properties b) ∨ p_height (properties a) ≠ p_height (properties b)).
      { destruct (decide (p_width (properties a) = p_width (properties b))); [right|by left]. intros He.
        apply Hparts; unfold p_type, p_size; by f_equal. }
      unfold refuses. destruct Hsz as [Hsz|Hsz]; rewrite (bool_decide_true _ Hsz), ?orb_true_r; by eexists.
    + destruct (decide (p_channels (properties a) = p_channels (properties b))) as [Hc|Hc].
      * assert (Hd : p_depth (properties a) ≠ p_depth (properties b)) by (intros Hd; apply Ht; unfold p_type; by f_equal).
        rewrite !(bool_decide_false (p_channels _ ≠ _)), !(bool_decide_true _ Hd) by (by intros []). split_and!; by eexists.
      * rewrite !(bool_decide_true _ Hc). split_and!; by eexists.
Qed.

(** Split gives a colour image of two to four channels channel by channel:
    the image of channel i, of one channel and the size and depth of the input,
    is put on pin i, the last channel first; the other pins get nothing, and an
    image of one channel is an error. *)
Theorem split_correct img : not_empty img →
  let n := p_channels (properties img) in
  (n = 1 → ∃ msg, split_process img = reports msg) ∧
  (2 ≤ n ≤ 4 → ∃ outs, cv_split img = Ok outs ∧ Z.of_nat (length outs) = n ∧
     split_process img = puts (reverse (imap pair outs)) ∧
     Forall (λ o, properties o = setNumChannels 1 (properties img)) outs).
Proof.
  intros Himg n. subst n. unfold split_process. split.
  - intros ->. by eexists.
  - intros Hn. destruct (split_channels img) as (outs & Hs & Hlen & Hf); [lia|]. exists outs. split_and!; try done.
    rewrite bool_decide_false by lia. rewrite (create_size_ok img) by done. cbn [mbind outcome_bind]. rewrite Hs. cbn [mbind outcome_bind].
    rewrite <-Hlen in *. destruct outs as [|o0 [|o1 [|o2 [|o3 [|]]]]]; cbn in Hn; try lia; reflexivity.
Qed.
End processes.
