(* ===== verification/DetectorsProof.v ===== *)
(** The elements with images of their own: the background that is subtracted,
    the tables of colour conversions, the memory of the face detector; and the
    theorems on filters at the images of a small image library. *)
From S2P Require Import FiltersProof Detectors.


(** ** What OpenCV promises *)
Class BackgroundLaws `{CvFilters} := {
  absdiff_law : pairwise cv_absdiff;
  threshold_law img t m k : p_depth (properties img) = Depth8U →
    ∃ r, cv_threshold img t m k = Ok r ∧ properties r = properties img;
  rgb2gray_law img : p_depth (properties img) = Depth8U → p_channels (properties img) = 3 →
    ∃ r, cv_cvtColor img CV_RGB2GRAY 0 = Ok r ∧ properties r = setNumChannels 1 (properties img);
  rgb2gray_single img : p_channels (properties img) = 1 → ∃ msg, cv_cvtColor img CV_RGB2GRAY 0 = Throw (CvException msg)
}.

Section background.
Context `{CvFilters} `{!BackgroundLaws} (number : Z → string).
#[local] Set Default Proof Using "Type*".
Implicit Types (b : BackgroundSubtractor) (img bg : Image).

(** The images that the pins let through. *)
Definition accepted img : Prop :=
  several img ∧ p_depth (properties img) = Depth8U ∧ (p_channels (properties img) = 1 ∨ p_channels (properties img) = 3).

(** ** Specification

    The background is the last image that was given on the background pin or
    came with a reset, or the first one when the reset property is set. *)
Inductive bs_event :=
  | Frame (img : Image) (background : option Image) (reset : option bool)
  | SetThreshold (t : Z) | SetReplacement (r : Z) | SetReset (r : bool) | SetMethod (m : Enum).
Record BackgroundSpec := mkSpec { sp_background : option Image; sp_threshold : Z; sp_replacement : Z; sp_reset : bool; sp_method : Z }.

Definition next_background img (background : option Image) (reset : option bool) (s : BackgroundSpec) : option Image :=
  match reset with
  | Some true => Some img
  | _ => match background with
         | Some bg => Some bg
         | None => if sp_reset s then Some img else sp_background s
         end
  end.
Definition byte_or (v old : Z) : Z := if decide (0 ≤ v ≤ 255) then v else old.
Definition method_of (m : Enum) : Z := match selected number m with Ok v => v | _ => 0 end.
Definition spec_step (s : BackgroundSpec) (e : bs_event) : BackgroundSpec :=
  match e with
  | Frame img background reset =>
      mkSpec (next_background img background reset s) (sp_threshold s) (sp_replacement s) false (sp_method s)
  | SetThreshold t => mkSpec (sp_background s) (byte_or t (sp_threshold s)) (sp_replacement s) (sp_reset s) (sp_method s)
  | SetReplacement r => mkSpec (sp_background s) (sp_threshold s) (byte_or r (sp_replacement s)) (sp_reset s) (sp_method s)
  | SetReset r => mkSpec (sp_background s) (sp_threshold s) (sp_replacement s) r (sp_method s)
  | SetMethod m => mkSpec (sp_background s) (sp_threshold s) (sp_replacement s) (sp_reset s) (method_of m)
  end.
Definition new_spec : BackgroundSpec := mkSpec None 128 255 true BGSM_GRAYSCALE.

(** The foreground of an image before a background. *)
Definition gray_of img : outcome Image :=
  if bool_decide (p_channels (properties img) = 3) then cv_cvtColor img CV_RGB2GRAY 0 else mret img.
Definition spec_binary (s : BackgroundSpec) img : outcome Image :=
  cv_threshold img (double_of_int (sp_threshold s)) (double_of_int (sp_replacement s)) CV_THRESH_BINARY.
Definition spec_foreground (s : BackgroundSpec) img bg : outcome Image :=
  if decide (sp_method s = BGSM_GRAYSCALE) then a ← gray_of img ; c ← gray_of bg ; d ← cv_absdiff a c ; spec_binary s d
  else if decide (sp_method s = BGSM_COLOR_TO_GRAY)
  then d ← cv_absdiff img bg ; d' ← spec_binary s d ; g ← cv_cvtColor d' CV_RGB2GRAY 0 ; spec_binary s g
  else d ← cv_absdiff img bg ; spec_binary s d.

(** What a frame makes visible, [s] being the specification after it. *)
Definition spec_result (s : BackgroundSpec) img : outcome ProcessResult → Prop := λ o,
  match sp_background s with
  | None => o = puts [(0%nat, img)]
  | Some bg =>
      if decide (p_size (properties img) ≠ p_size (properties bg)) then o = reports channels_differ
      else if decide (sp_method s = BGSM_GRAYSCALE ∨ p_channels (properties img) = p_channels (properties bg) ∧
                       (sp_method s = BGSM_COLOR_TO_GRAY → p_channels (properties img) = 3)) then
        ∃ fg, spec_foreground s img bg = Ok fg ∧ o = puts [(0%nat, fg); (1%nat, bg)] ∧
          properties fg = setNumChannels (if decide (sp_method s = 2) then p_channels (properties img) else 1) (properties img)
      else ∃ msg, o = Throw (CvException msg)
  end.

(** ** The simulation *)
Record simulates b (s : BackgroundSpec) : Prop := {
  si_background : bs_background b = sp_background s;
  si_gray : match bs_background b with None => True | Some bg => accepted bg ∧ ∃ g, bs_backgroundGray b = Some g ∧ gray_of bg = Ok g end;
  si_threshold : bs_threshold b = sp_threshold s;
  si_replacement : bs_replacement b = sp_replacement s;
  si_reset : bs_reset b = sp_reset s;
  si_method : selected number (bs_method b) = Ok (sp_method s) ∧ 0 ≤ sp_method s ≤ 2
}.

Lemma gray_ok img : accepted img → ∃ g, gray_of img = Ok g ∧ properties g = setNumChannels 1 (properties img).
Proof.
  intros (_ & Hd & Hc). unfold gray_of. destruct Hc as [Hc|Hc].
  - rewrite bool_decide_false by lia. exists img. split; [done|]. unfold setNumChannels. rewrite <-Hc. by destruct (properties img).
  - rewrite bool_decide_true by done. by apply rgb2gray_law.
Qed.

Lemma run_setBackground img b : accepted img → ∃ g, gray_of img = Ok g ∧
  setBackground img b = (Ok tt, set_background (Some img) (Some g) b).
Proof.
  intros Ha. destruct (gray_ok img Ha) as (g & Hg & _). exists g. split; [done|]. unfold setBackground. unfold gray_of in Hg.
  case_bool_decide; [|by injection Hg as ->]. unfold mbind, M_bind, modify, lift. by rewrite Hg.
Qed.

Definition bs_event_ok (e : bs_event) : Prop :=
  match e with
  | Frame img background _ => accepted img ∧ match background with Some bg => accepted bg | None => True end
  | SetMethod m => ∃ v, selected number m = Ok v ∧ 0 ≤ v ≤ 2
  | _ => True
  end.
Definition bs_apply b (e : bs_event) : BackgroundSubtractor :=
  match e with
  | Frame img background reset => (background_process number img background reset b).2
  | SetThreshold t => setThreshold t b | SetReplacement r => setReplacement r b
  | SetReset r => setReset r b | SetMethod m => setMethod m b
  end.

Lemma simulates_background b s img g : simulates b s → accepted img → gray_of img = Ok g →
  simulates (set_background (Some img) (Some g) b) (mkSpec (Some img) (sp_threshold s) (sp_replacement s) (sp_reset s) (sp_method s)).
Proof. intros [Hb Hg Ht Hr Hs Hm] Ha Hgray. split; cbn; try done. split; [done|]. by exists g. Qed.

Lemma run_take_background img background reset b s : simulates b s → bs_event_ok (Frame img background reset) →
  ∃ b', take_background img background reset b = (Ok tt, b') ∧ simulates b' (spec_step s (Frame img background reset)).
Proof.
  intros Hs [Himg Hbg]. unfold take_background. erewrite run_bind by reflexivity. unfold id.
  set (s1 := mkSpec (if sp_reset s then Some img else sp_background s) (sp_threshold s) (sp_replacement s) false (sp_method s)).
  assert (H1 : ∃ b1, when (bs_reset b) (setBackground img ;; modify (setReset false)) b = (Ok tt, b1) ∧ simulates b1 s1).
  { rewrite (si_reset _ _ Hs). unfold s1. destruct (sp_reset s) eqn:Hr; cbn [when].
    - destruct (run_setBackground img b Himg) as (g & Hg & Hrun). rewrite (run_bind _ _ _ _ _ Hrun). eexists. split; [reflexivity|].
      destruct (simulates_background b s img g Hs Himg Hg). by split.
    - exists b. split; [done|]. destruct Hs, s. cbn in *. by subst. }
  destruct H1 as (b1 & Hrun1 & H1). rewrite (run_bind _ _ _ _ _ Hrun1).
  set (s2 := mkSpec (match background with Some bg => Some bg | None => sp_background s1 end) (sp_threshold s1) (sp_replacement s1) false (sp_method s1)).
  assert (H2 : ∃ b2, (match background with Some bg => setBackground bg | None => mret tt end) b1 = (Ok tt, b2) ∧ simulates b2 s2).
  { destruct background as [bg|]; [|by exists b1]. destruct (run_setBackground bg b1 Hbg) as (g & Hg & Hrun). rewrite Hrun.
    eexists. split; [done|]. by apply simulates_background. }
  destruct H2 as (b2 & Hrun2 & H2). rewrite (run_bind _ _ _ _ _ Hrun2).
  destruct reset as [[]|]; [|exists b2; split; [done|]; by destruct background..].
  destruct (run_setBackground img b2 Himg) as (g & Hg & Hrun). rewrite Hrun. eexists. split; [done|]. by apply (simulates_background b2 s2).
Qed.

(** The rest of [process]. *)
Lemma same_properties img bg : accepted img → accepted bg → p_size (properties img) = p_size (properties bg) →
  p_channels (properties img) = p_channels (properties bg) → properties img = properties bg.
Proof.
  intros (_ & Hd & _) (_ & Hd' & _) [= Hw Hh] Hc. destruct (properties img), (properties bg). cbn in *. by subst.
Qed.
Lemma accepted_create img : accepted img → CvMatData_create (properties img) = Ok tt.
Proof. intros ([] & _). apply create_ok. split; lia. Qed.
Lemma binary_ok b s img : simulates b s → binary img b = spec_binary s img.
Proof. intros Hs. unfold binary, spec_binary. by rewrite (si_threshold _ _ Hs), (si_replacement _ _ Hs). Qed.
Lemma spec_binary_ok s img : p_depth (properties img) = Depth8U → ∃ r, spec_binary s img = Ok r ∧ properties r = properties img.
Proof. intros Hd. by apply threshold_law. Qed.

Section methods.
Context b (s : BackgroundSpec) img bg (Hs : simulates b s) (Himg : accepted img) (Hbg : accepted bg)
  (Hback : bs_background b = Some bg) (Hsize : p_size (properties img) = p_size (properties bg)).

Lemma gray_foreground : sp_method s = BGSM_GRAYSCALE → ∃ fg, spec_foreground s img bg = Ok fg ∧ subtract_gray img b = Ok fg ∧
  properties fg = setNumChannels 1 (properties img).
Proof.
  intros Hm. pose proof (si_gray _ _ Hs) as Hg. rewrite Hback in Hg. destruct Hg as (_ & g2 & Hbgray & Hg2).
  destruct (gray_ok img Himg) as (g1 & Hg1 & Hp1). destruct (gray_ok bg Hbg) as (g & Hg & Hp2). rewrite Hg2 in Hg. injection Hg as <-.
  assert (Hp : properties g1 = properties g2).
  { rewrite Hp1, Hp2. destruct Himg as (_ & Hd & _), Hbg as (_ & Hd' & _). injection Hsize as Hw Hh. unfold setNumChannels. by rewrite Hw, Hh, Hd, Hd'. }
  destruct (proj1 (absdiff_law g1 g2) Hp) as (d & Hd & Hdp).
  destruct (spec_binary_ok s d) as (fg & Hfg & Hfp); [rewrite Hdp, Hp1; apply Himg|]. exists fg.
  unfold spec_foreground, subtract_gray. rewrite decide_True, accepted_create by done. fold (gray_of img).
  rewrite Hg1, Hg2, Hbgray. cbn [mbind outcome_bind]. rewrite Hd. cbn [mbind outcome_bind]. rewrite (binary_ok b s d Hs), Hfg.
  split_and!; [done..|]. by rewrite Hfp, Hdp.
Qed.

Lemma color_difference : p_channels (properties img) = p_channels (properties bg) → ∃ d d', cv_absdiff img bg = Ok d ∧
  spec_binary s d = Ok d' ∧ properties d' = properties img.
Proof.
  intros Hc. destruct (proj1 (absdiff_law img bg) (same_properties img bg Himg Hbg Hsize Hc)) as (d & Hd & Hdp).
  destruct (spec_binary_ok s d) as (d' & Hd' & Hdp'); [rewrite Hdp; apply Himg|]. exists d, d'. by rewrite Hdp'.
Qed.

Lemma color_foreground : sp_method s = BGSM_COLOR_TO_COLOR → p_channels (properties img) = p_channels (properties bg) →
  ∃ fg, spec_foreground s img bg = Ok fg ∧ subtract_color img bg b = Ok fg ∧
    properties fg = setNumChannels (p_channels (properties img)) (properties img).
Proof.
  intros Hm Hc. destruct (color_difference Hc) as (d & fg & Hd & Hfg & Hp). exists fg.
  unfold spec_foreground, subtract_color. rewrite !decide_False by (rewrite Hm; done). rewrite accepted_create, Hd by done.
  cbn [mbind outcome_bind]. rewrite (binary_ok b s d Hs), Hfg. split_and!; [done..|]. rewrite Hp. unfold setNumChannels. by destruct (properties img).
Qed.

Lemma color_to_gray_foreground : sp_method s = BGSM_COLOR_TO_GRAY → p_channels (properties img) = p_channels (properties bg) →
  p_channels (properties img) = 3 → ∃ fg, spec_foreground s img bg = Ok fg ∧ subtract_color_to_gray img bg b = Ok fg ∧
    properties fg = setNumChannels 1 (properties img).
Proof.
  intros Hm Hc H3. destruct (color_difference Hc) as (d & d' & Hd & Hd' & Hp).
  destruct (rgb2gray_law d') as (g & Hg & Hgp); [rewrite Hp; apply Himg|by rewrite Hp|].
  destruct (spec_binary_ok s g) as (fg & Hfg & Hfp); [rewrite Hgp, Hp; apply Himg|]. exists fg.
  unfold spec_foreground, subtract_color_to_gray. rewrite decide_False, decide_True by (rewrite ?Hm; done). rewrite accepted_create, Hd by done.
  cbn [mbind outcome_bind]. rewrite (binary_ok b s d Hs), Hd'. cbn [mbind outcome_bind]. rewrite Hg. cbn [mbind outcome_bind].
  rewrite (binary_ok b s g Hs), Hfg. split_and!; [done..|]. by rewrite Hfp, Hgp, Hp.
Qed.

(** The two ways to fail. *)
Lemma channels_throw : p_channels (properties img) ≠ p_channels (properties bg) → ∃ msg,
  subtract_color img bg b = Throw (CvException msg) ∧ subtract_color_to_gray img bg b = Throw (CvException msg).
Proof.
  intros Hc. destruct (proj2 (absdiff_law img bg)) as [msg Hm]; [apply Himg|apply Hbg|by intros He; apply Hc; rewrite He|].
  exists msg. unfold subtract_color, subtract_color_to_gray. by rewrite accepted_create, Hm.
Qed.
Lemma gray_image_throws : p_channels (properties img) = p_channels (properties bg) → p_channels (properties img) ≠ 3 →
  ∃ msg, subtract_color_to_gray img bg b = Throw (CvException msg).
Proof.
  intros Hc H3. destruct (color_difference Hc) as (d & d' & Hd & Hd' & Hp).
  destruct (rgb2gray_single d') as [msg Hm]; [rewrite Hp; destruct Himg as (_ & _ & [|]); done|]. exists msg.
  unfold subtract_color_to_gray. rewrite accepted_create, Hd by done. cbn [mbind outcome_bind]. rewrite (binary_ok b s d Hs), Hd'.
  cbn [mbind outcome_bind]. by rewrite Hm.
Qed.
End methods.

(** A frame before a background of its size. *)
Lemma subtract_sized b s img bg : simulates b s → accepted img → accepted bg → bs_background b = Some bg →
  p_size (properties img) = p_size (properties bg) → spec_result s img (subtract_background number img b).1.
Proof.
  intros Hs Himg Hbg Hback Hsize. unfold spec_result, subtract_background. erewrite run_bind by reflexivity. unfold id.
  rewrite <-(si_background _ _ Hs), Hback. injection Hsize as Hw Hh. rewrite Hw, Hh, !(bool_decide_false (_ ≠ _)) by (by intros []).
  cbn [orb]. rewrite decide_False by (intros Hn; apply Hn; unfold p_size; by rewrite Hw, Hh).
  assert (Hsize : p_size (properties img) = p_size (properties bg)) by (unfold p_size; by rewrite Hw, Hh).
  destruct (si_method _ _ Hs) as [Hsel Hm]. unfold mbind, M_bind, lift. rewrite Hsel.
  assert (sp_method s = 0 ∨ sp_method s = 1 ∨ sp_method s = 2) as [Hz|[Hz|Hz]] by lia; rewrite Hz in *; cbn.
  - destruct (gray_foreground b s img bg Hs Himg Hbg Hback Hsize Hz) as (fg & Hf & -> & Hp). cbn.
    rewrite decide_True by (by left). by exists fg.
  - destruct (decide (p_channels (properties img) = p_channels (properties bg))) as [Hc|Hc].
    + destruct (decide (p_channels (properties img) = 3)) as [H3|H3].
      * destruct (color_to_gray_foreground b s img bg Hs Himg Hbg Hback Hsize Hz Hc H3) as (fg & Hf & -> & Hp). cbn.
        rewrite decide_True by (by right). by exists fg.
      * destruct (gray_image_throws b s img bg Hs Himg Hbg Hback Hsize Hc H3) as [msg ->]. cbn.
        rewrite decide_False by (intros [|[_ Hx]]; [done|by apply H3, Hx]). by exists msg.
    + destruct (channels_throw b s img bg Hs Himg Hbg Hback Hsize Hc) as (msg & _ & ->). cbn.
      rewrite decide_False by (by intros [|[]]). by exists msg.
  - destruct (decide (p_channels (properties img) = p_channels (properties bg))) as [Hc|Hc].
    + destruct (color_foreground b s img bg Hs Himg Hbg Hback Hsize Hz Hc) as (fg & Hf & -> & Hp). cbn.
      rewrite decide_True by (right; by split). by exists fg.
    + destruct (channels_throw b s img bg Hs Himg Hbg Hback Hsize Hc) as (msg & -> & _). cbn.
      rewrite decide_False by (by intros [|[]]). by exists msg.
Qed.

Lemma subtract_background_result b s img : simulates b s → accepted img →
  spec_result s img (subtract_background number img b).1.
Proof.
  intros Hs Himg. destruct (bs_background b) as [bg|] eqn:Hback.
  - pose proof (si_gray _ _ Hs) as Hg. rewrite Hback in Hg. destruct Hg as [Hbg _].
    destruct (decide (p_size (properties img) = p_size (properties bg))) as [Hsize|Hsize]; [by apply (subtract_sized b s img bg)|].
    unfold spec_result, subtract_background. erewrite run_bind by reflexivity. unfold id.
    rewrite <-(si_background _ _ Hs), Hback, decide_True by done.
    destruct (decide (p_width (properties img) = p_width (properties bg))) as [Hw|Hw]; [|by rewrite (bool_decide_true _ Hw)].
    destruct (decide (p_height (properties img) = p_height (properties bg))) as [Hh|Hh].
    + exfalso. apply Hsize. unfold p_size. by rewrite Hw, Hh.
    + by rewrite (bool_decide_true _ Hh), orb_true_r.
  - unfold spec_result, subtract_background. erewrite run_bind by reflexivity. unfold id. by rewrite <-(si_background _ _ Hs), Hback.
Qed.
(** It only reads the state. *)
Lemma subtract_background_state img b : (subtract_background number img b).2 = b.
Proof.
  unfold subtract_background. erewrite run_bind by reflexivity. unfold id. destruct (bs_background b) as [bg|]; [|done].
  destruct (_ || _); [done|]. unfold mbind, M_bind, lift. destruct (selected number (bs_method b)); [|done..].
  destruct (bool_decide _); [by destruct (subtract_gray img b)|]. destruct (bool_decide _); [by destruct (subtract_color_to_gray img bg b)|].
  by destruct (subtract_color img bg b).
Qed.

Lemma simulates_step b s e : simulates b s → bs_event_ok e → simulates (bs_apply b e) (spec_step s e).
Proof.
  intros Hs He. destruct e as [img background reset|t|r|r|m].
  - destruct (run_take_background img background reset b s Hs He) as (b' & Hrun & Hs'). cbn [bs_apply]. unfold background_process.
    by rewrite (run_bind _ _ _ _ _ Hrun), subtract_background_state.
  - destruct Hs. split; cbn; try done. unfold byte_or. rewrite <-bool_decide_and. by case_bool_decide as Hd; [rewrite decide_True|rewrite decide_False].
  - destruct Hs. split; cbn; try done. unfold byte_or. rewrite <-bool_decide_and. by case_bool_decide as Hd; [rewrite decide_True|rewrite decide_False].
  - destruct Hs. by split.
  - destruct Hs, He as (v & Hv & Hr). split; cbn; try done. unfold method_of. by rewrite Hv.
Qed.

(** C21: the background subtractor refines a specification of five variables:
    after any sequence of images and settings its background is the last one
    that was given on its pin, came with a reset, or came first; and what the
    next image makes visible is the thresholded difference to that background,
    with the background; an image of another size is an error; and colours
    cannot be compared with a grey background, nor a grey image be subtracted
    with the method from colours to grey: OpenCV throws. *)
Theorem background_refines evs e : Forall bs_event_ok evs → bs_event_ok e →
  let b := foldl bs_apply new_BackgroundSubtractor evs in
  let s := foldl spec_step new_spec evs in
  simulates b s ∧ simulates (bs_apply b e) (spec_step s e) ∧
  match e with
  | Frame img background reset => spec_result (spec_step s e) img (background_process number img background reset b).1
  | _ => True
  end.
Proof.
  intros Hevs He b s. assert (Hb : simulates b s).
  { subst b s. assert (H0' : simulates new_BackgroundSubtractor new_spec) by (by split).
    revert H0'. generalize new_BackgroundSubtractor, new_spec. induction Hevs as [|e' evs He' Hevs IH]; intros b s Hs; [done|].
    cbn. by apply IH, simulates_step. }
  split_and!; [done|by apply simulates_step|]. destruct e as [img background reset| | | |]; try done.
  destruct (run_take_background img background reset b s Hb He) as (b' & Hrun & Hs'). unfold background_process.
  rewrite (run_bind _ _ _ _ _ Hrun). apply subtract_background_result; [done|apply He].
Qed.
End background.

(** ** The tables of ImageColorConvert

    A code that one table knows the other knows too, and both give one to four
    channels. *)
Lemma channel_tables code : match code with
  | CV_OtherCode _ => getInChannels code = -1 ∧ getOutChannels code = -1
  | _ => 1 ≤ getInChannels code ≤ 4 ∧ 1 ≤ getOutChannels code ≤ 4
  end.
Proof. destruct code; cbn; lia. Qed.

(** After a conversion was chosen each pin supports exactly the channels of the
    tables; the constructor adds all channels again. *)
Lemma setConversionType_channels `{CvFilters} number e code c : selected number e = Ok code →
  ∃ c', setConversionType number e c = (Ok tt, c') ∧
    m_channels (cc_input c') = {[getInChannels (cv_code code)]} ∧ m_channels (cc_output c') = {[getOutChannels (cv_code code)]}.
Proof.
  intros Hcode. unfold setConversionType. erewrite run_bind by (unfold lift; by rewrite Hcode).
  eexists. split; [done|]. cbn. by rewrite !union_empty_r_L.
Qed.
Lemma constructed_channels `{CvFilters} `{OpenCV} number c c' : new_ImageColorConvert number c = (Ok tt, c') →
  ∀ n, 1 ≤ n ≤ 4 → supportsChannels n (cc_input c') = true.
Proof.
  unfold new_ImageColorConvert, mbind, M_bind, modify. destruct (setConversionType _ _ c) as [[u|?|?] c1]; [|done..].
  intros [= <-] n Hn. unfold supportsChannels. apply bool_decide_eq_true_2. cbn. set_unfold. lia.
Qed.

(** ** The memory of the face detector

    Between init and deinit: nothing is held before init, whatever init answers
    deinit lets everything go, so that init can be called again; process finds
    what it asserts exactly when init reported nothing. *)
Section faces.
Context `{CvHaar}.
Definition vj_free (v : ViolaJones) : Prop := vj_cascade v = None ∧ vj_storage v = false.

Lemma vj_cycle v : vj_free v → ∃ r v1, vj_init v = (Ok r, v1) ∧
  (r = None ↔ cv_storage = true ∧ file_exists (vj_haarCascadeFile v) = true ∧ is_Some (cvLoad (vj_haarCascadeFile v))) ∧
  (r = None → ∀ img, not_empty img → ∃ out, vj_process img v1 = (Ok out, v1)) ∧
  ∃ v2, vj_deinit v1 = (Ok true, v2) ∧ vj_free v2.
Proof.
  intros [Hc Hs]. unfold vj_init. erewrite run_bind by reflexivity. unfold id. rewrite Hc, Hs. cbn [negb assert].
  erewrite !run_bind by reflexivity. destruct cv_storage eqn:Hst; cbn [negb].
  2:{ do 2 eexists. split; [reflexivity|]. split_and!; [by split; [|intros []]|done|by eexists]. }
  destruct (file_exists (vj_haarCascadeFile v)) eqn:Hf; cbn [negb].
  2:{ do 2 eexists. split; [reflexivity|]. split_and!; [by split; [|intros (_ & ? & _)]|done|by eexists]. }
  destruct (cvLoad (vj_haarCascadeFile v)) as [c|] eqn:Hl.
  2:{ do 2 eexists. split; [reflexivity|]. split_and!; [by split; [|intros (_ & _ & [])]|done|by eexists]. }
  erewrite run_bind by reflexivity. do 2 eexists. split; [reflexivity|].
  split_and!; [by split|intros _ img Himg|by eexists]. unfold vj_process. erewrite run_bind by reflexivity. unfold id. cbn [vj_set_memory vj_cascade vj_storage assert].
  erewrite run_bind by reflexivity. erewrite run_bind by (unfold lift; by rewrite create_ok). by eexists.
Qed.
End faces.

(** Images as lists of pixels, each a list of channels. *)
Record PixelImage := mkPixels { xi_props : CvMatDataProperties; xi_data : list (list Z) }.

Definition xi_pair (f : Z → Z → Z) (a b : PixelImage) : outcome PixelImage :=
  if decide (xi_props a = xi_props b) then Ok (mkPixels (xi_props a) (zip_with (zip_with f) (xi_data a) (xi_data b)))
  else Throw (CvException "Sizes of input arguments do not match").
Definition xi_map (f : Z → Z) (a : PixelImage) : PixelImage := mkPixels (xi_props a) (map f <$> xi_data a).
Definition xi_int (d : double) : Z := match int_of_float d with Ok v => v | _ => 0 end.
Definition xi_channel (a : PixelImage) (i : nat) : PixelImage :=
  mkPixels (setNumChannels 1 (xi_props a)) ((λ px, [default 0 (px !! i)]) <$> xi_data a).
Definition xi_gray (a : PixelImage) : outcome PixelImage :=
  if decide (p_channels (xi_props a) = 3) then
    Ok (mkPixels (setNumChannels 1 (xi_props a))
      ((λ px, match px with [r; g; b] => [(299 * r + 587 * g + 114 * b) / 1000] | _ => [0] end) <$> xi_data a))
  else Throw (CvException "scn == 3 || scn == 4").

Definition ex_filters : CvFilters := {|
  Image := PixelImage; properties := xi_props;
  cv_code z := if decide (z = 7) then CV_RGB2GRAY else CV_OtherCode z; cv_code_value _ := 7;
  CV_THRESH_BINARY := 0; CV_THRESH_BINARY_INV := 1; CV_THRESH_TRUNC := 2; CV_THRESH_TOZERO := 3; CV_THRESH_TOZERO_INV := 4;
  cv_addWeighted a _ b _ _ := xi_pair (λ x y, (x + y) / 2) a b;
  cv_subtract a b _ := xi_pair (λ x y, Z.max 0 (x - y)) a b;
  cv_multiply a b _ := xi_pair (λ x y, x * y / 255) a b;
  cv_bitwise_xor := xi_pair Z.lxor;
  cv_absdiff := xi_pair (λ x y, Z.abs (x - y));
  cv_split a := Ok (xi_channel a <$> seq 0 (Z.to_nat (p_channels (xi_props a))));
  cv_flip a _ := Ok (mkPixels (xi_props a) (reverse (xi_data a)));
  cv_threshold a t m _ := Ok (xi_map (λ v, if decide (xi_int t < v) then xi_int m else 0) a);
  cv_erode a _ := Ok a; cv_dilate a _ := Ok a;
  cv_Canny a _ _ _ _ := Ok a; cv_Laplacian a _ _ := Ok a; cv_Sobel a _ _ _ _ _ _ _ := Ok a;
  cv_cornerHarris a _ _ _ _ := Ok a; cv_GaussianBlur a _ _ _ _ := Ok a;
  cv_cvtColor a c _ := match c with CV_RGB2GRAY => xi_gray a | _ => Throw (CvException "code") end;
  cv_convertTo a d _ := mkPixels (setDepth d (xi_props a)) (xi_data a);
  cv_accumulateWeighted a _ _ := Ok a
|}.
#[local] Existing Instance ex_filters.

Lemma xi_pairwise f : pairwise (xi_pair f).
Proof.
  intros a b. unfold xi_pair. split.
  - intros He. rewrite decide_True by done. by eexists.
  - intros _ _ He. rewrite decide_False by done. by eexists.
Qed.
#[local] Instance ex_filters_laws : CvFiltersLaws.
Proof.
  split; try (intros; apply xi_pairwise). intros img Hc. eexists. split; [reflexivity|]. split.
  - rewrite length_fmap, length_seq. cbn in *. lia.
  - apply Forall_fmap, Forall_forall. by intros i _.
Defined.
#[local] Instance ex_background_laws : BackgroundLaws.
Proof.
  split; [intros; apply xi_pairwise|by intros; eexists|..]; intros img; cbn; unfold xi_gray.
  - intros Hd Hc. rewrite decide_True by done. by eexists.
  - intros Hc. rewrite decide_False by (cbn in *; lia). by eexists.
Defined.

(** Images of two by two pixels. *)
Definition ex_colour (r g b : Z) : @Image ex_filters := mkPixels (mkProps 2 2 Depth8U 3) (replicate 4 [r; g; b]).
Definition ex_gray (v : Z) : @Image ex_filters := mkPixels (mkProps 2 2 Depth8U 1) (replicate 4 [v]).

Lemma combining_filters_witness :
  (∃ out, add_process (λ _, "n") double_1 double_1 double_0 (ex_gray 10) (ex_gray 30) = puts [(0%nat, out)]) ∧
  ∃ msg, xor_process (ex_gray 10) (ex_colour 1 2 3) = reports msg.
Proof.
  split.
  - edestruct (combining_filters (λ _, "n") double_1 double_1 double_0 double_1 (ex_gray 10) (ex_gray 30)) as [Hsame _]; [done..|].
    destruct (Hsame eq_refl) as ((out & Ho & _) & _). by exists out.
  - edestruct (combining_filters (λ _, "n") double_1 double_1 double_0 double_1 (ex_gray 10) (ex_colour 1 2 3)) as [_ Hdiff]; [done..|].
    destruct Hdiff as (_ & _ & Hx & _); [done|exact Hx].
Defined.

Lemma split_witness : split_process (ex_colour 1 2 3) = puts [(2%nat, ex_gray 3); (1%nat, ex_gray 2); (0%nat, ex_gray 1)].
Proof.
  destruct (split_correct (ex_colour 1 2 3)) as [_ Hs]; [done|]. destruct Hs as (outs & Ho & _ & Hp & _); [done|].
  rewrite Hp. injection Ho as <-. reflexivity.
Defined.

(** A background, then an image with one brighter value, then a grey image. *)
Definition ex_frames : list bs_event := [Frame (ex_colour 10 10 10) None None; SetThreshold 20].
Lemma background_witness :
  (background_process (λ _, "n") (ex_gray 200) None None (foldl (bs_apply (λ _, "n")) new_BackgroundSubtractor ex_frames)).1 =
  puts [(0%nat, ex_gray 255); (1%nat, ex_colour 10 10 10)].
Proof.
  destruct (background_refines (λ _, "n") ex_frames (Frame (ex_gray 200) None None)) as (_ & _ & Hr); [repeat constructor; done..|].
  destruct Hr as (fg & Hf & -> & _). assert (Hfg : fg = ex_gray 255); [|by rewrite Hfg].
  vm_compute in Hf. by injection Hf as <-.
Defined.
