(* ===== verification/Inspector.v ===== *)
(** The inspector (plvgui/InspectorWidget): a form with one editor per property
    of the selected element.  An editor that changes calls the setter of the
    property, a property that changes sets its editor: the two are connected in
    both directions, by name, and a notification of a thread of the pool waits
    in the event queue of the window. *)
From Stdlib Require Import Floats.SpecFloat Strings.Ascii.
From S2P Require Export Filters.

(** ** Values of properties: QVariant *)
Inductive Value :=
  | VInt (z : Z)
  | VDouble (d : double)
  | VBool (b : bool)
  | VString (s : string)
  | VEnum (e : Enum)
  | VUser (type : string)            (** a user type that is not an Enum *)
  | VOther (type text : string).     (** any other type, with its [toString()] *)

Definition typeName (v : Value) : string :=
  match v with
  | VInt _ => "int" | VDouble _ => "double" | VBool _ => "bool" | VString _ => "QString" | VEnum _ => "plv::Enum"
  | VUser t | VOther t _ => t
  end.

#[export] Instance spec_float_eq_dec : EqDecision spec_float.
Proof. solve_decision. Defined.
#[export] Instance Value_eq_dec : EqDecision Value.
Proof. solve_decision. Defined.

(** The comparison of an editor with its old value; that of doubles is the one
    of the language. *)
Definition same_value (v w : Value) : bool :=
  match v, w with VDouble a, VDouble b => SFeqb a b | _, _ => bool_decide (v = w) end.

(** ** Meta objects of the elements *)
Record Property (S : Type) := mkProperty {
  pr_name : string;
  pr_isEnumType : bool;           (** an enumeration of the language *)
  pr_notify : option string;      (** the signature of its NOTIFY signal *)
  pr_read : S → Value
}.
Arguments mkProperty {S} _ _ _ _.
Arguments pr_name {S} _.
Arguments pr_isEnumType {S} _.
Arguments pr_notify {S} _.
Arguments pr_read {S} _ _.

(** What moc generates for the classes of elements.  A slot takes a value and
    may emit one signal; the elements emit it as their last statement. *)
Class MetaObject := {
  Object : Type;
  className : Object → string;
  elementName : Object → string;
  description : Object → string;
  inputPins : Object → list (string * string);      (** names and types *)
  outputPins : Object → list (string * string);
  properties : Object → list (Property Object);
  slot : Object → string → option (Value → Object → Object * option (string * Value))
}.

(** QDoubleSpinBox shows eight decimals. *)
Class SpinRounding := { round8 : double → double }.

(** ** Utils::elementInfoText *)
Definition pin_row (p : string * string) : string := "<tr><td>" +:+ p.1 +:+ "</td><td>" +:+ p.2 +:+ "</td></tr>".
Definition pin_rows (l : list (string * string)) : string := foldl (λ s p, s +:+ pin_row p) EmptyString l.
Definition elementInfoText `{MetaObject} (s : Object) : string :=
  let desc := if bool_decide (description s = EmptyString) then "(no description)" else description s in
  "<h1>" +:+ elementName s +:+ "</h1><p>" +:+ desc +:+ "</p><h2>Input Pins</h2><table><tr><th>Name</th><th>Type</th>"
  +:+ pin_rows (inputPins s) +:+ "</table><h2>Output Pins</h2><table><tr><th>Name</th><th>Type</th>"
  +:+ pin_rows (outputPins s) +:+ "</table>".

(** ** Editors *)
Inductive Editor :=
  | QSpinBox | QDoubleSpinBox | QCheckBox | QLineEdit
  | QComboBox (items : list string)
  | QLabel.

Definition spin_min : Z := -2147483647.
Definition spin_max : Z := 2147483647.
Definition spin_bound (z : Z) : Z := Z.max spin_min (Z.min spin_max z).
Definition double_spin_min : double := double_of_int (-10000000).
Definition double_spin_max : double := double_of_int 100000000.
Definition double_bound (d : double) : double :=
  if SFltb d double_spin_min then double_spin_min else if SFltb double_spin_max d then double_spin_max else d.

(** A combo box shows the item of an index, and none for other indices. *)
Definition combo_index (items : list string) (i : Z) : Z :=
  if bool_decide (0 ≤ i < Z.of_nat (length items)) then i else -1.

(** What an editor shows after [setValue], [setChecked], [setText] or
    [setCurrentIndex] with the value of a property; an Enum goes through
    [PlvEnumProxy::enumToInt]. *)
Definition display `{SpinRounding} (ed : Editor) (v : Value) : Value :=
  match ed, v with
  | QSpinBox, VInt z => VInt (spin_bound z)
  | QDoubleSpinBox, VDouble d => VDouble (double_bound (round8 d))
  | QComboBox items, VEnum e => VInt (combo_index items (en_selectedIndex e))
  | _, _ => v
  end.

(** What the user can enter, as the editor takes it. *)
Definition entered `{SpinRounding} (ed : Editor) (v : Value) : option Value :=
  match ed, v with
  | QSpinBox, VInt _ | QDoubleSpinBox, VDouble _ => Some (display ed v)
  | QCheckBox, VBool _ | QLineEdit, VString _ => Some v
  | QComboBox items, VInt i => if bool_decide (0 ≤ i < Z.of_nat (length items)) then Some v else None
  | _, _ => None
  end.

(** The signal of the editor that its setter emits when the value changes;
    [textEdited] is emitted for the user only. *)
Definition reemits (ed : Editor) : bool := match ed with QLineEdit | QLabel => false | _ => true end.

(** ** The form *)
Record Row := mkRow {
  row_name : string;
  row_editor : Editor;
  row_value : Value;
  row_notify : option string;    (** the signal of the element that sets it *)
  row_slot : option string;      (** the slot of the element that it calls *)
  row_enabled : bool
}.
Definition row_show (v : Value) (r : Row) : Row := mkRow (row_name r) (row_editor r) v (row_notify r) (row_slot r) (row_enabled r).

Inductive Form :=
  | Rows (rows : list Row)
  | Built (builder : string).    (** the form of a plug-in *)

Record Inspector := mkInspector {
  in_element : option positive;
  in_form : option Form;              (** [formContainer] *)
  in_proxies : gmap string Enum;      (** [m_enumProxies], each with its [m_enum] *)
  in_statusText : string;
  in_statusVisible : bool;
  in_tabsVisible : bool;
  in_info : string
}.

(** The elements, the inspector, what waits in the event queue for its editors,
    the registered builders and the delete action of the window. *)
Record Gui `{MetaObject} := mkGui {
  g_objects : gmap positive Object;
  g_inspector : Inspector;
  g_posted : list (string * Value);
  g_builders : gmap string string;
  g_actionDelete : bool
}.
Arguments mkGui {_} _ _ _ _ _.

Definition upper (c : ascii) : ascii :=
  let n := nat_of_ascii c in if bool_decide (97 ≤ n ≤ 122)%nat then ascii_of_nat (n - 32) else c.

(** InspectorWidget::propertySlotSignature *)
Definition propertySlotSignature (propertyName : string) (value : Value) (signature : string) : outcome string :=
  match propertyName with
  | EmptyString => Abort AssertFailed
  | String c rest =>
      let argument := if bool_decide (signature = EmptyString) then typeName value else signature in
      Ok ("set" +:+ String (upper c) rest +:+ "(" +:+ argument +:+ ")")
  end.

Section inspector.
Context `{MetaObject} `{SpinRounding}.
(** The builder types that Qt's meta type system knows. *)
Context (known_builder : string → bool).
Abbreviation I := (M Gui).

Definition inspector {A} (f : Inspector → A) : I A := gets (λ g, f (g_inspector g)).
Definition upd_inspector (f : Inspector → Inspector) : I unit :=
  modify (λ g, mkGui (g_objects g) (f (g_inspector g)) (g_posted g) (g_builders g) (g_actionDelete g)).
Definition set_posted (l : list (string * Value)) : I unit :=
  modify (λ g, mkGui (g_objects g) (g_inspector g) l (g_builders g) (g_actionDelete g)).
Definition object (e : positive) : I Object :=
  o ← gets (λ g, g_objects g !! e) ; match o with Some s => mret s | None => abort NullPointer end.
Definition set_object (e : positive) (s : Object) : I unit :=
  modify (λ g, mkGui (<[e := s]> (g_objects g)) (g_inspector g) (g_posted g) (g_builders g) (g_actionDelete g)).
Definition outcome_of {A} (x : outcome A) : I A := λ g, (x, g).

Definition rows_of (i : Inspector) : list Row := match in_form i with Some (Rows l) => l | _ => [] end.
Definition set_rows (l : list Row) (i : Inspector) : Inspector :=
  mkInspector (in_element i) (Some (Rows l)) (in_proxies i) (in_statusText i) (in_statusVisible i) (in_tabsVisible i) (in_info i).
Definition set_proxies (p : gmap string Enum) (i : Inspector) : Inspector :=
  mkInspector (in_element i) (in_form i) p (in_statusText i) (in_statusVisible i) (in_tabsVisible i) (in_info i).

(** ** Builders of other forms: ElementConfigFormBuilder *)
Definition registerType (elementTypeName builderTypeName : string) : I unit :=
  modify (λ g, mkGui (g_objects g) (g_inspector g) (g_posted g) (<[elementTypeName := builderTypeName]> (g_builders g)) (g_actionDelete g)).
Definition existsFor (elementTypeName : string) : I bool := gets (λ g, bool_decide (is_Some (g_builders g !! elementTypeName))).
(** What it throws is a pointer. *)
Definition getBuilderFor (elementTypeName : string) : I string :=
  b ← gets (λ g, g_builders g !! elementTypeName) ;
  match b with
  | None => abort AssertFailed
  | Some b => if known_builder b then mret b else throw UnknownException
  end.

(** ** Selection *)

(** The editors go with the events that wait for them. *)
Definition clearSelection : I unit :=
  upd_inspector (λ i, mkInspector None None ∅ (in_statusText i) (in_statusVisible i) (in_tabsVisible i) (in_info i)) ;;
  set_posted [].

Definition says (msg : string) : I unit :=
  clearSelection ;;
  upd_inspector (λ i, mkInspector (in_element i) (in_form i) (in_proxies i) msg true false EmptyString).
Definition nothingSelected : I unit := says "Nothing selected".
Definition multipleSelected : I unit := says "Multiple items selected".

(** The slot named after the property, if the element has it. *)
Definition connect_slot (s : Object) (p : Property Object) : outcome (option string) :=
  signature ← propertySlotSignature (pr_name p) (pr_read p s) EmptyString ;
  mret (if bool_decide (is_Some (slot s signature)) then Some signature else None).
Definition add (r : Row) : I unit := upd_inspector (λ i, set_rows (rows_of i ++ [r]) i).

(** The five [addRow] of an editor. *)
Definition addRow_editor (ed : Editor) (s : Object) (p : Property Object) : I unit :=
  connected ← outcome_of (connect_slot s p) ;
  add (mkRow (pr_name p) ed (display ed (pr_read p s)) (pr_notify p) connected (bool_decide (is_Some connected))).
Definition addRow_int := addRow_editor QSpinBox.
Definition addRow_double := addRow_editor QDoubleSpinBox.
Definition addRow_bool := addRow_editor QCheckBox.
Definition addRow_string (editable : bool) (text : string) (s : Object) (p : Property Object) : I unit :=
  if editable then addRow_editor QLineEdit s p
  else add (mkRow (pr_name p) QLabel (VString text) None None true).
Definition addRow_enum (e : Enum) (s : Object) (p : Property Object) : I unit :=
  upd_inspector (λ i, set_proxies (<[pr_name p := e]> (in_proxies i)) i) ;;
  connected ← outcome_of (connect_slot s p) ;
  let ed := QComboBox (enum_getItemNames e) in
  add (mkRow (pr_name p) ed (display ed (pr_read p s)) (pr_notify p) connected true).

Definition addProperty (s : Object) (p : Property Object) : I unit :=
  if pr_isEnumType p then mret tt
  else match pr_read p s with
       | VInt _ => addRow_int s p
       | VDouble _ => addRow_double s p
       | VBool _ => addRow_bool s p
       | VString t => addRow_string true t s p
       | VEnum e => addRow_enum e s p
       | VUser _ => mret tt
       | VOther _ t => addRow_string false t s p
       end.

Definition buildForm (s : Object) : I unit :=
  custom ← existsFor (className s) ;
  if (custom : bool) then
    b ← getBuilderFor (className s) ;
    upd_inspector (λ i, mkInspector (in_element i) (Some (Built b)) (in_proxies i) (in_statusText i) (in_statusVisible i) (in_tabsVisible i) (in_info i))
  else upd_inspector (set_rows []) ;; for_each (properties s) (addProperty s).

Definition setTarget (element : positive) : I unit :=
  clearSelection ;;
  s ← object element ;
  upd_inspector (λ i, mkInspector (Some element) (in_form i) (in_proxies i) (in_statusText i) false (in_tabsVisible i) (in_info i)) ;;
  buildForm s ;;
  upd_inspector (λ i, mkInspector (in_element i) (in_form i) (in_proxies i) (in_statusText i) (in_statusVisible i) true (elementInfoText s)).

(** MainWindow::sceneSelectionChanged: the widget of an element, or another
    item of the scene. *)
Inductive QGraphicsItem := ElementItem (e : positive) | OtherItem.
Definition sceneSelectionChanged (selected : list QGraphicsItem) : I unit :=
  modify (λ g, mkGui (g_objects g) (g_inspector g) (g_posted g) (g_builders g) (bool_decide (0 < length selected)%nat)) ;;
  match selected with
  | [] => nothingSelected
  | [ElementItem e] => setTarget e
  | [OtherItem] => nothingSelected
  | _ => multipleSelected
  end.

(** ** Editing *)
Definition row_of (name : string) (i : Inspector) : option Row := head (filter (λ r, row_name r = name) (rows_of i)).
Definition row (name : string) : I (option Row) := inspector (row_of name).
Definition show_row (name : string) (v : Value) : I unit :=
  upd_inspector (λ i, set_rows ((λ r, if bool_decide (row_name r = name) then row_show v r else r) <$> rows_of i) i).

(** [PlvEnumProxy::intToEnum] *)
Definition intToEnum (name : string) (i : Z) : I Value :=
  p ← inspector (λ i, in_proxies i !! name) ;
  match p with
  | None => abort NullPointer
  | Some e =>
      let '(r, e') := enum_setSelectedIndex i e in
      outcome_of r ;; upd_inspector (λ i, set_proxies (<[name := e']> (in_proxies i)) i) ;; mret (VEnum e')
  end.

(** A value on its way from the editor [r] to the element, whose answer goes
    with [emit] to the editors connected to the signal. *)
Definition changed (emit : string → Value → I unit) (r : Row) (v : Value) : I unit :=
  arg ← match row_editor r, v with QComboBox _, VInt i => intToEnum (row_name r) i | _, _ => mret v end ;
  element ← inspector in_element ;
  match row_slot r, element with
  | Some signature, Some e =>
      s ← object e ;
      match slot s signature with
      | None => mret tt
      | Some f =>
          let '(s', emitted) := f arg s in
          set_object e s' ;;
          match emitted with
          | None => mret tt
          | Some (signal, w) =>
              rows ← inspector rows_of ;
              for_each (filter (λ r, row_notify r = Some signal) rows) (λ r, emit (row_name r) w)
          end
      end
  | _, _ => mret tt
  end.

(** The slot of an editor that a notification calls. *)
Fixpoint set_editor (fuel : nat) (name : string) (v : Value) : I unit :=
  match fuel with
  | O => abort StackOverflow
  | S fuel' =>
      o ← row name ;
      match o with
      | None => mret tt
      | Some r =>
          let d := display (row_editor r) v in
          if same_value (row_value r) d then mret tt
          else show_row name d ;; when (reemits (row_editor r)) (changed (set_editor fuel') r d)
      end
  end.

(** The user enters [v] in the editor [name]. *)
Definition user_edit (fuel : nat) (name : string) (v : Value) : I unit :=
  o ← row name ;
  match o with
  | None => mret tt
  | Some r =>
      match entered (row_editor r) v with
      | Some d =>
          if negb (row_enabled r) || same_value (row_value r) d then mret tt
          else show_row name d ;; changed (set_editor fuel) r d
      | None => mret tt
      end
  end.

(** ** Notifications of the threads of the pool *)

(** A thread of the pool changes [e] and emits: the signals wait in the queue. *)
Definition worker_emits (e : positive) (s' : Object) (emitted : list (string * Value)) : I unit :=
  _ ← object e ;
  set_object e s' ;;
  element ← inspector in_element ;
  rows ← inspector rows_of ;
  posted ← gets g_posted ;
  when (bool_decide (element = Some e))
    (set_posted (posted ++ (x ← emitted ; (λ r, (row_name r, x.2)) <$> filter (λ r, row_notify r = Some x.1) rows))).

(** The event loop takes the next of them. *)
Definition deliver (fuel : nat) : I unit :=
  posted ← gets g_posted ;
  match posted with
  | [] => mret tt
  | (name, v) :: rest => set_posted rest ;; set_editor fuel name v
  end.

(** The constructor, when the elements are [objects]. *)
Definition new_InspectorWidget (objects : gmap positive Object) (builders : gmap string string) : Gui :=
  (nothingSelected (mkGui objects (mkInspector None None ∅ EmptyString true true EmptyString) [] builders false)).2.

(** ** Everything that happens to the window *)
Inductive call :=
  | Select (items : list QGraphicsItem)
  | Edit (name : string) (v : Value)
  | Work (e : positive) (s' : Object) (emitted : list (string * Value))
  | Deliver.
Definition run_call (fuel : nat) (c : call) : I unit :=
  match c with
  | Select items => sceneSelectionChanged items
  | Edit name v => user_edit fuel name v
  | Work e s' emitted => worker_emits e s' emitted
  | Deliver => deliver fuel
  end.
End inspector.
