(* ===== verification/InspectorProof.v ===== *)
(** The inspector shows what the properties hold: what is required of the
    elements, what one editor and its property say to each other until they
    agree, and the invariant of the window over every sequence of selections,
    edits, notifications and their delivery. *)
From Stdlib Require Import Floats.SpecFloat.
From S2P Require Import Inspector.

(** ** What the elements and Qt promise *)

(** Rounding a value the spin box shows changes nothing, and gives a number
    for a number. *)
Class SpinRoundingLaws `{SpinRounding} := {
  round8_shown d : round8 (double_bound (round8 d)) = double_bound (round8 d);
  round8_number d : SFeqb d d = true → SFeqb (round8 d) (round8 d) = true
}.

(** The editor of a value. *)
Definition editor_of (v : Value) : option Editor :=
  match v with
  | VInt _ => Some QSpinBox | VDouble _ => Some QDoubleSpinBox | VBool _ => Some QCheckBox | VString _ => Some QLineEdit
  | VEnum e => Some (QComboBox (enum_getItemNames e))
  | VOther _ _ => Some QLabel
  | VUser _ => None
  end.
Definition disp `{SpinRounding} (v : Value) : Value := match editor_of v with Some ed => display ed v | None => v end.

(** A double is a number, and the selected item of an enumeration exists. *)
Definition proper (v : Value) : Prop :=
  match v with
  | VDouble d => SFeqb d d = true
  | VEnum e => ∃ items, reflects e items ∧ 0 ≤ en_selectedIndex e < Z.of_nat (length items)
  | _ => True
  end.

(** What the meta object says of an element stays. *)
Record kept `{MetaObject} (accurate : Object → string → bool) (s s' : Object) : Prop := {
  kp_properties : properties s' = properties s;
  kp_slots signature : is_Some (slot s' signature) ↔ is_Some (slot s signature);
  kp_accurate : accurate s' = accurate s;
  kp_editors p : p ∈ properties s → editor_of (pr_read p s') = editor_of (pr_read p s)
}.

(** [answer s p arg s' emitted]: the setter of an accurate property tells the
    value it stored, unless it stored what it was given, and given the value
    that is shown already, it stores what is shown so; any other setter tells
    the value it was given, or nothing. *)
Record answer `{MetaObject} `{SpinRounding} (accurate : Object → string → bool)
    (s : Object) (p : Property Object) (arg : Value) (s' : Object) (emitted : option (string * Value)) : Prop := {
  an_emits signal w : emitted = Some (signal, w) →
    pr_notify p = Some signal ∧ proper w ∧ editor_of w = editor_of arg ∧
    if accurate s (pr_name p) then w = pr_read p s' else disp w = disp arg;
  an_silent : accurate s (pr_name p) = true → emitted = None → disp (pr_read p s') = disp arg;
  an_stable : accurate s (pr_name p) = true → disp (pr_read p s) = disp arg → disp (pr_read p s') = disp arg
}.

Class MetaLaws `{MetaObject} `{SpinRounding} := {
  valid : Object → Prop;
  (** the properties whose setter and threads tell what is stored *)
  accurate : Object → string → bool;
  valid_proper s p : valid s → p ∈ properties s → proper (pr_read p s);
  names_distinct s : NoDup (pr_name <$> properties s);
  names_nonempty s p : p ∈ properties s → pr_name p ≠ EmptyString;
  accurate_slot s p : valid s → p ∈ properties s → accurate s (pr_name p) = true → ∃ signature, connect_slot s p = Ok (Some signature);
  signals_distinct s p q signal : p ∈ properties s → q ∈ properties s →
    pr_notify p = Some signal → pr_notify q = Some signal → p = q;
  slot_law s p arg signature f s' emitted : valid s → p ∈ properties s → pr_isEnumType p = false →
    proper arg → editor_of arg = editor_of (pr_read p s) →
    propertySlotSignature (pr_name p) (pr_read p s) EmptyString = Ok signature →
    slot s signature = Some f → f arg s = (s', emitted) →
    valid s' ∧ kept accurate s s' ∧ (∀ q, q ∈ properties s → pr_name q ≠ pr_name p → pr_read q s' = pr_read q s) ∧
    answer accurate s p arg s' emitted
}.

(** What a thread of the pool does to an element: the accurate properties it
    changes are announced, those edited as text are not. *)
Record worker_ok `{MetaLaws} (s s' : Object) (emitted : list (string * Value)) : Prop := {
  wk_valid : valid s';
  wk_kept : kept accurate s s';
  wk_emits signal w p : (signal, w) ∈ emitted → p ∈ properties s → pr_notify p = Some signal →
    proper w ∧ editor_of w = editor_of (pr_read p s) ∧ editor_of w ≠ Some QLineEdit;
  wk_tells p : p ∈ properties s → accurate s (pr_name p) = true →
    match last (filter (λ x : string * Value, pr_notify p = Some x.1) emitted) with
    | Some x => x.2 = pr_read p s'
    | None => pr_read p s' = pr_read p s
    end
}.

(** ** Editors *)
Lemma enum_names e items : reflects e items → enum_getItemNames e = ep_name <$> items.
Proof.
  intros Hl. unfold enum_getItemNames. rewrite (reflects_size _ _ Hl). apply list_eq. intros i.
  rewrite !list_lookup_fmap. destruct (items !! i) as [p|] eqn:Hp.
  - pose proof (lookup_lt_Some _ _ _ Hp). rewrite lookup_seqZ_lt by lia. cbn. f_equal.
    unfold en_value. rewrite (reflects_lookup e items) by (done || lia). by rewrite Z.add_0_l, Nat2Z.id, Hp.
  - apply lookup_ge_None in Hp. by rewrite lookup_seqZ_ge by lia.
Qed.

(** Choosing an item that the combo box shows. *)
Lemma choose_item e items i : reflects e items → 0 ≤ i < Z.of_nat (length (enum_getItemNames e)) →
  enum_setSelectedIndex i e = (Ok tt, mkEnum i (en_items e)) ∧ proper (VEnum (mkEnum i (en_items e))) ∧
  enum_getItemNames (mkEnum i (en_items e)) = enum_getItemNames e.
Proof.
  intros Hl Hi. pose proof Hl as [Hit]. rewrite (enum_names e items), length_fmap in Hi by done. split_and!.
  - unfold enum_setSelectedIndex. erewrite run_bind by reflexivity. unfold id.
    destruct (lookup_lt_is_Some_2 items (Z.to_nat i)) as [p Hp]; [lia|].
    rewrite (reflects_lookup e items), Hp by (done || lia). done.
  - exists items. split; [by constructor|done].
  - done.
Qed.

Section editors.
#[local] Set Default Proof Using "Type*".
Context `{SpinRoundingLaws}.

Lemma double_bound_number d : SFeqb d d = true → SFeqb (double_bound d) (double_bound d) = true.
Proof. intros Hd. unfold double_bound. destruct (SFltb d double_spin_min); [reflexivity|]. by destruct (SFltb double_spin_max d). Qed.

Lemma double_bound_idem d : double_bound (double_bound d) = double_bound d.
Proof.
  unfold double_bound at 2 3. destruct (SFltb d double_spin_min) eqn:Hlo; [by vm_compute|].
  destruct (SFltb double_spin_max d) eqn:Hhi; [by vm_compute|]. unfold double_bound. by rewrite Hlo, Hhi.
Qed.

Lemma disp_number v : proper v → same_value (disp v) (disp v) = true.
Proof.
  destruct v; cbn; intros Hv; try by apply bool_decide_eq_true.
  by apply double_bound_number, round8_number.
Qed.

(** What is shown is shown again as it is. *)
Lemma disp_idem v : editor_of v ≠ None → (∀ e, v ≠ VEnum e) → disp (disp v) = disp v ∧ editor_of (disp v) = editor_of v.
Proof.
  intros Hv He. destruct v; try done; unfold disp; cbn.
  - split; [|done]. f_equal. unfold spin_bound, spin_min, spin_max. lia.
  - by rewrite round8_shown, double_bound_idem.
  - by destruct (He e).
Qed.

Lemma disp_enum e : proper (VEnum e) → disp (VEnum e) = VInt (en_selectedIndex e) ∧
  0 ≤ en_selectedIndex e < Z.of_nat (length (enum_getItemNames e)).
Proof.
  intros (items & Hl & Hi). unfold disp. cbn. unfold combo_index.
  rewrite (enum_names e items) by done. rewrite length_fmap. by rewrite bool_decide_true.
Qed.

Lemma proper_disp v : proper v → proper (disp v).
Proof.
  destruct v; try done.
  intros Hd. unfold disp, proper. cbn. by apply double_bound_number, round8_number.
Qed.

Lemma same_eq v w : same_value v v = true → v = w → same_value v w = true.
Proof. by intros ? <-. Qed.
End editors.

(** ** Lists *)
Lemma filter_ext_in {A} (P Q : A → Prop) `{∀ x, Decision (P x)} `{∀ x, Decision (Q x)} (l : list A) :
  (∀ x, x ∈ l → P x ↔ Q x) → filter P l = filter Q l.
Proof.
  induction l as [|x l IH]; [done|]. intros Hl. pose proof (Hl x (list_elem_of_here x l)). rewrite !filter_cons, IH by (intros; apply Hl; by right).
  destruct (decide (P x)), (decide (Q x)); tauto.
Qed.
Lemma last_map {A B} (f : A → B) (l : list A) : last (f <$> l) = f <$> last l.
Proof. induction l as [|x [|y l] IH]; [done..|]. exact IH. Qed.

(** ** Rows *)
Definition show (name : string) (d : Value) (l : list Row) : list Row :=
  (λ r, if bool_decide (row_name r = name) then row_show d r else r) <$> l.
#[local] Arguments show : simpl never.
Lemma show_show name d d' l : show name d' (show name d l) = show name d' l.
Proof.
  unfold show. rewrite <-list_fmap_compose. apply list_fmap_ext. intros _ r _. cbn.
  destruct (bool_decide (row_name r = name)) eqn:Hn; cbn; by rewrite Hn.
Qed.
Lemma show_names name d l : row_name <$> show name d l = row_name <$> l.
Proof. unfold show. rewrite <-list_fmap_compose. apply list_fmap_ext. intros _ r _. cbn. by case_bool_decide. Qed.

(** The row of a name. *)
Lemma filter_one (l : list Row) (P : Row → Prop) `{∀ x, Decision (P x)} r : NoDup (row_name <$> l) → r ∈ l → P r →
  (∀ r', r' ∈ l → P r' → row_name r' = row_name r) → filter P l = [r].
Proof.
  induction l as [|x l IH]; [set_solver|]. rewrite fmap_cons. intros [Hx Hnd]%NoDup_cons Hin Hr Huniq. rewrite filter_cons.
  apply elem_of_cons in Hin as [->|Hl].
  - rewrite decide_True by done. f_equal. apply elem_of_nil_inv. intros r' [HP Hr']%list_elem_of_filter.
    apply Hx. rewrite <-(Huniq r') by (done || set_solver). by apply list_elem_of_fmap_2.
  - rewrite decide_False; [apply IH; set_solver|].
    intros HP. apply Hx. rewrite (Huniq x) by (done || set_solver). by apply list_elem_of_fmap_2.
Qed.
Lemma row_in (i : Inspector) r : NoDup (row_name <$> rows_of i) → r ∈ rows_of i → row_of (row_name r) i = Some r.
Proof. intros Hnd Hr. unfold row_of. rewrite (filter_one _ _ r) by (done || by intros). done. Qed.
Lemma show_row_in r d l : r ∈ l → row_show d r ∈ show (row_name r) d l.
Proof.
  intros Hr. unfold show. apply list_elem_of_fmap. exists r. by rewrite bool_decide_true.
Qed.
Lemma show_same r l : NoDup (row_name <$> l) → r ∈ l → show (row_name r) (row_value r) l = l.
Proof.
  intros Hnd Hr. unfold show. rewrite <-(list_fmap_id l) at 2. apply list_fmap_ext. intros i r' Hi.
  case_bool_decide as Hn; [|done]. apply list_elem_of_lookup_1 in Hr as [j Hj].
  assert (i = j) as ->.
  { eapply (NoDup_lookup (row_name <$> l)); [done|by rewrite list_lookup_fmap, Hi|by rewrite list_lookup_fmap, Hj; cbn; rewrite Hn]. }
  rewrite Hi in Hj. injection Hj as ->. by destruct r.
Qed.

(** ** One editor and its property *)
Section exchange.
#[local] Set Default Proof Using "Type*".
Context `{MetaObject} `{SpinRounding} {laws : MetaLaws} {rounding : SpinRoundingLaws}.

(** [s'] is [s] after the setter of [p] was called some times. *)
Record follows (p : Property Object) (s s' : Object) : Prop := {
  fo_valid : valid s';
  fo_kept : kept accurate s s';
  fo_others q : q ∈ properties s → pr_name q ≠ pr_name p → pr_read q s' = pr_read q s
}.

Lemma kept_refl s : kept accurate s s.
Proof. by constructor. Qed.
Lemma kept_trans s s' s'' : kept accurate s s' → kept accurate s' s'' → kept accurate s s''.
Proof.
  intros [Hp Hs Ha He] [Hp' Hs' Ha' He']. constructor; [congruence| |congruence|].
  - intros sig. by rewrite Hs', Hs.
  - intros p Hin. rewrite He' by (by rewrite Hp). by apply He.
Qed.
Lemma follows_refl p s : valid s → follows p s s.
Proof. intros Hv. constructor; [done|apply kept_refl|done]. Qed.
Lemma follows_trans p s s' s'' : follows p s s' → follows p s' s'' → follows p s s''.
Proof.
  intros [_ Hk Ho] [Hv' Hk' Ho']. constructor; [done|by eapply kept_trans|].
  intros q Hq Hn. rewrite Ho'; [by apply Ho| |done]. by rewrite (kp_properties _ _ _ Hk).
Qed.

(** Only the type of a value appears in the name of the slot. *)
Lemma editor_type v w : editor_of v = editor_of w → editor_of v ≠ None → editor_of v ≠ Some QLabel → typeName v = typeName w.
Proof. by destruct v, w. Qed.
Lemma signature_kept s s' p ed : kept accurate s s' → p ∈ properties s → editor_of (pr_read p s) = Some ed → ed ≠ QLabel →
  connect_slot s' p = connect_slot s p.
Proof.
  intros Hk Hp He Hlab. unfold connect_slot, propertySlotSignature. destruct (pr_name p) as [|c n]; [done|]. cbn.
  rewrite (editor_type (pr_read p s') (pr_read p s)); [|by apply Hk|rewrite (kp_editors _ _ _ Hk), He; congruence..].
  by rewrite (bool_decide_ext _ _ (kp_slots _ _ _ Hk _)).
Qed.

(** ** States of the window that differ in one row, its element and its proxy *)
Definition focus (e : positive) (name : string) (d : Value) (s : Object) (proxies : gmap string Enum) (g : Gui) : Gui :=
  mkGui (<[e := s]> (g_objects g)) (set_rows (show name d (rows_of (g_inspector g))) (set_proxies proxies (g_inspector g)))
    (g_posted g) (g_builders g) (g_actionDelete g).

Lemma focus_focus e name d d' s s' pr pr' g : focus e name d' s' pr' (focus e name d s pr g) = focus e name d' s' pr' g.
Proof. unfold focus. cbn. by rewrite insert_insert_eq, show_show. Qed.


(** The row [r] of the form belongs to property [p] of the selected element. *)
Record belongs (g : Gui) (e : positive) (s : Object) (r : Row) (p : Property Object) : Prop := {
  bl_element : in_element (g_inspector g) = Some e;
  bl_object : g_objects g !! e = Some s;
  bl_valid : valid s;
  bl_names : NoDup (row_name <$> rows_of (g_inspector g));
  bl_row : r ∈ rows_of (g_inspector g);
  bl_property : p ∈ properties s;
  bl_plain : pr_isEnumType p = false;
  bl_name : row_name r = pr_name p;
  bl_edits : row_editor r ≠ QLabel;
  bl_editor : editor_of (pr_read p s) = Some (row_editor r);
  bl_slot : connect_slot s p = Ok (row_slot r);
  bl_notify : row_notify r = pr_notify p;
  bl_signals r' signal : r' ∈ rows_of (g_inspector g) → row_notify r = Some signal → row_notify r' = Some signal → row_name r' = row_name r;
  bl_proxy items : row_editor r = QComboBox items →
    ∃ en, in_proxies (g_inspector g) !! row_name r = Some en ∧ proper (VEnum en) ∧ enum_getItemNames en = items
}.

(** What the editor [ed] may show of an accepted value [v]. *)
Definition shows (ed : Editor) (d v : Value) : Prop := proper v ∧ editor_of v = Some ed ∧ disp v = d.

Definition proxied (r : Row) (pr : gmap string Enum) : Prop :=
  ∀ items, row_editor r = QComboBox items → ∃ en, pr !! row_name r = Some en ∧ proper (VEnum en) ∧ enum_getItemNames en = items.

Lemma belongs_focus g e s r p d s' pr : belongs g e s r p → follows p s s' → proxied r pr →
  belongs (focus e (row_name r) d s' pr g) e s' (row_show d r) p.
Proof.
  intros B F Hpr. destruct B, F. constructor; cbn; try done.
  - by rewrite lookup_insert_eq.
  - by rewrite show_names.
  - by apply show_row_in.
  - by rewrite (kp_properties _ _ _ fo_kept0).
  - by rewrite (kp_editors _ _ _ fo_kept0).
  - by rewrite (signature_kept s s' p (row_editor r)).
  - unfold show. intros r' sig (r0 & -> & Hr0)%list_elem_of_fmap Hs. destruct (bool_decide (row_name r0 = row_name r)); cbn; by eauto.
Qed.

(** The proxies of the other rows stay. *)
Definition proxies_but (name : string) (pr pr' : gmap string Enum) : Prop := ∀ n, n ≠ name → pr' !! n = pr !! n.

(** What the editor takes on its way to the element. *)
Lemma intake g e s r p d v : belongs g e s r p → shows (row_editor r) d v →
  ∃ arg pr, (match row_editor r, d with QComboBox _, VInt i => intToEnum (row_name r) i | _, _ => mret d end) g
    = (Ok arg, mkGui (g_objects g) (set_proxies pr (g_inspector g)) (g_posted g) (g_builders g) (g_actionDelete g)) ∧
  shows (row_editor r) d arg ∧ proxied r pr ∧ proxies_but (row_name r) (in_proxies (g_inspector g)) pr.
Proof.
  intros B (Hv & Hed & <-). assert ((∃ items, row_editor r = QComboBox items) ∨ ¬ ∃ items, row_editor r = QComboBox items) as [[items Hit]|Hno].
  { destruct (row_editor r); (by left; eexists) || (by right; intros [? ?]). }
  - destruct (bl_proxy _ _ _ _ _ B items Hit) as (en & Hen & (l & Hl & Hi) & Hnames).
    rewrite Hit in Hed |- *. destruct v as [| | | |e0| |]; try done. injection Hed as Hed.
    destruct (disp_enum e0 Hv) as [-> Hr]. destruct (choose_item en l (en_selectedIndex e0)) as (Hset & Hp & Hn); [done|by rewrite Hnames, <-Hed|].
    exists (VEnum (mkEnum (en_selectedIndex e0) (en_items en))), (<[row_name r := mkEnum (en_selectedIndex e0) (en_items en)]> (in_proxies (g_inspector g))).
    split_and!.
    + unfold intToEnum. erewrite run_bind by reflexivity. by rewrite Hen, Hset.
    + split_and!; [done|cbn; by rewrite Hn, Hnames|]. by rewrite (proj1 (disp_enum _ Hp)).
    + intros items' Hit'. rewrite lookup_insert_eq. eexists. split_and!; [done..|]. rewrite Hn, Hnames. congruence.
    + intros n Hne. by rewrite lookup_insert_ne.
  - assert (Henum : ∀ e0, v ≠ VEnum e0).
    { intros e0 ->. apply Hno. eexists. by injection Hed as <-. }
    destruct (disp_idem v) as [Hidem Hedd]; [by rewrite Hed|done|].
    exists (disp v), (in_proxies (g_inspector g)). split_and!.
    + destruct (row_editor r); try (destruct g as [? [] ? ? ?]; done). destruct Hno. by eexists.
    + split_and!; [by apply proper_disp|by rewrite Hedd|done].
    + exact (bl_proxy _ _ _ _ _ B).
    + done.
Qed.

Lemma for_each_one {S A} (x : A) (body : A → M S unit) s : for_each [x] body s = body x s.
Proof. cbn. unfold mbind, M_bind. by destruct (body x s) as [[[]| |] ?]. Qed.

(** A row shows [d] already. *)
Lemma focus_shown g e s r p s' pr : belongs g e s r p →
  focus e (row_name r) (row_value r) s' pr g =
  mkGui (<[e := s']> (g_objects g)) (set_proxies pr (g_inspector g)) (g_posted g) (g_builders g) (g_actionDelete g).
Proof.
  intros B. unfold focus. rewrite show_same by apply B. f_equal.
  pose proof (bl_row _ _ _ _ _ B) as Hr. unfold rows_of in *. destruct (in_form (g_inspector g)) as [[]|] eqn:Hf; [|set_solver..].
  unfold set_rows, set_proxies. cbn. by rewrite Hf.
Qed.

Lemma changed_run emit g e s r p v : belongs g e s r p → shows (row_editor r) (row_value r) v →
  ∃ pr, proxied r pr ∧ proxies_but (row_name r) (in_proxies (g_inspector g)) pr ∧
  match row_slot r with
  | None => changed emit r (row_value r) g = (Ok tt, focus e (row_name r) (row_value r) s pr g)
  | Some _ => ∃ s' emitted arg, follows p s s' ∧ answer accurate s p arg s' emitted ∧ shows (row_editor r) (row_value r) arg ∧
      changed emit r (row_value r) g =
        match emitted with
        | None => (Ok tt, focus e (row_name r) (row_value r) s' pr g)
        | Some (_, w) => emit (row_name r) w (focus e (row_name r) (row_value r) s' pr g)
        end
  end.
Proof.
  intros B Hv. destruct (intake g e s r p _ v B Hv) as (arg & pr & Hin & Harg & Hpr & Hbut). exists pr. split_and!; [done..|].
  unfold changed. erewrite run_bind by exact Hin. erewrite run_bind by reflexivity. cbn [in_element set_proxies g_inspector].
  rewrite (bl_element _ _ _ _ _ B). destruct (row_slot r) as [signature|] eqn:Hsl.
  - erewrite run_bind; [|unfold object; erewrite run_bind by reflexivity; cbn; by rewrite (bl_object _ _ _ _ _ B)].
    pose proof (bl_slot _ _ _ _ _ B) as Hc. unfold connect_slot in Hc.
    destruct (propertySlotSignature _ _ _) as [sig| |] eqn:Hsig; try done. unfold mbind, outcome_bind, mret, outcome_ret in Hc. case_bool_decide as Hsome; [|congruence].
    assert (sig = signature) as -> by congruence. destruct Hsome as [f Hf]. rewrite Hf. destruct (f arg s) as [s' em] eqn:Hfa.
    destruct Harg as (Hpa & Hea & Hda).
    destruct (slot_law s p arg signature f s' em) as (Hv' & Hk & Ho & Ha); try done; [apply B..|by rewrite Hea, (bl_editor _ _ _ _ _ B)|].
    exists s', em, arg. split_and!; [by constructor|done|done|]. erewrite run_bind by reflexivity. cbn.
    rewrite (focus_shown _ _ _ _ _ _ _ B). destruct em as [[signal w]|]; [|done].
    destruct (an_emits _ _ _ _ _ _ Ha signal w eq_refl) as (Hn & _). erewrite run_bind by reflexivity. cbn.
    change (rows_of (set_proxies pr (g_inspector g))) with (rows_of (g_inspector g)).
    rewrite (filter_one _ _ r); [|apply B|apply B|by rewrite (bl_notify _ _ _ _ _ B)|].
    + by rewrite for_each_one.
    + intros r' Hr' Hn'. eapply (bl_signals _ _ _ _ _ B); [done| |done]. by rewrite (bl_notify _ _ _ _ _ B).
  - rewrite (focus_shown _ _ _ _ _ _ _ B). by rewrite insert_id by apply B.
Qed.

(** A notification at the editor. *)
Lemma set_editor_run n g e s r p w : belongs g e s r p → editor_of w = Some (row_editor r) →
  set_editor (Datatypes.S n) (row_name r) w g =
  if same_value (row_value r) (disp w) then (Ok tt, g)
  else when (reemits (row_editor r)) (changed (set_editor n) r (disp w)) (focus e (row_name r) (disp w) s (in_proxies (g_inspector g)) g).
Proof.
  intros B Hw. assert (Hd : display (row_editor r) w = disp w) by (unfold disp; by rewrite Hw).
  cbn [set_editor]. erewrite run_bind by reflexivity. rewrite (row_in _ r) by apply B. cbv zeta. rewrite Hd.
  destruct (same_value _ _); [done|]. erewrite run_bind; [|reflexivity]. f_equal. unfold focus. cbn.
  rewrite insert_id by apply B. by destruct g as [? [] ? ? ?].
Qed.

Lemma changed_show emit r d d' : changed emit (row_show d r) d' = changed emit r d'.
Proof. done. Qed.

(** What the editor and the property have agreed on: nothing is left to say. *)
Lemma agreed_stays n g e s r p : belongs g e s r p → accurate s (pr_name p) = true → row_value r = disp (pr_read p s) →
  ∃ s' pr, changed (set_editor (Datatypes.S n)) r (row_value r) g = (Ok tt, focus e (row_name r) (row_value r) s' pr g) ∧
    follows p s s' ∧ disp (pr_read p s') = row_value r ∧
    proxied r pr ∧ proxies_but (row_name r) (in_proxies (g_inspector g)) pr.
Proof.
  intros B Hacc Hr. assert (Hv : shows (row_editor r) (row_value r) (pr_read p s)).
  { split_and!; [by eapply valid_proper; apply B|apply B|done]. }
  destruct (changed_run (set_editor (Datatypes.S n)) g e s r p _ B Hv) as (pr & Hpr & Hbut & Hrun).
  destruct (row_slot r) as [signature|]; [|exists s, pr; split_and!; try done; apply follows_refl, B].
  destruct Hrun as (s' & em & arg & Hf & [He _ Hs] & (Hpa & Hea & Hda) & Hrun). exists s', pr.
  assert (Hd : disp (pr_read p s') = row_value r) by (rewrite <-Hda; apply Hs; congruence || done).
  split_and!; try done. rewrite Hrun. destruct em as [[signal w]|]; [|done].
  destruct (He signal w eq_refl) as (_ & Hpw & Hew & Hdw). rewrite Hacc in Hdw.
  rewrite (set_editor_run n _ e s' (row_show (row_value r) r) p); [|by eapply belongs_focus|cbn; by rewrite Hew].
  cbn [row_show row_value]. rewrite same_eq; [done|rewrite <-Hda; by apply disp_number|].
  by rewrite Hdw.
Qed.

(** An exchange that the editor starts ends with the property shown. *)
Lemma settles n g e s r p v : belongs g e s r p → shows (row_editor r) (row_value r) v →
  ∃ d s' pr, changed (set_editor (Datatypes.S (Datatypes.S n))) r (row_value r) g = (Ok tt, focus e (row_name r) d s' pr g) ∧
    follows p s s' ∧ proxied r pr ∧ proxies_but (row_name r) (in_proxies (g_inspector g)) pr ∧
    same_value d d = true ∧
    (row_slot r ≠ None → accurate s (pr_name p) = true → same_value d (disp (pr_read p s')) = true) ∧
    (row_slot r = None → s' = s ∧ d = row_value r).
Proof.
  intros B Hv. destruct (changed_run (set_editor (Datatypes.S (Datatypes.S n))) g e s r p v B Hv) as (pr & Hpr & Hbut & Hrun).
  assert (Hnum : ∀ w, proper w → same_value (disp w) (disp w) = true) by (intros; by apply disp_number).
  assert (Hnd : same_value (row_value r) (row_value r) = true) by (destruct Hv as (? & _ & <-); by apply Hnum).
  destruct (row_slot r) as [signature|] eqn:Hsl; [|exists (row_value r), s, pr; split_and!; try done; apply follows_refl, B].
  destruct Hrun as (s' & em & arg & Hf & [He Ha Hs] & (Hpa & Hea & Hda) & Hrun). rewrite Hrun.
  destruct em as [[signal w]|].
  - destruct (He signal w eq_refl) as (_ & Hpw & Hew & Hdw).
    assert (B' : belongs (focus e (row_name r) (row_value r) s' pr g) e s' (row_show (row_value r) r) p) by by eapply belongs_focus.
    change (row_name r) with (row_name (row_show (row_value r) r)) at 1.
    rewrite (set_editor_run _ _ _ _ _ _ w B') by (cbn; by rewrite Hew). cbn [row_value row_show row_name row_editor].
    destruct (same_value (row_value r) (disp w)) eqn:Hsame.
    + exists (row_value r), s', pr. split_and!; try done. intros _ Hacc. rewrite Hacc in Hdw. by rewrite <-Hdw.
    + destruct (accurate s (pr_name p)) eqn:Hacc; [subst w|rewrite Hdw, Hda, Hnd in Hsame; done]. rewrite focus_focus. cbn [g_inspector focus in_proxies set_rows set_proxies].
      destruct (reemits (row_editor r)); cbn [when].
      2: { exists (disp (pr_read p s')), s', pr. split_and!; try done; intros; by apply Hnum. }
      assert (B2 : belongs (focus e (row_name r) (disp (pr_read p s')) s' pr g) e s' (row_show (disp (pr_read p s')) r) p) by by eapply belongs_focus.
      destruct (agreed_stays n _ _ _ _ _ B2) as (s'' & pr' & Hrun' & Hf' & Hd' & Hpr' & Hbut'); [by rewrite (kp_accurate _ _ _ (fo_kept _ _ _ Hf))|done|].
      cbn [row_show row_value row_name] in *. rewrite changed_show in Hrun' |- *. rewrite Hrun', focus_focus.
      exists (disp (pr_read p s')), s'', pr'. split_and!; try done.
      * by eapply follows_trans.
      * intros m Hm. rewrite Hbut' by done. by apply Hbut.
      * by apply Hnum.
      * intros _ _. rewrite Hd'. by apply Hnum.
  - exists (row_value r), s', pr. split_and!; try done. intros _ Hacc. by rewrite Ha, Hda.
Qed.
End exchange.

(** ** The window *)
Section window.
#[local] Set Default Proof Using "Type*".
Context `{MetaObject} `{SpinRounding} {laws : MetaLaws} {rounding : SpinRoundingLaws}.

(** The row of an accurate property shows it, or will when the last of what
    waits for it has been delivered. *)
Definition synced (posted : list (string * Value)) (s : Object) (r : Row) (p : Property Object) : Prop :=
  accurate s (pr_name p) = true →
  same_value (row_value r) (disp (pr_read p s)) = true ∨
  last (filter (λ x : string * Value, x.1 = row_name r) posted) = Some (row_name r, pr_read p s).

Inductive row_ok (posted : list (string * Value)) (pr : gmap string Enum) (s : Object) (r : Row) : Prop :=
  | row_label p : p ∈ properties s → row_name r = pr_name p → row_editor r = QLabel → row_notify r = None → row_slot r = None →
      row_ok posted pr s r
  | row_edit p : p ∈ properties s → pr_isEnumType p = false → row_name r = pr_name p → row_editor r ≠ QLabel →
      editor_of (pr_read p s) = Some (row_editor r) → connect_slot s p = Ok (row_slot r) → row_notify r = pr_notify p →
      same_value (row_value r) (row_value r) = true → proxied r pr → synced posted s r p → row_ok posted pr s r.

Definition has_row (s : Object) (p : Property Object) : bool :=
  negb (pr_isEnumType p) && bool_decide (is_Some (editor_of (pr_read p s))).

Definition posted_ok (l : list Row) (x : string * Value) : Prop :=
  ∃ r, r ∈ l ∧ row_name r = x.1 ∧ proper x.2 ∧ editor_of x.2 = Some (row_editor r) ∧ row_editor r ≠ QLabel ∧ row_editor r ≠ QLineEdit.

Record form_ok (g : Gui) (s : Object) (l : list Row) : Prop := {
  fm_names : row_name <$> l = pr_name <$> filter (λ p, has_row s p = true) (properties s);
  fm_rows r : r ∈ l → row_ok (g_posted g) (in_proxies (g_inspector g)) s r;
  fm_posted x : x ∈ g_posted g → posted_ok l x
}.

Record window_ok (g : Gui) : Prop := {
  wo_valid e s : g_objects g !! e = Some s → valid s;
  wo_shown : match in_element (g_inspector g) with
    | None => in_form (g_inspector g) = None ∧ in_proxies (g_inspector g) = ∅ ∧ g_posted g = [] ∧
        in_statusVisible (g_inspector g) = true ∧ in_tabsVisible (g_inspector g) = false
    | Some e => in_statusVisible (g_inspector g) = false ∧ in_tabsVisible (g_inspector g) = true ∧
        ∃ s, g_objects g !! e = Some s ∧
        match in_form (g_inspector g) with
        | Some (Rows l) => form_ok g s l
        | Some (Built _) => g_posted g = []
        | None => False
        end
    end
}.

(** What may happen: elements that exist are selected, numbers are entered, and
    threads announce what they change. *)
Definition allowed (known_builder : string → bool) (g : Gui) (c : call) : Prop :=
  match c with
  | Select items => ∀ e, items = [ElementItem e] → ∃ s, g_objects g !! e = Some s ∧
      ∀ b, g_builders g !! className s = Some b → known_builder b = true
  | Edit _ v => proper v
  | Work e s' emitted => ∃ s, g_objects g !! e = Some s ∧ worker_ok s s' emitted
  | Deliver => True
  end.

Inductive reachable (known_builder : string → bool) (fuel : nat) : Gui → Prop :=
  | reach_new objects builders : (∀ e s, objects !! e = Some s → valid s) →
      reachable known_builder fuel (new_InspectorWidget objects builders)
  | reach_call g c o g' : reachable known_builder fuel g → allowed known_builder g c →
      run_call known_builder fuel c g = (o, g') → reachable known_builder fuel g'.

(** ** Rows that a call does not concern *)
Lemma names_nodup (s : Object) l : row_name <$> l = pr_name <$> filter (λ p, has_row s p = true) (properties s) → NoDup (row_name <$> l).
Proof.
  intros ->. pose proof (names_distinct s) as Hnd. induction (properties s) as [|p ps IH]; [constructor|].
  rewrite fmap_cons in Hnd. apply NoDup_cons in Hnd as [Hp Hnd]. rewrite filter_cons. case_decide; [|by apply IH].
  rewrite fmap_cons. apply NoDup_cons. split; [|by apply IH]. intros (q & Heq & Hq)%list_elem_of_fmap.
  apply list_elem_of_filter in Hq as [_ Hq]. apply Hp. rewrite Heq. by apply list_elem_of_fmap_2.
Qed.

Lemma property_of_name s p q : p ∈ properties s → q ∈ properties s → pr_name p = pr_name q → p = q.
Proof.
  intros [i Hi]%list_elem_of_lookup_1 [j Hj]%list_elem_of_lookup_1 Hn.
  assert (i = j) as ->; [|congruence].
  eapply (NoDup_lookup (pr_name <$> properties s)); [apply names_distinct|by rewrite list_lookup_fmap, Hi|].
  rewrite list_lookup_fmap, Hj. cbn. by rewrite Hn.
Qed.

Lemma belongs_of g e s l r : window_ok g → in_element (g_inspector g) = Some e → g_objects g !! e = Some s →
  in_form (g_inspector g) = Some (Rows l) → form_ok g s l → r ∈ l → row_editor r ≠ QLabel →
  ∃ p, belongs g e s r p ∧ same_value (row_value r) (row_value r) = true ∧ synced (g_posted g) s r p.
Proof.
  intros W He Hs Hf [Hn Hr Hp] Hin Hlab. destruct (Hr r Hin) as [p ? ? ?|p Hps Hpl Hname _ Hed Hsl Hnot Hsame Hpx Hsy]; [done|].
  assert (Hrows : rows_of (g_inspector g) = l) by (unfold rows_of; by rewrite Hf).
  exists p. split_and!; [|done..]. constructor; rewrite ?Hrows; try done.
  - by eapply (wo_valid g W).
  - by eapply names_nodup.
  - intros r' signal Hr' Hsig Hsig'. destruct (Hr r' Hr') as [|p' Hps' _ Hname' _ _ _ Hnot' _ _ _]; [congruence|].
    rewrite Hname, Hname'. f_equal. apply (signals_distinct s _ _ signal); congruence || done.
Qed.

Lemma row_ok_other p0 posted pr pr' s s' r : follows p0 s s' → row_name r ≠ pr_name p0 → proxies_but (pr_name p0) pr pr' →
  row_ok posted pr s r → row_ok posted pr' s' r.
Proof.
  intros [Hv Hk Ho] Hne Hbut [p Hps Hname Hlab Hnot Hsl|p Hps Hpl Hname Hlab Hed Hsl Hnot Hsame Hpx Hsy].
  - eapply row_label; try done. by rewrite (kp_properties _ _ _ Hk).
  - assert (Hread : pr_read p s' = pr_read p s) by (apply Ho; congruence).
    eapply row_edit; try done; rewrite ?Hread; try done.
    + by rewrite (kp_properties _ _ _ Hk).
    + by rewrite (signature_kept s s' p (row_editor r)).
    + intros items Hit. destruct (Hpx items Hit) as (en & Hen & ?). exists en. by rewrite Hbut.
    + unfold synced. by rewrite Hread, (kp_accurate _ _ _ Hk).
Qed.

Lemma has_row_kept s s' : kept accurate s s' →
  filter (λ p, has_row s' p = true) (properties s') = filter (λ p, has_row s p = true) (properties s).
Proof.
  intros Hk. rewrite (kp_properties _ _ _ Hk). apply filter_ext_in. intros q Hq. unfold has_row. by rewrite (kp_editors _ _ _ Hk) by done.
Qed.

(** ** An exchange at one row *)
Lemma focus_ok g e s l r p d s' pr : (∀ e' s0, g_objects g !! e' = Some s0 → valid s0) → belongs g e s r p →
  in_form (g_inspector g) = Some (Rows l) → in_statusVisible (g_inspector g) = false → in_tabsVisible (g_inspector g) = true →
  row_name <$> l = pr_name <$> filter (λ p, has_row s p = true) (properties s) →
  (∀ r', r' ∈ l → row_name r' ≠ row_name r → row_ok (g_posted g) (in_proxies (g_inspector g)) s r') →
  (∀ x, x ∈ g_posted g → posted_ok l x) →
  follows p s s' → proxied r pr → proxies_but (row_name r) (in_proxies (g_inspector g)) pr → same_value d d = true →
  (accurate s (pr_name p) = true → same_value d (disp (pr_read p s')) = true) →
  window_ok (focus e (row_name r) d s' pr g).
Proof.
  intros Hval B Hf Hst Htab Hnames Hrows Hposted F Hpx Hbut Hd Hacc.
  assert (Hl : rows_of (g_inspector g) = l) by (unfold rows_of; by rewrite Hf). pose proof F as [Hv Hk _].
  constructor; cbn.
  - intros e' s0. destruct (decide (e' = e)) as [->|Hne]; [rewrite lookup_insert_eq; congruence|].
    rewrite lookup_insert_ne by done. apply Hval.
  - rewrite (bl_element _ _ _ _ _ B). split_and!; [done..|]. exists s'. rewrite lookup_insert_eq, Hl. split; [done|]. constructor; cbn.
    + by rewrite show_names, (has_row_kept s).
    + intros r1 (r0 & -> & Hr0)%list_elem_of_fmap. case_bool_decide as Hn; cbn.
      * assert (r0 = r) as ->.
        { pose proof (row_in _ r0 (bl_names _ _ _ _ _ B)) as H1. rewrite Hl, Hn, (row_in _ r) in H1 by apply B. by injection (H1 Hr0). }
        destruct B. eapply row_edit with p; cbn; try done.
        -- by rewrite (kp_properties _ _ _ Hk).
        -- by rewrite (kp_editors _ _ _ Hk).
        -- by rewrite (signature_kept s s' p (row_editor r)).
        -- intros Ha. left. apply Hacc. by rewrite <-(kp_accurate _ _ _ Hk).
      * eapply (row_ok_other p); [done|by rewrite <-(bl_name _ _ _ _ _ B)|by rewrite <-(bl_name _ _ _ _ _ B)|by apply Hrows].
    + intros x (r0 & Hr0 & Hx)%Hposted. exists (if bool_decide (row_name r0 = row_name r) then row_show d r0 else r0).
      split; [unfold show; apply list_elem_of_fmap; by exists r0|by destruct (bool_decide _)].
Qed.

(** ** Delivery *)
Lemma synced_rest x rest s r p : row_name r ≠ x.1 → synced (x :: rest) s r p → synced rest s r p.
Proof. intros Hne Hs Ha. specialize (Hs Ha). rewrite filter_cons_False in Hs by congruence. done. Qed.

Lemma row_ok_rest x rest pr s r : row_name r ≠ x.1 → row_ok (x :: rest) pr s r → row_ok rest pr s r.
Proof. intros Hne []; [by eapply row_label|eapply row_edit; try done; by eapply synced_rest]. Qed.

(** The last of what waits for a row, when the row shows it already. *)
Lemma synced_pop name v rest s r p : row_name r = name → same_value (row_value r) (disp v) = true →
  synced ((name, v) :: rest) s r p → synced rest s r p.
Proof.
  intros Hn Hsame Hs Ha. destruct (Hs Ha) as [?|Hl]; [by left|]. rewrite filter_cons_True in Hl by done.
  rewrite last_cons in Hl. destruct (last (filter _ rest)) as [y|] eqn:Hy; [right; congruence|]. left. injection Hl as _ ->. done.
Qed.

(** ** Selection *)
Lemma connect_ok s p : p ∈ properties s → ∃ o, connect_slot s p = Ok o.
Proof.
  intros Hp%names_nonempty. unfold connect_slot, propertySlotSignature. destruct (pr_name p); [done|]. by eexists.
Qed.

(** The form while it is built: the rows of the properties [seen]. *)
Definition building (objects : gmap positive Object) (builders : gmap string string) (e : positive) (s : Object)
    (seen : list (Property Object)) (g : Gui) : Prop :=
  g_objects g = objects ∧ g_posted g = [] ∧ g_builders g = builders ∧ in_element (g_inspector g) = Some e ∧ in_statusVisible (g_inspector g) = false ∧
  ∃ l, in_form (g_inspector g) = Some (Rows l) ∧ row_name <$> l = pr_name <$> filter (λ p, has_row s p = true) seen ∧
    ∀ r, r ∈ l → row_ok [] (in_proxies (g_inspector g)) s r.

Lemma building_add objects builders e s seen g p r pr : valid s → building objects builders e s seen g → pr_name p ∉ pr_name <$> seen →
  has_row s p = true → row_name r = pr_name p → proxies_but (pr_name p) (in_proxies (g_inspector g)) pr → row_ok [] pr s r →
  wpr (add r) (λ _, building objects builders e s (seen ++ [p]))
    (mkGui (g_objects g) (set_proxies pr (g_inspector g)) (g_posted g) (g_builders g) (g_actionDelete g)).
Proof.
  intros Hv (Ho & Hp & Hb & He & Hst & l & Hf & Hn & Hrows) Hseen Hhas Hname Hbut Hr. eapply wpr_intro; [reflexivity|].
  split_and!; try done. exists (l ++ [r]). cbn. unfold rows_of. cbn. rewrite Hf. split_and!; [done| |].
  - rewrite filter_app, !fmap_app, Hn, filter_cons_True by done. cbn. by rewrite Hname.
  - intros r' [Hr'| ->%list_elem_of_singleton]%elem_of_app; [|done].
    eapply (row_ok_other p); [by apply follows_refl| |done|by apply Hrows].
    intros Heq. apply Hseen. rewrite <-Heq. assert (Hin : row_name r' ∈ row_name <$> l) by by apply list_elem_of_fmap_2.
    rewrite Hn in Hin. apply list_elem_of_fmap in Hin as (q & -> & Hq). apply list_elem_of_filter in Hq as [_ Hq].
    by apply list_elem_of_fmap_2.
Qed.

Lemma addRow_editor_ok objects builders e s seen g p ed : valid s → p ∈ properties s → building objects builders e s seen g →
  pr_name p ∉ pr_name <$> seen → pr_isEnumType p = false → editor_of (pr_read p s) = Some ed → (∀ items, ed ≠ QComboBox items) → ed ≠ QLabel →
  wpr (addRow_editor ed s p) (λ _, building objects builders e s (seen ++ [p])) g.
Proof.
  intros Hv Hp B Hseen Hpl Hed Hno Hlab. destruct (connect_ok s p Hp) as [o Ho]. unfold addRow_editor.
  apply wpr_bind. eapply wpr_intro; [unfold outcome_of; by rewrite Ho|]. cbv beta.
  assert (Hd : display ed (pr_read p s) = disp (pr_read p s)) by (unfold disp; by rewrite Hed). rewrite Hd.
  assert (Hsame : same_value (disp (pr_read p s)) (disp (pr_read p s)) = true) by by eapply disp_number, valid_proper.
  replace g with (mkGui (g_objects g) (set_proxies (in_proxies (g_inspector g)) (g_inspector g)) (g_posted g) (g_builders g) (g_actionDelete g))
    by by destruct g as [? [] ? ? ?].
  apply building_add; try done.
  - unfold has_row. rewrite Hpl, Hed. by rewrite bool_decide_true.
  - eapply row_edit with p; cbn; try done.
    + intros items Hit. by destruct (Hno items).
    + by left.
Qed.

Lemma addProperty_ok objects builders e s seen g p : valid s → p ∈ properties s → building objects builders e s seen g →
  pr_name p ∉ pr_name <$> seen → wpr (addProperty s p) (λ _, building objects builders e s (seen ++ [p])) g.
Proof.
  intros Hv Hp B Hseen. unfold addProperty.
  assert (Hskip : has_row s p = false → wpr (mret tt) (λ _ : unit, building objects builders e s (seen ++ [p])) g).
  { intros Hno. apply wpr_ret. destruct B as (? & ? & ? & ? & ? & l & ? & Hn & ?). split_and!; try done. exists l. split_and!; try done.
    rewrite filter_app, filter_cons_False by by rewrite Hno. by rewrite app_nil_r. }
  destruct (pr_isEnumType p) eqn:Hpl; [apply Hskip; unfold has_row; by rewrite Hpl|].
  destruct (pr_read p s) as [z|d|b|t|en|t|ty t] eqn:Hread; try by (eapply addRow_editor_ok; rewrite ?Hread).
  - unfold addRow_enum. destruct (connect_ok s p Hp) as [o Ho]. apply wpr_bind, wpr_modify. apply wpr_bind.
    eapply wpr_intro; [unfold outcome_of; by rewrite Ho|]. cbv beta.
    pose proof (valid_proper s p Hv Hp) as Hprop. rewrite Hread in Hprop.
    apply building_add; try done.
    + unfold has_row. rewrite Hpl, Hread. done.
    + intros n Hn. by rewrite lookup_insert_ne.
    + rewrite Hread. change (display _ (VEnum en)) with (disp (VEnum en)). eapply row_edit with p; cbn; rewrite ?Hread; try done.
      * by apply bool_decide_true.
      * intros items [= <-]. exists en. by rewrite lookup_insert_eq.
      * intros _. left. rewrite Hread. by apply bool_decide_true.
  - apply Hskip. unfold has_row. by rewrite Hpl, Hread.
  - unfold addRow_string.
    replace g with (mkGui (g_objects g) (set_proxies (in_proxies (g_inspector g)) (g_inspector g)) (g_posted g) (g_builders g) (g_actionDelete g))
      by by destruct g as [? [] ? ? ?].
    apply building_add; try done; [unfold has_row; by rewrite Hpl, Hread|by eapply row_label].
Qed.

(** Selecting an element builds its form. *)
Lemma setTarget_ok known g e s : (∀ e' s0, g_objects g !! e' = Some s0 → valid s0) → g_objects g !! e = Some s →
  (∀ b, g_builders g !! className s = Some b → known b = true) → wpr (setTarget known e) (λ _ g', window_ok g') g.
Proof.
  intros Hval Hs Hb. unfold setTarget, clearSelection. apply wpr_bind, wpr_bind, wpr_modify, wpr_modify.
  apply wpr_bind. unfold object. apply wpr_bind, wpr_gets. cbn [g_objects]. rewrite Hs. apply wpr_ret.
  apply wpr_bind, wpr_modify, wpr_bind. unfold buildForm. apply wpr_bind, wpr_gets. cbn [g_builders].
  destruct (g_builders g !! className s) as [b|] eqn:Hbs.
  - rewrite bool_decide_true by done. unfold getBuilderFor. apply wpr_bind, wpr_bind, wpr_gets. cbn [g_builders]. rewrite Hbs, (Hb b eq_refl).
    apply wpr_ret, wpr_modify, wpr_modify. constructor; [done|]. cbn. split_and!; [done..|]. by exists s.
  - rewrite bool_decide_false by (by intros [? ?]). apply wpr_bind, wpr_modify.
    eapply wpr_mono; [|apply (wpr_for_each (building (g_objects g) (g_builders g) e s))].
    + cbn. intros _ g' (Ho & Hp & Hb' & He & Hst & l & Hf & Hn & Hr). apply wpr_modify. constructor; cbn.
      * rewrite Ho. done.
      * rewrite He, Hf, Ho. split_and!; [done..|]. exists s. split; [done|]. constructor; cbn; [done|by rewrite Hp|rewrite Hp; set_solver].
    + split_and!; try done. exists []. split_and!; [done..|]. set_solver.
    + intros seen p rest g' Hl B. apply addProperty_ok; [by eapply Hval|rewrite Hl; set_solver|done|].
      pose proof (names_distinct s) as Hnd. rewrite Hl, fmap_app in Hnd. apply NoDup_app in Hnd as (_ & Hdis & _).
      intros Hin. by apply (Hdis _ Hin), list_elem_of_here.
Qed.

(** The message of an empty or larger selection. *)
Lemma says_ok msg g : (∀ e s, g_objects g !! e = Some s → valid s) → wpr (says msg) (λ _ g', window_ok g') g.
Proof. intros Hval. eapply wpr_intro; [reflexivity|]. by constructor. Qed.

(** ** Edits *)
Lemma entered_shows r pr v d : proxied r pr → proper v → entered (row_editor r) v = Some d → ∃ v', shows (row_editor r) d v'.
Proof.
  intros Hpx Hv Hen. destruct (row_editor r) as [| | | |items|] eqn:Hed, v as [z|x|b|t|en|t|ty t]; try done; cbn in Hen.
  - injection Hen as <-. by exists (VInt z).
  - injection Hen as <-. by exists (VDouble x).
  - injection Hen as <-. by exists (VBool b).
  - injection Hen as <-. by exists (VString t).
  - case_bool_decide as Hz; [|done]. injection Hen as <-. destruct (Hpx items Hed) as (en & _ & (l & Hl & Hi) & Hn).
    destruct (choose_item en l z) as (_ & Hp & Hn'); [done|by rewrite Hn|]. exists (VEnum (mkEnum z (en_items en))).
    split_and!; [done|cbn; by rewrite Hn', Hn|by rewrite (proj1 (disp_enum _ Hp))].
Qed.

Lemma user_edit_ok n g name v : window_ok g → proper v → wpr (user_edit (Datatypes.S (Datatypes.S n)) name v) (λ _ g', window_ok g') g.
Proof.
  intros W Hv. unfold user_edit. apply wpr_bind, wpr_gets.
  destruct (row_of name (g_inspector g)) as [r|] eqn:Hrow; [|by apply wpr_ret].
  assert (r ∈ rows_of (g_inspector g) ∧ row_name r = name) as [Hin <-].
  { unfold row_of in Hrow. apply head_Some_elem_of, list_elem_of_filter in Hrow as [? ?]. done. }
  destruct (entered (row_editor r) v) as [d|] eqn:Hen; [|by apply wpr_ret].
  destruct (negb (row_enabled r) || same_value (row_value r) d) eqn:Hskip; [by apply wpr_ret|].
  pose proof (wo_shown g W) as Hsh. destruct (in_element (g_inspector g)) as [e|] eqn:He.
  2: { destruct Hsh as (Hf & _). unfold rows_of in Hin. rewrite Hf in Hin. set_solver. }
  destruct Hsh as (Hst & Htab & s & Hs & Hform). pose proof Hin as Hl. unfold rows_of in Hl.
  destruct (in_form (g_inspector g)) as [[l|]|] eqn:Hf; [|set_solver..].
  assert (Hlab : row_editor r ≠ QLabel) by (intros Hlab; by rewrite Hlab in Hen).
  destruct (belongs_of g e s l r W He Hs Hf Hform Hl Hlab) as (p & B & _ & _).
  destruct (entered_shows r (in_proxies (g_inspector g)) v d) as [v' Hv']; [exact (bl_proxy _ _ _ _ _ B)|done..|].
  assert (Hrun : show_row (row_name r) d g = (Ok tt, focus e (row_name r) d s (in_proxies (g_inspector g)) g)).
  { unfold focus. rewrite insert_id by done. by destruct g as [? [] ? ? ?]. }
  assert (B' : belongs (focus e (row_name r) d s (in_proxies (g_inspector g)) g) e s (row_show d r) p).
  { eapply belongs_focus; [done|by eapply follows_refl, B|exact (bl_proxy _ _ _ _ _ B)]. }
  destruct (settles n _ e s _ p v' B' Hv') as (d' & s' & pr & Hch & Hfo & Hpr & Hbut & Hd' & Hacc & _).
  cbn [row_show row_value row_name row_slot g_inspector focus in_proxies set_rows set_proxies] in *. rewrite changed_show in Hch.
  rewrite focus_focus in Hch.
  eapply wpr_intro; [erewrite run_bind by exact Hrun; exact Hch|].
  destruct Hform as [Hn Hr Hp].
  eapply (focus_ok g e s l r p); try done; [apply W|intros; by apply Hr|].
  intros Ha. apply Hacc; [|done]. destruct (accurate_slot s p) as [sig Hsig]; [apply B..|done|].
  pose proof (bl_slot _ _ _ _ _ B). congruence.
Qed.

(** ** Notifications *)
Lemma deliver_ok n g : window_ok g →
  wpr (deliver (Datatypes.S (Datatypes.S (Datatypes.S n)))) (λ _ g', window_ok g' ∧ g_posted g' = tail (g_posted g)) g.
Proof.
  intros W. unfold deliver. apply wpr_bind, wpr_gets. destruct (g_posted g) as [|[name v] rest] eqn:Hq; [apply wpr_ret; by rewrite Hq|].
  apply wpr_bind, wpr_modify. cbn [tail].
  pose proof (wo_shown g W) as Hsh. destruct (in_element (g_inspector g)) as [e|] eqn:He; [|destruct Hsh as (_ & _ & Hp & _); congruence].
  destruct Hsh as (Hst & Htab & s & Hs & Hform). destruct (in_form (g_inspector g)) as [[l|]|] eqn:Hf; [|congruence|done].
  pose proof Hform as [Hn Hr Hp]. rewrite Hq in Hr, Hp.
  destruct (Hp (name, v)) as (r & Hin & Hname & Hv & Hed & Hlab & Hline); [apply list_elem_of_here|]. cbn in Hname, Hv, Hed. subst name.
  destruct (belongs_of g e s l r W He Hs Hf Hform Hin Hlab) as (p & B & Hnum & Hsy). rewrite Hq in Hsy.
  set (g1 := mkGui (g_objects g) (g_inspector g) rest (g_builders g) (g_actionDelete g)).
  assert (B1 : belongs g1 e s r p) by (destruct B; by constructor).
  assert (Hother : ∀ r', r' ∈ l → row_name r' ≠ row_name r → row_ok rest (in_proxies (g_inspector g)) s r').
  { intros r' Hr' Hne. eapply row_ok_rest, Hr, Hr'. done. }
  assert (Hposted : ∀ x, x ∈ rest → posted_ok l x) by (intros; apply Hp; by apply list_elem_of_further).
  unfold wpr, wp. rewrite (set_editor_run _ g1 e s r p v B1 Hed).
  destruct (same_value (row_value r) (disp v)) eqn:Hsame.
  - exists tt. split; [done|]. split; [|done]. constructor; cbn; [apply W|]. rewrite He, Hf. split_and!; [done..|]. exists s. split; [done|].
    constructor; cbn; [done| |done]. intros r' Hr'. destruct (decide (row_name r' = row_name r)) as [Hn'|Hn']; [|by apply Hother].
    assert (r' = r) as ->.
    { assert (Hl : rows_of (g_inspector g) = l) by (unfold rows_of; by rewrite Hf).
      pose proof (row_in (g_inspector g) r' (bl_names _ _ _ _ _ B)) as H1. rewrite Hl, Hn', (row_in _ r) in H1 by apply B. by injection (H1 Hr'). }
    destruct B. eapply row_edit with p; try done. by eapply synced_pop.
  - assert (Hre : reemits (row_editor r) = true) by by destruct (row_editor r). rewrite Hre. cbn [when].
    assert (B2 : belongs (focus e (row_name r) (disp v) s (in_proxies (g_inspector g)) g1) e s (row_show (disp v) r) p).
    { eapply belongs_focus; [done|by eapply follows_refl, B|exact (bl_proxy _ _ _ _ _ B)]. }
    destruct (settles n _ e s _ p v B2) as (d' & s' & pr & Hch & Hfo & Hpr & Hbut & Hd' & Hacc & _); [done|].
    cbn [row_show row_value row_name row_slot] in *. rewrite changed_show, focus_focus in Hch. change (g_inspector g1) with (g_inspector g).
    rewrite Hch. exists tt. split; [done|]. split; [|done].
    eapply (focus_ok g1 e s l r p); try done; [apply W|].
    intros Ha. apply Hacc; [|done]. destruct (accurate_slot s p) as [sig Hsig]; [apply B..|done|].
    pose proof (bl_slot _ _ _ _ _ B). congruence.
Qed.

(** ** Threads of the pool *)

(** What waits for the row of a name, of what a thread emits. *)
Lemma posted_for (l : list Row) r (emitted : list (string * Value)) : NoDup (row_name <$> l) → r ∈ l →
  (∀ r' signal, r' ∈ l → row_notify r = Some signal → row_notify r' = Some signal → row_name r' = row_name r) →
  filter (λ x : string * Value, x.1 = row_name r)
    (x ← emitted ; (λ r', (row_name r', x.2)) <$> filter (λ r', row_notify r' = Some x.1) l) =
  (λ x, (row_name r, x.2)) <$> filter (λ x : string * Value, row_notify r = Some x.1) emitted.
Proof.
  intros Hnd Hr Huniq. induction emitted as [|x emitted IH]; [done|].
  change (x0 ← x :: emitted ; _) with (((λ r', (row_name r', x.2)) <$> filter (λ r', row_notify r' = Some x.1) l) ++
    (x ← emitted ; (λ r', (row_name r', x.2)) <$> filter (λ r', row_notify r' = Some x.1) l)).
  rewrite filter_app, IH, filter_cons. case_decide as Hx.
  - rewrite (filter_one l _ r) by (done || by intros; eapply Huniq). cbn. by rewrite decide_True.
  - replace (filter _ (_ <$> _)) with (@nil (string * Value)); [done|]. symmetry. apply elem_of_nil_inv.
    intros y [Hy (r' & -> & Hr')%list_elem_of_fmap]%list_elem_of_filter. cbn in Hy.
    apply list_elem_of_filter in Hr' as [Hs Hr']. apply Hx.
    assert (r' = r) as ->; [|done].
    pose proof (filter_one l (λ q, row_name q = row_name r) r Hnd Hr eq_refl (λ _ _ H, H)) as H1.
    assert (H2 : r' ∈ filter (λ q, row_name q = row_name r) l) by by apply list_elem_of_filter.
    rewrite H1 in H2. by apply list_elem_of_singleton in H2.
Qed.

(** A signal reaches the row of its property. *)
Lemma notified s l r p signal w (emitted : list (string * Value)) : (∀ w p, (signal, w) ∈ emitted → p ∈ properties s → pr_notify p = Some signal →
    proper w ∧ editor_of w = editor_of (pr_read p s) ∧ editor_of w ≠ Some QLineEdit) →
  r ∈ l → p ∈ properties s → row_name r = pr_name p → row_editor r ≠ QLabel → editor_of (pr_read p s) = Some (row_editor r) →
  pr_notify p = Some signal → (signal, w) ∈ emitted → posted_ok l (row_name r, w).
Proof.
  intros Hem Hr Hp Hname Hlab Hed Hn Hin. destruct (Hem w p Hin Hp Hn) as (? & He & ?). exists r. split_and!; cbn; congruence || done.
Qed.

Lemma form_emits g s s' l emitted (g' : Gui) : worker_ok s s' emitted → form_ok g s l → g_inspector g' = g_inspector g →
  g_posted g' = g_posted g ++ (x ← emitted ; (λ r, (row_name r, x.2)) <$> filter (λ r, row_notify r = Some x.1) l) →
  form_ok g' s' l.
Proof.
  intros [Hv Hk Hem Htells] [Hn Hr Hp] Hi Hq. pose proof (names_nodup s l Hn) as Hnd.
  assert (Hsig : ∀ r p, r ∈ l → row_ok (g_posted g) (in_proxies (g_inspector g)) s r → p ∈ properties s → row_notify r = pr_notify p → row_name r = pr_name p →
    ∀ r' signal, r' ∈ l → row_notify r = Some signal → row_notify r' = Some signal → row_name r' = row_name r).
  { intros r p _ _ Hpp Hnot Hname r' signal Hr' Hs Hs'. destruct (Hr r' Hr') as [|p' Hps' _ Hname' _ _ _ Hnot' _ _ _]; [congruence|].
    rewrite Hname, Hname'. f_equal. apply (signals_distinct s _ _ signal); congruence || done. }
  constructor.
  - by rewrite (has_row_kept s).
  - intros r Hin. rewrite Hi. pose proof (Hr r Hin) as Hok. destruct Hok as [p Hps Hname Hlab Hnot Hsl|p Hps Hpl Hname Hlab Hed Hsl Hnot Hsame Hpx Hsy].
    + eapply row_label; try done. by rewrite (kp_properties _ _ _ Hk).
    + eapply row_edit; try done.
      * by rewrite (kp_properties _ _ _ Hk).
      * by rewrite (kp_editors _ _ _ Hk).
      * by rewrite (signature_kept s s' p (row_editor r)).
      * intros Ha. rewrite (kp_accurate _ _ _ Hk) in Ha. specialize (Htells p Hps Ha). rewrite Hq, filter_app.
        rewrite (posted_for l r emitted); [|done..|by eapply Hsig; eauto].
        rewrite last_app, last_map. rewrite Hnot. destruct (last (filter _ emitted)) as [x|]; cbn; [right; by rewrite Htells|].
        rewrite Htells. by apply Hsy.
  - intros x. rewrite Hq. intros [Hx|Hx]%elem_of_app; [by apply Hp|].
    apply list_elem_of_bind in Hx as ([signal w] & (r & -> & Hr')%list_elem_of_fmap & Hx). apply list_elem_of_filter in Hr' as [Hs Hr'].
    cbn in *. destruct (Hr r Hr') as [|p Hps Hpl Hname Hlab Hed Hsl Hnot _ _ _]; [congruence|].
    apply (notified s l _ p signal w emitted); try done; [intros; by eapply Hem|congruence].
Qed.

Lemma worker_emits_ok g e s s' emitted : window_ok g → g_objects g !! e = Some s → worker_ok s s' emitted →
  wpr (worker_emits e s' emitted) (λ _ g', window_ok g') g.
Proof.
  intros W Hs Hw. pose proof Hw as [Hv _ _ _]. unfold worker_emits. apply wpr_bind. unfold object. apply wpr_bind, wpr_gets. rewrite Hs.
  apply wpr_ret. apply wpr_bind, wpr_modify. do 2 (apply wpr_bind, wpr_gets). apply wpr_bind, wpr_gets. cbn [g_inspector g_posted].
  pose proof (wo_shown g W) as Hsh.
  assert (Hval : ∀ e' s0, <[e := s']> (g_objects g) !! e' = Some s0 → valid s0).
  { intros e' s0. destruct (decide (e' = e)) as [->|Hne]; [rewrite lookup_insert_eq; congruence|]. rewrite lookup_insert_ne by done. apply W. }
  apply wpr_when; intros Hel; [apply bool_decide_eq_true in Hel|apply bool_decide_eq_false in Hel].
  - rewrite Hel in Hsh. destruct Hsh as (Hst & Htab & s0 & Hs0 & Hform). assert (s0 = s) as -> by congruence.
    apply wpr_modify. constructor; cbn; [done|]. rewrite Hel. split_and!; [done..|]. exists s'. rewrite lookup_insert_eq. split; [done|].
    assert (Hrows : ∀ l, in_form (g_inspector g) = Some (Rows l) → rows_of (g_inspector g) = l) by (intros l Hf; unfold rows_of; by rewrite Hf).
    destruct (in_form (g_inspector g)) as [[l|b]|] eqn:Hf; [rewrite (Hrows l eq_refl)| |done].
    + by eapply form_emits.
    + unfold rows_of. rewrite Hf, Hform. clear. induction emitted as [|x emitted IH]; [done|exact IH].
  - constructor; cbn; [done|]. destruct (in_element (g_inspector g)) as [e1|]; [|done]. destruct Hsh as (? & ? & s1 & ? & Hform).
    split_and!; [done..|]. exists s1. rewrite lookup_insert_ne by congruence. split; [done|].
    destruct (in_form _) as [[]|]; [|done..]. destruct Hform. by constructor.
Qed.

(** ** Every sequence of events *)
Lemma call_ok known n g c : window_ok g → allowed known g c →
  wpr (run_call known (Datatypes.S (Datatypes.S (Datatypes.S n))) c) (λ _ g', window_ok g') g.
Proof.
  intros W Ha. pose proof (wo_valid g W) as Hval. destruct c as [items|name v|e s' emitted|]; cbn [run_call].
  - unfold sceneSelectionChanged. apply wpr_bind, wpr_modify.
    destruct items as [|[e|] [|? ?]]; try by apply says_ok.
    destruct (Ha e eq_refl) as (s & Hs & Hb). by eapply setTarget_ok.
  - by apply user_edit_ok.
  - destruct Ha as (s & Hs & Hw). by eapply worker_emits_ok.
  - eapply wpr_mono; [|by apply deliver_ok]. by intros ? ? [? _].
Qed.

Lemma reachable_ok known n g : reachable known (Datatypes.S (Datatypes.S (Datatypes.S n))) g → window_ok g.
Proof.
  induction 1 as [objects builders Hv|g c o g' _ IH Ha Hrun]; [by constructor|].
  destruct (wpr_elim _ _ _ (call_ok known n g c IH Ha)) as (u & g'' & Hrun' & W). congruence.
Qed.

Lemma decide_deliver (c : call) : c = Deliver ∨ c ≠ Deliver.
Proof. destruct c; (by left) || by right. Qed.

(** What a row shows is what its property reads as. *)
Definition in_step (g : Gui) : Prop := ∀ e s r p, in_element (g_inspector g) = Some e → g_objects g !! e = Some s →
  r ∈ rows_of (g_inspector g) → p ∈ properties s → row_name r = pr_name p → row_editor r ≠ QLabel →
  accurate s (pr_name p) = true → same_value (row_value r) (disp (pr_read p s)) = true.

(** C26: the inspector and the selected element keep in step.  Through every
    sequence of selections, entries of the user, changes made by threads of the
    pool and deliveries of what they announced: no call fails, so the editors
    and setters that call each other come to an end; the form has a row for
    each property that has an editor, in order, and it is there exactly while
    one element is selected; each delivery takes one notification from the
    queue and adds none; and when the queue is empty, every accurate property
    reads as its editor shows. *)
Theorem inspector_in_step known fuel g : reachable known fuel g → (3 ≤ fuel)%nat →
  (∀ c, allowed known g c → ∃ g', run_call known fuel c g = (Ok tt, g') ∧
     (c = Deliver → g_posted g' = tail (g_posted g))) ∧
  (is_Some (in_element (g_inspector g)) ↔ is_Some (in_form (g_inspector g))) ∧
  in_statusVisible (g_inspector g) = bool_decide (in_element (g_inspector g) = None) ∧
  (∀ e s l, in_element (g_inspector g) = Some e → g_objects g !! e = Some s → in_form (g_inspector g) = Some (Rows l) →
     row_name <$> l = pr_name <$> filter (λ p, has_row s p = true) (properties s)) ∧
  (g_posted g = [] → in_step g).
Proof.
  intros Hr Hf. destruct fuel as [|[|[|n]]]; [lia..|]. apply reachable_ok in Hr as W. pose proof (wo_shown g W) as Hsh. split_and!.
  - intros c Ha. destruct (decide_deliver c) as [->|Hc].
    + destruct (wpr_elim _ _ _ (deliver_ok n g W)) as ([] & g' & Hrun & _ & Hq). by exists g'.
    + destruct (wpr_elim _ _ _ (call_ok known n g c W Ha)) as ([] & g' & Hrun & _). by exists g'.
  - destruct (in_element _), (in_form _) as [[]|]; naive_solver.
  - destruct (in_element (g_inspector g)) as [e|]; [|by destruct Hsh as (_ & _ & _ & -> & _)].
    destruct Hsh as (-> & _). by rewrite bool_decide_false.
  - intros e s l He Hs Hl. rewrite He in Hsh. destruct Hsh as (_ & _ & s0 & Hs0 & Hform). rewrite Hl in Hform. assert (s0 = s) as -> by congruence.
    apply Hform.
  - intros Hq e s r p He Hs Hin Hp Hname Hlab Ha. rewrite He in Hsh. destruct Hsh as (_ & _ & s0 & Hs0 & Hform).
    unfold rows_of in Hin. destruct (in_form (g_inspector g)) as [[l|]|]; [|set_solver..]. assert (s0 = s) as -> by congruence.
    destruct Hform as [_ Hrows _]. destruct (Hrows r Hin) as [|p' Hps' _ Hname' _ _ _ _ _ _ Hsy]; [done|].
    assert (p' = p) as -> by (eapply property_of_name; [done..|congruence]).
    destruct (Hsy Ha) as [?|Hl]; [done|]. by rewrite Hq in Hl.
Qed.
End window.
