(* ===== verification/InspectorElements.v ===== *)
(** The properties of elements of plvopencv as their headers declare them
    (Q_PROPERTY and the slots named after them), with what each setter emits:
    instances of the interface of the inspector, and the theorem on the
    inspector at a window that shows them. *)
From Stdlib Require Import Floats.SpecFloat.
From S2P Require Import Inspector InspectorProof FiltersProof ImageElements MatStream SaveImage.

Inductive Element :=
  | ECanny (c : EdgeDetectorCanny)
  | ELaplace (l : EdgeDetectorLaplace)
  | ESobel (s : EdgeDetectorSobel)
  | EHarris (h : ImageCornerHarris)
  | EDilateErode (d : DilateErode)
  | ETrigger (t : Trigger)
  | ECrop (c : CropImage)
  | EMultiply (scale : double)
  | ESave (state : State) (s : SaveImageToFile).

(** One Q_PROPERTY with its setter: what it stores and what it emits. *)
Record Accessor := mkAccessor {
  ac_name : string;
  ac_slot : string;
  ac_signal : string;
  ac_get : Element → Value;
  ac_set : Value → Element → Element * option Value
}.

Section lens.
Context {T : Type} (inj : T → Element) (proj : Element → option T).
Definition lens (name slot signal : string) (get : T → Value) (set : Value → T → T * option Value) : Accessor :=
  mkAccessor name slot signal
    (λ o, match proj o with Some c => get c | None => VUser EmptyString end)
    (λ v o, match proj o with Some c => let '(c', w) := set v c in (inj c', w) | None => (o, None) end).
End lens.

(** What a setter emits: the member it stored into, its argument, or nothing. *)
Definition stored {T A} (get : T → A) (_ : A) (c : T) : option A := Some (get c).
Definition argument {T A} (v : A) (_ : T) : option A := Some v.
Definition silent {T A} (_ : A) (_ : T) : option A := None.

Section setters.
Context {T : Type}.
Definition sets_int (f : Z → T → T) (tell : Z → T → option Z) (v : Value) (c : T) : T * option Value :=
  match v with VInt z => (f z c, VInt <$> tell z (f z c)) | _ => (c, None) end.
Definition sets_double (f : double → T → T) (tell : double → T → option double) (v : Value) (c : T) : T * option Value :=
  match v with VDouble z => (f z c, VDouble <$> tell z (f z c)) | _ => (c, None) end.
Definition sets_bool (f : bool → T → T) (tell : bool → T → option bool) (v : Value) (c : T) : T * option Value :=
  match v with VBool z => (f z c, VBool <$> tell z (f z c)) | _ => (c, None) end.
Definition sets_enum (f : Enum → T → T) (tell : Enum → T → option Enum) (v : Value) (c : T) : T * option Value :=
  match v with VEnum z => (f z c, VEnum <$> tell z (f z c)) | _ => (c, None) end.
End setters.

(** ** The elements *)
Definition canny_accessors : list Accessor :=
  let p := lens ECanny (λ o, match o with ECanny c => Some c | _ => None end) in
  [p "apertureSize" "setApertureSize(int)" "apertureSizeChanged(int)" (λ c, VInt (canny_apertureSize c)) (sets_int canny_setApertureSize (stored canny_apertureSize));
   p "thresholdLow" "setThresholdLow(double)" "thresholdLowChanged(double)" (λ c, VDouble (canny_thresholdLow c)) (sets_double canny_setThresholdLow argument);
   p "thresholdHigh" "setThresholdHigh(double)" "thresholdHighChanged(double)" (λ c, VDouble (canny_thresholdHigh c)) (sets_double canny_setThresholdHigh argument);
   p "l2Gradient" "setL2Gradient(bool)" "l2GradientChanged(bool)" (λ c, VBool (canny_l2Gradient c)) (sets_bool canny_setL2Gradient argument)].

Definition laplace_accessors : list Accessor :=
  let p := lens ELaplace (λ o, match o with ELaplace c => Some c | _ => None end) in
  [p "apertureSize" "setApertureSize(int)" "apertureSizeChanged(int)" (λ c, VInt (laplace_apertureSize c)) (sets_int laplace_setApertureSize (stored laplace_apertureSize))].

(** [setScale] emits its argument, not what it stored; [setBorderType] emits
    nothing. *)
Definition sobel_accessors : list Accessor :=
  let p := lens ESobel (λ o, match o with ESobel c => Some c | _ => None end) in
  [p "xOrder" "setXOrder(bool)" "xOrderChanged(bool)" (λ c, VBool (sobel_xOrder c)) (sets_bool sobel_setXOrder (stored sobel_xOrder));
   p "yOrder" "setYOrder(bool)" "yOrderChanged(bool)" (λ c, VBool (sobel_yOrder c)) (sets_bool sobel_setYOrder (stored sobel_yOrder));
   p "kernelSize" "setKernelSize(int)" "kernelSizeChanged(int)" (λ c, VInt (sobel_kernelSize c)) (sets_int sobel_setKernelSize (stored sobel_kernelSize));
   p "scale" "setScale(double)" "scaleChanged(double)" (λ c, VDouble (sobel_scale c)) (sets_double sobel_setScale argument);
   p "delta" "setDelta(double)" "deltaChanged(double)" (λ c, VDouble (sobel_delta c)) (sets_double sobel_setDelta argument);
   p "borderType" "setBorderType(plv::Enum)" "borderTypeChanged(plv::Enum)" (λ c, VEnum (sobel_borderType c)) (sets_enum sobel_setBorderType silent)].

(** [setBlockSize] and [setK] emit their arguments. *)
Definition harris_accessors : list Accessor :=
  let p := lens EHarris (λ o, match o with EHarris c => Some c | _ => None end) in
  [p "kernelSize" "setKernelSize(int)" "kernelSizeChanged(int)" (λ c, VInt (harris_kernelSize c)) (sets_int harris_setKernelSize (stored harris_kernelSize));
   p "blockSize" "setBlockSize(int)" "blockSizeChanged(int)" (λ c, VInt (harris_blockSize c)) (sets_int harris_setBlockSize argument);
   p "k" "setK(double)" "kChanged(double)" (λ c, VDouble (harris_k c)) (sets_double harris_setK argument);
   p "borderType" "setBorderType(plv::Enum)" "borderTypeChanged(plv::Enum)" (λ c, VEnum (harris_borderType c)) (sets_enum harris_setBorderType silent)].

Definition dilate_accessors : list Accessor :=
  let p := lens EDilateErode (λ o, match o with EDilateErode c => Some c | _ => None end) in
  [p "erosionIterations" "setErosionIterations(int)" "erosionIterationsChanged(int)" (λ c, VInt (m_erosionIterations c)) (sets_int setErosionIterations (stored m_erosionIterations));
   p "dilationIterations" "setDilationIterations(int)" "dilationIterationsChanged(int)" (λ c, VInt (m_dilationIterations c)) (sets_int setDilationIterations (stored m_dilationIterations));
   p "order" "setOrder(plv::Enum)" "orderChanged(plv::Enum)" (λ c, VEnum (m_delationErosionOrder c)) (sets_enum setOrder argument)].

(** [setActivate] and [setContinuous] emit nothing. *)
Definition trigger_accessors : list Accessor :=
  let p := lens ETrigger (λ o, match o with ETrigger c => Some c | _ => None end) in
  [p "activate" "setActivate(bool)" "activateChanged(bool)" (λ c, VBool (m_activate c)) (sets_bool setActivate silent);
   p "continuous" "setContinuous(bool)" "continuousChanged(bool)" (λ c, VBool (m_continuous c)) (sets_bool setContinuous silent);
   p "count" "setCount(int)" "countChanged(int)" (λ c, VInt (m_count c)) (sets_int setCount (stored m_count))].

Definition crop_accessors : list Accessor :=
  let p := lens ECrop (λ o, match o with ECrop c => Some c | _ => None end) in
  [p "x1" "setX1(int)" "x1Changed(int)" (λ c, VInt (m_x1 c)) (sets_int setX1 (stored m_x1));
   p "x2" "setX2(int)" "x2Changed(int)" (λ c, VInt (m_x2 c)) (sets_int setX2 (stored m_x2));
   p "y1" "setY1(int)" "y1Changed(int)" (λ c, VInt (m_y1 c)) (sets_int setY1 (stored m_y1));
   p "y2" "setY2(int)" "y2Changed(int)" (λ c, VInt (m_y2 c)) (sets_int setY2 (stored m_y2))].

Definition multiply_accessors : list Accessor :=
  let p := lens EMultiply (λ o, match o with EMultiply c => Some c | _ => None end) in
  [p "scale" "setScale(double)" "scaleChanged(double)" VDouble (sets_double (λ d _, d) silent)].

(** [setDirectory] says nothing when it refuses. *)
Definition save_setDirectory (v : Value) (c : State * SaveImageToFile) : (State * SaveImageToFile) * option Value :=
  match v with
  | VString d => ((c.1, setDirectory c.1 d c.2), if bool_decide (state_rank PLE_UNDEFINED < state_rank c.1) then None else Some (VString d))
  | _ => (c, None)
  end.
Definition save_accessors : list Accessor :=
  let p := lens (λ c : State * SaveImageToFile, ESave c.1 c.2) (λ o, match o with ESave st c => Some (st, c) | _ => None end) in
  [p "directory" "setDirectory(QString)" "directoryChanged(QString)" (λ c, VString (si_directory c.2)) save_setDirectory;
   p "fileFormat" "setFileFormat(plv::Enum)" "fileFormatChanged(plv::Enum)" (λ c, VEnum (si_fileFormat c.2))
     (sets_enum (λ e c, (c.1, setFileFormat e c.2)) argument)].

Definition accessors (o : Element) : list Accessor :=
  match o with
  | ECanny _ => canny_accessors | ELaplace _ => laplace_accessors | ESobel _ => sobel_accessors | EHarris _ => harris_accessors
  | EDilateErode _ => dilate_accessors | ETrigger _ => trigger_accessors | ECrop _ => crop_accessors
  | EMultiply _ => multiply_accessors | ESave _ _ => save_accessors
  end.

Definition element_className (o : Element) : string :=
  match o with
  | ECanny _ => "plvopencv::EdgeDetectorCanny" | ELaplace _ => "plvopencv::EdgeDetectorLaplace" | ESobel _ => "plvopencv::EdgeDetectorSobel"
  | EHarris _ => "plvopencv::ImageCornerHarris" | EDilateErode _ => "plvopencv::DilateErode" | ETrigger _ => "plvopencv::Trigger"
  | ECrop _ => "plvopencv::CropImage" | EMultiply _ => "plvopencv::Multiply" | ESave _ _ => "plvopencv::SaveImageToFile"
  end.

Definition property_of (a : Accessor) : Property Element := mkProperty (ac_name a) false (Some (ac_signal a)) (ac_get a).
Definition call_slot (a : Accessor) (v : Value) (o : Element) : Element * option (string * Value) :=
  let '(o', w) := ac_set a v o in (o', pair (ac_signal a) <$> w).

(** The names, descriptions and pins only go into the text of the inspector. *)
#[export] Instance element_meta : MetaObject := {
  Object := Element;
  className := element_className;
  elementName := element_className;
  description := λ _, EmptyString;
  inputPins := λ _, [];
  outputPins := λ _, [];
  properties := λ o, property_of <$> accessors o;
  slot := λ o signature, call_slot <$> head (filter (λ a, ac_slot a = signature) (accessors o))
}.

(** ** What the setters keep *)
Definition number (d : double) : Prop := SFeqb d d = true.
Definition element_valid (o : Element) : Prop :=
  match o with
  | ECanny c => canny_valid c ∧ number (canny_thresholdLow c) ∧ number (canny_thresholdHigh c)
  | ELaplace l => odd_to_7 (laplace_apertureSize l) = true
  | ESobel s => sobel_valid s ∧ number (sobel_scale s) ∧ number (sobel_delta s) ∧ proper (VEnum (sobel_borderType s))
  | EHarris h => harris_valid h ∧ number (harris_k h) ∧ proper (VEnum (harris_borderType h))
  | EDilateErode d => proper (VEnum (m_delationErosionOrder d))
  | ETrigger _ => True
  | ECrop c => 0 ≤ m_x1 c ∧ 0 ≤ m_x2 c ∧ 0 ≤ m_y1 c ∧ 0 ≤ m_y2 c
  | EMultiply d => number d
  | ESave _ s => proper (VEnum (si_fileFormat s))
  end.
Definition element_accurate (o : Element) (name : string) : bool :=
  match o with
  | ESobel _ => negb (bool_decide (name = "scale"))
  | EHarris _ => negb (bool_decide (name = "blockSize")) && negb (bool_decide (name = "k"))
  | ETrigger _ => negb (bool_decide (name = "activate"))
  | ESave _ _ => negb (bool_decide (name = "directory"))
  | _ => true
  end.

(** The properties of an element one after the other. *)
Ltac each_member H := repeat (apply elem_of_cons in H as [->|H]); [..|by apply not_elem_of_nil in H].

Lemma accessor_facts o a : a ∈ accessors o →
  propertySlotSignature (ac_name a) (ac_get a o) EmptyString = Ok (ac_slot a) ∧ ac_name a ≠ EmptyString ∧
  editor_of (ac_get a o) ≠ None.
Proof. intros Ha. destruct o; cbn in Ha; each_member Ha; by split_and!. Qed.

Lemma accessor_names o : NoDup (ac_name <$> accessors o) ∧ NoDup (ac_slot <$> accessors o) ∧ NoDup (ac_signal <$> accessors o).
Proof. destruct o; split_and!; apply (bool_decide_unpack _); vm_compute; exact I. Qed.

Lemma accessor_proper o a : element_valid o → a ∈ accessors o → proper (ac_get a o).
Proof.
  intros Hv Ha. destruct o; cbn in Ha, Hv; each_member Ha; cbn; try done; destruct_and?; done.
Qed.

(** One call of one setter. *)
Record good_call `{SpinRounding} (o : Element) (a : Accessor) (v : Value) (o' : Element) (w : option Value) : Prop := {
  gc_valid : element_valid o';
  gc_accessors : accessors o' = accessors o;
  gc_accurate : element_accurate o' = element_accurate o;
  gc_editors b : b ∈ accessors o → editor_of (ac_get b o') = editor_of (ac_get b o);
  gc_others b : b ∈ accessors o → ac_name b ≠ ac_name a → ac_get b o' = ac_get b o;
  gc_emits x : w = Some x → proper x ∧ editor_of x = editor_of v ∧
    if element_accurate o (ac_name a) then x = ac_get a o' else disp x = disp v;
  gc_silent : element_accurate o (ac_name a) = true → w = None → disp (ac_get a o') = disp v;
  gc_stable : element_accurate o (ac_name a) = true → disp (ac_get a o) = disp v → disp (ac_get a o') = disp v
}.

Lemma spin_bound_inside a z : spin_min < a < spin_max → spin_bound a = spin_bound z → z = a.
Proof. unfold spin_bound, spin_min, spin_max. lia. Qed.

Lemma odd_to_7_cases n : odd_to_7 n = true → n = 1 ∨ n = 3 ∨ n = 5 ∨ n = 7.
Proof. unfold odd_to_7. intros H. repeat case_bool_decide; (by left) || (by right; left) || (by right; right; left) || (by right; right; right) || done. Qed.

(** An aperture that is shown already stays. *)
Lemma aperture_stable lo z current : lo = 1 ∨ lo = 3 ∧ 3 ≤ current → odd_to_7 current = true →
  spin_bound current = spin_bound z → set_aperture lo z current = z.
Proof.
  intros Hlo Hodd Hz. apply odd_to_7_cases in Hodd.
  assert (z = current) as -> by (apply spin_bound_inside; [unfold spin_min, spin_max; lia|done]).
  destruct Hlo as [->|[-> H3]]; destruct Hodd as [->|[->|[->| ->]]]; try lia; vm_compute; reflexivity.
Qed.

(** A refused value, and a negative one, that is shown already. *)
Lemma refused_stays (b : bool) z c : spin_bound c = spin_bound z → spin_bound (if b then z else c) = spin_bound z.
Proof. by destruct b. Qed.
Lemma floor_stays z c : 0 ≤ c → spin_bound c = spin_bound z → spin_bound (if bool_decide (z < 0) then 0 else z) = spin_bound z.
Proof. case_bool_decide; [|done]. unfold spin_bound, spin_min, spin_max. lia. Qed.
Lemma number_if (b : bool) x y : number x → number y → number (if b then x else y).
Proof. by destruct b. Qed.

Section calls.
Context `{SpinRoundingLaws}.

(** A value that fits the editor of a property of a known type. *)
Ltac fits v := destruct v as [z|x|b|t|en|t|ty t]; try done.

(** What is left of a call: validity, and the conditions on what is emitted. *)
Ltac call_fields := constructor; cbn in *;
  [| reflexivity | reflexivity | intros b0 Hb; each_member Hb; cbn; congruence | intros b0 Hb Hne; each_member Hb; cbn in *; done
  | intros x0 Hx0; try discriminate Hx0; try (injection Hx0 as <-); try done | try done | try done].

Lemma canny_calls c a v : element_valid (ECanny c) → a ∈ canny_accessors → proper v → editor_of v = editor_of (ac_get a (ECanny c)) →
  good_call (ECanny c) a v (ac_set a v (ECanny c)).1 (ac_set a v (ECanny c)).2.
Proof.
  intros Hv Ha Hp He. each_member Ha; fits v; call_fields.
  - destruct Hv as ([Hodd Hlo] & ? & ?). split; [apply set_aperture_odd; by right|done].
  - destruct Hv as ([Hodd Hlo] & _). intros _ [= Hz]. do 2 f_equal. by apply aperture_stable; [right|..].
  - by destruct Hv as (? & ? & ?).
  - by destruct Hv as (? & ? & ?).
  - done.
Qed.

Lemma laplace_calls c a v : element_valid (ELaplace c) → a ∈ laplace_accessors → proper v → editor_of v = editor_of (ac_get a (ELaplace c)) →
  good_call (ELaplace c) a v (ac_set a v (ELaplace c)).1 (ac_set a v (ELaplace c)).2.
Proof.
  intros Hv Ha Hp He. each_member Ha; fits v; call_fields.
  - apply set_aperture_odd. by left.
  - intros _ [= Hz]. do 2 f_equal. by apply aperture_stable; [left|..].
Qed.

Lemma sobel_calls c a v : element_valid (ESobel c) → a ∈ sobel_accessors → proper v → editor_of v = editor_of (ac_get a (ESobel c)) →
  good_call (ESobel c) a v (ac_set a v (ESobel c)).1 (ac_set a v (ESobel c)).2.
Proof.
  intros Hv Ha Hp He. pose proof (sv_orders _ (proj1 Hv)) as Hor.
  destruct c as [xo yo ks sc de bt]. cbn in Hor. each_member Ha; fits v; [destruct b, xo, yo; done || call_fields..|call_fields|call_fields|call_fields|call_fields].
  1-12: by (destruct Hv as ([] & ?); split; [by constructor|]).
  - destruct Hv as (Hs & ?). split; [|done]. exact (sobel_apply_valid _ (SobelKernelSize z) Hs).
  - intros _ [= Hz]. do 2 f_equal. apply aperture_stable; [by left|apply Hv|done].
  - destruct Hv as (Hs & ? & ? & ?). split_and!; [exact (sobel_apply_valid _ (SobelScale x) Hs)|by apply number_if|done..].
  - destruct Hv as (Hs & ? & ? & ?). split_and!; [exact (sobel_apply_valid _ (SobelDelta x) Hs)|done..].
  - destruct Hv as (Hs & ? & ? & ?). split_and!; [exact (sobel_apply_valid _ (SobelBorderType en) Hs)|done..].
Qed.

Lemma harris_calls c a v : element_valid (EHarris c) → a ∈ harris_accessors → proper v → editor_of v = editor_of (ac_get a (EHarris c)) →
  good_call (EHarris c) a v (ac_set a v (EHarris c)).1 (ac_set a v (EHarris c)).2.
Proof.
  intros Hv Ha Hp He. each_member Ha; fits v; call_fields.
  - destruct Hv as ((? & ? & ?) & ?). split; [|done]. split_and!; [apply set_aperture_odd; by left|done..].
  - intros _ [= Hz]. do 2 f_equal. apply aperture_stable; [by left|apply Hv|done].
  - destruct Hv as ((? & ? & ?) & ?). split; [|done]. split_and!; [done|cbn; case_bool_decide; lia|done].
  - destruct Hv as ((? & ? & ?) & ? & ?). split_and!; [|by apply number_if|done]. split_and!; [done..|]. cbn.
    destruct (SFltb x double_0) eqn:Hx; [reflexivity|done].
  - by destruct Hv as (? & ? & ?).
Qed.

Lemma dilate_calls c a v : element_valid (EDilateErode c) → a ∈ dilate_accessors → proper v → editor_of v = editor_of (ac_get a (EDilateErode c)) →
  good_call (EDilateErode c) a v (ac_set a v (EDilateErode c)).1 (ac_set a v (EDilateErode c)).2.
Proof.
  intros Hv Ha Hp He. each_member Ha; fits v; call_fields.
  - done.
  - intros _ [= Hz]. f_equal. by apply refused_stays.
  - done.
  - intros _ [= Hz]. f_equal. by apply refused_stays.
  - done.
Qed.

Lemma trigger_calls c a v : element_valid (ETrigger c) → a ∈ trigger_accessors → proper v → editor_of v = editor_of (ac_get a (ETrigger c)) →
  good_call (ETrigger c) a v (ac_set a v (ETrigger c)).1 (ac_set a v (ETrigger c)).2.
Proof.
  intros Hv Ha Hp He. each_member Ha; fits v; call_fields.
  1-3: done.
  intros _ [= Hz]. f_equal. by apply refused_stays.
Qed.

Lemma crop_calls c a v : element_valid (ECrop c) → a ∈ crop_accessors → proper v → editor_of v = editor_of (ac_get a (ECrop c)) →
  good_call (ECrop c) a v (ac_set a v (ECrop c)).1 (ac_set a v (ECrop c)).2.
Proof.
  intros Hv Ha Hp He. each_member Ha; fits v; call_fields.
  all: destruct Hv as (H1 & H2 & H3 & H4).
  1, 3, 5, 7: split_and!; try done; case_bool_decide; lia.
  all: intros _ [= Hz]; f_equal; eapply floor_stays; [|exact Hz]; done.
Qed.

Lemma multiply_calls c a v : element_valid (EMultiply c) → a ∈ multiply_accessors → proper v → editor_of v = editor_of (ac_get a (EMultiply c)) →
  good_call (EMultiply c) a v (ac_set a v (EMultiply c)).1 (ac_set a v (EMultiply c)).2.
Proof.
  intros Hv Ha Hp He. each_member Ha; fits v; call_fields.
  done.
Qed.
Lemma save_calls st c a v : element_valid (ESave st c) → a ∈ save_accessors → proper v → editor_of v = editor_of (ac_get a (ESave st c)) →
  good_call (ESave st c) a v (ac_set a v (ESave st c)).1 (ac_set a v (ESave st c)).2.
Proof.
  intros Hv Ha Hp He. each_member Ha; fits v; [cbn; unfold setDirectory; destruct (bool_decide _); call_fields|call_fields].
  all: done.
Qed.

Lemma setter_good o a v : element_valid o → a ∈ accessors o → proper v → editor_of v = editor_of (ac_get a o) →
  good_call o a v (ac_set a v o).1 (ac_set a v o).2.
Proof.
  destruct o; eauto using canny_calls, laplace_calls, sobel_calls, harris_calls, dilate_calls, trigger_calls, crop_calls, multiply_calls, save_calls.
Qed.
End calls.

(** Members of a list with distinct keys. *)
Lemma key_find {K} `{EqDecision K} (key : Accessor → K) (l : list Accessor) a : NoDup (key <$> l) → a ∈ l → head (filter (λ b, key b = key a) l) = Some a.
Proof.
  induction l as [|b l IH]; [by intros _ ?%not_elem_of_nil|]. rewrite fmap_cons. intros [Hb Hnd]%NoDup_cons Ha. rewrite filter_cons.
  apply elem_of_cons in Ha as [->|Ha]; [by rewrite decide_True|]. rewrite decide_False; [by apply IH|].
  intros Hk. apply Hb. rewrite Hk. by apply list_elem_of_fmap_2.
Qed.

#[export] Instance element_laws `{SpinRoundingLaws} : MetaLaws.
Proof.
  refine {| valid := element_valid : Object → Prop; accurate := element_accurate : Object → string → bool |}; cbn.
  - intros o p Hv (a & -> & Ha)%list_elem_of_fmap. by apply accessor_proper.
  - intros o. rewrite <-list_fmap_compose. apply accessor_names.
  - intros o p (a & -> & Ha)%list_elem_of_fmap. by eapply accessor_facts.
  - intros o p _ (a & -> & Ha)%list_elem_of_fmap _. exists (ac_slot a). unfold connect_slot. cbn.
    destruct (accessor_facts o a Ha) as (-> & _). destruct (accessor_names o) as (_ & Hnd & _). cbn.
    by rewrite (key_find ac_slot) by done.
  - intros o p q signal (a & -> & Ha)%list_elem_of_fmap (b & -> & Hb)%list_elem_of_fmap [= Hs] [= Hs']. f_equal.
    destruct (accessor_names o) as (_ & _ & Hnd). pose proof (key_find ac_signal _ a Hnd Ha) as H1.
    pose proof (key_find ac_signal _ b Hnd Hb) as H2. rewrite Hs', <-Hs in H2. congruence.
  - intros o p v signature f o' emitted Hv (a & -> & Ha)%list_elem_of_fmap _ Hp He Hsig Hslot Hf. cbn in *.
    destruct (accessor_facts o a Ha) as (Hsig' & _). rewrite Hsig' in Hsig. injection Hsig as <-.
    destruct (accessor_names o) as (_ & Hnd & _). rewrite (key_find ac_slot) in Hslot by done. injection Hslot as <-.
    destruct (setter_good o a v Hv Ha Hp He) as [Hv' Hac Hacc Hed Hoth Hem Hsil Hst].
    unfold call_slot in Hf. destruct (ac_set a v o) as [o1 w]. injection Hf as <- <-. cbn in *. split_and!.
    + done.
    + constructor; cbn; [by rewrite Hac|by rewrite Hac|done|]. intros q (b & -> & Hb)%list_elem_of_fmap. by apply Hed.
    + intros q (b & -> & Hb)%list_elem_of_fmap Hne. by apply Hoth.
    + constructor; cbn; [|intros Ht Hw; apply Hsil; [done|by destruct w]|done].
      intros signal x Hx. destruct w as [y|]; [|done]. injection Hx as <- <-. destruct (Hem y eq_refl) as (? & ? & ?). by split_and!.
Defined.

(** ** Trigger.cpp: process in a thread of the pool

    The member that is set when the count is reached is announced only when it
    is taken back. *)
Definition trigger_emits (num : option Z) (t : Trigger) : list (string * Value) :=
  match num with
  | Some n => if bool_decide (n ≠ m_count t) then [("countChanged(int)", VInt n)] else []
  | None => []
  end ++
  (if (trigger_process num t).1 && negb (m_continuous t) then [("activateChanged(bool)", VBool false)] else []).

Lemma trigger_process_count num t : m_count (trigger_process num t).2 = default (m_count t) num ∧
  m_continuous (trigger_process num t).2 = m_continuous t.
Proof.
  unfold trigger_process. destruct num as [n|]; cbn; repeat case_bool_decide; cbn;
    destruct (m_activate t), (m_continuous t) eqn:Hc; cbn; rewrite ?Hc; done.
Qed.

Lemma trigger_process_ok `{SpinRoundingLaws} num t :
  worker_ok (ETrigger t : Object) (ETrigger (trigger_process num t).2) (trigger_emits num t).
Proof.
  destruct (trigger_process_count num t) as [Hcount Hcont]. constructor; cbn.
  - done.
  - constructor; cbn; try done. intros p Ha. by each_member Ha.
  - intros signal w p Hin Ha Hs. unfold trigger_emits in Hin.
    apply elem_of_app in Hin as [Hin|Hin].
    + destruct num as [n|]; [|by apply not_elem_of_nil in Hin]. case_bool_decide; [|by apply not_elem_of_nil in Hin].
      apply list_elem_of_singleton in Hin as [= -> ->]. each_member Ha; cbn in Hs; try discriminate Hs; done.
    + destruct (_ && _); [|by apply not_elem_of_nil in Hin]. apply list_elem_of_singleton in Hin as [= -> ->]. each_member Ha; cbn in Hs; try discriminate Hs; done.
  - intros p Ha. unfold trigger_emits. each_member Ha; cbn; intros Hacc; [done|..].
    + rewrite Hcont. destruct (_.1 && _), num as [n|]; try destruct (bool_decide (n ≠ _)); vm_compute; reflexivity.
    + rewrite Hcount. destruct (_.1 && _), num as [n|]; try (destruct (decide (n = m_count t)) as [->|Hn];
        [rewrite (bool_decide_false (_ ≠ _)) by tauto|rewrite (bool_decide_true (_ ≠ _)) by done]); vm_compute; reflexivity.
Qed.

(** ** At concrete elements *)
#[local] Instance plain_rounding : SpinRounding := {| round8 d := d |}.
#[local] Instance plain_rounding_laws : SpinRoundingLaws.
Proof. by split. Defined.

Definition ex_trigger : Trigger := mkTrigger false false 1 0.
Definition ex_border : Enum := enum_add "reflect" 2 (enum_add "constant" 0 (new_Enum 0)).
Definition ex_harris : ImageCornerHarris := mkHarris 3 3 (S754_finite false 5764607523034235 (-57)) ex_border.
Definition ex_objects : gmap positive Object := <[1%positive := ETrigger ex_trigger]> {[2%positive := EHarris ex_harris]}.
Definition ex_window : Gui := new_InspectorWidget ex_objects ∅.
Definition ex_after (cs : list call) : Gui := foldl (λ g c, (run_call (λ _, false) 3 c g).2) ex_window cs.

Lemma ex_objects_valid e s : ex_objects !! e = Some s → valid s.
Proof.
  unfold ex_objects. intros [[<- <-]|[_ [<- <-]%lookup_singleton_Some]]%lookup_insert_Some; [exact I|].
  cbn. split_and!; [split_and!; [reflexivity|vm_compute; discriminate|reflexivity]|reflexivity|]. exists [mkEnumPair "constant" 0; mkEnumPair "reflect" 2].
  split; [constructor; vm_compute; reflexivity|cbn; lia].
Qed.

(** A count of 7 arrives while the trigger is inspected; then 9 is entered. *)
Definition ex_worked : Object := ETrigger (trigger_process (Some 7) ex_trigger).2.
Definition ex_calls : list call := [Select [ElementItem 1%positive]; Work 1%positive ex_worked (trigger_emits (Some 7) ex_trigger); Deliver; Deliver].

Lemma ex_reachable : reachable (λ _, false) 3 (ex_after ex_calls).
Proof.
  unfold ex_after, ex_calls. cbn [foldl]. set (run := run_call (λ _, false) 3).
  assert (Hstep : ∀ c g, reachable (λ _, false) 3 g → allowed (λ _, false) g c → reachable (λ _, false) 3 (run c g).2).
  { intros c g Hr Ha. eapply (reach_call _ _ g c (run c g).1 (run c g).2); [exact Hr|exact Ha|apply surjective_pairing]. }
  apply Hstep; [|exact I]. apply Hstep; [|exact I]. apply Hstep; [apply Hstep; [apply reach_new; exact ex_objects_valid|]|].
  - intros e [= <-]. exists (ETrigger ex_trigger). split; [vm_compute; reflexivity|]. intros b Hb. vm_compute in Hb. discriminate Hb.
  - exists (ETrigger ex_trigger). split; [vm_compute; reflexivity|]. apply trigger_process_ok.
Qed.

Definition ex_values (g : Gui) : list (string * Value) := (λ r, (row_name r, row_value r)) <$> rows_of (g_inspector g).
Definition ex_read (g : Gui) (e : positive) : option (list Value) := (λ s, (λ p, pr_read p s) <$> properties s) <$> g_objects g !! e.

Lemma inspector_in_step_witness :
  g_posted (ex_after ex_calls) = [] ∧ in_step (ex_after ex_calls) ∧
  ex_values (ex_after ex_calls) = [("activate", VBool false); ("continuous", VBool false); ("count", VInt 7)] ∧
  ex_read (ex_after ex_calls) 1%positive = Some [VBool false; VBool false; VInt 7].
Proof.
  assert (Hq : g_posted (ex_after ex_calls) = []) by (vm_compute; reflexivity).
  split; [exact Hq|]. split; [|split; vm_compute; reflexivity].
  apply (inspector_in_step (λ _, false) 3 (ex_after ex_calls) ex_reachable (le_n 3)). exact Hq.
Defined.

(** [setBlockSize] emits what it was given: the form shows -3, the detector has 1. *)
Example harris_out_of_step :
  let g := ex_after [Select [ElementItem 2%positive]; Edit "blockSize" (VInt (-3))] in
  g_posted g = [] ∧ ex_values g !! 1%nat = Some ("blockSize", VInt (-3)) ∧ (ex_read g 2%positive ≫= (.!! 1%nat)) = Some (VInt 1).
Proof. vm_compute. by split_and!. Qed.

(** An even kernel size is corrected by the setter, and the editor follows. *)
Example harris_corrected :
  let g := ex_after [Select [ElementItem 2%positive]; Edit "kernelSize" (VInt 4)] in
  ex_values g !! 0%nat = Some ("kernelSize", VInt 5) ∧ (ex_read g 2%positive ≫= (.!! 0%nat)) = Some (VInt 5).
Proof. vm_compute. by split_and!. Qed.

(** A notification that was under way undoes an entry: the user enters 9, and
    the 7 that the thread had announced before is stored again. *)
Example entry_undone :
  let calls := [Select [ElementItem 1%positive]; Work 1%positive ex_worked (trigger_emits (Some 7) ex_trigger); Edit "count" (VInt 9)] in
  (ex_read (ex_after calls) 1%positive ≫= (.!! 2%nat)) = Some (VInt 9) ∧
  (ex_read (ex_after (calls ++ [Deliver])) 1%positive ≫= (.!! 2%nat)) = Some (VInt 7) ∧
  ex_values (ex_after (calls ++ [Deliver])) !! 2%nat = Some ("count", VInt 7).
Proof. vm_compute. by split_and!. Qed.
