(* ===== verification/Viewers.v ===== *)
(** The viewers of the main window: one for each output pin that was double
    clicked (plvgui/MainWindow.cpp, ViewerWidget.cpp), with a renderer for the
    type of the pin (RendererFactory.cpp).  The renderers of images
    (OpenCVImageRenderer.cpp, OpenCVImageListRenderer.cpp) hand what arrives to
    the converter, in a thread of the pool, and show what comes back. *)
From S2P Require Export ImageConverter.

(** ** RendererFactory.cpp *)
Inductive RendererClass := OpenCVImageRenderer | OpenCVImageListRenderer | RectangleDataRenderer | VariantDataRenderer | UnknownDataRenderer.
#[export] Instance RendererClass_eq_dec : EqDecision RendererClass.
Proof. solve_decision. Defined.

Abbreviation RendererFactory := (gmap string RendererClass).
Definition factory_add (dataTypeName : string) (c : RendererClass) (f : RendererFactory) : RendererFactory :=
  if bool_decide (is_Some (f !! dataTypeName)) then f else <[dataTypeName := c]> f.
Definition factory_create (dataType : string) (f : RendererFactory) : RendererClass :=
  match f !! dataType with Some c => c | None => UnknownDataRenderer end.

(** MainWindow::MainWindow, the registered renderers, by the names Qt has for
    the types. *)
Definition built_in_renderers : list (string * RendererClass) :=
  [("plv::CvMatData", OpenCVImageRenderer); ("QList<plv::CvMatData>", OpenCVImageListRenderer); ("plv::RectangleData", RectangleDataRenderer)] ++
  ((., VariantDataRenderer) <$> ["QString"; "bool"; "QByteArray"; "char"; "QDate"; "QDateTime"; "double"; "float"; "int"; "long"; "qlonglong";
    "QStringList"; "QTime"; "uint"; "qulonglong"]).
Definition register_renderers : RendererFactory := foldl (λ f r, factory_add r.1 r.2 f) ∅ built_in_renderers.

(** ** ViewerWidget.cpp and MainWindow::showViewerForPin *)
Record ViewerWidget := mkViewer {
  vw_pin : positive;
  vw_renderer : RendererClass;
  vw_connected : list positive;    (** the pins whose newData reaches the renderer *)
  vw_visible : bool
}.
(** DataRenderer::setPin: [disconnect()] takes away what listens to the
    renderer, not what the renderer listens to. *)
Definition setPin (p : positive) (connected : list positive) : list positive := connected ++ [p].
Definition new_ViewerWidget (f : RendererFactory) (pin : positive) (type : string) : ViewerWidget :=
  mkViewer pin (factory_create type f) (setPin pin []) false.
Definition viewer_show (v : ViewerWidget) : ViewerWidget := mkViewer (vw_pin v) (vw_renderer v) (vw_connected v) true.

Definition showViewerForPin (f : RendererFactory) (pin : positive) (type : string) (viewers : list ViewerWidget) : list ViewerWidget :=
  let shown := (λ v, if bool_decide (vw_pin v = pin) then viewer_show v else v) <$> viewers in
  if existsb (λ v, bool_decide (vw_pin v = pin)) viewers then shown
  else shown ++ [viewer_show (new_ViewerWidget f pin type)].

(** ** The widgets of a list of images: OpenCVImageListRenderer::updateImages

    Widgets are names; the widgets that exist are those with an image. *)
Record ListView := mkListView {
  m_imageWidgets : list positive;
  m_layout : list positive;
  lv_images : gmap positive (option QImage);
  lv_next : positive
}.
Definition new_ImageWidget : M ListView positive :=
  w ← gets lv_next ;
  modify (λ v, mkListView (m_imageWidgets v) (m_layout v) (<[w := None]> (lv_images v)) (Pos.succ w)) ;; mret w.
Definition append_widget (w : positive) : M ListView unit :=
  modify (λ v, mkListView (m_imageWidgets v ++ [w]) (m_layout v ++ [w]) (lv_images v) (lv_next v)).
(** [m_imageWidgets.at( i )] *)
Definition widget_at (i : nat) : M ListView positive :=
  ws ← gets m_imageWidgets ; match ws !! i with Some w => mret w | None => abort AssertFailed end.
Definition delete_widget (w : positive) : M ListView unit :=
  e ← gets (λ v, lv_images v !! w) ;
  match e with
  | None => abort NullPointer
  | Some _ => modify (λ v, mkListView (m_imageWidgets v) (filter (λ x, x ≠ w) (m_layout v)) (delete w (lv_images v)) (lv_next v))
  end.
Definition setImage (w : positive) (img : QImage) : M ListView unit :=
  e ← gets (λ v, lv_images v !! w) ;
  match e with
  | None => abort NullPointer
  | Some _ => modify (λ v, mkListView (m_imageWidgets v) (m_layout v) (<[w := Some img]> (lv_images v)) (lv_next v))
  end.

Definition resize_widgets (n : nat) : M ListView unit :=
  ws ← gets m_imageWidgets ;
  let k := length ws in
  if bool_decide (k < n)%nat then for_each (seq k (n - k)) (λ _, w ← new_ImageWidget ; append_widget w)
  else if bool_decide (n < k)%nat then
    for_each (seq n (k - n)) (λ i, w ← widget_at i ; delete_widget w) ;;
    modify (λ v, mkListView (take n (m_imageWidgets v)) (m_layout v) (lv_images v) (lv_next v))
  else mret tt.
Definition updateImages_widgets (images : list QImage) : M ListView unit :=
  resize_widgets (length images) ;;
  for_each (imap pair images) (λ x, w ← widget_at x.1 ; setImage w x.2).

(** The constructor: one widget with a black image. *)
Definition new_ListView (black : QImage) : ListView := mkListView [1%positive] [1%positive] {[1%positive := Some black]} 2%positive.

(** ** newData and updateImage, updateImages *)

(** The value of a pin. *)
Inductive Datum := DataMat (m : CvImage) | DataMats (l : list CvImage) | DataOther.

(** [canConvert], [value] *)
Definition value_mat (v : Datum) : option (list CvImage) := match v with DataMat m => Some [m] | _ => None end.
Definition value_mats (v : Datum) : option (list CvImage) := match v with DataMats l => Some l | _ => None end.

(** A renderer of images: what it shows, the conversions under way and the
    images that wait for it in the event queue. *)
Record Renderer (D : Type) := mkRenderer {
  m_busy : bool;
  rn_visible : bool;
  rn_display : D;
  rn_converting : list (list CvImage);
  rn_waiting : list (list QImage)
}.
Arguments mkRenderer {D} _ _ _ _ _.
Arguments m_busy {D} _.
Arguments rn_visible {D} _.
Arguments rn_display {D} _.
Arguments rn_converting {D} _.
Arguments rn_waiting {D} _.

Section renderer.
Context {D : Type} (value : Datum → option (list CvImage)) (show : list QImage → M D unit).
Context (number : Z → string) (draw : string → Z → Z → list (list Z)).
Abbreviation R := (M (Renderer D)).

Definition set_busy (b : bool) : R unit :=
  modify (λ r, mkRenderer b (rn_visible r) (rn_display r) (rn_converting r) (rn_waiting r)).
Definition dispatch_conversion (ms : list CvImage) : R unit :=
  modify (λ r, mkRenderer (m_busy r) (rn_visible r) (rn_display r) (rn_converting r ++ [ms]) (rn_waiting r)).

Definition newData (v : Datum) : R unit :=
  busy ← gets m_busy ; visible ← gets rn_visible ;
  if (busy : bool) || negb visible then mret tt
  else set_busy true ;; match value v with Some ms => dispatch_conversion ms | None => mret tt end.

Definition on_display (m : M D unit) : R unit := λ r,
  let '(o, d) := m (rn_display r) in (o, mkRenderer (m_busy r) (rn_visible r) d (rn_converting r) (rn_waiting r)).
Definition update_images (images : list QImage) : R unit := on_display (show images) ;; set_busy false.

(** ** What happens to a renderer

    A value arrives, a conversion ends, the event loop takes the next images
    from the queue, the viewer is shown or hidden. *)
Inductive render_event := NewData (v : Datum) | Converted (i : nat) | Update | Visible (b : bool).
Definition end_conversion (i : nat) (ms : list CvImage) : R unit := λ r,
  match convert_all number draw ms with
  | Ok imgs => (Ok tt, mkRenderer (m_busy r) (rn_visible r) (rn_display r) (delete i (rn_converting r)) (rn_waiting r ++ [imgs]))
  | Throw e => (Throw e, r)
  | Abort f => (Abort f, r)
  end.
Definition render (e : render_event) : R unit :=
  match e with
  | NewData v => newData v
  | Converted i =>
      l ← gets rn_converting ;
      match l !! i with None => mret tt | Some ms => end_conversion i ms end
  | Update =>
      w ← gets rn_waiting ;
      match w with
      | [] => mret tt
      | imgs :: rest =>
          modify (λ r, mkRenderer (m_busy r) (rn_visible r) (rn_display r) (rn_converting r) rest) ;; update_images imgs
      end
  | Visible b => modify (λ r, mkRenderer (m_busy r) b (rn_display r) (rn_converting r) (rn_waiting r))
  end.
Definition render_all (l : list render_event) : R unit := for_each l render.
End renderer.

(** The two renderers: one image, or a widget for each image of a list. *)
Definition show_image (images : list QImage) : M (option QImage) unit :=
  match images with [img] => modify (λ _, Some img) | _ => mret tt end.
Definition updateImage := update_images show_image.
Definition updateImages := update_images updateImages_widgets.
Definition image_newData := @newData (option QImage) value_mat.
Definition list_newData := @newData ListView value_mats.

(** ** The factory and the viewers *)
Lemma factory_create_add n c f t : factory_create t (factory_add n c f) =
  if bool_decide (t = n ∧ f !! n = None) then c else factory_create t f.
Proof.
  unfold factory_create, factory_add. destruct (f !! n) as [c'|] eqn:Hn.
  - rewrite bool_decide_true by done. by rewrite bool_decide_false by (by intros [? ?]).
  - rewrite bool_decide_false by (by intros [? ?]). destruct (decide (t = n)) as [->|Hne].
    + by rewrite lookup_insert_eq, bool_decide_true.
    + rewrite lookup_insert_ne by done. by rewrite bool_decide_false by (by intros [? ?]).
Qed.

(** None of the built in renderers is ignored, and no other type has one. *)
Lemma built_in_created t : factory_create t register_renderers =
  match list_find (λ r, r.1 = t) built_in_renderers with Some (_, r) => r.2 | None => UnknownDataRenderer end.
Proof.
  assert (Hgen : ∀ l f, NoDup l.*1 → Forall (λ r : string * RendererClass, f !! r.1 = None) l →
    factory_create t (foldl (λ f r, factory_add r.1 r.2 f) f l) =
    match list_find (λ r, r.1 = t) l with Some (_, r) => r.2 | None => factory_create t f end).
  { induction l as [|[n c] l IH]; intros f Hnd Hf; [done|]. rewrite fmap_cons in Hnd. apply NoDup_cons in Hnd as [Hn Hnd].
    apply Forall_cons in Hf as [Hfn Hf]. cbn [foldl list_find fst snd] in *. rewrite IH; [|done|].
    - rewrite factory_create_add. destruct (decide (n = t)) as [->|Hne].
      + destruct (list_find _ l) as [[i r]|] eqn:Hl; [|by rewrite bool_decide_true].
        apply list_find_Some in Hl as (Hi & <- & _). destruct Hn. apply list_elem_of_fmap_2. by eapply list_elem_of_lookup_2.
      + rewrite bool_decide_false by (by intros [-> ?]). by destruct (list_find _ l) as [[]|].
    - apply list.Forall_forall. intros r Hr. rewrite list.Forall_forall in Hf. specialize (Hf r Hr). unfold factory_add. rewrite Hfn.
      rewrite bool_decide_false by (by intros [? ?]). rewrite lookup_insert_ne; [done|]. intros ->. by apply Hn, list_elem_of_fmap_2. }
  unfold register_renderers. rewrite Hgen; [by destruct (list_find _ _) as [[]|]| |].
  - apply (bool_decide_unpack _). vm_compute. exact I.
  - by apply list.Forall_forall.
Qed.

(** One viewer per pin: the old one is shown again, a new one gets the renderer
    of its type and listens to its pin. *)
Lemma showViewerForPin_correct f pin type viewers : NoDup (vw_pin <$> viewers) →
  NoDup (vw_pin <$> showViewerForPin f pin type viewers) ∧
  (∃ v, v ∈ showViewerForPin f pin type viewers ∧ vw_pin v = pin ∧ vw_visible v = true) ∧
  (∀ v, v ∈ viewers → vw_pin v ≠ pin → v ∈ showViewerForPin f pin type viewers) ∧
  (pin ∉ vw_pin <$> viewers → showViewerForPin f pin type viewers = viewers ++ [mkViewer pin (factory_create type f) [pin] true]).
Proof.
  intros Hnd. unfold showViewerForPin. set (show := λ v, if bool_decide (vw_pin v = pin) then viewer_show v else v).
  assert (Hpins : vw_pin <$> (show <$> viewers) = vw_pin <$> viewers).
  { rewrite <-list_fmap_compose. apply list_fmap_ext. intros _ v _. unfold show. cbn. by case_bool_decide. }
  assert (Hother : ∀ v, v ∈ viewers → vw_pin v ≠ pin → v ∈ show <$> viewers).
  { intros v Hv Hne. apply list_elem_of_fmap. exists v. unfold show. by rewrite bool_decide_false. }
  destruct (existsb _ viewers) eqn:Hex.
  - apply existsb_exists in Hex as (v & Hv & Hp). apply list_elem_of_In in Hv. apply bool_decide_eq_true in Hp.
    split_and!; [by rewrite Hpins| |done|].
    + exists (show v). split; [by apply list_elem_of_fmap_2|]. unfold show. by rewrite bool_decide_true.
    + intros Hno. destruct Hno. rewrite <-Hp. by apply list_elem_of_fmap_2.
  - assert (Hno : pin ∉ vw_pin <$> viewers).
    { intros (v & -> & Hv)%list_elem_of_fmap. assert (Ht : existsb (λ v0, bool_decide (vw_pin v0 = vw_pin v)) viewers = true); [|congruence].
      apply existsb_exists. exists v. split; [by apply list_elem_of_In|by apply bool_decide_eq_true]. }
    split_and!.
    + rewrite fmap_app, Hpins. apply NoDup_app. split_and!; [done| |apply NoDup_singleton]. intros p Hp ->%list_elem_of_singleton. done.
    + eexists. split; [apply elem_of_app; right; by apply list_elem_of_singleton|]. done.
    + intros v Hv Hne. apply elem_of_app. left. by apply Hother.
    + intros _. f_equal. rewrite <-(list_fmap_id viewers) at 2. apply list_fmap_ext. intros i v Hv. unfold show.
      rewrite bool_decide_false; [done|]. intros <-. apply Hno, list_elem_of_fmap_2. by eapply list_elem_of_lookup_2.
Qed.

(** ** The widgets of a list of images *)
Lemma filter_all {A} (P : A → Prop) `{∀ x, Decision (P x)} (l : list A) : (∀ x, x ∈ l → P x) → filter P l = l.
Proof.
  induction l as [|x l IH]; [done|]. intros Hl. rewrite filter_cons_True by apply Hl, list_elem_of_here.
  f_equal. apply IH. intros y Hy. by apply Hl, list_elem_of_further.
Qed.

Record list_ok (v : ListView) : Prop := {
  lo_distinct : NoDup (m_imageWidgets v);
  lo_layout : m_layout v = m_imageWidgets v;
  lo_alive w : w ∈ m_imageWidgets v ↔ is_Some (lv_images v !! w);
  lo_fresh w : w ∈ m_imageWidgets v → (w < lv_next v)%positive
}.

Lemma append_ok v : list_ok v → wpr (w ← new_ImageWidget ; append_widget w)
  (λ _ v', list_ok v' ∧ m_imageWidgets v' = m_imageWidgets v ++ [lv_next v]) v.
Proof.
  intros [Hd Hl Ha Hf]. apply wpr_bind. unfold new_ImageWidget. apply wpr_bind, wpr_gets, wpr_bind, wpr_modify, wpr_ret, wpr_modify.
  assert (Hn : lv_next v ∉ m_imageWidgets v) by (intros Hin; by apply Hf, Pos.lt_irrefl in Hin).
  split; [|done]. constructor; cbn.
  - apply NoDup_app. split_and!; [done| |apply NoDup_singleton]. intros w Hw ->%list_elem_of_singleton. done.
  - by rewrite Hl.
  - intros w. rewrite elem_of_app, list_elem_of_singleton. destruct (decide (w = lv_next v)) as [->|Hne].
    + rewrite lookup_insert_eq. naive_solver.
    + rewrite lookup_insert_ne by done. rewrite Ha. naive_solver.
  - intros w [Hw| ->%list_elem_of_singleton]%elem_of_app; [apply Hf in Hw; lia|lia].
Qed.

(** Deleting the widgets from position [n] on: those of [seen] are gone. *)
Lemma delete_ok v n : list_ok v → (n ≤ length (m_imageWidgets v))%nat →
  wpr (for_each (seq n (length (m_imageWidgets v) - n)) (λ i, w ← widget_at i ; delete_widget w))
    (λ _ v', m_imageWidgets v' = m_imageWidgets v ∧ m_layout v' = take n (m_imageWidgets v) ∧ lv_next v' = lv_next v ∧
       ∀ w, is_Some (lv_images v' !! w) ↔ w ∈ take n (m_imageWidgets v)) v.
Proof.
  intros [Hd Hl Ha Hf] Hn. set (ws := m_imageWidgets v) in *.
  assert (Hall : ∀ v', m_imageWidgets v' = ws ∧ lv_next v' = lv_next v ∧
      m_layout v' = take n ws ++ drop (length (@nil nat) + n) ws ∧ (∀ w, is_Some (lv_images v' !! w) ↔ w ∈ take n ws ++ drop (length (@nil nat) + n) ws) →
    wpr (for_each (seq n (length ws - n)) (λ i, w ← widget_at i ; delete_widget w))
      (λ _ v', m_imageWidgets v' = ws ∧ lv_next v' = lv_next v ∧
        m_layout v' = take n ws ++ drop (length (seq n (length ws - n)) + n) ws ∧
        (∀ w, is_Some (lv_images v' !! w) ↔ w ∈ take n ws ++ drop (length (seq n (length ws - n)) + n) ws)) v').
  { intros v' H0. apply (wpr_for_each (λ seen v', m_imageWidgets v' = ws ∧ lv_next v' = lv_next v ∧
      m_layout v' = take n ws ++ drop (length seen + n) ws ∧ ∀ w, is_Some (lv_images v' !! w) ↔ w ∈ take n ws ++ drop (length seen + n) ws)); [done|].
    intros seen i rest v1 Hseq (Hw & Hx & Hlay & Halive).
    assert (i = (n + length seen)%nat ∧ (length seen < length ws - n)%nat) as [-> Hlt].
    { assert (Hlk : seq n (length ws - n) !! length seen = Some i) by (rewrite Hseq; by rewrite lookup_app_r, Nat.sub_diag).
      apply lookup_seq in Hlk. lia. }
    destruct (lookup_lt_is_Some_2 ws (n + length seen)) as [w Hwi]; [lia|].
    assert (Hdrop : drop (length seen + n) ws = w :: drop (length (seen ++ [(n + length seen)%nat]) + n) ws).
    { rewrite length_app. cbn. rewrite (drop_S ws w) by (by rewrite Nat.add_comm). do 2 f_equal. lia. }
    assert (Hnd : NoDup (take n ws ++ w :: drop (length (seen ++ [(n + length seen)%nat]) + n) ws)).
    { rewrite <-Hdrop. rewrite Nat.add_comm. apply NoDup_app. split_and!.
      - eapply sublist_NoDup, sublist_take. done.
      - intros x Hx1 Hx2. rewrite <-(take_drop n ws) in Hd. apply NoDup_app in Hd as (_ & Hdis & _). apply (Hdis x Hx1).
        rewrite <-drop_drop in Hx2. by eapply subseteq_drop.
      - eapply sublist_NoDup, sublist_drop. done. }
    apply wpr_bind. eapply (wpr_intro _ _ _ w v1); [unfold widget_at; erewrite run_bind by reflexivity; by rewrite Hw, Hwi|]. cbv beta.
    unfold delete_widget. apply wpr_bind, wpr_gets. rewrite Hdrop in Hlay, Halive.
    destruct (proj2 (Halive w)) as [o Ho]; [set_solver|]. rewrite Ho. apply wpr_modify. cbn. split_and!; [done|done| |].
    - rewrite Hlay. apply NoDup_app in Hnd as (_ & Hd1 & [Hd2 _]%NoDup_cons).
      rewrite filter_app, filter_cons_False by (by intros []). f_equal.
      + apply filter_all. intros x Hx1 ->. apply (Hd1 w Hx1). by apply list_elem_of_here.
      + apply filter_all. intros x Hx1 ->. done.
    - intros x. apply NoDup_app in Hnd as (_ & Hd1 & [Hd2 _]%NoDup_cons). destruct (decide (x = w)) as [->|Hne].
      + rewrite lookup_delete_eq. split; [by intros []|]. intros [Hx1|Hx1]%elem_of_app; [|done].
        destruct (Hd1 w Hx1). by apply list_elem_of_here.
      + rewrite lookup_delete_ne by done. rewrite Halive. set_solver. }
  eapply wpr_mono; [|apply Hall].
  - cbn. intros _ v' (Hw & Hx & Hlay & Halive). rewrite length_seq in Hlay, Halive.
    rewrite (drop_ge ws) in Hlay, Halive by lia. rewrite app_nil_r in Hlay, Halive. done.
  - cbn. rewrite take_drop. split_and!; [done..|]. intros w. by rewrite <-Ha.
Qed.

Lemma resize_ok v n : list_ok v → wpr (resize_widgets n)
  (λ _ v', list_ok v' ∧ length (m_imageWidgets v') = n ∧ ∃ more, take n (m_imageWidgets v) ++ more = m_imageWidgets v') v.
Proof.
  intros Hv. unfold resize_widgets. apply wpr_bind, wpr_gets. cbv zeta. case_bool_decide as Hlt; [|case_bool_decide as Hgt].
  - eapply wpr_mono; [|apply (wpr_for_each (λ seen v', list_ok v' ∧ ∃ more, m_imageWidgets v' = m_imageWidgets v ++ more ∧ length more = length seen))].
    + cbn. intros _ v' (Hok & more & Hm & Hl). rewrite length_seq in Hl. split_and!; [done| |].
      * rewrite Hm, length_app. lia.
      * exists more. by rewrite take_ge by lia.
    + split; [done|]. exists []. by rewrite app_nil_r.
    + intros seen i rest v' _ (Hok & more & Hm & Hl). eapply wpr_mono; [|by apply append_ok]. cbn. intros _ v'' [Hok' Hm'].
      split; [done|]. exists (more ++ [lv_next v']). rewrite Hm', Hm, app_assoc. split; [done|]. rewrite !length_app. cbn. lia.
  - apply wpr_bind. eapply wpr_mono; [|apply (delete_ok v n); [done|lia]]. cbn. intros _ v' (Hw & Hl & Hx & Ha).
    apply wpr_modify. destruct Hv as [Hd Hlay Halive Hf]. cbn. rewrite Hw. split_and!; [|rewrite length_take; lia|exists []; by rewrite app_nil_r].
    constructor; cbn; rewrite ?Hw.
    + eapply sublist_NoDup, sublist_take. done.
    + done.
    + intros w. by rewrite Ha.
    + intros w Hin. rewrite Hx. apply Hf. by eapply subseteq_take.
  - apply wpr_ret. split_and!; [done|lia|]. exists []. by rewrite take_ge, app_nil_r by lia.
Qed.

Lemma setImage_ok v w img : list_ok v → w ∈ m_imageWidgets v → wpr (setImage w img)
  (λ _ v', list_ok v' ∧ m_imageWidgets v' = m_imageWidgets v ∧ lv_images v' = <[w := Some img]> (lv_images v)) v.
Proof.
  intros [Hd Hl Ha Hf] Hw. unfold setImage. apply wpr_bind, wpr_gets. destruct (proj1 (Ha w) Hw) as [o Ho]. rewrite Ho.
  apply wpr_modify. split_and!; try done. constructor; cbn; try done. intros x.
  destruct (decide (x = w)) as [->|Hne]; [rewrite lookup_insert_eq; naive_solver|]. by rewrite lookup_insert_ne.
Qed.

(** Afterwards there is one widget for each image, in order, each shows its
    image, the layout has just these, the others are deleted, and widgets that
    can stay do. *)
Lemma updateImages_ok v images : list_ok v → wpr (updateImages_widgets images)
  (λ _ v', list_ok v' ∧ (λ w, lv_images v' !! w) <$> m_imageWidgets v' = (λ img, Some (Some img)) <$> images ∧
     ∃ more, take (length images) (m_imageWidgets v) ++ more = m_imageWidgets v') v.
Proof.
  intros Hv. unfold updateImages_widgets. apply wpr_bind. eapply wpr_mono; [|by apply resize_ok]. cbn.
  intros _ v1 (Hok & Hlen & Hmore). set (ws := m_imageWidgets v1) in *.
  eapply wpr_mono; [|apply (wpr_for_each (λ seen v', list_ok v' ∧ m_imageWidgets v' = ws ∧
    ∀ i w img, (i < length seen)%nat → ws !! i = Some w → images !! i = Some img → lv_images v' !! w = Some (Some img)))].
  - cbn. intros _ v' (Hok' & Hw & Him). rewrite length_imap in Him. split_and!; [done| |by rewrite Hw]. rewrite Hw. apply list_eq. intros i.
    rewrite !list_lookup_fmap. destruct (images !! i) as [img|] eqn:Hi; cbn.
    + pose proof (lookup_lt_Some _ _ _ Hi). destruct (lookup_lt_is_Some_2 ws i) as [w Hwi]; [lia|]. rewrite Hwi. cbn. f_equal. by eapply Him.
    + apply lookup_ge_None in Hi. by rewrite lookup_ge_None_2 by lia.
  - split_and!; try done. intros i w img Hi. cbn in Hi. lia.
  - intros seen [i img] rest v' Hseq (Hok' & Hw & Him).
    assert (Hlk : imap pair images !! length seen = Some (i, img)) by (rewrite Hseq; by rewrite lookup_app_r, Nat.sub_diag).
    rewrite list_lookup_imap in Hlk. destruct (images !! length seen) as [img'|] eqn:Hi; [|done]. cbn in Hlk. injection Hlk as <- ->.
    pose proof (lookup_lt_Some _ _ _ Hi). destruct (lookup_lt_is_Some_2 ws (length seen)) as [w Hwi]; [lia|]. cbn [fst snd].
    apply wpr_bind. eapply (wpr_intro _ _ _ w v'); [unfold widget_at; erewrite run_bind by reflexivity; by rewrite Hw, Hwi|]. cbv beta.
    eapply wpr_mono; [|apply setImage_ok; [done|rewrite Hw; by eapply list_elem_of_lookup_2]]. cbn. intros _ v'' (Hok'' & Hw' & Hmap).
    split_and!; [done|by rewrite Hw'|]. intros j x img' Hj Hx Himg. rewrite Hmap. rewrite length_app in Hj. cbn in Hj.
    destruct (decide (j = length seen)) as [->|Hne].
    + assert (x = w) as -> by congruence. rewrite lookup_insert_eq. congruence.
    + rewrite lookup_insert_ne; [apply (Him j); [lia|done..]|]. intros ->. apply Hne.
      eapply (NoDup_lookup ws); [|done..]. rewrite <-Hw. apply Hok'.
Qed.

(** ** The protocol of a renderer, as a machine with one place

    Nothing is taken while a value is converted or its images wait. *)
Inductive place := Idle | Converting (ms : list CvImage) | Ready (imgs : list QImage).
Record View (D : Type) := mkView { vi_place : place; vi_visible : bool; vi_display : D }.
Arguments mkView {D} _ _ _.
Arguments vi_place {D} _.
Arguments vi_visible {D} _.
Arguments vi_display {D} _.

Definition concrete {D} (s : View D) : Renderer D :=
  match vi_place s with
  | Idle => mkRenderer false (vi_visible s) (vi_display s) [] []
  | Converting ms => mkRenderer true (vi_visible s) (vi_display s) [ms] []
  | Ready imgs => mkRenderer true (vi_visible s) (vi_display s) [] [imgs]
  end.

Section protocol.
Context {D : Type} (value : Datum → option (list CvImage)) (show : list QImage → M D unit).
Context (number : Z → string) (draw : string → Z → Z → list (list Z)).
(** The displays that occur. *)
Context (display_ok : D → Prop).
Context (show_ok : ∀ imgs d, display_ok d → wpr (show imgs) (λ _ d', display_ok d') d).

Definition view_step (e : render_event) (s : View D) : outcome unit * View D :=
  match e, vi_place s with
  | NewData v, Idle =>
      if vi_visible s then
        match value v with Some ms => (Ok tt, mkView (Converting ms) true (vi_display s)) | None => (Ok tt, s) end
      else (Ok tt, s)
  | NewData _, _ => (Ok tt, s)
  | Converted 0, Converting ms =>
      match convert_all number draw ms with
      | Ok imgs => (Ok tt, mkView (Ready imgs) (vi_visible s) (vi_display s))
      | Throw e => (Throw e, s)
      | Abort f => (Abort f, s)
      end
  | Converted _, _ => (Ok tt, s)
  | Update, Ready imgs => (Ok tt, mkView Idle (vi_visible s) (show imgs (vi_display s)).2)
  | Update, _ => (Ok tt, s)
  | Visible b, _ => (Ok tt, mkView (vi_place s) b (vi_display s))
  end.
Definition view_all (l : list render_event) : M (View D) unit := for_each l view_step.

(** The values that arrive are of the type of the renderer. *)
Definition typed (e : render_event) : Prop := match e with NewData v => is_Some (value v) | _ => True end.

Lemma render_step e s : typed e → display_ok (vi_display s) →
  render value show number draw e (concrete s) = (let '(o, s') := view_step e s in (o, concrete s')) ∧
  display_ok (vi_display (view_step e s).2).
Proof using show_ok.
  intros Ht Hd. destruct s as [[|ms|imgs] vis d], e as [v|[|i]| |b]; unfold render, newData, mbind, M_bind; cbn in *; try done; try by destruct vis.
  - destruct Ht as [ms Hms]. by destruct vis; cbn; rewrite ?Hms.
  - unfold end_conversion. cbn. by destruct (convert_all _ _ _).
  - destruct (wpr_elim _ _ _ (show_ok imgs d Hd)) as ([] & d' & Hs & Hd').
    unfold update_images, on_display, mbind, M_bind. cbn. by rewrite Hs.
Qed.

Lemma render_refines l s : Forall typed l → display_ok (vi_display s) →
  render_all value show number draw l (concrete s) = (let '(o, s') := view_all l s in (o, concrete s')) ∧
  display_ok (vi_display (view_all l s).2).
Proof using show_ok.
  intros Hl. revert s. induction Hl as [|e l He _ IH]; intros s Hd; [done|].
  destruct (render_step e s He Hd) as [Hr Hd']. unfold render_all, view_all in *. cbn [for_each]. unfold mbind, M_bind. rewrite Hr.
  destruct (view_step e s) as [[[]| |] s']; cbn in *; try done. by apply IH.
Qed.

(** What cannot happen once a value of another type was taken. *)
Definition stuck (d : D) (r : Renderer D) : Prop := m_busy r = true ∧ rn_display r = d ∧ rn_converting r = [] ∧ rn_waiting r = [].
Lemma stuck_stays d l r : stuck d r → wpr (render_all value show number draw l) (λ _ r', stuck d r') r.
Proof.
  revert r. induction l as [|e l IH]; intros r Hr; [by apply wpr_ret|]. unfold render_all. cbn [for_each]. apply wpr_bind.
  apply (wpr_mono _ (λ _ r', stuck d r')); [intros _ r' Hr'; by apply IH|]. destruct r as [busy vis d' cv wt]. destruct Hr as (Hb & Hd & Hc & Hw). cbn in *. subst.
  destruct e; eapply wpr_intro; reflexivity || done.
Qed.

End protocol.

(** Both renderers follow the protocol, each with its display. *)
Lemma show_image_ok imgs d : True → wpr (show_image imgs) (λ _ _, True) d.
Proof. intros _. destruct imgs as [|img [|? ?]]; [by apply wpr_ret|by apply wpr_modify|by apply wpr_ret]. Qed.
Lemma show_list_ok imgs d : list_ok d → wpr (updateImages_widgets imgs) (λ _ d', list_ok d') d.
Proof. intros Hd. eapply wpr_mono; [|by apply updateImages_ok]. by intros _ d' (? & _). Qed.

(** ** At concrete images *)
Definition ex_mat (v : Z) : CvImage := mkCvImage Depth8U 1 1 1 1 [v].
Definition ex_black : QImage := mkQImage Format_RGB32 1 1 [[0]] [].
Definition ex_view : View ListView := mkView Idle true (new_ListView ex_black).
Definition ex_events : list render_event :=
  [NewData (DataMats [ex_mat 7; ex_mat 8]); NewData (DataMats [ex_mat 9]); Converted 0; Update].
Definition ex_render (l : list render_event) : Renderer ListView :=
  (render_all value_mats updateImages_widgets (λ _, EmptyString) (λ _ _ _, []) l (concrete ex_view)).2.
Definition ex_pixels (r : Renderer ListView) : list (option (list (list Z))) :=
  (λ w, qi_pixels <$> mjoin (lv_images (rn_display r) !! w)) <$> m_imageWidgets (rn_display r).

Lemma new_ListView_ok black : list_ok (new_ListView black).
Proof.
  constructor; cbn.
  - apply NoDup_singleton.
  - done.
  - intros w. rewrite list_elem_of_singleton, lookup_singleton_is_Some. naive_solver.
  - intros w ->%list_elem_of_singleton. lia.
Qed.

